(* ===== verification/_CoqProject ===== *)
-Q . S2P
Prelude.v
Bytes.v
Header.v
Replay.v
Net.v
GoText.v
GoPath.v
GoFlag.v
Config.v
Firewall.v
Messages.v
Descriptor.v
Nethpb.v
External.v
Cert.v
Authority.v
CertTool.v
NoiseUtil.v
HostMap.v
Handshake.v
HandshakeManager.v
Punchy.v
LightHouse.v
Ipv4.v
Session.v
Pki.v
Provision.v
Tun.v
Udp.v
Interface.v
DataPlane.v
Wire.v
EndToEnd.v
Startup.v
Loops.v
Nethd.v
System.v
Goroutine.v
Mutex.v
Threads.v
Concurrent.v
Guarantee.v
Locks.v
Boot.v
Integrity.v
Race.v
Duplicate.v
Progress.v
Toy.v
Witnesses.v
NetworkWitnesses.v
ConcurrentWitnesses.v
