(* ===== verification/Prelude.v ===== *)
(** * neth: a verification of the overlay network daemon

    neth (src/) is a user-space overlay VPN.  A node reads IP packets from a TUN
    device, seals them with a per-session AEAD key and sends them to the peer as
    UDP datagrams, and does the reverse for datagrams it receives.  Sessions come
    from a two-message Noise IKpsk0 handshake authenticated by certificates of a
    common CA; peers find each other's physical addresses through lighthouse
    nodes; a stateful firewall filters both directions.  The command neth-cert makes
    the CA and the nodes' certificates, the command nethd runs the daemon.  This
    library models the Go code of both and proves what makes it correct, and where
    it is not.

    ** How the code is modelled

    A Go call ends in a value, an error or a panic ([go], with [error] keeping
    the wrapping structure of [fmt.Errorf] and [errors.Join]; the numbers and
    paths formatted into a message are left out).  Stateful code is in the monad
    [M S A]: the state survives an error return.  Machine integers are [Z] with
    the wrap-around written out ([u8] to [u64]); bytes, strings and slices are
    lists of [Z], with [bytes_ok] saying that the elements are bytes; indexing
    out of range is a panic.  Objects shared through pointers (sessions, pending
    handshakes) live in stores and the maps hold locations.  A [range] over a map
    takes the order of iteration as an argument.  Each [time.Now()], each random
    draw and each result of a system call is an argument (the record [Env]); what
    the daemon writes to its socket and its TUN device is a list of [Output]s.
    Goroutines are modelled at three levels: as sequences of handler calls, with every
    interleaving of whole calls ([daemon_step], [interleaves]); as trees of
    atomic sections, one for each critical section of a mutex, each atomic operation,
    each system call and each dereference of a shared object, with every schedule of
    the sections of any number of goroutines ([pool_step]); and with the calls of
    [Lock], [Unlock], [RLock] and [RUnlock] around the sections, where a goroutine
    waits for a mutex that another one holds ([lpool_step]).

    ** The files

    - [Prelude]: outcomes, the monad, integers, invariants of computations
      ([keeps]), tactics and the hint database [neth].
    - [Bytes]: slices, big and little endian integers (encoding/binary).
    - [Header]: src/header/header.go, the 16-byte wire header.
    - [Replay]: the sliding window of src/hostmap.go ([CheckReplay],
      [shiftWindow]), against a specification by history.
    - [Net], [GoText]: what the code uses of net, netip, strconv and strings
      (addresses, prefixes, parsing and printing), written out and executable.
    - [GoPath], [GoFlag]: the same for path/filepath, time and flag (joining and
      cleaning paths, durations, dates, command lines).
    - [Config]: src/config/config.go.
    - [Firewall]: src/firewall (rules, filter, connection tracking, expiry).
    - [Messages]: the message types of src/nethpb/neth.pb.go.
    - [Descriptor]: the file descriptor embedded in src/nethpb/neth.pb.go, a reader of
      its encoding, and the Go structs with their tags.
    - [Nethpb]: the getters and methods of src/nethpb/neth.pb.go and the state of the
      package (registration, the compressed descriptor).
    - [External]: the libraries neth calls, as classes of operations, with classes
      of laws for their documented behaviour.
    - [Cert]: src/cert (certificates, extensions, verification, X25519 keys).
    - [Authority]: src/cert/ca.go (issuing certificates) and Ed25519 key files.
    - [CertTool]: src/cmd/neth-cert/main.go over a file system, given as the classes
      [FileSystem] and [FileSystemLaws].
    - [NoiseUtil]: src/noiseutil/aead.go (nonces, Encrypt, Decrypt).
    - [HostMap]: src/hostmap.go, sessions and their registry.
    - [Handshake]: src/handshake (messages, pre-shared key, Noise states).
    - [HandshakeManager]: src/handshake_manager.go, its tables, retries and both
      handshake stages; class [CompletionHandler] is what it asks of its callback.
    - [Punchy], [LightHouse]: src/punchy.go and src/lighthouse.go; class
      [LightHouseState] places a lighthouse in a larger state and class [Sends] is
      what it asks of its send callback.
    - [Ipv4]: the packet accessors of src/interface.go.
    - [Session]: two managers completing a handshake.
    - [Pki]: src/pki.go.
    - [Provision]: what runs of neth-cert leave on disk and what the daemon loads.
    - [Tun]: src/tun/tun.go, the [ifreq] layout and the calls of [Open].
    - [Udp]: src/udp/conn.go over the system calls it makes.
    - [Interface]: the state and the packet handlers of src/interface.go, with the
      instances that discharge [CompletionHandler] and [Sends].
    - [DataPlane]: the properties of the packet handlers, and the state machine
      [daemon_step] of their interleavings.
    - [Wire]: the forms of the datagrams the daemon sends.
    - [EndToEnd]: two daemons: a stream of datagrams, and the first packet to a peer.
    - [Startup]: [NewInterface] and the helpers that build it.
    - [Loops]: [Run] of src/interface.go, its read loops and its goroutines.
    - [Nethd]: src/cmd/nethd/main.go.
    - [System]: from neth-cert on an empty directory to a delivered packet.
    - [Goroutine]: goroutines as trees of atomic sections, pools of them under a
      scheduler, and a logic of triples for reasoning about one
      goroutine while the others run (an invariant of the shared state and the
      events so far, and a relation that every section respects).
    - [Mutex]: goroutines with calls of mutexes, pools of them and who holds which
      mutex; a discipline (one mutex at a time, released on every path, and
      everything a mutex guards changed only under it) under which pools do not
      deadlock; and their relation to the pools of [Goroutine].
    - [Threads]: the handlers of src/interface.go, src/handshake_manager.go,
      src/lighthouse.go, src/punchy.go and src/firewall at the granularity of their
      locks (each named after its sequential counterpart, with the suffix [_go]).
    - [Concurrent]: the invariant of the concurrent daemon, by session, pending
      handshake and output, and class [LibReturns]: the external libraries report
      what is wrong as errors and do not panic.
    - [Guarantee]: every handler keeps the invariant, and what follows for whole
      executions.
    - [Locks]: the handlers of [Threads] with the calls of the Go code on its
      mutexes, named by the receiver of the method ([hm_], [hi_], [ct_], [fw_],
      [hs_], [lh_], [py_], [if_]).
    - [Boot]: [NewInterface] over the system calls of [Udp] and [Tun], and the
      daemon's life from there on.
    - [Integrity]: two concurrent daemons and a hostile network.
    - [Race]: an interleaving of the two read loops that loses a packet.
    - [Duplicate]: two copies of a handshake initiation.
    - [Progress]: what the goroutines get done, under every schedule.
    - [Toy], [Witnesses], [NetworkWitnesses], [ConcurrentWitnesses]: a concrete
      instance of the external libraries, two concrete nodes, a concrete network and
      concrete schedules, to which the theorems are applied.

    ** What is proved

    - The whole system ([System], [EndToEnd], [Provision]): two daemons started from
      the files neth-cert wrote carry the first packet (C1, and
      C10 for two nodes in any well-formed state); the receiving
      end of a session refines a receiver with perfect memory under reordering, loss
      and duplication (C5); provisioning (C11).
    - Concurrency ([Guarantee], [Locks], [Progress], [Integrity], [Race]): under
      every schedule of the critical sections the daemon is safe
      (C3); with every call of a mutex a step of its own its
      goroutines end without a deadlock (C13), and what a mutex
      guards changes only under it (C17); nothing is delivered twice (C8),
      no nonce is used twice (C14), no pending handshake is claimed
      twice (C15); what arrives through a tunnel was sent into it,
      whatever the network and both schedulers do (C2); and, as long
      as the sessions stay, every admitted packet is sent and every genuine admitted
      datagram delivered (C9).  One schedule loses the first packet
      to a peer (C37).
    - Data plane ([DataPlane], [Wire]): only an authenticated, fresh and admitted
      packet reaches the TUN device (C4); the types of the datagrams
      (C24); nothing about a packet leaves before a session exists
      (C27); what leaves for an admitted packet
      (C18); and two effects of unauthenticated packets
      (C38, C39).
    - Handshakes ([Session], [HandshakeManager], [Duplicate]): two nodes that trust
      each other end with paired sessions (C6); the manager's
      invariant in every reachable state (C19); what the first message
      must prove (C20); the back-off of
      the retries and giving up (C28); what a
      response does to the pending handshake (C29); the bounded
      queue (C30); and that a copy of an initiation, whenever it arrives,
      replaces the session the two nodes use (C16).
    - Replay protection ([Replay]): the window refines a specification that
      remembers every accepted counter (C7), the
      word-by-word shift is a 4096-bit shift (C26).
    - Discovery ([LightHouse]): advertised addresses reach whoever asks (C21).
    - Firewall ([Firewall]): no traffic that no rule admits, in any reachable state
      (C22); the parser against a reading of the rule's text
      (C23); what connection tracking lets back in
      (C40).
    - Certificates ([Authority], [CertTool]): what is issued and when it verifies
      (C25), what the tool writes (C35), its check of the CA
      key (C33).
    - Start-up ([Boot], [Nethd], [Tun]): the daemon's descriptors and goroutines from
      start to end (C12), the exit status (C34), the TUN device's
      configuration (C36).
    - Wire format ([Header], C31), and the generated message code: the
      embedded file descriptor, decoded, declares exactly the fields of the Go structs
      ([Descriptor], C32).

    Each component's file proves more than these: delivery on one session
    ([tunnel_end_to_end]), that a replay has no effect ([replay_has_no_effect]), the invariant of the
    sequential daemon ([daemon_reachable]), the registry's invariant
    ([HostMap_reachable]), the index a second handshake
    leaves behind ([Add_keeps_stale_index]), loading the PKI ([LoadPKI_spec]) and the
    configuration ([Load_spec]), the verdicts of the firewall ([Allow_spec]) and the
    expiry of tracked flows, the packet accessors ([ipv4_accessors]), the socket
    ([Listen_spec]), the run loops ([Run_interface_spec]), message authentication,
    the registration of the message types ([package_registration]),
    what a lighthouse message can change ([HandleMessage_frame]), the reverse lookup
    of an address.

    ** Bounds and fuel

    Fuel appears in three places, each time with a bound from the input: the
    trimming loops of [GoText] take the length of the text, since each round removes
    at least a byte, and its IPv6 parser a bound on its at most eight groups; the
    loop of [ParseDuration] takes the length of the text, and more changes nothing
    ([duration_loop_fuel]); printing a number takes its count of binary digits,
    which is enough for it to read back ([leadingInt_dec]).  All other loops are
    structural.  [Run] of the manager, [RunExpiry] and [RunLightHouse] take the list
    of ticks that arrive before the context is cancelled, the read loops the list of
    what the reads return.

    ** What is not modelled

    The protobuf runtime (google.golang.org/protobuf, whose encoder and decoder are
    parameters) and the [String] methods, which only call it; the libraries of
    [External] (Noise, AES-GCM, X.509, PEM, ASN.1),
    YAML decoding, the text of log messages and of standard error, and the kernel
    behind the system calls: [Read], [Write] and [Close] of the TUN device and of
    the socket are arguments and outputs of the loops that call them.  What a goroutine
    does between taking and releasing a mutex is one action and memory is
    sequentially consistent: that reads are protected too, as the Go memory model
    asks, is not stated.  The readers of
    fields that are assigned only during construction ([lighthouses], [amLighthouse],
    the rules of the firewall) are sections of their own, which is harmless. *)

From Stdlib Require Export ZArith Lia.
From stdpp Require Export base numbers list gmap strings.

#[global] Open Scope Z_scope.

(** ** Errors and outcomes of Go calls *)

(** A Go [error] value: a message, a message wrapping another error
    ([fmt.Errorf] with a [%w] verb), or [errors.Join]. *)
Inductive error : Type :=
| Errorf (msg : string)
| Wrapf (msg : string) (inner : error)
| Joined (errs : list error).

(** How a Go call ends: it returns a value with a nil error, it returns a
    non-nil error, or it panics (index out of range, nil dereference). *)
Inductive go (A : Type) : Type :=
| Ok (a : A)
| Fail (e : error)
| Panic.
Arguments Ok {A} _.
Arguments Fail {A} _.
Arguments Panic {A}.

Definition go_bind {A B} (x : go A) (k : A → go B) : go B :=
  match x with
  | Ok a => k a
  | Fail e => Fail e
  | Panic => Panic
  end.

(** [if err != nil { return fmt.Errorf("...: %w", err) }] *)
Definition go_wrap {A} (msg : string) (x : go A) : go A :=
  match x with
  | Ok a => Ok a
  | Fail e => Fail (Wrapf msg e)
  | Panic => Panic
  end.

Definition is_ok {A} (x : go A) : bool :=
  match x with Ok _ => true | _ => false end.

Definition of_option {A} (e : error) (o : option A) : go A :=
  match o with Some a => Ok a | None => Fail e end.

(** The result of an operating-system call, which returns an error or a value. *)
Definition of_sum {A} (x : error + A) : go A :=
  match x with inl e => Fail e | inr a => Ok a end.

(** The result of a call that returns only an [error], nil for success. *)
Definition of_err (x : option error) : go unit :=
  match x with Some e => Fail e | None => Ok tt end.

(** ** Reasoning about outcomes *)

(** No panic, and a returned value satisfies [P]. *)
Definition yields {A} (P : A → Prop) (x : go A) : Prop :=
  match x with Ok a => P a | Fail _ => True | Panic => False end.

Lemma yields_bind {A B} (P : A → Prop) (Q : B → Prop) x (k : A → go B) :
  yields P x → (∀ a, P a → yields Q (k a)) → yields Q (go_bind x k).
Proof. destruct x; cbn; auto. Qed.

Lemma yields_wrap {A} (P : A → Prop) msg x : yields P x → yields P (go_wrap msg x).
Proof. by destruct x. Qed.

Lemma go_bind_returns {A B} (x : go A) (k : A → go B) : x ≠ Panic → (∀ a, k a ≠ Panic) → go_bind x k ≠ Panic.
Proof. intros Hx Hk. destruct x; [apply Hk | done | done]. Qed.

Lemma go_wrap_returns {A} msg (x : go A) : x ≠ Panic → go_wrap msg x ≠ Panic.
Proof. by destruct x. Qed.

Lemma yields_returns {A} (P : A → Prop) (x : go A) : yields P x → x ≠ Panic.
Proof. by destruct x. Qed.

Lemma yields_mono {A} (P Q : A → Prop) x : yields P x → (∀ a, P a → Q a) → yields Q x.
Proof. destruct x; cbn; auto. Qed.

(** ** Stateful Go code

    [M S A]: a computation over the state [S].  The state is threaded through
    an error return as well, because a Go function that returns an error keeps
    the writes it made before. *)
Definition M (S A : Type) : Type := S → S * go A.

Definition gret {S A} (a : A) : M S A := λ s, (s, Ok a).
Definition gfail {S A} (e : error) : M S A := λ s, (s, Fail e).
Definition gpanic {S A} : M S A := λ s, (s, Panic).
Definition glift {S A} (x : go A) : M S A := λ s, (s, x).

Definition gbind {S A B} (m : M S A) (k : A → M S B) : M S B := λ s,
  match m s with
  | (s', Ok a) => k a s'
  | (s', Fail e) => (s', Fail e)
  | (s', Panic) => (s', Panic)
  end.

(** [if err := m; err != nil { slog.Warn(...) }]: an error is logged and
    dropped, its writes stay. *)
Definition gignore {S A} (m : M S A) : M S unit := λ s,
  match m s with
  | (s', Panic) => (s', Panic)
  | (s', _) => (s', Ok tt)
  end.

(** [if err := m; err != nil { return fmt.Errorf("...: %w", err) }] *)
Definition gwrap {S A} (msg : string) (m : M S A) : M S A := λ s,
  let '(s', r) := m s in (s', go_wrap msg r).

(** [for _, x := range l { body }] *)
Fixpoint gfor {S A} (l : list A) (body : A → M S unit) : M S unit :=
  match l with
  | [] => gret tt
  | x :: l' => gbind (body x) (λ _, gfor l' body)
  end.

Declare Scope go_scope.
Delimit Scope go_scope with go.
Notation "'let!' x := c 'in' k" := (gbind c (λ x, k))
  (at level 10, x pattern, c at level 200, k at level 200,
   format "'[v' 'let!'  x  :=  c  'in' '/' k ']'") : go_scope.
Notation "'do!' c 'in' k" := (gbind c (λ _ : unit, k))
  (at level 10, c at level 200, k at level 200,
   format "'[v' 'do!'  c  'in' '/' k ']'") : go_scope.
Notation "'try!' x := c 'in' k" := (go_bind c (λ x, k))
  (at level 10, x pattern, c at level 200, k at level 200,
   format "'[v' 'try!'  x  :=  c  'in' '/' k ']'") : go_scope.
#[global] Open Scope go_scope.

(** ** Machine integers *)

(** Conversion to an unsigned type of [w] bits. *)
Definition wrap (w z : Z) : Z := z mod 2 ^ w.
Abbreviation u8 := (wrap 8).
Abbreviation u16 := (wrap 16).
Abbreviation u32 := (wrap 32).
Abbreviation u64 := (wrap 64).

Definition in_u (w z : Z) : Prop := 0 ≤ z < 2 ^ w.

(** Go's bytes and strings are sequences of 8-bit values. *)
Abbreviation bytes := (list Z).
Definition bytes_ok (l : bytes) : Prop := Forall (in_u 8) l.

#[global] Instance in_u_dec w z : Decision (in_u w z).
Proof. unfold in_u. apply _. Defined.

#[global] Instance bytes_ok_dec l : Decision (bytes_ok l).
Proof. unfold bytes_ok. apply _. Defined.

Create HintDb neth.

Lemma wrap_in_u w z : 0 ≤ w → in_u w (wrap w z).
Proof. intros. apply Z.mod_pos_bound. apply Z.pow_pos_nonneg; lia. Qed.

Lemma wrap_small w z : in_u w z → wrap w z = z.
Proof. intros. by apply Z.mod_small. Qed.

Lemma wrap_testbit w z i :
  0 ≤ w → Z.testbit (wrap w z) i = (i <? w) && Z.testbit z i.
Proof.
  intros Hw. unfold wrap. destruct (Z.ltb_spec i w).
  - destruct (decide (0 ≤ i)).
    + by rewrite Z.mod_pow2_bits_low.
    + by rewrite !Z.testbit_neg_r by lia.
  - by rewrite Z.mod_pow2_bits_high by lia.
Qed.

Lemma in_u_testbit_high w z i : in_u w z → 0 ≤ w ≤ i → Z.testbit z i = false.
Proof.
  intros Hz Hi. rewrite <- (wrap_small w z Hz), wrap_testbit by lia.
  destruct (Z.ltb_spec i w); [lia | done].
Qed.

Lemma in_u_shiftr w k z : 0 ≤ k ≤ w → in_u w z → in_u (w - k) (Z.shiftr z k).
Proof.
  intros Hk [H0 H1]. unfold in_u. rewrite Z.shiftr_div_pow2 by lia. split.
  - apply Z.div_pos; [lia | apply Z.pow_pos_nonneg; lia].
  - apply Z.div_lt_upper_bound; [apply Z.pow_pos_nonneg; lia |].
    rewrite <- Z.pow_add_r by lia. by replace (k + (w - k)) with w by lia.
Qed.

(** A bound follows from the high bits being clear. *)
Lemma in_u_of_testbit w z :
  0 ≤ w → 0 ≤ z → (∀ i, w ≤ i → Z.testbit z i = false) → in_u w z.
Proof.
  intros Hw Hz Hb. rewrite <- (Z.mod_small z (2 ^ w)) at 1; [by apply wrap_in_u |].
  enough (z mod 2 ^ w = z) as <- by (apply Z.mod_pos_bound, Z.pow_pos_nonneg; lia).
  apply Z.bits_inj'. intros i Hi. fold (wrap w z). rewrite wrap_testbit by lia.
  destruct (Z.ltb_spec i w); [done | by rewrite Hb].
Qed.

Lemma in_u_lor w a b : 0 ≤ w → in_u w a → in_u w b → in_u w (Z.lor a b).
Proof.
  intros Hw Ha Hb. apply in_u_of_testbit; [lia | |].
  - apply Z.lor_nonneg. unfold in_u in *. lia.
  - intros i Hi. rewrite Z.lor_spec, !(in_u_testbit_high w) by (done || lia). done.
Qed.

Lemma in_u_lxor w a b : 0 ≤ w → in_u w a → in_u w b → in_u w (Z.lxor a b).
Proof.
  intros Hw Ha Hb. apply in_u_of_testbit; [lia | |].
  - apply Z.lxor_nonneg. unfold in_u in *. lia.
  - intros i Hi. rewrite Z.lxor_spec, !(in_u_testbit_high w) by (done || lia). done.
Qed.

Lemma in_u_land w a b : 0 ≤ w → in_u w a → in_u w b → in_u w (Z.land a b).
Proof.
  intros Hw Ha Hb. apply in_u_of_testbit; [lia | |].
  - apply Z.land_nonneg. unfold in_u in *. lia.
  - intros i Hi. rewrite Z.land_spec, !(in_u_testbit_high w) by (done || lia). done.
Qed.

(** Reading and writing a byte of a slice. *)
Lemma bytes_ok_total (l : bytes) (i : nat) : bytes_ok l → in_u 8 (l !!! i).
Proof.
  intros H. rewrite list_lookup_total_alt. destruct (l !! i) as [x|] eqn:E; [| by unfold in_u].
  eapply Forall_lookup_1; [exact H | exact E].
Qed.

Lemma bytes_ok_insert (l : bytes) (i : nat) x : bytes_ok l → in_u 8 x → bytes_ok (<[i := x]> l).
Proof. intros H Hx. by apply Forall_insert. Qed.

#[export] Hint Resolve wrap_in_u in_u_lor in_u_lxor in_u_land bytes_ok_total bytes_ok_insert : neth.

(** ** Loops of the source: [for i := n-1; i >= 0; i--] *)
Fixpoint loop_down {S} (n : nat) (body : nat → S → S) (s : S) : S :=
  match n with
  | O => s
  | Datatypes.S n' => loop_down n' body (body n' s)
  end.

(** ** Lemmas on the monad *)

Lemma gbind_ok {S A B} (m : M S A) (k : A → M S B) s s' a :
  m s = (s', Ok a) → gbind m k s = k a s'.
Proof. intros H. unfold gbind. by rewrite H. Qed.

Lemma gbind_inv {S A B} (m : M S A) (k : A → M S B) s s' b :
  gbind m k s = (s', Ok b) → ∃ s1 a, m s = (s1, Ok a) ∧ k a s1 = (s', Ok b).
Proof. unfold gbind. destruct (m s) as [s1 [a | e |]]; naive_solver. Qed.

Lemma gfor_map {S A B} (f : A → B) (l : list A) (body : B → M S unit) s :
  gfor (map f l) body s = gfor l (λ x, body (f x)) s.
Proof.
  revert s. induction l as [|x l IH]; intros s; [done |]. cbn [map gfor]. unfold gbind.
  destruct (body (f x) s) as [s' [[]| |]]; [apply IH | done | done].
Qed.

Lemma gfor_ext {S A} (l : list A) (body body' : A → M S unit) s :
  (∀ x s, body x s = body' x s) → gfor l body s = gfor l body' s.
Proof.
  intros H. revert s. induction l as [|x l IH]; intros s; [done |]. cbn [gfor]. unfold gbind. rewrite H.
  destruct (body' x s) as [s' [[]| |]]; [apply IH | done | done].
Qed.

(** Case analysis on the next scrutinee of a definition under study. *)
Ltac step_match :=
  match goal with
  | |- context [match ?x with _ => _ end] =>
      lazymatch x with
      | context [match _ with _ => _ end] => fail
      | _ => destruct x eqn:?
      end
  end.

(** Evaluation of the monad's plumbing. *)
Ltac gsimpl :=
  unfold gbind, gret, gfail, gpanic, glift, gignore, go_bind, go_wrap;
  cbn beta iota match.

Ltac gsimpl_in H :=
  unfold gbind, gret, gfail, gpanic, glift, gignore, go_bind, go_wrap in H;
  cbn beta iota match in H.

(** ** Invariants of computations *)

(** [keeps I m]: every run of [m], however it ends, takes a state with [I] to a
    state with [I]. *)
Definition keeps {S A} (I : S → Prop) (m : M S A) : Prop := ∀ s, I s → I (m s).1.

Lemma keeps_ret {S A} (I : S → Prop) (a : A) : keeps I (gret a).
Proof. by intros s. Qed.

Lemma keeps_lift {S A} (I : S → Prop) (x : go A) : keeps I (glift x).
Proof. by intros s. Qed.

Lemma keeps_fail {S A} (I : S → Prop) e : keeps I (gfail e : M S A).
Proof. by intros s. Qed.

Lemma keeps_panic {S A} (I : S → Prop) : keeps I (gpanic : M S A).
Proof. by intros s. Qed.

Lemma keeps_bind {S A B} (I : S → Prop) (m : M S A) (k : A → M S B) :
  keeps I m → (∀ a, keeps I (k a)) → keeps I (gbind m k).
Proof.
  intros Hm Hk s Hs. unfold gbind. specialize (Hm s Hs). destruct (m s) as [s' [a| |]]; cbn in *; auto.
  by apply Hk.
Qed.

(** A computed value is known to what follows. *)
Lemma keeps_lift_ok {S A B} (I : S → Prop) (a : A) (k : A → M S B) : keeps I (k a) → keeps I (gbind (glift (Ok a)) k).
Proof. done. Qed.

Lemma keeps_ignore {S A} (I : S → Prop) (m : M S A) : keeps I m → keeps I (gignore m).
Proof. intros Hm s Hs. specialize (Hm s Hs). unfold gignore. by destruct (m s) as [s' [a| |]]. Qed.

Lemma keeps_for {S A} (I : S → Prop) (l : list A) (body : A → M S unit) :
  (∀ x, x ∈ l → keeps I (body x)) → keeps I (gfor l body).
Proof.
  induction l as [|x l IH]; intros H; cbn; [apply keeps_ret |].
  apply keeps_bind; [apply H; by left |]. intros _. apply IH. intros y Hy. apply H. by right.
Qed.

Lemma keeps_wrap {S A} (I : S → Prop) msg (m : M S A) : keeps I m → keeps I (gwrap msg m).
Proof. intros Hm s Hs. specialize (Hm s Hs). unfold gwrap. by destruct (m s) as [s' r]. Qed.

#[export] Hint Resolve keeps_wrap keeps_ret keeps_lift keeps_fail keeps_panic keeps_bind keeps_ignore keeps_for : neth.

(** Following a computation through its branches, down to the primitives whose
    [keeps] lemmas are hints. *)
Ltac keep_all :=
  repeat first
    [ progress intros
    | by auto with neth
    | apply keeps_bind
    | apply keeps_for
    | apply keeps_ignore
    | apply keeps_wrap
    | step_match ].

(** ** Computations that return no error *)

(** A handler without an error result: it returns or panics. *)
Definition never_fails {S A} (m : M S A) : Prop := ∀ s e, (m s).2 ≠ Fail e.

Lemma nf_ret {S A} (a : A) : never_fails (gret a : M S A).
Proof. done. Qed.

Lemma nf_panic {S A} : never_fails (gpanic : M S A).
Proof. done. Qed.

Lemma nf_lift {S A} (x : go A) : (∀ e, x ≠ Fail e) → never_fails (glift x : M S A).
Proof. intros H s e. apply H. Qed.

Lemma nf_bind {S A B} (m : M S A) (k : A → M S B) :
  never_fails m → (∀ a, never_fails (k a)) → never_fails (gbind m k).
Proof.
  intros Hm Hk s e. unfold gbind. specialize (Hm s). destruct (m s) as [s' [a|e0|]]; cbn in *; [apply Hk | by destruct (Hm e0) | done].
Qed.

Lemma nf_ignore {S A} (m : M S A) : never_fails (gignore m).
Proof. intros s e. unfold gignore. by destruct (m s) as [s' [a| |]]. Qed.

Lemma nf_for {S A} (l : list A) (body : A → M S unit) : (∀ x, never_fails (body x)) → never_fails (gfor l body).
Proof. intros H. induction l as [|x l IH]; cbn [gfor]; [apply nf_ret | by apply nf_bind]. Qed.

#[export] Hint Resolve nf_ret nf_panic nf_bind nf_ignore nf_for : neth.

Ltac never_fails_all :=
  repeat first
    [ progress intros
    | by auto with neth
    | apply nf_bind
    | apply nf_for
    | apply nf_ignore
    | step_match ].

(** The last [n] elements of a list. *)
Definition lastn {A} (n : nat) (l : list A) : list A := drop (length l - n) l.

Lemma length_lastn {A} n (l : list A) : length (lastn n l) = Nat.min n (length l).
Proof. unfold lastn. rewrite length_drop. lia. Qed.

Lemma lastn_small {A} n (l : list A) : (length l ≤ n)%nat → lastn n l = l.
Proof. intros H. unfold lastn. by replace (length l - n)%nat with 0%nat by lia. Qed.

Lemma lastn_app {A} n (l k : list A) : lastn n (lastn n l ++ k) = lastn n (l ++ k).
Proof.
  unfold lastn. rewrite !length_app, length_drop.
  destruct (decide (length l < n)%nat).
  - by replace (length l - n)%nat with 0%nat by lia; cbn; rewrite Nat.sub_0_r.
  - rewrite !drop_app, drop_drop, length_drop. f_equal; f_equal; lia.
Qed.
