(* ===== verification/Bytes.v ===== *)
(** * Byte slices and package encoding/binary

    The byte-order conversions that the wire header, the AEAD nonce, the IPv4
    accessors and the session indexes use. *)

From S2P Require Import Prelude.

(** [buf[i] = v] on a slice held in the state; an index out of range panics. *)
Definition put (i : nat) (v : Z) : M bytes unit := λ buf,
  if decide (i < length buf)%nat then (<[i := v]> buf, Ok tt) else (buf, Panic).

(** [copy(buf[off:], src)]-style store of consecutive bytes, as the unrolled
    assignments of PutUint32 and PutUint64 do. *)
Fixpoint put_seq (off : nat) (src : bytes) : M bytes unit :=
  match src with
  | [] => gret tt
  | b :: src' => do! put off b in put_seq (S off) src'
  end.

(** [buf[i]] *)
Definition idx (buf : bytes) (i : nat) : go Z :=
  match buf !! i with Some b => Ok b | None => Panic end.

(** [buf[i:j]] *)
Definition slice (i j : nat) (buf : bytes) : bytes := take (j - i) (drop i buf).

(** The [n] bytes of [v], most significant first:
    [byte(v>>(8*(n-1))), ..., byte(v)]. *)
Fixpoint be_bytes (n : nat) (v : Z) : bytes :=
  match n with
  | O => []
  | S n' => u8 (Z.shiftr v (8 * Z.of_nat n')) :: be_bytes n' v
  end.

Definition be_uint_from (acc : Z) (b : bytes) : Z :=
  fold_left (λ acc x, Z.lor (Z.shiftl acc 8) x) b acc.
Abbreviation be_uint := (be_uint_from 0).

(** Little-endian: [byte(v), byte(v>>8), ...]. *)
Fixpoint le_bytes (n : nat) (v : Z) : bytes :=
  match n with
  | O => []
  | S n' => u8 v :: le_bytes n' (Z.shiftr v 8)
  end.

Fixpoint le_uint (b : bytes) : Z :=
  match b with
  | [] => 0
  | x :: b' => Z.lor x (Z.shiftl (le_uint b') 8)
  end.

Lemma length_be_bytes n v : length (be_bytes n v) = n.
Proof. induction n; simpl; congruence. Qed.

Lemma length_le_bytes n v : length (le_bytes n v) = n.
Proof. revert v. induction n; intros; simpl; [done | by rewrite IHn]. Qed.

Lemma be_bytes_ok n v : bytes_ok (be_bytes n v).
Proof. induction n; simpl; constructor; auto with neth lia. Qed.

Lemma le_bytes_ok n v : bytes_ok (le_bytes n v).
Proof. revert v. induction n; intros; simpl; constructor; [auto with neth lia | apply IHn]. Qed.

(** Shifting [z] left by a byte and adding a byte back. *)
Lemma lor_shiftl_byte a x : in_u 8 x → Z.lor (Z.shiftl a 8) x = a * 256 + x.
Proof.
  intros Hx.
  assert (Hland : Z.land (Z.shiftl a 8) x = 0).
  { apply Z.bits_inj'. intros i Hi. rewrite Z.land_spec, Z.shiftl_spec, Z.bits_0 by lia.
    destruct (decide (i < 8)); [by rewrite Z.testbit_neg_r by lia |].
    rewrite (in_u_testbit_high 8 x) by (done || lia). by rewrite andb_false_r. }
  rewrite <- Z.lxor_lor, <- Z.add_nocarry_lxor, Z.shiftl_mul_pow2 by (done || lia). done.
Qed.

Lemma be_uint_bytes n v acc :
  be_uint_from acc (be_bytes n v) =
    acc * 2 ^ (8 * Z.of_nat n) + v mod 2 ^ (8 * Z.of_nat n).
Proof.
  revert acc. induction n as [|n IH]; intros acc.
  - cbn. rewrite Z.mod_1_r. lia.
  - cbn [be_bytes be_uint_from fold_left]. fold (be_uint_from).
    change (fold_left _ ?l ?a) with (be_uint_from a l).
    rewrite IH, lor_shiftl_byte by auto with neth lia.
    replace (8 * Z.of_nat (S n)) with (8 * Z.of_nat n + 8) by lia.
    rewrite Z.pow_add_r, Z.rem_mul_r by (try lia; apply Z.pow_nonzero; lia).
    unfold wrap. rewrite Z.shiftr_div_pow2 by lia. change (2 ^ 8) with 256. lia.
Qed.

Lemma be_uint_be_bytes n v :
  in_u (8 * Z.of_nat n) v → be_uint (be_bytes n v) = v.
Proof. intros Hv. rewrite be_uint_bytes, Z.mod_small by done. lia. Qed.

Lemma le_uint_le_bytes n v :
  in_u (8 * Z.of_nat n) v → le_uint (le_bytes n v) = v.
Proof.
  revert v. induction n as [|n IH]; intros v Hv.
  - unfold in_u in Hv. simpl in *. lia.
  - cbn [le_bytes le_uint].
    assert (Hs : in_u (8 * Z.of_nat n) (Z.shiftr v 8)).
    { replace (8 * Z.of_nat n) with (8 * Z.of_nat (S n) - 8) by lia.
      apply in_u_shiftr; [lia | done]. }
    rewrite IH by done.
    rewrite Z.lor_comm, lor_shiftl_byte by auto with neth lia.
    unfold wrap. rewrite Z.shiftr_div_pow2 by lia. change (2 ^ 8) with 256.
    pose proof (Z.div_mod v 256). lia.
Qed.

(** Distinct values have distinct encodings. *)
Lemma le_bytes_inj n v w :
  in_u (8 * Z.of_nat n) v → in_u (8 * Z.of_nat n) w →
  le_bytes n v = le_bytes n w → v = w.
Proof. intros Hv Hw H. rewrite <- (le_uint_le_bytes n v), H by done. by apply le_uint_le_bytes. Qed.

Lemma be_bytes_inj n v w :
  in_u (8 * Z.of_nat n) v → in_u (8 * Z.of_nat n) w →
  be_bytes n v = be_bytes n w → v = w.
Proof. intros Hv Hw H. rewrite <- (be_uint_be_bytes n v), H by done. by apply be_uint_be_bytes. Qed.

(** A decoded value fits its width, whatever the bytes. *)
Lemma be_uint_bound b acc k :
  bytes_ok b → in_u k acc → 0 ≤ k →
  in_u (k + 8 * Z.of_nat (length b)) (be_uint_from acc b).
Proof.
  intros Hb. revert k acc. induction Hb as [|x b Hx Hb IH]; intros k acc Hacc Hk.
  - cbn [length be_uint_from fold_left]. by replace (k + 8 * Z.of_nat 0) with k by lia.
  - cbn [be_uint_from fold_left]. change (fold_left _ ?l ?a) with (be_uint_from a l).
    replace (k + 8 * Z.of_nat (length (x :: b))) with ((k + 8) + 8 * Z.of_nat (length b))
      by (simpl; lia).
    apply IH; [|lia]. rewrite lor_shiftl_byte by done.
    unfold in_u in *. rewrite Z.pow_add_r by lia. change (2 ^ 8) with 256 in *. nia.
Qed.

Lemma le_uint_bound b : bytes_ok b → in_u (8 * Z.of_nat (length b)) (le_uint b).
Proof.
  induction 1 as [|x b Hx Hb IH]; cbn [le_uint length]; [unfold in_u; lia |].
  rewrite Z.lor_comm, lor_shiftl_byte by done.
  replace (8 * Z.of_nat (S (length b))) with (8 * Z.of_nat (length b) + 8) by lia.
  unfold in_u in *. rewrite Z.pow_add_r by lia. change (2 ^ 8) with 256 in *. nia.
Qed.

Lemma be_bytes_be_uint b :
  bytes_ok b → be_bytes (length b) (be_uint b) = b.
Proof.
  intros Hb. induction b as [|x b IH] using rev_ind; [done|].
  apply Forall_app in Hb as [Hb Hx]. apply Forall_cons_1 in Hx as [Hx _].
  unfold be_uint_from. rewrite fold_left_app. cbn [fold_left].
  change (fold_left _ b 0) with (be_uint b). rewrite lor_shiftl_byte by done.
  rewrite length_app. cbn [length]. rewrite Nat.add_1_r.
  enough (Hsnoc : ∀ n v y, in_u 8 y → be_bytes (S n) (v * 256 + y) = be_bytes n v ++ [y]).
  { rewrite Hsnoc by done. by rewrite IH. }
  clear. induction n as [|n IH]; intros v y Hy.
  - cbn. unfold wrap. rewrite Z.shiftr_0_r, Z.add_comm, Z.mod_add by lia. f_equal. by apply wrap_small.
  - cbn [be_bytes] in *. rewrite IH by done. cbn [app]. f_equal. f_equal.
    rewrite !Z.shiftr_div_pow2 by lia.
    replace (8 * Z.of_nat (S n)) with (8 + 8 * Z.of_nat n) by lia.
    rewrite Z.pow_add_r, <- Z.div_div by (try lia; apply Z.pow_pos_nonneg; lia).
    change (2 ^ 8) with 256. f_equal. rewrite Z.div_add_l by lia.
    rewrite (Z.div_small y) by (unfold in_u in Hy; lia). lia.
Qed.

(** ** The sequential stores *)

Lemma put_seq_app (pre src mid post : bytes) :
  length src = length mid →
  put_seq (length pre) src (pre ++ mid ++ post) = (pre ++ src ++ post, Ok tt).
Proof.
  revert pre mid. induction src as [|b src IH]; intros pre mid Hlen; destruct mid as [|m mid];
    try discriminate; [done|].
  cbn [put_seq]. unfold gbind, put. rewrite decide_True by (rewrite length_app; simpl; lia).
  cbn [app]. rewrite insert_app_r_alt, Nat.sub_diag by lia. cbn [list_insert insert].
  replace (pre ++ b :: mid ++ post) with ((pre ++ [b]) ++ mid ++ post) by by rewrite <- app_assoc.
  replace (S (length pre)) with (length (pre ++ [b])) by (rewrite length_app; simpl; lia).
  change (<[0%nat:=b]> (m :: mid ++ post)) with (b :: mid ++ post).
  replace (pre ++ b :: mid ++ post) with ((pre ++ [b]) ++ mid ++ post) by by rewrite <- app_assoc.
  rewrite IH by (simpl in Hlen; lia). by rewrite <- app_assoc.
Qed.
