(* ===== verification/Header.v ===== *)
(** * Package header: the 16-byte wire header

    Models src/header/header.go: the message types, the [Header] struct and its
    [Encode], [Parse] and [Bytes].  [Encode] writes through a slice, so it is a
    computation over the buffer; [Parse] reads with bounds-checked indexes. *)

From stdpp Require Import pretty.
From S2P Require Import Prelude Bytes.

(** ** Data *)

Definition Version : Z := 1.
Definition HeaderLen : nat := 16.

(** [type MessageType uint8] with its named values. *)
Definition TypeHandshake : Z := 0.
Definition TypeMessage : Z := 1.
Definition TypeLightHouse : Z := 2.
Definition TypeTest : Z := 3.
Definition TypeCloseTunnel : Z := 4.

Definition MessageType_String (t : Z) : string :=
  if t =? TypeHandshake then "Handshake"
  else if t =? TypeMessage then "Message"
  else if t =? TypeLightHouse then "LightHouse"
  else if t =? TypeTest then "Test"
  else if t =? TypeCloseTunnel then "CloseTunnel"
  else "Unknown(" +:+ pretty t +:+ ")".

Definition HandshakeInitiation : Z := 0.
Definition HandshakeResponse : Z := 1.

Record Header := mkHeader {
  hVersion : Z;
  hType : Z;
  hSubType : Z;
  hRemoteIndex : Z;
  hMessageCounter : Z;
}.

#[global] Instance Header_eq_dec : EqDecision Header.
Proof. solve_decision. Defined.

(** ** Operations *)

Definition Encode (h : Header) : M bytes unit := λ buf,
  if decide (length buf < HeaderLen)%nat then
    (buf, Fail (Errorf "header: buffer too small"))
  else
    (do! put 0 (Z.lor (u8 (Z.shiftl (hVersion h) 4)) (Z.land (hType h) 15)) in
     do! put 1 (hSubType h) in
     do! put 2 0 in
     do! put 3 0 in
     do! put_seq 4 (be_bytes 4 (hRemoteIndex h)) in
     put_seq 8 (be_bytes 8 (hMessageCounter h))) buf.

Definition Parse (buf : bytes) : go Header :=
  if decide (length buf < HeaderLen)%nat then Fail (Errorf "header: too short")
  else
    try! b0 := idx buf 0 in
    let v := Z.shiftr b0 4 in
    if negb (v =? Version) then Fail (Errorf "header: unsupported version")
    else
      try! b1 := idx buf 1 in
      Ok {| hVersion := v;
            hType := Z.land b0 15;
            hSubType := b1;
            hRemoteIndex := be_uint (slice 4 8 buf);
            hMessageCounter := be_uint (slice 8 16 buf) |}.

(** [Bytes] encodes into a zeroed array and drops the (impossible) error. *)
Definition Bytes (h : Header) : bytes := (Encode h (replicate HeaderLen 0)).1.

(** ** Well-formedness: the struct's field types *)

Definition Header_ok (h : Header) : Prop :=
  in_u 8 (hVersion h) ∧ in_u 8 (hType h) ∧ in_u 8 (hSubType h) ∧
  in_u 32 (hRemoteIndex h) ∧ in_u 64 (hMessageCounter h).

(** A header the protocol can carry: this version, a type of one nibble. *)
Definition wire_ok (h : Header) : Prop :=
  Header_ok h ∧ hVersion h = Version ∧ in_u 4 (hType h).

#[global] Instance wire_ok_dec h : Decision (wire_ok h).
Proof. unfold wire_ok, Header_ok. apply _. Defined.

(** ** Reference layout *)

(** The sixteen bytes as the package comment lays them out. *)
Definition wire_bytes (h : Header) : bytes :=
  [Z.lor (u8 (Z.shiftl (hVersion h) 4)) (Z.land (hType h) 15); hSubType h; 0; 0]
    ++ be_bytes 4 (hRemoteIndex h) ++ be_bytes 8 (hMessageCounter h).

Lemma length_wire_bytes h : length (wire_bytes h) = HeaderLen.
Proof. done. Qed.

(** ** Lemmas *)

Lemma split_at_16 (buf : bytes) :
  (HeaderLen ≤ length buf)%nat →
  ∃ b0 b1 b2 b3 ri mc tl, buf = [b0; b1; b2; b3] ++ ri ++ mc ++ tl ∧
    length ri = 4%nat ∧ length mc = 8%nat.
Proof.
  unfold HeaderLen. intros H.
  destruct buf as [|b0 [|b1 [|b2 [|b3 r]]]]; try (simpl in H; lia).
  exists b0, b1, b2, b3, (take 4 r), (take 8 (drop 4 r)), (drop 12 r). simpl in H.
  rewrite !length_take, !length_drop. split; [| lia].
  do 4 (cbn [app]; f_equal). rewrite <- (take_drop 4 r) at 1. f_equal.
  rewrite <- (take_drop 8 (drop 4 r)) at 1. f_equal. by rewrite drop_drop.
Qed.

(** Encoding overwrites exactly the first sixteen bytes. *)
Lemma Encode_layout h buf :
  (HeaderLen ≤ length buf)%nat →
  Encode h buf = (wire_bytes h ++ drop HeaderLen buf, Ok tt).
Proof.
  intros H. unfold Encode. rewrite decide_False by lia.
  destruct (split_at_16 buf H) as (b0&b1&b2&b3&ri&mc&tl&->&Hri&Hmc).
  set (w0 := Z.lor _ _). set (s1 := hSubType h).
  assert (Hp : ∀ (pre : bytes) a v post, put (length pre) v (pre ++ a :: post) = (pre ++ v :: post, Ok tt)).
  { intros. unfold put. rewrite decide_True by (rewrite length_app; simpl; lia).
    by rewrite insert_app_r_alt, Nat.sub_diag by lia. }
  etrans; [refine (gbind_ok _ _ _ _ _ (Hp [] b0 w0 ([b1; b2; b3] ++ ri ++ mc ++ tl))) |].
  etrans; [refine (gbind_ok _ _ _ _ _ (Hp [w0] b1 s1 ([b2; b3] ++ ri ++ mc ++ tl))) |].
  etrans; [refine (gbind_ok _ _ _ _ _ (Hp [w0; s1] b2 0 ([b3] ++ ri ++ mc ++ tl))) |].
  etrans; [refine (gbind_ok _ _ _ _ _ (Hp [w0; s1; 0] b3 0 (ri ++ mc ++ tl))) |].
  etrans; [refine (gbind_ok _ _ _ _ _ (put_seq_app [w0; s1; 0; 0] (be_bytes 4 (hRemoteIndex h))
    ri (mc ++ tl) _)); by rewrite length_be_bytes |].
  pose proof (put_seq_app ([w0; s1; 0; 0] ++ be_bytes 4 (hRemoteIndex h))
    (be_bytes 8 (hMessageCounter h)) mc tl) as H2.
  specialize (H2 ltac:(by rewrite length_be_bytes)).
  etrans; [exact H2 |]. f_equal. unfold wire_bytes. rewrite <- !app_assoc. do 3 f_equal.
  rewrite !app_assoc. symmetry. apply drop_app_length'.
  rewrite !length_app, Hri, Hmc. done.
Qed.

Lemma Bytes_wire h : Bytes h = wire_bytes h.
Proof.
  unfold Bytes. rewrite Encode_layout by (rewrite length_replicate; lia). cbn [fst].
  by rewrite drop_ge, app_nil_r by (rewrite length_replicate; lia).
Qed.

Lemma length_Bytes h : length (Bytes h) = HeaderLen.
Proof. by rewrite Bytes_wire, length_wire_bytes. Qed.

(** The version and the type share a byte without interfering: each keeps its
    low nibble. *)
Lemma land_15 t : Z.land t 15 = wrap 4 t.
Proof. change 15 with (Z.ones 4). by rewrite Z.land_ones by lia. Qed.

Lemma nibble_high v t : Z.shiftr (Z.lor (u8 (Z.shiftl v 4)) (Z.land t 15)) 4 = wrap 4 v.
Proof.
  apply Z.bits_inj'. intros i Hi.
  rewrite land_15, Z.shiftr_spec, Z.lor_spec, !wrap_testbit, Z.shiftl_spec by lia.
  replace (i + 4 - 4) with i by lia.
  destruct (Z.ltb_spec (i + 4) 8), (Z.ltb_spec (i + 4) 4), (Z.ltb_spec i 4); try lia;
    by rewrite orb_false_r.
Qed.

Lemma nibble_low v t : Z.land (Z.lor (u8 (Z.shiftl v 4)) (Z.land t 15)) 15 = wrap 4 t.
Proof.
  apply Z.bits_inj'. intros i Hi.
  rewrite !land_15, wrap_testbit, Z.lor_spec, !wrap_testbit, Z.shiftl_spec by lia.
  destruct (Z.ltb_spec i 8), (Z.ltb_spec i 4); try lia; try done.
  by rewrite Z.testbit_neg_r by lia.
Qed.

(** What a parser sees of an encoded header. *)
Definition truncate (h : Header) : Header :=
  {| hVersion := wrap 4 (hVersion h);
     hType := wrap 4 (hType h);
     hSubType := hSubType h;
     hRemoteIndex := u32 (hRemoteIndex h);
     hMessageCounter := u64 (hMessageCounter h) |}.

Lemma truncate_wire_ok h : wire_ok h → truncate h = h.
Proof.
  destruct h as [v t s r c]. unfold wire_ok, Header_ok, truncate; cbn.
  intros ((_&_&_&Hr&Hc)&->&Ht). by rewrite !wrap_small.
Qed.

Lemma Parse_wire h tl :
  Parse (wire_bytes h ++ tl) =
    if wrap 4 (hVersion h) =? Version then Ok (truncate h)
    else Fail (Errorf "header: unsupported version").
Proof.
  unfold Parse. rewrite decide_False by (rewrite length_app, length_wire_bytes; lia).
  unfold wire_bytes. cbn [app idx lookup list_lookup go_bind].
  rewrite nibble_high. destruct (_ =? _); [| done]. cbn [negb].
  rewrite nibble_low. unfold truncate, slice. cbn [drop Nat.sub].
  rewrite <- !app_assoc, drop_0, drop_app_length' by by rewrite length_be_bytes.
  rewrite !take_app_length' by by rewrite length_be_bytes.
  by rewrite !be_uint_bytes.
Qed.

Lemma Parse_Bytes h tl : wire_ok h → Parse (Bytes h ++ tl) = Ok h.
Proof.
  intros Hok. rewrite Bytes_wire, Parse_wire, truncate_wire_ok by done.
  destruct Hok as (_ & -> & _). done.
Qed.

(** ** Properties *)

(** C31. Round trip: a header of this protocol version with a four-bit type,
    encoded into any buffer that can hold it, parses back to itself; the rest
    of the buffer is untouched and does not influence the result. *)
Theorem Parse_Encode h buf :
  wire_ok h → (HeaderLen ≤ length buf)%nat →
  ∃ buf', Encode h buf = (buf', Ok tt) ∧ Parse buf' = Ok h ∧
    length buf' = length buf ∧ drop HeaderLen buf' = drop HeaderLen buf.
Proof.
  intros Hh Hlen. exists (wire_bytes h ++ drop HeaderLen buf).
  rewrite Encode_layout, Parse_wire, truncate_wire_ok by done.
  destruct Hh as (_&->&_). split_and!; [done | done | |].
  - rewrite length_app, length_drop, length_wire_bytes. lia.
  - by rewrite drop_app_length' by by rewrite length_wire_bytes.
Qed.

Lemma Parse_Encode_witness :
  Parse (Encode (mkHeader 1 2 7 4294967295 18446744073709551615) (replicate 20 9)).1
    = Ok (mkHeader 1 2 7 4294967295 18446744073709551615).
Proof.
  destruct (Parse_Encode (mkHeader 1 2 7 4294967295 18446744073709551615) (replicate 20 9))
    as (buf' & H1 & H2 & _).
  - unfold wire_ok, Header_ok, in_u, Version; cbn; lia.
  - unfold HeaderLen; cbn; lia.
  - rewrite H1. exact H2.
Defined.

(** A byte is its two nibbles. *)
Lemma nibbles b : in_u 8 b → Z.lor (u8 (Z.shiftl (Z.shiftr b 4) 4)) (Z.land (Z.land b 15) 15) = b.
Proof.
  intros Hb. apply Z.bits_inj'. intros i Hi.
  rewrite !land_15, Z.lor_spec, !wrap_testbit, Z.shiftl_spec by lia.
  destruct (Z.ltb_spec i 4).
  - rewrite Z.testbit_neg_r by lia. by rewrite andb_false_r.
  - rewrite Z.shiftr_spec, orb_false_r by lia. replace (i - 4 + 4) with i by lia.
    destruct (Z.ltb_spec i 8); [done |]. by rewrite (in_u_testbit_high 8) by (done || lia).
Qed.

Lemma Parse_long b0 b1 b2 b3 ri mc tl :
  length ri = 4%nat → length mc = 8%nat →
  Parse ([b0; b1; b2; b3] ++ ri ++ mc ++ tl) =
    if Z.shiftr b0 4 =? Version
    then Ok (mkHeader (Z.shiftr b0 4) (Z.land b0 15) b1 (be_uint ri) (be_uint mc))
    else Fail (Errorf "header: unsupported version").
Proof.
  intros Hri Hmc. unfold Parse.
  rewrite decide_False by (rewrite !length_app, Hri, Hmc; unfold HeaderLen; cbn; lia).
  cbn [app idx lookup list_lookup go_bind]. destruct (_ =? _); [| done]. cbn [negb].
  unfold slice. cbn [drop Nat.sub].
  rewrite drop_0, drop_app_length', !take_app_length' by done. done.
Qed.

(** Parsing decides every input: a short buffer and a foreign version are
    errors, nothing panics, and an accepted header is well formed, re-encodes
    to the sixteen bytes it came from with the reserved bytes 2 and 3 zeroed,
    and was read from those bytes only. *)
Theorem Parse_spec buf :
  bytes_ok buf →
  match Parse buf with
  | Ok h =>
      (HeaderLen ≤ length buf)%nat ∧ wire_ok h ∧
      Bytes h = <[2%nat := 0]> (<[3%nat := 0]> (take HeaderLen buf)) ∧
      Parse (take HeaderLen buf) = Ok h
  | Fail _ =>
      (length buf < HeaderLen)%nat ∨ ∃ b0, buf !! 0%nat = Some b0 ∧ Z.shiftr b0 4 ≠ Version
  | Panic => False
  end.
Proof.
  intros Hb. destruct (decide (length buf < HeaderLen)%nat) as [Hs | Hl].
  { unfold Parse. rewrite decide_True by done. by left. }
  destruct (split_at_16 buf ltac:(lia)) as (b0&b1&b2&b3&ri&mc&tl&->&Hri&Hmc).
  rewrite Parse_long by done. destruct (Z.eqb_spec (Z.shiftr b0 4) Version) as [Hv|Hv];
    [| right; eexists; eauto].
  assert (Htake : take HeaderLen ([b0; b1; b2; b3] ++ ri ++ mc ++ tl) = [b0; b1; b2; b3] ++ ri ++ mc ++ []).
  { rewrite app_nil_r, !(app_assoc _ _ tl), app_assoc. apply take_app_length'.
    rewrite !length_app, Hri, Hmc. done. }
  unfold bytes_ok in Hb. cbn [app] in Hb. rewrite !Forall_cons, !Forall_app in Hb.
  destruct Hb as (Hb0&Hb1&_&_&Hbri&Hbmc&_).
  pose proof (be_uint_bound ri 0 0 Hbri ltac:(done) ltac:(lia)) as Hr. rewrite Hri in Hr.
  pose proof (be_uint_bound mc 0 0 Hbmc ltac:(done) ltac:(lia)) as Hc. rewrite Hmc in Hc.
  split_and!; [lia | | |].
  - unfold wire_ok, Header_ok; cbn. rewrite Hv, land_15.
    split_and!; try done; try (by apply wrap_in_u).
    pose proof (wrap_in_u 4 b0 ltac:(lia)) as [? ?]. split; [lia | change (2 ^ 8) with 256; lia].
  - rewrite Bytes_wire, Htake. unfold wire_bytes. cbn [hVersion hType hSubType hRemoteIndex hMessageCounter].
    rewrite nibbles by done. rewrite <- Hri at 1. rewrite <- Hmc at 1.
    rewrite !be_bytes_be_uint by done. by rewrite app_nil_r.
  - by rewrite Htake, Parse_long, Hv by done.
Qed.

Lemma Parse_spec_witness :
  bytes_ok [16; 5; 1; 2; 0; 0; 0; 7; 0; 0; 0; 0; 0; 0; 1; 0; 99] ∧
  Bytes (mkHeader 1 0 5 7 256) = [16; 5; 0; 0; 0; 0; 0; 7; 0; 0; 0; 0; 0; 0; 1; 0].
Proof.
  assert (H : bytes_ok [16; 5; 1; 2; 0; 0; 0; 7; 0; 0; 0; 0; 0; 0; 1; 0; 99])
    by (repeat constructor; unfold in_u; lia).
  split; [exact H |].
  pose proof (Parse_spec _ H) as P. cbn in P. destruct P as (_ & _ & P & _). exact P.
Defined.
