(* ===== verification/Replay.v ===== *)
(** * Replay protection: the sliding window of src/hostmap.go

    Models the fields [windowEnd] and [window] of [HostInfo], [CheckReplay] and
    [shiftWindow], word by word and in the loop order of the source, and proves
    that they implement a specification that keeps the full history of accepted
    counters. *)

From S2P Require Import Prelude.

(** ** Data *)

Definition replayWindowSize : Z := 64 * 64.

(** The replay fields of [HostInfo]; [window] is the [[64]uint64] array. *)
Record Window := mkWindow {
  windowEnd : Z;
  window : list Z;
}.

Definition zero_words : list Z := replicate 64 0.

(** The zero value of the fields, as in a fresh [&HostInfo{...}]. *)
Definition newWindow : Window := {| windowEnd := 0; window := zero_words |}.

(** ** shiftWindow *)

(** [for i := 63; i >= 0; i-- { ... }], the whole-word part. *)
Definition shift_words (wordShift : Z) (w : list Z) : list Z :=
  loop_down 64 (λ i w,
    let src := Z.of_nat i - wordShift in
    if src <? 0 then <[i := 0]> w else <[i := w !!! Z.to_nat src]> w) w.

(** [for i := 63; i > 0; i-- { ... }; w[0] <<= bitShift]. *)
Definition shift_bits (bitShift : Z) (w : list Z) : list Z :=
  let w := loop_down 63 (λ k w,
    let i := S k in
    <[i := Z.lor (u64 (Z.shiftl (w !!! i) bitShift))
                 (Z.shiftr (w !!! (i - 1)%nat) (64 - bitShift))]> w) w in
  <[0%nat := u64 (Z.shiftl (w !!! 0%nat) bitShift)]> w.

Definition shiftWindow (w : list Z) (n : Z) : list Z :=
  let wordShift := n / 64 in
  let bitShift := n mod 64 in
  if 64 <=? wordShift then zero_words
  else
    let w := shift_words wordShift w in
    if 0 <? bitShift then shift_bits bitShift w else w.

(** ** CheckReplay *)

Definition CheckReplay (counter : Z) : M Window bool := λ h,
  let end_ := windowEnd h in
  if end_ <? counter then
    let diff := u64 (counter - end_) in
    let w := if replayWindowSize <=? diff then zero_words
             else shiftWindow (window h) diff in
    ({| windowEnd := counter; window := <[0%nat := Z.lor (w !!! 0%nat) 1]> w |}, Ok false)
  else if replayWindowSize <=? u64 (end_ - counter) then (h, Ok true)
  else
    let pos := u64 (end_ - counter) in
    let word := Z.to_nat (pos / 64) in
    let bit := pos mod 64 in
    match window h !! word with
    | None => (h, Panic)
    | Some x =>
        if negb (Z.land x (u64 (Z.shiftl 1 bit)) =? 0) then (h, Ok true)
        else ({| windowEnd := end_;
                 window := <[word := Z.lor x (u64 (Z.shiftl 1 bit))]> (window h) |}, Ok false)
    end.

(** The counters a session accepts out of a sequence of received ones. *)
Fixpoint accepted (cs : list Z) : M Window (list Z) :=
  match cs with
  | [] => gret []
  | c :: cs' =>
      let! replay := CheckReplay c in
      let! l := accepted cs' in
      gret (if replay : bool then l else c :: l)
  end.

(** ** Well-formedness *)

Definition words_ok (w : list Z) : Prop := length w = 64%nat ∧ Forall (in_u 64) w.

Definition Window_ok (h : Window) : Prop := in_u 64 (windowEnd h) ∧ words_ok (window h).

(** ** The bitmap read as one sequence of 4096 bits *)

Definition wbit (w : list Z) (p : Z) : bool := Z.testbit (w !!! Z.to_nat (p / 64)) (p mod 64).

(** The array as one integer, word 0 least significant. *)
Fixpoint bitmap (w : list Z) : Z :=
  match w with
  | [] => 0
  | x :: w' => Z.lor x (Z.shiftl (bitmap w') 64)
  end.

(** ** Specification: the history of accepted counters *)

(** A counter is fresh when it was not accepted before and no accepted counter
    is [replayWindowSize] or more above it. *)
Definition fresh_counter (hist : list Z) (c : Z) : Prop :=
  (c ∉ hist) ∧ Forall (λ d, d - c < replayWindowSize) hist.

#[global] Instance fresh_counter_dec hist c : Decision (fresh_counter hist c).
Proof. unfold fresh_counter. apply _. Defined.

Fixpoint spec_accepted (hist cs : list Z) : list Z :=
  match cs with
  | [] => []
  | c :: cs' =>
      if decide (fresh_counter hist c) then c :: spec_accepted (c :: hist) cs'
      else spec_accepted hist cs'
  end.

(** The concrete window represents a history. *)
Record represents (hist : list Z) (h : Window) : Prop := {
  rep_ok : Window_ok h;
  rep_bound : Forall (λ d, 0 ≤ d ≤ windowEnd h) hist;
  rep_end : windowEnd h ∈ hist ∨ (hist = [] ∧ windowEnd h = 0);
  rep_bits : ∀ c, 0 ≤ c ≤ windowEnd h → windowEnd h - c < replayWindowSize →
    (wbit (window h) (windowEnd h - c) = true ↔ c ∈ hist);
}.

(** ** The in-place loops *)

Lemma length_loop_down n (f : nat → list Z → Z) w :
  length (loop_down n (λ i w, <[i := f i w]> w) w) = length w.
Proof.
  revert w. induction n as [|n IH]; intros w; cbn; [done |]. by rewrite IH, length_insert.
Qed.

(** A descending loop that sets entry [i] from entries at or below [i] computes
    every entry from the original array. *)
Lemma loop_down_lookup n (f : nat → list Z → Z) w j :
  (∀ i w1 w2, length w1 = length w2 →
     (∀ k, (k ≤ i)%nat → w1 !!! k = w2 !!! k) → f i w1 = f i w2) →
  (n ≤ length w)%nat →
  loop_down n (λ i w, <[i := f i w]> w) w !!! j = if decide (j < n)%nat then f j w else w !!! j.
Proof.
  intros Hf. revert w. induction n as [|n IH]; intros w Hn; cbn; [by rewrite decide_False by lia |].
  rewrite IH by (rewrite length_insert; lia).
  destruct (decide (j < n)%nat).
  - rewrite decide_True by lia. apply Hf; [by rewrite length_insert |].
    intros k Hk. by rewrite list_lookup_total_insert_ne by lia.
  - destruct (decide (j = n)) as [->|].
    + rewrite decide_True by lia. by rewrite list_lookup_total_insert_eq by lia.
    + rewrite decide_False by lia. by rewrite list_lookup_total_insert_ne by lia.
Qed.

Lemma loop_down_ext {S} n (b1 b2 : nat → S → S) s :
  (∀ i s, b1 i s = b2 i s) → loop_down n b1 s = loop_down n b2 s.
Proof. intros H. revert s. induction n; intros; cbn; [done |]. by rewrite H. Qed.

Lemma shift_words_lookup k w j :
  0 ≤ k → length w = 64%nat → (j < 64)%nat →
  shift_words k w !!! j = if Z.of_nat j <? k then 0 else w !!! Z.to_nat (Z.of_nat j - k).
Proof.
  intros Hk Hw Hj. unfold shift_words.
  erewrite (loop_down_ext 64 _ (λ i w, <[i := if Z.of_nat i - k <? 0 then 0
    else w !!! Z.to_nat (Z.of_nat i - k)]> w)) by (intros; by destruct (_ <? _)).
  rewrite loop_down_lookup.
  - rewrite decide_True by lia.
    destruct (Z.ltb_spec (Z.of_nat j - k) 0), (Z.ltb_spec (Z.of_nat j) k); try lia; done.
  - intros i w1 w2 _ H. destruct (Z.ltb_spec (Z.of_nat i - k) 0); [done |]. apply H. lia.
  - lia.
Qed.

Lemma length_shift_words k w : length (shift_words k w) = length w.
Proof.
  unfold shift_words.
  erewrite (loop_down_ext 64 _ (λ i w, <[i := if Z.of_nat i - k <? 0 then 0
    else w !!! Z.to_nat (Z.of_nat i - k)]> w)) by (intros; by destruct (_ <? _)).
  apply length_loop_down.
Qed.

(** The second loop runs one index higher: the same argument, shifted. *)
Lemma loop_down_S_lookup n (f : nat → list Z → Z) w j :
  (∀ i w1 w2, length w1 = length w2 →
     (∀ k, (k ≤ i)%nat → w1 !!! k = w2 !!! k) → f i w1 = f i w2) →
  (n < length w)%nat →
  loop_down n (λ k w, <[S k := f (S k) w]> w) w !!! j
    = if decide (0 < j ≤ n)%nat then f j w else w !!! j.
Proof.
  intros Hf. revert w. induction n as [|n IH]; intros w Hn; cbn; [by rewrite decide_False by lia |].
  rewrite IH by (rewrite length_insert; lia).
  destruct (decide (0 < j ≤ n)%nat).
  - rewrite decide_True by lia. apply Hf; [by rewrite length_insert |].
    intros k Hk. by rewrite list_lookup_total_insert_ne by lia.
  - destruct (decide (j = S n)) as [->|].
    + rewrite decide_True by lia. by rewrite list_lookup_total_insert_eq by lia.
    + rewrite decide_False by lia. by rewrite list_lookup_total_insert_ne by lia.
Qed.

Lemma length_loop_down_S n (f : nat → list Z → Z) w :
  length (loop_down n (λ k w, <[S k := f (S k) w]> w) w) = length w.
Proof.
  revert w. induction n as [|n IH]; intros w; cbn; [done |]. by rewrite IH, length_insert.
Qed.

(** One word of the result of the second loop. *)
Definition carry_word (b : Z) (i : nat) (w : list Z) : Z :=
  Z.lor (u64 (Z.shiftl (w !!! i) b)) (Z.shiftr (w !!! (i - 1)%nat) (64 - b)).

Lemma length_shift_bits b w : length (shift_bits b w) = length w.
Proof. unfold shift_bits. rewrite length_insert. apply (length_loop_down_S 63 (carry_word b)). Qed.

Lemma shift_bits_lookup b w j :
  length w = 64%nat → (j < 64)%nat →
  shift_bits b w !!! j =
    if decide (j = 0)%nat then u64 (Z.shiftl (w !!! 0%nat) b) else carry_word b j w.
Proof.
  intros Hw Hj. unfold shift_bits.
  change (loop_down 63 _ w) with (loop_down 63 (λ k w, <[S k := carry_word b (S k) w]> w) w).
  assert (Hf : ∀ i w1 w2, length w1 = length w2 →
     (∀ k, (k ≤ i)%nat → w1 !!! k = w2 !!! k) → carry_word b i w1 = carry_word b i w2).
  { intros i w1 w2 _ H. unfold carry_word. by rewrite !H by lia. }
  pose proof (length_loop_down_S 63 (carry_word b) w) as Hl.
  destruct (decide (j = 0%nat)) as [->|].
  - rewrite list_lookup_total_insert_eq by lia.
    rewrite (loop_down_S_lookup 63 (carry_word b)) by (done || lia). by rewrite decide_False by lia.
  - rewrite list_lookup_total_insert_ne by lia.
    rewrite (loop_down_S_lookup 63 (carry_word b)) by (done || lia). by rewrite decide_True by lia.
Qed.

(** ** The loops on bits *)

Lemma word_in_u w i : words_ok w → (i < 64)%nat → in_u 64 (w !!! i).
Proof.
  intros [Hl Hw] Hi. rewrite Forall_lookup in Hw.
  destruct (w !! i) as [x|] eqn:E; [| apply lookup_ge_None in E; lia].
  rewrite (list_lookup_total_correct w i x E). by eapply Hw.
Qed.

Lemma words_ok_intro w : length w = 64%nat → (∀ i, (i < 64)%nat → in_u 64 (w !!! i)) → words_ok w.
Proof.
  intros Hl H. split; [done |]. apply Forall_lookup. intros i x Hx.
  rewrite <- (list_lookup_total_correct w i x Hx). apply H. apply lookup_lt_Some in Hx. lia.
Qed.

Lemma words_ok_insert w i x : words_ok w → in_u 64 x → words_ok (<[i := x]> w).
Proof. intros [Hl Hw] Hx. split; [by rewrite length_insert | by apply Forall_insert]. Qed.

Lemma zero_words_ok : words_ok zero_words.
Proof. split; [done |]. apply Forall_replicate. unfold in_u. lia. Qed.

Lemma wbit_zero p : 0 ≤ p < 4096 → wbit zero_words p = false.
Proof.
  intros Hp. unfold wbit, zero_words. rewrite lookup_total_replicate_2; [apply Z.testbit_0_l |].
  Z.div_mod_to_equations. lia.
Qed.

Lemma shift_words_ok k w : 0 ≤ k → words_ok w → words_ok (shift_words k w).
Proof.
  intros Hk Hw. pose proof Hw as [Hl _].
  apply words_ok_intro; [by rewrite length_shift_words |]. intros i Hi.
  rewrite shift_words_lookup by done. destruct (Z.ltb_spec (Z.of_nat i) k).
  - unfold in_u. lia.
  - apply word_in_u; [done | lia].
Qed.

Lemma carry_word_ok b i w : 0 < b < 64 → words_ok w → (i < 64)%nat → in_u 64 (carry_word b i w).
Proof.
  intros Hb Hw Hi. unfold carry_word. apply in_u_lor; [lia | by apply wrap_in_u |].
  pose proof (in_u_shiftr 64 (64 - b) _ ltac:(lia) (word_in_u w (i - 1) Hw ltac:(lia))) as [H0 H1].
  split; [lia |]. eapply Z.lt_le_trans; [exact H1 |]. apply Z.pow_le_mono_r; lia.
Qed.

Lemma shift_bits_ok b w : 0 < b < 64 → words_ok w → words_ok (shift_bits b w).
Proof.
  intros Hb Hw. pose proof Hw as [Hl _].
  apply words_ok_intro; [by rewrite length_shift_bits |]. intros i Hi.
  rewrite shift_bits_lookup by done. case_decide; [by apply wrap_in_u |]. by apply carry_word_ok.
Qed.

Lemma shift_words_bit k w p :
  0 ≤ k → length w = 64%nat → 0 ≤ p < 4096 →
  wbit (shift_words k w) p = (64 * k <=? p) && wbit w (p - 64 * k).
Proof.
  intros Hk Hw Hp. unfold wbit.
  assert (0 ≤ p / 64 < 64) by (Z.div_mod_to_equations; lia).
  rewrite shift_words_lookup, Z2Nat.id by lia.
  replace ((p - 64 * k) mod 64) with (p mod 64) by (Z.div_mod_to_equations; lia).
  replace ((p - 64 * k) / 64) with (p / 64 - k) by (Z.div_mod_to_equations; lia).
  destruct (Z.ltb_spec (p / 64) k), (Z.leb_spec (64 * k) p);
    first [done | apply Z.testbit_0_l | Z.div_mod_to_equations; lia].
Qed.

Lemma shift_bits_bit b w p :
  0 < b < 64 → words_ok w → 0 ≤ p < 4096 →
  wbit (shift_bits b w) p = (b <=? p) && wbit w (p - b).
Proof.
  intros Hb Hw Hp. pose proof Hw as [Hl _]. unfold wbit.
  pose proof (Z.div_mod p 64 ltac:(lia)) as Hdm. pose proof (Z.mod_pos_bound p 64 ltac:(lia)) as Hm.
  set (i := p / 64) in *. set (q := p mod 64) in *.
  assert (Hi : 0 ≤ i < 64) by lia.
  rewrite shift_bits_lookup by lia. unfold carry_word.
  destruct (Z.leb_spec b q).
  - replace ((p - b) / 64) with i by (Z.div_mod_to_equations; lia).
    replace ((p - b) mod 64) with (q - b) by (Z.div_mod_to_equations; lia).
    assert (Hlo : ∀ x, Z.testbit (u64 (Z.shiftl x b)) q = Z.testbit x (q - b)).
    { intros x. rewrite wrap_testbit, Z.shiftl_spec by lia. by destruct (Z.ltb_spec q 64); [|lia]. }
    destruct (Z.leb_spec b p); [| lia]. cbn [andb].
    case_decide as Hz; [rewrite Hlo; by rewrite Hz |].
    rewrite Z.lor_spec, Hlo, Z.shiftr_spec by lia.
    rewrite (in_u_testbit_high 64 (w !!! (Z.to_nat i - 1)%nat)) by (try apply word_in_u; done || lia).
    by rewrite orb_false_r.
  - assert (Hlo : ∀ x, Z.testbit (u64 (Z.shiftl x b)) q = false).
    { intros x. rewrite wrap_testbit, Z.shiftl_spec, Z.testbit_neg_r by lia. by rewrite andb_false_r. }
    case_decide as Hz.
    + rewrite Hlo. destruct (Z.leb_spec b p); [lia | done].
    + rewrite Z.lor_spec, Hlo, Z.shiftr_spec by lia.
      destruct (Z.leb_spec b p); [| lia]. cbn [orb andb].
      replace ((p - b) / 64) with (i - 1) by (Z.div_mod_to_equations; lia).
      replace ((p - b) mod 64) with (q + (64 - b)) by (Z.div_mod_to_equations; lia).
      f_equal. f_equal. lia.
Qed.

Lemma shiftWindow_ok w n : 0 ≤ n → words_ok w → words_ok (shiftWindow w n).
Proof.
  intros Hn Hw. unfold shiftWindow. destruct (64 <=? n / 64); [apply zero_words_ok |].
  assert (words_ok (shift_words (n / 64) w)) by (apply shift_words_ok; [apply Z.div_pos; lia | done]).
  destruct (Z.ltb_spec 0 (n mod 64)); [| done].
  apply shift_bits_ok; [| done]. pose proof (Z.mod_pos_bound n 64). lia.
Qed.

(** A bit moves up by [n]; the [n] lowest bits are cleared. *)
Lemma shiftWindow_bit w n p :
  0 ≤ n → words_ok w → 0 ≤ p < 4096 →
  wbit (shiftWindow w n) p = (n <=? p) && wbit w (p - n).
Proof.
  intros Hn Hw Hp. unfold shiftWindow. pose proof Hw as [Hl _].
  pose proof (Z.div_mod n 64 ltac:(lia)) as Hdm. pose proof (Z.mod_pos_bound n 64 ltac:(lia)).
  pose proof (Z.div_pos n 64 ltac:(lia) ltac:(lia)).
  destruct (Z.leb_spec 64 (n / 64)).
  { rewrite wbit_zero by lia. by destruct (Z.leb_spec n p); [lia |]. }
  destruct (Z.ltb_spec 0 (n mod 64)).
  - rewrite shift_bits_bit by (auto using shift_words_ok || lia).
    destruct (Z.leb_spec (n mod 64) p).
    + rewrite shift_words_bit by lia. cbn [andb]. replace (p - n mod 64 - 64 * (n / 64)) with (p - n) by lia.
      f_equal. destruct (Z.leb_spec (64 * (n / 64)) (p - n mod 64)), (Z.leb_spec n p); lia || done.
    + by destruct (Z.leb_spec n p); [lia |].
  - rewrite shift_words_bit by lia. by replace (64 * (n / 64)) with n by lia.
Qed.

(** ** Single bits *)

Lemma pow2_bit b p : 0 ≤ b < 64 → 0 ≤ p → Z.testbit (u64 (Z.shiftl 1 b)) p = (p =? b).
Proof.
  intros Hb Hp. rewrite Z.shiftl_1_l, wrap_testbit by lia.
  rewrite Z.pow2_bits_eqb by lia. rewrite (Z.eqb_sym b p).
  destruct (Z.ltb_spec p 64), (Z.eqb_spec p b); done || lia.
Qed.

Lemma land_pow2_zero x b :
  0 ≤ b < 64 → (Z.land x (u64 (Z.shiftl 1 b)) =? 0) = negb (Z.testbit x b).
Proof.
  intros Hb. destruct (Z.testbit x b) eqn:E; cbn [negb].
  - apply Z.eqb_neq. intros H. apply (f_equal (λ z, Z.testbit z b)) in H.
    rewrite Z.land_spec, E, pow2_bit, Z.bits_0, Z.eqb_refl in H by lia. done.
  - apply Z.eqb_eq. apply Z.bits_inj'. intros p Hp.
    rewrite Z.land_spec, pow2_bit, Z.bits_0 by lia.
    destruct (Z.eqb_spec p b) as [->|]; [by rewrite E | by rewrite andb_false_r].
Qed.

Lemma set_bit w pos p :
  words_ok w → 0 ≤ pos < 4096 → 0 ≤ p < 4096 →
  wbit (<[Z.to_nat (pos / 64) := Z.lor (w !!! Z.to_nat (pos / 64)) (u64 (Z.shiftl 1 (pos mod 64)))]> w) p
    = (p =? pos) || wbit w p.
Proof.
  intros [Hl Hw] Hpos Hp. unfold wbit.
  assert (0 ≤ pos / 64 < 64) by (Z.div_mod_to_equations; lia).
  pose proof (Z.mod_pos_bound pos 64 ltac:(lia)). pose proof (Z.mod_pos_bound p 64 ltac:(lia)).
  destruct (decide (p / 64 = pos / 64)) as [E|E].
  - rewrite E, list_lookup_total_insert_eq by lia.
    rewrite Z.lor_spec, pow2_bit by lia. rewrite orb_comm. f_equal.
    destruct (Z.eqb_spec (p mod 64) (pos mod 64)), (Z.eqb_spec p pos); try done;
      exfalso; Z.div_mod_to_equations; lia.
  - rewrite list_lookup_total_insert_ne by (Z.div_mod_to_equations; lia).
    by destruct (Z.eqb_spec p pos) as [->|].
Qed.

Lemma set_bit_0 w p :
  words_ok w → 0 ≤ p < 4096 →
  wbit (<[0%nat := Z.lor (w !!! 0%nat) 1]> w) p = (p =? 0) || wbit w p.
Proof. intros Hw Hp. by apply (set_bit w 0 p). Qed.

(** ** The array as one integer *)

Lemma bitmap_testbit w p :
  Forall (in_u 64) w → 0 ≤ p →
  Z.testbit (bitmap w) p = (p <? 64 * Z.of_nat (length w)) && wbit w p.
Proof.
  intros Hw. revert p. induction Hw as [|x w Hx Hw IH]; intros p Hp.
  - cbn [bitmap length]. rewrite Z.testbit_0_l. by destruct (Z.ltb_spec p (64 * Z.of_nat 0)); [lia |].
  - cbn [bitmap length]. rewrite Z.lor_spec, Z.shiftl_spec by lia.
    destruct (Z.ltb_spec p 64).
    + rewrite (Z.testbit_neg_r _ (p - 64)), orb_false_r by lia.
      destruct (Z.ltb_spec p (64 * Z.of_nat (S (length w)))); [| lia].
      unfold wbit. rewrite Z.div_small, Z.mod_small by lia. done.
    + rewrite (in_u_testbit_high 64 x), IH by (done || lia). cbn [orb]. f_equal.
      * apply Bool.eq_iff_eq_true. rewrite !Z.ltb_lt. lia.
      * unfold wbit. replace ((p - 64) mod 64) with (p mod 64) by (Z.div_mod_to_equations; lia).
        f_equal. replace (Z.to_nat (p / 64)) with (S (Z.to_nat ((p - 64) / 64)))
          by (Z.div_mod_to_equations; lia). done.
Qed.

(** C26. [shiftWindow] is the 4096-bit left shift: read as one integer with word
    0 least significant, the array is multiplied by two to the [n] and bits past
    the last word are dropped, for every shift amount. *)
Theorem shiftWindow_is_shift w n :
  words_ok w → 0 ≤ n →
  bitmap (shiftWindow w n) = wrap replayWindowSize (Z.shiftl (bitmap w) n).
Proof.
  intros Hw Hn. pose proof (shiftWindow_ok w n Hn Hw) as [Hl' Hw']. pose proof Hw as [Hl Hf].
  apply Z.bits_inj'. intros p Hp. rewrite bitmap_testbit, Hl', wrap_testbit, Z.shiftl_spec by done.
  change (64 * Z.of_nat 64) with 4096. change replayWindowSize with 4096.
  destruct (Z.ltb_spec p 4096); [cbn [andb] | done].
  rewrite shiftWindow_bit by (done || lia). destruct (Z.leb_spec n p).
  - rewrite bitmap_testbit, Hl by (done || lia). by destruct (Z.ltb_spec (p - n) (64 * Z.of_nat 64)); [|lia].
  - by rewrite Z.testbit_neg_r by lia.
Qed.

Lemma shiftWindow_is_shift_witness :
  bitmap (shiftWindow (5 :: replicate 63 0) 65) = wrap replayWindowSize (Z.shiftl 5 65).
Proof.
  apply (shiftWindow_is_shift (5 :: replicate 63 0) 65); [| lia].
  split; [done |]. constructor; [unfold in_u; lia |].
  apply Forall_replicate. unfold in_u. lia.
Defined.

(** ** CheckReplay against the history *)

Lemma newWindow_represents : represents [] newWindow.
Proof.
  split.
  - split; [unfold in_u; cbn; lia | apply zero_words_ok].
  - constructor.
  - by right.
  - cbn. intros c Hc _. assert (c = 0) as -> by lia. rewrite wbit_zero by lia.
    split; [done | intros H; inversion H].
Qed.

(** The window's far edge in terms of the history. *)
Lemma fresh_iff_above hist h c :
  represents hist h → 0 ≤ c →
  (Forall (λ d, d - c < replayWindowSize) hist ↔ windowEnd h - c < replayWindowSize).
Proof.
  intros [_ Hb He _] Hc. rewrite !Forall_forall. rewrite Forall_forall in Hb. change replayWindowSize with 4096. split.
  - intros H. destruct He as [He | [-> ->]]; [by apply H | lia].
  - intros H d Hd. specialize (Hb d Hd). cbn in Hb. lia.
Qed.

(** Adding a new highest counter. *)
Lemma represents_advance hist h c w :
  represents hist h → in_u 64 c → windowEnd h < c → words_ok w →
  (∀ p, 0 ≤ p < 4096 → wbit w p = (c - windowEnd h <=? p) && wbit (window h) (p - (c - windowEnd h))) →
  represents (c :: hist) (mkWindow c (<[0%nat := Z.lor (w !!! 0%nat) 1]> w)).
Proof.
  intros [[_ Hok] Hb He Hbits] Hc Hlt Hw Hwb. rewrite Forall_forall in Hb. split; cbn.
  - split; [done |]. apply words_ok_insert; [done |].
    apply in_u_lor; [lia | by apply word_in_u; [|lia] | unfold in_u; lia].
  - constructor; [unfold in_u in Hc; lia |]. apply Forall_forall. intros d Hd. specialize (Hb d Hd). cbn in Hb. lia.
  - left. by left.
  - intros d Hd Hin. change replayWindowSize with 4096 in *. rewrite set_bit_0 by (done || lia).
    rewrite elem_of_cons, orb_true_iff, Hwb, andb_true_iff, Z.leb_le, Z.eqb_eq by lia.
    replace (c - d - (c - windowEnd h)) with (windowEnd h - d) by lia.
    split.
    + intros [Hz | [Hle Hbit]]; [left; lia |]. right. apply Hbits; [lia | lia | done].
    + intros [-> | Hd']; [left; lia |]. right. specialize (Hb d Hd'). cbn in Hb.
      split; [lia |]. apply Hbits; [lia | lia | done].
Qed.

(** Marking a counter inside the window. *)
Lemma represents_mark hist h c :
  represents hist h → 0 ≤ c ≤ windowEnd h → windowEnd h - c < replayWindowSize →
  let pos := windowEnd h - c in
  represents (c :: hist) (mkWindow (windowEnd h)
    (<[Z.to_nat (pos / 64) := Z.lor (window h !!! Z.to_nat (pos / 64)) (u64 (Z.shiftl 1 (pos mod 64)))]> (window h))).
Proof.
  intros [[Hend Hok] Hb He Hbits] Hc Hin pos. change replayWindowSize with 4096 in *.
  assert (Hpos : 0 ≤ pos < 4096) by lia. split; cbn.
  - split; [done |]. apply words_ok_insert; [done |].
    apply in_u_lor; [lia | | by apply wrap_in_u]. apply word_in_u; [done |]. Z.div_mod_to_equations; lia.
  - by constructor.
  - destruct He as [He | [-> He]]; left; [by right |]. replace (windowEnd h) with c by lia. by left.
  - change replayWindowSize with 4096. intros d Hd Hd'. rewrite set_bit by (done || lia).
    rewrite elem_of_cons, orb_true_iff, Z.eqb_eq, Hbits by (done || lia).
    split; (intros [?|?]; [left; lia | by right]).
Qed.

Lemma CheckReplay_advance h c :
  Window_ok h → in_u 64 c → windowEnd h < c →
  ∃ w, CheckReplay c h = (mkWindow c (<[0%nat := Z.lor (w !!! 0%nat) 1]> w), Ok false) ∧
    words_ok w ∧
    ∀ p, 0 ≤ p < 4096 → wbit w p = (c - windowEnd h <=? p) && wbit (window h) (p - (c - windowEnd h)).
Proof.
  intros [He Hw] Hc Hlt. unfold CheckReplay. destruct (Z.ltb_spec (windowEnd h) c); [| lia].
  rewrite (wrap_small 64 (c - windowEnd h)) by (unfold in_u in *; lia).
  change replayWindowSize with 4096.
  destruct (Z.leb_spec 4096 (c - windowEnd h)); eexists; (split; [done |]).
  - split; [apply zero_words_ok |]. intros p Hp. rewrite wbit_zero by done.
    by destruct (Z.leb_spec (c - windowEnd h) p); [lia |].
  - split; [apply shiftWindow_ok; [lia | done] |]. intros p Hp. by rewrite shiftWindow_bit by (done || lia).
Qed.

Lemma CheckReplay_within h c :
  Window_ok h → 0 ≤ c ≤ windowEnd h → windowEnd h - c < replayWindowSize →
  let pos := windowEnd h - c in
  CheckReplay c h =
    if wbit (window h) pos then (h, Ok true)
    else (mkWindow (windowEnd h)
      (<[Z.to_nat (pos / 64) := Z.lor (window h !!! Z.to_nat (pos / 64)) (u64 (Z.shiftl 1 (pos mod 64)))]> (window h)), Ok false).
Proof.
  intros [He [Hl Hw]] Hc Hin pos. unfold CheckReplay. change replayWindowSize with 4096 in *.
  destruct (Z.ltb_spec (windowEnd h) c); [lia |].
  rewrite (wrap_small 64 (windowEnd h - c)) by (unfold in_u in *; lia). fold pos.
  destruct (Z.leb_spec 4096 pos); [lia |].
  destruct (window h !! Z.to_nat (pos / 64)) as [x|] eqn:E.
  - rewrite land_pow2_zero by (pose proof (Z.mod_pos_bound pos 64); lia).
    unfold wbit. rewrite (list_lookup_total_correct _ _ _ E), negb_involutive. done.
  - exfalso. apply lookup_ge_None in E. Z.div_mod_to_equations. lia.
Qed.

(** One call, against the history: the answer is "replay" exactly when the
    counter is not fresh, and the window represents the extended history. *)
Lemma CheckReplay_step hist h c :
  represents hist h → in_u 64 c →
  ∃ h', CheckReplay c h = (h', Ok (negb (bool_decide (fresh_counter hist c)))) ∧
    represents (if bool_decide (fresh_counter hist c) then c :: hist else hist) h'.
Proof.
  intros R Hc. pose proof R as [Hok Hb He Hbits].
  pose proof (fresh_iff_above hist h c R ltac:(unfold in_u in Hc; lia)) as Habove.
  destruct (decide (windowEnd h < c)) as [Hlt|Hge].
  - rewrite bool_decide_eq_true_2.
    + destruct (CheckReplay_advance h c Hok Hc Hlt) as (w & Hstep & Hw & Hwb).
      eexists; split; [exact Hstep |]. by eapply represents_advance.
    + split; [| apply Habove; unfold replayWindowSize; lia].
      intros Hin. rewrite Forall_forall in Hb. specialize (Hb c Hin). cbn in Hb. lia.
  - destruct (decide (windowEnd h - c < replayWindowSize)) as [Hin|Hout].
    + rewrite CheckReplay_within by (done || unfold in_u in Hc; lia).
      specialize (Hbits c ltac:(unfold in_u in Hc; lia) Hin).
      destruct (wbit (window h) (windowEnd h - c)) eqn:E.
      * rewrite bool_decide_eq_false_2 by (intros [Hn _]; by apply Hn, Hbits). eauto.
      * rewrite bool_decide_eq_true_2 by (split; [intros Hc'; by apply Hbits in Hc' | by apply Habove]).
        eexists; split; [done |]. apply represents_mark; [done | unfold in_u in Hc; lia | done].
    + rewrite bool_decide_eq_false_2 by (intros [_ Hf]; by apply Habove in Hf).
      exists h. split; [| done]. unfold CheckReplay. destruct (Z.ltb_spec (windowEnd h) c); [lia |].
      rewrite wrap_small by (destruct Hok as [Hend _]; unfold in_u in *; lia).
      by destruct (Z.leb_spec replayWindowSize (windowEnd h - c)); [| lia].
Qed.

Lemma accepted_represents cs hist h :
  Forall (in_u 64) cs → represents hist h →
  ∃ h', accepted cs h = (h', Ok (spec_accepted hist cs)).
Proof.
  intros Hcs. revert h hist. induction Hcs as [|c cs Hc Hcs IH]; intros h0 hist R;
    cbn [accepted spec_accepted]; [by eexists |].
  destruct (CheckReplay_step hist h0 c R Hc) as (h1 & Hstep & R1).
  rewrite (gbind_ok _ _ _ _ _ Hstep). destruct (IH _ _ R1) as [h2 H2].
  rewrite (gbind_ok _ _ _ _ _ H2).
  case_bool_decide; [rewrite decide_True by done | rewrite decide_False by done]; by eexists.
Qed.

(** ** Properties *)

(** C7. Refinement: over any sequence of received 64-bit counters, a session's
    window accepts exactly what the specification accepts that remembers every
    accepted counter and admits a counter when it was not accepted before and
    lies less than 4096 below the highest accepted one; no call panics. *)
Theorem CheckReplay_refines_history cs :
  Forall (in_u 64) cs →
  ∃ h, accepted cs newWindow = (h, Ok (spec_accepted [] cs)).
Proof. intros Hcs. apply accepted_represents; [done | apply newWindow_represents]. Qed.

Lemma CheckReplay_refines_history_witness :
  (accepted [3; 1; 3; 5000; 1; 904; 905; 905] newWindow).2 = Ok [3; 1; 5000; 905].
Proof.
  destruct (CheckReplay_refines_history [3; 1; 3; 5000; 1; 904; 905; 905]) as [h ->].
  - repeat constructor; unfold in_u; lia.
  - vm_compute. reflexivity.
Defined.

Lemma spec_accepted_fresh hist cs :
  NoDup (spec_accepted hist cs) ∧ Forall (λ c, c ∉ hist) (spec_accepted hist cs).
Proof.
  revert hist. induction cs as [|c cs IH]; intros hist; cbn [spec_accepted].
  - split; constructor.
  - case_decide as Hf; [| apply IH]. destruct (IH (c :: hist)) as [Hnd Hni].
    rewrite Forall_forall in Hni. split.
    + constructor; [| done]. intros Hin. apply (Hni c Hin). by left.
    + constructor; [apply Hf |]. apply Forall_forall. intros d Hd Hin. apply (Hni d Hd). by right.
Qed.

(** Safety: whatever an attacker replays or reorders, a session accepts no
    counter twice. *)
Theorem CheckReplay_accepts_once cs h l :
  Forall (in_u 64) cs → accepted cs newWindow = (h, Ok l) → NoDup l.
Proof.
  intros Hcs H. destruct (accepted_represents cs [] newWindow Hcs newWindow_represents) as [h' H'].
  rewrite H in H'. simplify_eq. apply spec_accepted_fresh.
Qed.

Lemma CheckReplay_accepts_once_witness :
  NoDup [7; 6; 5].
Proof.
  apply (CheckReplay_accepts_once [7; 7; 6; 5; 6; 7] (accepted [7; 7; 6; 5; 6; 7] newWindow).1).
  - repeat constructor; unfold in_u; lia.
  - vm_compute. reflexivity.
Defined.
