(* ===== verification/Net.v ===== *)
(** * Addresses: what neth uses of net/netip and net

    [netip.Addr] and [netip.Prefix] with the comparisons and masks that the
    firewall and the certificates rely on, and [net.UDPAddr] with [IP.Equal].
    Standard-library code, modelled after its documented behaviour. *)

From S2P Require Import Prelude Bytes.

(** ** netip.Addr *)

(** The zero [Addr], an IPv4 address, an IPv6 address with its zone (empty for
    none).  Addresses are comparable with [==] and are map keys. *)
Inductive Addr : Type :=
| AddrZero
| Addr4 (a : Z)
| Addr6 (a : Z) (zone : bytes).

#[global] Instance Addr_eq_dec : EqDecision Addr.
Proof. solve_decision. Defined.

#[global] Instance Addr_countable : Countable Addr.
Proof.
  refine (inj_countable'
    (λ x, match x with AddrZero => inl tt | Addr4 a => inr (inl a) | Addr6 a z => inr (inr (a, z)) end)
    (λ y, match y with inl _ => AddrZero | inr (inl a) => Addr4 a | inr (inr (a, z)) => Addr6 a z end) _).
  by intros [].
Defined.

Definition AddrFrom4 (b : bytes) : Addr := Addr4 (be_uint b).
Definition AddrFrom16 (b : bytes) : Addr := Addr6 (be_uint b) [].

Definition BitLen (ip : Addr) : Z :=
  match ip with AddrZero => 0 | Addr4 _ => 32 | Addr6 _ _ => 128 end.
Definition Is4 (ip : Addr) : bool := match ip with Addr4 _ => true | _ => false end.
Definition Is6 (ip : Addr) : bool := match ip with Addr6 _ _ => true | _ => false end.
Definition hasZone (ip : Addr) : bool :=
  match ip with Addr6 _ (_ :: _) => true | _ => false end.
Definition withoutZone (ip : Addr) : Addr :=
  match ip with Addr6 a _ => Addr6 a [] | _ => ip end.

Definition Addr_ok (ip : Addr) : Prop :=
  match ip with
  | AddrZero => True
  | Addr4 a => in_u 32 a
  | Addr6 a z => in_u 128 a ∧ bytes_ok z
  end.

(** [AsSlice]-like views; [As16] maps IPv4 into ::ffff:0:0/96. *)
Definition As4 (ip : Addr) : go bytes :=
  match ip with
  | Addr4 a => Ok (be_bytes 4 a)
  | Addr6 a _ =>
      if Z.shiftr a 32 =? 65535 then Ok (be_bytes 4 (u32 a)) else Panic
  | AddrZero => Panic
  end.

Definition v4InV6Prefix : bytes := replicate 10 0 ++ [255; 255].

Definition As16 (ip : Addr) : bytes :=
  match ip with
  | AddrZero => replicate 16 0
  | Addr4 a => v4InV6Prefix ++ be_bytes 4 a
  | Addr6 a _ => be_bytes 16 a
  end.

(** ** netip.Prefix *)

(** [pBits] is [Bits()]: -1 for an invalid prefix. *)
Record Prefix := mkPrefix { pIP : Addr; pBits : Z }.

#[global] Instance Prefix_eq_dec : EqDecision Prefix.
Proof. solve_decision. Defined.

(** The zero value [netip.Prefix{}]. *)
Definition PrefixZero : Prefix := mkPrefix AddrZero (-1).

Definition PrefixFrom (ip : Addr) (bits : Z) : Prefix :=
  match ip with
  | AddrZero => mkPrefix AddrZero (-1)
  | _ => mkPrefix (withoutZone ip)
           (if (0 <=? bits) && (bits <=? BitLen ip) then bits else -1)
  end.

Definition Prefix_IsValid (p : Prefix) : bool := 0 <=? pBits p.

(** The mask with the [bits] high bits of [w] set. *)
Definition mask (w bits : Z) : Z := Z.shiftl (Z.ones bits) (w - bits).

Definition Masked (p : Prefix) : Prefix :=
  if pBits p <? 0 then PrefixZero
  else match pIP p with
  | AddrZero => PrefixZero
  | Addr4 a => if 32 <? pBits p then PrefixZero
               else PrefixFrom (Addr4 (Z.land a (mask 32 (pBits p)))) (pBits p)
  | Addr6 a z => if 128 <? pBits p then PrefixZero
               else PrefixFrom (Addr6 (Z.land a (mask 128 (pBits p))) z) (pBits p)
  end.

Definition Contains (p : Prefix) (ip : Addr) : bool :=
  if negb (Prefix_IsValid p) || hasZone ip then false
  else match pIP p, ip with
  | Addr4 a, Addr4 b => u32 (Z.shiftr (Z.lxor b a) (32 - pBits p)) =? 0
  | Addr6 a _, Addr6 b _ => Z.land (Z.lxor b a) (mask 128 (pBits p)) =? 0
  | _, _ => false
  end.

(** A prefix as [PrefixFrom] builds it. *)
Definition Prefix_ok (p : Prefix) : Prop :=
  Addr_ok (pIP p) ∧ -1 ≤ pBits p ≤ BitLen (pIP p) ∧ hasZone (pIP p) = false ∧
  (pIP p = AddrZero → pBits p = -1).

(** ** Lemmas *)

Lemma mask_testbit w b i : 0 ≤ b ≤ w → 0 ≤ i → Z.testbit (mask w b) i = (w - b <=? i) && (i <? w).
Proof.
  intros Hb Hi. unfold mask. rewrite Z.shiftl_spec by lia.
  destruct (Z.leb_spec (w - b) i); [| by rewrite Z.testbit_neg_r by lia].
  rewrite Z.testbit_ones_nonneg by lia.
  destruct (Z.ltb_spec (i - (w - b)) b), (Z.ltb_spec i w); lia || done.
Qed.

Lemma eq_0_bits a : a = 0 ↔ ∀ i, 0 ≤ i → Z.testbit a i = false.
Proof.
  split; [intros -> i _; apply Z.bits_0 |]. intros H. apply Z.bits_inj'. intros i Hi.
  by rewrite H, Z.bits_0.
Qed.

(** The IPv4 test: the high [bits] bits agree. *)
Lemma Contains4_bits a b bits :
  in_u 32 a → in_u 32 b → 0 ≤ bits ≤ 32 →
  Contains (mkPrefix (Addr4 a) bits) (Addr4 b) = true ↔
    ∀ i, 32 - bits ≤ i < 32 → Z.testbit a i = Z.testbit b i.
Proof.
  intros Ha Hb Hbits. unfold Contains, Prefix_IsValid. cbn [pBits pIP hasZone].
  destruct (Z.leb_spec 0 bits) as [_|]; [| lia]. cbn [negb orb].
  rewrite wrap_small by (apply (in_u_shiftr 32 (32 - bits)) in Ha as Ha'; [|lia];
    pose proof (in_u_shiftr 32 (32 - bits) (Z.lxor b a) ltac:(lia) ltac:(by apply in_u_lxor)) as [? ?];
    split; [lia | eapply Z.lt_le_trans; [eassumption | apply Z.pow_le_mono_r; lia]]).
  rewrite Z.eqb_eq, eq_0_bits. split.
  - intros H i Hi. specialize (H (i - (32 - bits)) ltac:(lia)).
    rewrite Z.shiftr_spec, Z.lxor_spec in H by lia.
    replace (i - (32 - bits) + (32 - bits)) with i in H by lia.
    by destruct (Z.testbit a i), (Z.testbit b i).
  - intros H i Hi. rewrite Z.shiftr_spec, Z.lxor_spec by lia.
    destruct (decide (i + (32 - bits) < 32)).
    + rewrite H by lia. apply xorb_nilpotent.
    + by rewrite !(in_u_testbit_high 32) by (done || lia).
Qed.

Lemma Contains6_bits a b z bits :
  in_u 128 a → in_u 128 b → 0 ≤ bits ≤ 128 →
  Contains (mkPrefix (Addr6 a z) bits) (Addr6 b []) = true ↔
    ∀ i, 128 - bits ≤ i < 128 → Z.testbit a i = Z.testbit b i.
Proof.
  intros Ha Hb Hbits. unfold Contains, Prefix_IsValid. cbn [pBits pIP hasZone].
  destruct (Z.leb_spec 0 bits) as [_|]; [| lia]. cbn [negb orb].
  rewrite Z.eqb_eq, eq_0_bits. split.
  - intros H i Hi. specialize (H i ltac:(lia)).
    rewrite Z.land_spec, Z.lxor_spec, mask_testbit in H by lia.
    destruct (Z.leb_spec (128 - bits) i), (Z.ltb_spec i 128); try lia.
    by destruct (Z.testbit a i), (Z.testbit b i).
  - intros H i Hi. rewrite Z.land_spec, Z.lxor_spec, mask_testbit by lia.
    destruct (Z.leb_spec (128 - bits) i), (Z.ltb_spec i 128); cbn [andb]; rewrite ?andb_false_r; try done.
    rewrite H by lia. by rewrite xorb_nilpotent.
Qed.

Lemma in_u_land_mask w a b : 0 ≤ b ≤ w → in_u w a → in_u w (Z.land a (mask w b)).
Proof.
  intros Hb Ha. apply in_u_of_testbit; [lia | |].
  - apply Z.land_nonneg. unfold in_u in Ha. lia.
  - intros i Hi. rewrite Z.land_spec, (in_u_testbit_high w a) by (done || lia). done.
Qed.

(** Masking the host bits leaves the set of contained addresses unchanged. *)
Lemma Contains_Masked p ip :
  Prefix_ok p → Addr_ok ip → Contains (Masked p) ip = Contains p ip.
Proof.
  destruct p as [pip bits]. unfold Prefix_ok. cbn [pIP pBits]. intros (Hip & Hbits & Hz & Hzero) Hok.
  unfold Masked. cbn [pIP pBits]. destruct (Z.ltb_spec bits 0).
  { unfold Contains, Prefix_IsValid, PrefixZero. cbn [pBits]. destruct (Z.leb_spec 0 bits); [lia | done]. }
  destruct pip as [|a|a z]; cbn [BitLen] in Hbits; [specialize (Hzero eq_refl); lia | |].
  - destruct (Z.ltb_spec 32 bits); [lia |]. unfold PrefixFrom. cbn [withoutZone BitLen].
    destruct (Z.leb_spec 0 bits), (Z.leb_spec bits 32); try lia. cbn [andb].
    destruct ip as [|b|b z']; [done | | unfold Contains; by destruct (_ || _)].
    apply eq_true_iff_eq. cbn in Hip, Hok. rewrite !Contains4_bits by (auto using in_u_land_mask || lia).
    apply forall_proper. intros i.
    split; intros H' Hi; specialize (H' Hi); revert H'; rewrite Z.land_spec, mask_testbit by lia;
      (destruct (Z.leb_spec (32 - bits) i), (Z.ltb_spec i 32); try lia; by rewrite andb_true_r).
  - destruct (Z.ltb_spec 128 bits); [lia |]. unfold PrefixFrom. cbn [withoutZone BitLen].
    destruct (Z.leb_spec 0 bits), (Z.leb_spec bits 128); try lia. cbn [andb].
    destruct ip as [|b|b [|]]; [unfold Contains; by destruct (_ || _) | unfold Contains; by destruct (_ || _) | |
      unfold Contains; by rewrite !orb_true_r].
    destruct Hip as [Hip _], Hok as [Hok _].
    apply eq_true_iff_eq. rewrite !Contains6_bits by (auto using in_u_land_mask || lia).
    apply forall_proper. intros i.
    split; intros H' Hi; specialize (H' Hi); revert H'; rewrite Z.land_spec, mask_testbit by lia;
      (destruct (Z.leb_spec (128 - bits) i), (Z.ltb_spec i 128); try lia; by rewrite andb_true_r).
Qed.

(** ** net.UDPAddr *)

(** [net.IP] is a byte slice of length 4 or 16 (or anything else). *)
Record UDPAddr := mkUDPAddr { uIP : bytes; uPort : Z; uZone : bytes }.

#[global] Instance UDPAddr_eq_dec : EqDecision UDPAddr.
Proof. solve_decision. Defined.

(** [IP.Equal]: an IPv4 address and its IPv6-mapped form are equal. *)
Definition IP_Equal (ip x : bytes) : bool :=
  if decide (length ip = length x) then bool_decide (ip = x)
  else if decide (length ip = 4%nat ∧ length x = 16%nat) then
    bool_decide (take 12 x = v4InV6Prefix) && bool_decide (ip = drop 12 x)
  else if decide (length ip = 16%nat ∧ length x = 4%nat) then
    bool_decide (take 12 ip = v4InV6Prefix) && bool_decide (drop 12 ip = x)
  else false.

(** [IP.To4]: the 4-byte form, if there is one. *)
Definition To4 (ip : bytes) : option bytes :=
  if decide (length ip = 4%nat) then Some ip
  else if decide (length ip = 16%nat ∧ take 12 ip = v4InV6Prefix) then Some (drop 12 ip)
  else None.

Lemma IP_Equal_refl ip : IP_Equal ip ip = true.
Proof. unfold IP_Equal. rewrite decide_True by done. by rewrite bool_decide_eq_true. Qed.

Lemma IP_Equal_sym ip x : IP_Equal ip x = IP_Equal x ip.
Proof.
  unfold IP_Equal. repeat case_decide; try lia; try done; try f_equal;
    apply bool_decide_ext; split; congruence.
Qed.

(** The 16-byte form of an IPv4 address is equal to it. *)
Lemma IP_Equal_mapped ip : length ip = 4%nat → IP_Equal ip (v4InV6Prefix ++ ip) = true.
Proof.
  intros H. unfold IP_Equal. rewrite decide_False by (rewrite length_app, H; cbn; lia).
  rewrite decide_True by (rewrite length_app, H; done).
  by rewrite (take_app_length v4InV6Prefix), (drop_app_length v4InV6Prefix), !bool_decide_eq_true_2.
Qed.
