(* ===== verification/GoText.v ===== *)
(** * Text: what neth uses of packages strings, strconv, netip and net

    Go strings are byte sequences.  [TrimSpace], [ToLower], [ParseUint],
    [HasSuffix] and the textual forms of addresses ([netip.ParseAddr],
    [netip.ParsePrefix], [Addr.String], [net.ParseIP], [IP.String]). *)

From S2P Require Import Prelude Bytes Net.

(** A string literal of the source. *)
Definition lit (s : string) : bytes :=
  map (λ c, Z.of_nat (Ascii.nat_of_ascii c)) (String.list_ascii_of_string s).

(** ** strings *)

(** The width in bytes of the white-space rune (Unicode White_Space, UTF-8) a
    string starts with, 0 if it does not start with one. *)
Definition space_width (s : bytes) : nat :=
  match s with
  | b0 :: s1 =>
      if (b0 =? 32) || ((9 <=? b0) && (b0 <=? 13)) then 1%nat
      else match s1 with
      | b1 :: s2 =>
          if (b0 =? 194) && ((b1 =? 133) || (b1 =? 160)) then 2%nat
          else match s2 with
          | b2 :: _ =>
              if ((b0 =? 225) && (b1 =? 154) && (b2 =? 128))
                 || ((b0 =? 226) && (b1 =? 128) && (((128 <=? b2) && (b2 <=? 138))
                      || (b2 =? 168) || (b2 =? 169) || (b2 =? 175)))
                 || ((b0 =? 226) && (b1 =? 129) && (b2 =? 159))
                 || ((b0 =? 227) && (b1 =? 128) && (b2 =? 128)) then 3%nat
              else 0%nat
          | [] => 0%nat
          end
      | [] => 0%nat
      end
  | [] => 0%nat
  end.

(** The same for the rune a string ends with. *)
Definition space_width_last (s : bytes) : nat :=
  let n := length s in
  if decide (space_width (drop (n - 1) s) = 1 ∧ 1 ≤ n)%nat then 1%nat
  else if decide (space_width (drop (n - 2) s) = 2 ∧ 2 ≤ n)%nat then 2%nat
  else if decide (space_width (drop (n - 3) s) = 3 ∧ 3 ≤ n)%nat then 3%nat
  else 0%nat.

Fixpoint trim_left (fuel : nat) (s : bytes) : bytes :=
  match fuel with
  | O => s
  | S fuel' =>
      match space_width s with
      | O => s
      | k => trim_left fuel' (drop k s)
      end
  end.

Fixpoint trim_right (fuel : nat) (s : bytes) : bytes :=
  match fuel with
  | O => s
  | S fuel' =>
      match space_width_last s with
      | O => s
      | k => trim_right fuel' (take (length s - k) s)
      end
  end.

(** Each round removes at least one byte, so the length is enough fuel. *)
Definition TrimSpace (s : bytes) : bytes :=
  let s := trim_left (length s) s in trim_right (length s) s.

(** Lower case, as far as a comparison with an ASCII string can tell: besides
    A-Z, the runes whose lower case is ASCII are U+0130 and U+212A. *)
Fixpoint ToLower (s : bytes) : bytes :=
  match s with
  | 196 :: 176 :: s' => 105 :: ToLower s'
  | 226 :: 132 :: 170 :: s' => 107 :: ToLower s'
  | b :: s' => (if (65 <=? b) && (b <=? 90) then b + 32 else b) :: ToLower s'
  | [] => []
  end.

Definition HasSuffix (s suf : bytes) : bool :=
  bool_decide (length suf ≤ length s)%nat && bool_decide (drop (length s - length suf) s = suf).

(** ** strconv *)

Definition is_digit (c : Z) : bool := (48 <=? c) && (c <=? 57).

(** The digit loop of [ParseUint(s, 10, bitSize)] with [maxVal = 1<<bitSize-1]. *)
Fixpoint parse_digits (maxVal n : Z) (s : bytes) : go Z :=
  match s with
  | [] => Ok n
  | c :: s' =>
      if is_digit c then
        let n1 := n * 10 + (c - 48) in
        if maxVal <? n1 then Fail (Errorf "value out of range") else parse_digits maxVal n1 s'
      else Fail (Errorf "invalid syntax")
  end.

Definition ParseUint10 (s : bytes) (bitSize : Z) : go Z :=
  match s with
  | [] => Fail (Errorf "invalid syntax")
  | _ => parse_digits (2 ^ bitSize - 1) 0 s
  end.

(** Decimal digits of a number below 1000, without leading zeroes. *)
Definition dec3 (v : Z) : bytes :=
  (if 100 <=? v then [48 + v / 100] else []) ++
  (if 10 <=? v then [48 + v / 10 mod 10] else []) ++ [48 + v mod 10].

(** ** netip.ParseAddr *)

Definition dot : Z := 46.
Definition colon : Z := 58.
Definition percent : Z := 37.
Definition slash : Z := 47.

(** [parseIPv4Fields]: [prev] is [s[i-1]], [None] at the start; [fields] are the
    octets already closed by a dot. *)
Fixpoint parse_v4_fields (prev : option Z) (val : Z) (digLen : nat) (fields : bytes) (s : bytes) : go bytes :=
  match s with
  | [] =>
      if decide (length fields < 3)%nat then Fail (Errorf "IPv4 address too short")
      else Ok (fields ++ [val])
  | c :: s' =>
      if is_digit c then
        if bool_decide (digLen = 1%nat) && (val =? 0) then
          Fail (Errorf "IPv4 field has octet with leading zero")
        else
          let val := val * 10 + (c - 48) in
          if 255 <? val then Fail (Errorf "IPv4 field has value >255")
          else parse_v4_fields (Some c) val (S digLen) fields s'
      else if c =? dot then
        if bool_decide (prev = None) || bool_decide (s' = []) || bool_decide (prev = Some dot) then
          Fail (Errorf "IPv4 field must have at least one digit")
        else if decide (length fields = 3%nat) then Fail (Errorf "IPv4 address too long")
        else parse_v4_fields (Some c) 0 0 (fields ++ [val]) s'
      else Fail (Errorf "unexpected character")
  end.

Definition parseIPv4 (s : bytes) : go Addr :=
  try! f := parse_v4_fields None 0 0 [] s in Ok (AddrFrom4 f).

Definition hex_value (c : Z) : option Z :=
  if is_digit c then Some (c - 48)
  else if (97 <=? c) && (c <=? 102) then Some (c - 97 + 10)
  else if (65 <=? c) && (c <=? 70) then Some (c - 65 + 10)
  else None.

(** The hexadecimal group a string starts with: digits read, value, rest. *)
Fixpoint scan_hex (off : nat) (acc : Z) (s : bytes) : go (nat * Z * bytes) :=
  match s with
  | c :: s' =>
      match hex_value c with
      | Some d =>
          if decide (3 < off)%nat then Fail (Errorf "each group must have 4 or less digits")
          else scan_hex (S off) (Z.shiftl acc 4 + d) s'
      | None => Ok (off, acc, s)
      end
  | [] => Ok (off, acc, [])
  end.

(** The loop over groups.  [ip] holds the [i] bytes written so far, [ellipsis]
    the position of "::". Eight rounds fill the sixteen bytes. *)
Fixpoint parse_v6_groups (fuel : nat) (s ip : bytes) (ellipsis : option nat)
    : go (bytes * bytes * option nat) :=
  match fuel with
  | O => Ok (s, ip, ellipsis)
  | S fuel' =>
      try! (off, acc, rest) := scan_hex 0 0 s in
      if decide (off = 0%nat) then Fail (Errorf "each colon-separated field must have at least one digit")
      else match rest with
      | [] => Ok ([], ip ++ [Z.shiftr acc 8; u8 acc], ellipsis)
      | c :: rest' =>
          if c =? dot then
            if bool_decide (ellipsis = None) && negb (bool_decide (length ip = 12%nat)) then
              Fail (Errorf "embedded IPv4 address must replace the final 2 fields of the address")
            else if decide (16 < length ip + 4)%nat then
              Fail (Errorf "too many hex fields to fit an embedded IPv4 at the end of the address")
            else
              try! f := parse_v4_fields None 0 0 [] s in Ok ([], ip ++ f, ellipsis)
          else
            let ip := ip ++ [Z.shiftr acc 8; u8 acc] in
            if negb (c =? colon) then Fail (Errorf "unexpected character, want colon")
            else match rest' with
            | [] => Fail (Errorf "colon must be followed by more characters")
            | c' :: rest'' =>
                if c' =? colon then
                  match ellipsis with
                  | Some _ => Fail (Errorf "multiple :: in address")
                  | None =>
                      match rest'' with
                      | [] => Ok ([], ip, Some (length ip))
                      | _ => parse_v6_groups fuel' rest'' ip (Some (length ip))
                      end
                  end
                else parse_v6_groups fuel' rest' ip ellipsis
            end
      end
  end.

(** Position of the first byte equal to [c]. *)
Fixpoint index_byte (c : Z) (s : bytes) : option nat :=
  match s with
  | [] => None
  | x :: s' => if x =? c then Some 0%nat else S <$> index_byte c s'
  end.

(** [s, zone = s[:i], s[i+1:]] at the first '%'. *)
Definition split_zone (s : bytes) : bytes * option bytes :=
  match index_byte percent s with
  | Some i => (take i s, Some (drop (S i) s))
  | None => (s, None)
  end.

Definition parseIPv6 (s : bytes) : go Addr :=
  let '(body, z) := split_zone s in
  if bool_decide (z = Some []) then Fail (Errorf "zone must be a non-empty string")
  else
    let zone := default [] z in
    let lead := bool_decide (take 2 body = [colon; colon]) in
    let body := if lead then drop 2 body else body in
    if lead && bool_decide (body = []) then Ok (Addr6 0 zone)
    else
      try! (s, ip, ellipsis) := parse_v6_groups 8 body [] (if lead then Some 0%nat else None) in
      if negb (bool_decide (s = [])) then Fail (Errorf "trailing garbage after address")
      else if decide (length ip < 16)%nat then
        match ellipsis with
        | None => Fail (Errorf "address string too short")
        | Some e => Ok (Addr6 (be_uint (take e ip ++ replicate (16 - length ip) 0 ++ drop e ip)) zone)
        end
      else match ellipsis with
      | Some _ => Fail (Errorf "the :: must expand to at least one field of zeros")
      | None => Ok (Addr6 (be_uint ip) zone)
      end.

(** The first '.', ':' or '%' decides the family. *)
Fixpoint addr_family (s : bytes) : option Z :=
  match s with
  | [] => None
  | c :: s' => if (c =? dot) || (c =? colon) || (c =? percent) then Some c else addr_family s'
  end.

Definition ParseAddr (s : bytes) : go Addr :=
  match addr_family s with
  | None => Fail (Errorf "unable to parse IP")
  | Some c =>
      if c =? dot then parseIPv4 s
      else if c =? colon then parseIPv6 s
      else Fail (Errorf "missing IPv6 address")
  end.

(** ** netip.ParsePrefix *)

Definition last_index_byte (c : Z) (s : bytes) : option nat :=
  match index_byte c (reverse s) with
  | Some i => Some (length s - 1 - i)%nat
  | None => None
  end.

Definition ParsePrefix (s : bytes) : go Prefix :=
  match last_index_byte slash s with
  | None => Fail (Errorf "no '/'")
  | Some i =>
      try! ip := ParseAddr (take i s) in
      if Is6 ip && hasZone ip then Fail (Errorf "IPv6 zones cannot be present in a prefix")
      else
        let bitsStr := drop (S i) s in
        if bool_decide (1 < length bitsStr)%nat
           && match bitsStr with c :: _ => negb ((49 <=? c) && (c <=? 57)) | [] => false end then
          Fail (Errorf "bad bits after slash")
        else
          (* strconv.Atoi on what is now empty, one byte, or a byte 1-9 and more *)
          match ParseUint10 bitsStr 63 with
          | Ok bits =>
              let maxBits := if Is6 ip then 128 else 32 in
              if maxBits <? bits then Fail (Errorf "prefix length out of range")
              else Ok (PrefixFrom ip bits)
          | _ => Fail (Errorf "bad bits after slash")
          end
  end.

(** ** Addr.String *)

Definition join_dots (f : bytes) : bytes :=
  match f with
  | [] => []
  | x :: f' => dec3 x ++ concat (map (λ y, dot :: dec3 y) f')
  end.

Definition string4 (a : Z) : bytes := join_dots (be_bytes 4 a).

Definition hex_digit (d : Z) : Z := if d <? 10 then 48 + d else 97 + (d - 10).

(** [appendHex]: no leading zeroes. *)
Definition hex16 (x : Z) : bytes :=
  (if 4096 <=? x then [hex_digit (Z.shiftr x 12)] else []) ++
  (if 256 <=? x then [hex_digit (Z.land (Z.shiftr x 8) 15)] else []) ++
  (if 16 <=? x then [hex_digit (Z.land (Z.shiftr x 4) 15)] else []) ++
  [hex_digit (Z.land x 15)].

(** The eight 16-bit groups. *)
Definition groups6 (a : Z) : list Z := map (λ k, u16 (Z.shiftr a (16 * (7 - k)))) (seqZ 0 8).

(** Length of the run of zero groups a list starts with. *)
Fixpoint zero_run (g : list Z) : nat :=
  match g with
  | x :: g' => if x =? 0 then S (zero_run g') else 0%nat
  | [] => 0%nat
  end.

(** The leftmost longest run of at least two zero groups: start and end. *)
Definition best_run (g : list Z) : option (nat * nat) :=
  fold_left (λ best i,
    let l := zero_run (drop i g) in
    if bool_decide (2 ≤ l)%nat
       && bool_decide (match best with Some (s, e) => e - s | None => 0%nat end < l)%nat
    then Some (i, (i + l)%nat) else best) (seq 0 8) None.

Fixpoint join_colons (g : list Z) : bytes :=
  match g with
  | [] => []
  | [x] => hex16 x
  | x :: g' => hex16 x ++ colon :: join_colons g'
  end.

Definition string6 (a : Z) : bytes :=
  let g := groups6 a in
  match best_run g with
  | None => join_colons g
  | Some (s, e) => join_colons (take s g) ++ [colon; colon] ++ join_colons (drop e g)
  end.

Definition with_zone (s zone : bytes) : bytes :=
  match zone with [] => s | _ => s ++ percent :: zone end.

Definition Addr_String (ip : Addr) : bytes :=
  match ip with
  | AddrZero => lit "invalid IP"
  | Addr4 a => string4 a
  | Addr6 a z =>
      if Z.shiftr a 32 =? 65535 then with_zone (lit "::ffff:" ++ string4 (u32 a)) z
      else with_zone (string6 a) z
  end.

(** ** net.ParseIP and IP.String *)

Definition ParseIP (s : bytes) : option bytes :=
  match ParseAddr s with
  | Ok ip => if hasZone ip then None else Some (As16 ip)
  | _ => None
  end.

Definition IP_String (ip : bytes) : bytes :=
  match ip with
  | [] => lit "<nil>"
  | _ =>
      match To4 ip with
      | Some p4 => string4 (be_uint p4)
      | None =>
          if decide (length ip = 16%nat) then Addr_String (AddrFrom16 ip)
          else lit "?" ++ concat (map (λ b, [hex_digit (Z.shiftr b 4); hex_digit (Z.land b 15)]) ip)
      end
  end.

(** ** [Prefix.String] *)
Definition Prefix_String (p : Prefix) : bytes :=
  if Prefix_IsValid p then Addr_String (pIP p) ++ [slash] ++ dec3 (pBits p) else lit "invalid Prefix".

(** ** Examples that fix the reading of the library's documentation *)

Example trim_ex : TrimSpace ([194; 160; 32] ++ lit "tcp" ++ [9; 226; 128; 168]) = lit "tcp".
Proof. reflexivity. Qed.
Example lower_ex : ToLower (lit "TcP") = lit "tcp".
Proof. reflexivity. Qed.
Example addr4_ex : ParseAddr (lit "10.0.0.2") = Ok (Addr4 (10 * 2 ^ 24 + 2)).
Proof. reflexivity. Qed.
Example addr4_bad : is_ok (ParseAddr (lit "10.0.01.2")) = false ∧ is_ok (ParseAddr (lit "10.0.0.")) = false.
Proof. done. Qed.
Example addr6_ex :
  Addr_String (match ParseAddr (lit "2001:0db8:0:0:1:0:0:1%eth0") with Ok a => a | _ => AddrZero end)
    = lit "2001:db8::1:0:0:1%eth0".
Proof. reflexivity. Qed.
Example addr6_mapped :
  ParseAddr (lit "::ffff:1.2.3.4") = Ok (Addr6 (65535 * 2 ^ 32 + 16909060) []) ∧
  Addr_String (Addr6 (65535 * 2 ^ 32 + 16909060) []) = lit "::ffff:1.2.3.4" ∧
  ParseAddr (lit "::") = Ok (Addr6 0 []) ∧ Addr_String (Addr6 0 []) = lit "::" ∧
  Addr_String (Addr6 1 []) = lit "::1" ∧ ParseAddr (lit "1::") = Ok (Addr6 (2 ^ 112) []).
Proof. repeat split; reflexivity. Qed.
Example prefix_ex : ParsePrefix (lit "10.0.0.0/24") = Ok (mkPrefix (Addr4 (10 * 2 ^ 24)) 24).
Proof. reflexivity. Qed.
Example prefix_bad :
  is_ok (ParsePrefix (lit "10.0.0.0/033")) = false ∧ is_ok (ParsePrefix (lit "10.0.0.0/33")) = false ∧
  is_ok (ParsePrefix (lit "10.0.0.0/")) = false ∧ is_ok (ParsePrefix (lit "10.0.0.0/+8")) = false.
Proof. repeat split; reflexivity. Qed.

(** ** IPv4 text round trip *)

Lemma in_u8_seqZ (P : Z → Prop) : Forall P (seqZ 0 256) → ∀ v, in_u 8 v → P v.
Proof.
  intros H v Hv. rewrite Forall_forall in H. apply H, elem_of_seqZ.
  unfold in_u in Hv. change (2 ^ 8) with 256 in Hv. lia.
Qed.

(** The digits of an octet are read back as that octet. *)
Lemma parse_v4_dec3 v :
  in_u 8 v → ∀ prev fields rest, ∃ c n,
    c ≠ dot ∧ parse_v4_fields prev 0 0 fields (dec3 v ++ rest) = parse_v4_fields (Some c) v n fields rest.
Proof.
  intros Hv. pattern v. refine (in_u8_seqZ _ _ v Hv).
  let l := eval vm_compute in (seqZ 0 256) in change (seqZ 0 256) with l.
  repeat (apply Forall_cons_2;
    [intros prev fields rest; eexists _, _; (split; [| reflexivity]); discriminate |]).
  apply Forall_nil_2.
Qed.

Lemma addr_family_dec3 v : in_u 8 v → ∀ rest, addr_family (dec3 v ++ dot :: rest) = Some dot.
Proof.
  intros Hv. pattern v. refine (in_u8_seqZ _ _ v Hv).
  let l := eval vm_compute in (seqZ 0 256) in change (seqZ 0 256) with l.
  repeat (apply Forall_cons_2; [intros rest; reflexivity |]). apply Forall_nil_2.
Qed.

Lemma dec3_cons v : ∃ c l, dec3 v = c :: l.
Proof. unfold dec3. destruct (100 <=? v), (10 <=? v); cbn; eauto. Qed.

Lemma parse_v4_dot c v n fields x rest :
  c ≠ dot → (length fields < 3)%nat →
  parse_v4_fields (Some c) v n fields (dot :: dec3 x ++ rest) =
    parse_v4_fields (Some dot) 0 0 (fields ++ [v]) (dec3 x ++ rest).
Proof.
  intros Hc Hf. destruct (dec3_cons x) as (d & l & ->). cbn [parse_v4_fields app].
  change (is_digit dot) with false. change (dot =? dot) with true. cbn [negb].
  rewrite (bool_decide_eq_false_2 (Some c = None)), (bool_decide_eq_false_2 (d :: l ++ rest = [])),
    (bool_decide_eq_false_2 (Some c = Some dot)) by congruence.
  cbn [orb]. by rewrite decide_False by lia.
Qed.

Lemma parse_v4_join (a b c d : Z) :
  Forall (in_u 8) [a; b; c; d] → parse_v4_fields None 0 0 [] (join_dots [a; b; c; d]) = Ok [a; b; c; d].
Proof.
  intros H. rewrite !Forall_cons in H. destruct H as (Ha&Hb&Hc&Hd&_). cbn [join_dots map concat].
  destruct (parse_v4_dec3 a Ha None [] (concat [dot :: dec3 b; dot :: dec3 c; dot :: dec3 d]))
    as (ca&na&Hca&Ea).
  cbn [concat] in Ea. rewrite Ea. cbn [app]. rewrite parse_v4_dot by (done || cbn; lia).
  destruct (parse_v4_dec3 b Hb (Some dot) ([] ++ [a]) (concat [dot :: dec3 c; dot :: dec3 d])) as (cb&nb&Hcb&Eb).
  cbn [concat app] in Eb |- *. rewrite Eb. rewrite parse_v4_dot by (done || cbn; lia).
  destruct (parse_v4_dec3 c Hc (Some dot) ([a] ++ [b]) (concat [dot :: dec3 d])) as (cc&nc&Hcc&Ec).
  cbn [concat app] in Ec |- *. rewrite Ec. rewrite parse_v4_dot by (done || cbn; lia).
  destruct (parse_v4_dec3 d Hd (Some dot) ([a; b] ++ [c]) []) as (cd&nd&Hcd&Ed).
  cbn [app] in Ed |- *. rewrite Ed. reflexivity.
Qed.

Lemma ParseAddr_string4 a : in_u 32 a → ParseAddr (string4 a) = Ok (Addr4 a).
Proof.
  intros Ha. pose proof (be_bytes_ok 4 a) as Hok. pose proof (length_be_bytes 4 a) as Hl.
  pose proof (be_uint_be_bytes 4 a Ha) as Hr. unfold string4.
  destruct (be_bytes 4 a) as [|x [|y [|z [|w [|]]]]]; try discriminate.
  unfold ParseAddr. pose proof (Forall_inv Hok) as Hx.
  cbn [join_dots map concat]. cbn [app]. rewrite addr_family_dec3 by done.
  change (dot =? dot) with true. cbn [ParseAddr]. unfold parseIPv4.
  pose proof (parse_v4_join x y z w) as Hp. cbn [join_dots map concat app] in Hp.
  rewrite Hp by done. cbn [go_bind]. unfold AddrFrom4. by rewrite Hr.
Qed.

(** The text is ASCII. *)
Definition ascii (s : bytes) : Prop := Forall (in_u 7) s.

Lemma dec3_ascii v : in_u 8 v → ascii (dec3 v).
Proof.
  intros Hv. pattern v. refine (in_u8_seqZ _ _ v Hv).
  let l := eval vm_compute in (seqZ 0 256) in change (seqZ 0 256) with l.
  repeat (apply Forall_cons_2; [by apply (bool_decide_unpack _); vm_compute |]). apply Forall_nil_2.
Qed.

Lemma join_dots_ascii f : bytes_ok f → ascii (join_dots f).
Proof.
  destruct 1 as [|x f Hx Hf]; [by apply Forall_nil |]. cbn. apply Forall_app. split; [by apply dec3_ascii |].
  induction Hf as [|y f Hy Hf IH]; cbn; [by apply Forall_nil |].
  apply Forall_cons. split; [by unfold in_u, dot |]. apply Forall_app. split; [by apply dec3_ascii | done].
Qed.

Lemma string4_ascii a : ascii (string4 a).
Proof. apply join_dots_ascii, be_bytes_ok. Qed.

Lemma To4_short ip : length ip = 4%nat → To4 ip = Some ip.
Proof. intros H. unfold To4. by rewrite decide_True. Qed.

Lemma To4_mapped ip : length ip = 4%nat → To4 (v4InV6Prefix ++ ip) = Some ip.
Proof.
  intros H. unfold To4. rewrite decide_False by (rewrite length_app, H; cbn; lia).
  rewrite decide_True by (rewrite length_app, H, (take_app_length v4InV6Prefix); done).
  by rewrite (drop_app_length v4InV6Prefix).
Qed.

Lemma IP_String_To4 ip p4 : To4 ip = Some p4 → ip ≠ [] → IP_String ip = string4 (be_uint p4).
Proof. intros H Hne. unfold IP_String. rewrite H. by destruct ip. Qed.

(** [ParseIP] of an IPv4 address's text is the IPv6-mapped form of it, whichever
    form the address was stored in. *)
Lemma ParseIP_String_v4 ip p4 :
  To4 ip = Some p4 → length p4 = 4%nat → bytes_ok p4 → ip ≠ [] →
  ParseIP (IP_String ip) = Some (v4InV6Prefix ++ p4).
Proof.
  intros H Hl Hok Hne. rewrite (IP_String_To4 ip p4) by done. unfold ParseIP.
  pose proof (be_uint_bound p4 0 0 Hok ltac:(done) ltac:(lia)) as Hin. rewrite Hl in Hin.
  rewrite ParseAddr_string4 by done. cbn [hasZone As16].
  by rewrite <- Hl, be_bytes_be_uint.
Qed.

(** ** Parsers never panic, and what they return is in range *)

Lemma is_digit_range c : is_digit c = true → 0 ≤ c - 48 ≤ 9.
Proof. unfold is_digit. rewrite andb_true_iff, !Z.leb_le. lia. Qed.

Lemma parse_digits_yields maxVal n s :
  0 ≤ n ≤ maxVal → yields (λ v, 0 ≤ v ≤ maxVal) (parse_digits maxVal n s).
Proof.
  revert n. induction s as [|c s IH]; intros n Hn; cbn; [done |].
  destruct (is_digit c) eqn:Hc; [| done]. apply is_digit_range in Hc.
  destruct (Z.ltb_spec maxVal (n * 10 + (c - 48))); [done |]. apply IH. lia.
Qed.

Lemma ParseUint10_yields s w : 0 ≤ w → yields (in_u w) (ParseUint10 s w).
Proof.
  intros Hw. unfold ParseUint10. destruct s as [|c s]; [done |].
  pose proof (Z.pow_pos_nonneg 2 w ltac:(lia) Hw).
  eapply yields_mono; [apply parse_digits_yields; lia |]. unfold in_u. intros v. lia.
Qed.

Lemma parse_v4_yields prev val digLen fields s :
  0 ≤ val ≤ 255 → bytes_ok fields → (length fields ≤ 3)%nat →
  yields (λ f, bytes_ok f ∧ length f = 4%nat) (parse_v4_fields prev val digLen fields s).
Proof.
  revert prev val digLen fields. induction s as [|c s IH]; intros prev val digLen fields Hv Hf Hl;
    cbn [parse_v4_fields].
  - case_decide; [done |]. cbn. rewrite length_app. cbn. split; [| lia].
    apply Forall_app. split; [done |]. repeat constructor; unfold in_u; lia.
  - destruct (is_digit c) eqn:Hc.
    + apply is_digit_range in Hc. destruct (_ && _); [done |].
      destruct (Z.ltb_spec 255 (val * 10 + (c - 48))); [done |]. apply IH; [lia | done | done].
    + destruct (c =? dot); [| done]. destruct (_ || _); [done |]. case_decide; [done |].
      apply IH; [lia | | rewrite length_app; cbn; lia].
      apply Forall_app. split; [done |]. repeat constructor; unfold in_u; lia.
Qed.

Lemma hex_value_range c d : hex_value c = Some d → 0 ≤ d < 16.
Proof.
  unfold hex_value, is_digit. intros H.
  destruct ((48 <=? c) && (c <=? 57)) eqn:E1; [| destruct ((97 <=? c) && (c <=? 102)) eqn:E2;
    [| destruct ((65 <=? c) && (c <=? 70)) eqn:E3; [| done]]];
    rewrite andb_true_iff, !Z.leb_le in *; simplify_eq; lia.
Qed.

Lemma scan_hex_yields off acc s :
  (off ≤ 4)%nat → 0 ≤ acc < 16 ^ Z.of_nat off →
  yields (λ r, 0 ≤ r.1.2 < 65536) (scan_hex off acc s).
Proof.
  revert off acc. induction s as [|c s IH]; intros off acc Ho Ha; cbn [scan_hex].
  - cbn. assert (16 ^ Z.of_nat off ≤ 16 ^ 4) by (apply Z.pow_le_mono_r; lia). lia.
  - destruct (hex_value c) as [d|] eqn:Hd.
    + apply hex_value_range in Hd. case_decide; [done |]. apply IH; [lia |].
      rewrite Z.shiftl_mul_pow2, Nat2Z.inj_succ, Z.pow_succ_r by lia. lia.
    + cbn. assert (16 ^ Z.of_nat off ≤ 16 ^ 4) by (apply Z.pow_le_mono_r; lia). lia.
Qed.

Lemma group_bytes_ok acc : 0 ≤ acc < 65536 → bytes_ok [Z.shiftr acc 8; u8 acc].
Proof.
  intros H. apply Forall_cons_2; [| apply Forall_cons_2; [by apply wrap_in_u | constructor]].
  apply (in_u_shiftr 16 8); unfold in_u; lia.
Qed.

Lemma parse_v6_yields fuel s ip ell :
  bytes_ok ip → (length ip + 2 * fuel = 16)%nat →
  yields (λ r, bytes_ok r.1.2 ∧ (length r.1.2 ≤ 16)%nat) (parse_v6_groups fuel s ip ell).
Proof.
  revert s ip ell. induction fuel as [|fuel IH]; intros s ip ell Hip Hl; cbn [parse_v6_groups].
  { cbn. split; [done | lia]. }
  eapply yields_bind; [apply (scan_hex_yields 0 0 s); lia |].
  intros [[off acc] rest] Hacc. cbn [fst snd] in Hacc. case_decide; [done |].
  assert (Hip' : bytes_ok (ip ++ [Z.shiftr acc 8; u8 acc])) by
    (apply Forall_app; split; [done | by apply group_bytes_ok]).
  assert (Hl' : (length (ip ++ [Z.shiftr acc 8; u8 acc]) + 2 * fuel = 16)%nat) by
    (rewrite length_app; cbn; lia).
  destruct rest as [|c rest]; [cbn; split; [done | lia] |].
  destruct (c =? dot).
  - destruct (_ && _); [done |]. case_decide; [done |].
    eapply yields_bind; [apply (parse_v4_yields None 0 0 [] s); [lia | constructor | cbn; lia] |].
    intros f [Hf Hlf]. cbn. rewrite length_app. split; [by apply Forall_app | lia].
  - destruct (negb (c =? colon)); [done |]. destruct rest as [|c' rest]; [done |].
    destruct (c' =? colon); [| by apply IH]. destruct ell; [done |].
    destruct rest as [|x rest]; [cbn; split; [done | lia] |]. by apply IH.
Qed.

Lemma be_uint_16 (l : bytes) : bytes_ok l → length l = 16%nat → in_u 128 (be_uint l).
Proof.
  intros H Hl. pose proof (be_uint_bound l 0 0 H ltac:(done) ltac:(lia)) as Hb. by rewrite Hl in Hb.
Qed.

Lemma parseIPv6_yields s :
  yields (λ ip, ∃ a z, ip = Addr6 a z ∧ in_u 128 a) (parseIPv6 s).
Proof.
  unfold parseIPv6. destruct (split_zone s) as [body z]. destruct (bool_decide (z = Some [])); [done |].
  destruct (_ && _); [cbn; eexists _, _; split; [done | unfold in_u; lia] |].
  eapply yields_bind; [apply (parse_v6_yields 8 _ [] _); [constructor | done] |].
  intros [[s' ip] ell] [Hip Hl]. cbn [fst snd] in *. destruct (negb _); [done |].
  case_decide; destruct ell as [e|]; try done; cbn; eexists _, _; (split; [done |]);
    apply be_uint_16; [| | done | lia].
  - unfold bytes_ok. rewrite !Forall_app. split_and!;
      [by apply Forall_take | apply Forall_replicate; unfold in_u; lia | by apply Forall_drop].
  - rewrite !length_app, length_take, length_drop, length_replicate. lia.
Qed.

Lemma parseIPv4_yields s : yields (λ ip, ∃ a, ip = Addr4 a ∧ in_u 32 a) (parseIPv4 s).
Proof.
  unfold parseIPv4. eapply yields_bind; [apply (parse_v4_yields None 0 0 [] s); [lia | constructor | cbn; lia] |].
  intros f [Hf Hl]. cbn. eexists. split; [done |].
  pose proof (be_uint_bound f 0 0 Hf ltac:(done) ltac:(lia)) as H. by rewrite Hl in H.
Qed.

Lemma ParseAddr_yields s :
  yields (λ ip, (∃ a, ip = Addr4 a ∧ in_u 32 a) ∨ (∃ a z, ip = Addr6 a z ∧ in_u 128 a)) (ParseAddr s).
Proof.
  unfold ParseAddr. destruct (addr_family s) as [c|]; [| done].
  destruct (c =? dot); [eapply yields_mono; [apply parseIPv4_yields | auto] |].
  destruct (c =? colon); [eapply yields_mono; [apply parseIPv6_yields | auto] | done].
Qed.

Lemma ParsePrefix_yields s : yields Prefix_ok (ParsePrefix s).
Proof.
  unfold ParsePrefix. cbv zeta. destruct (last_index_byte slash s) as [i|]; [| done].
  eapply yields_bind; [apply ParseAddr_yields |]. intros ip Hip.
  destruct (Is6 ip && hasZone ip) eqn:Hz; [done |]. destruct (bool_decide _ && _); [done |].
  pose proof (ParseUint10_yields (drop (S i) s) 63 ltac:(lia)) as Hb.
  destruct (ParseUint10 _ _) as [bits | |]; [| done | done]. cbn in Hb. unfold in_u in Hb.
  destruct Hip as [(a & -> & Ha) | (a & z & -> & Ha)]; cbn [Is6].
  - destruct (Z.ltb_spec 32 bits); [done |]. unfold PrefixFrom. cbn.
    destruct (Z.leb_spec 0 bits), (Z.leb_spec bits 32); try lia. cbn.
    split_and!; cbn; try done; lia.
  - destruct z; [| done]. destruct (Z.ltb_spec 128 bits); [done |]. unfold PrefixFrom. cbn.
    destruct (Z.leb_spec 0 bits), (Z.leb_spec bits 128); try lia. cbn.
    split_and!; cbn; try done; try lia. split; [done | constructor].
Qed.

Lemma ParsePrefix_valid s p : ParsePrefix s = Ok p → 0 ≤ pBits p.
Proof.
  unfold ParsePrefix. cbv zeta. destruct (last_index_byte slash s) as [i|]; [| done].
  pose proof (ParseAddr_yields (take i s)) as Hip.
  destruct (ParseAddr _) as [ip| |]; cbn [go_bind]; [| done ..].
  destruct (Is6 ip && hasZone ip); [done |]. destruct (bool_decide _ && _); [done |].
  pose proof (ParseUint10_yields (drop (S i) s) 63 ltac:(lia)) as Hb.
  destruct (ParseUint10 _ _) as [bits | |]; [| done | done]. cbn in Hb. unfold in_u in Hb.
  destruct Hip as [(a & -> & _) | (a & z & -> & _)]; cbn [Is6].
  - destruct (Z.ltb_spec 32 bits); [done |]. intros [= <-]. cbn.
    destruct (Z.leb_spec 0 bits), (Z.leb_spec bits 32); cbn; lia.
  - destruct (Z.ltb_spec 128 bits); [done |]. intros [= <-]. cbn.
    destruct (Z.leb_spec 0 bits), (Z.leb_spec bits 128); cbn; lia.
Qed.

(** ** Trimming keeps the bytes it does not drop *)

Lemma trim_left_Forall (P : Z → Prop) n s : Forall P s → Forall P (trim_left n s).
Proof.
  revert s. induction n as [|n IH]; intros s H; cbn; [done |]. destruct (space_width s); [done |].
  by apply IH, Forall_drop.
Qed.

Lemma trim_right_Forall (P : Z → Prop) n s : Forall P s → Forall P (trim_right n s).
Proof.
  revert s. induction n as [|n IH]; intros s H; cbn; [done |]. destruct (space_width_last s); [done |].
  by apply IH, Forall_take.
Qed.

Lemma TrimSpace_Forall (P : Z → Prop) s : Forall P s → Forall P (TrimSpace s).
Proof. intros H. by apply trim_right_Forall, trim_left_Forall. Qed.
