(* ===== verification/GoPath.v ===== *)
(** * Splitting, joining and cleaning paths

    What src/cmd and src/interface.go use of Go's strings, encoding/hex and
    path/filepath (on Unix), written out. *)

From S2P Require Import Prelude GoText.

(** ** [strings.Split] at a byte and [strings.Join] *)

Fixpoint Split (c : Z) (s : bytes) : list bytes :=
  match s with
  | [] => [[]]
  | x :: s' =>
      if x =? c then [] :: Split c s'
      else match Split c s' with
           | h :: t => (x :: h) :: t
           | [] => [[x]]
           end
  end.

Fixpoint strings_Join (sep : bytes) (l : list bytes) : bytes :=
  match l with
  | [] => []
  | [x] => x
  | x :: l' => x ++ sep ++ strings_Join sep l'
  end.

(** ** [hex.EncodeToString] *)
Definition EncodeToString (b : bytes) : bytes :=
  concat (map (λ x, [hex_digit (Z.shiftr x 4); hex_digit (Z.land x 15)]) b).

(** ** [filepath.Clean] and [filepath.Join] *)

(** One element of the path: empty elements and "." go, ".." removes the element
    before it, stays at the front of a relative path and goes at the root. The
    elements so far are in reverse order. *)
Definition clean_step (rooted : bool) (acc : list bytes) (e : bytes) : list bytes :=
  if decide (e = [] ∨ e = [dot]) then acc
  else if decide (e = [dot; dot]) then
    match acc with
    | [] => if rooted then [] else [e]
    | x :: acc' => if decide (x = [dot; dot]) then e :: acc else acc'
    end
  else e :: acc.

Definition is_rooted (path : bytes) : bool := bool_decide (head path = Some slash).

(** The elements of a cleaned path. *)
Definition elements (path : bytes) : list bytes :=
  rev (fold_left (clean_step (is_rooted path)) (Split slash path) []).

(** The path with these elements. *)
Definition render (rooted : bool) (l : list bytes) : bytes :=
  if rooted then slash :: strings_Join [slash] l
  else match l with [] => [dot] | _ => strings_Join [slash] l end.

Definition Clean (path : bytes) : bytes := render (is_rooted path) (elements path).

(** The leading empty elements are skipped. *)
Fixpoint filepath_Join (elem : list bytes) : bytes :=
  match elem with
  | [] => []
  | [] :: elem' => filepath_Join elem'
  | _ => Clean (strings_Join [slash] elem)
  end.

(** ** Lemmas *)

Lemma Split_nonempty c s : Split c s ≠ [].
Proof. destruct s as [|x s]; cbn; [done |]. destruct (x =? c); [done |]. by destruct (Split c s). Qed.

Lemma Split_plain c s : c ∉ s → Split c s = [s].
Proof.
  induction s as [|x s IH]; intros H; [done |]. apply not_elem_of_cons in H as [Hx Hs]. cbn.
  destruct (Z.eqb_spec x c); [done |]. by rewrite IH.
Qed.

Lemma Split_app c s t : c ∉ s → Split c (s ++ c :: t) = s :: Split c t.
Proof.
  induction s as [|x s IH]; intros H; cbn; [by rewrite Z.eqb_refl |].
  apply not_elem_of_cons in H as [Hx Hs]. destruct (Z.eqb_spec x c); [done |]. by rewrite IH.
Qed.

Lemma Split_sep c s t : Split c (s ++ c :: t) = Split c s ++ Split c t.
Proof.
  induction s as [|x s IH]; cbn; [by rewrite Z.eqb_refl |].
  destruct (x =? c); [by rewrite IH |]. rewrite IH. pose proof (Split_nonempty c s).
  by destruct (Split c s).
Qed.

Lemma Split_Join c l : l ≠ [] → Forall (λ e, c ∉ e) l → Split c (strings_Join [c] l) = l.
Proof.
  intros Hl H. induction H as [|e l He Hf IH]; [done |]. destruct l as [|e' l]; [by apply Split_plain |].
  change (strings_Join [c] (e :: e' :: l)) with (e ++ c :: strings_Join [c] (e' :: l)).
  rewrite Split_app by done. by rewrite IH.
Qed.

Lemma Join_Split c s : strings_Join [c] (Split c s) = s.
Proof.
  induction s as [|x s IH]; [done |]. cbn. destruct (Z.eqb_spec x c) as [->|].
  - pose proof (Split_nonempty c s). destruct (Split c s); [done |]. cbn in *. by rewrite IH.
  - pose proof (Split_nonempty c s). destruct (Split c s) as [|h [|h' t]]; [done | cbn in *; by rewrite IH ..].
Qed.

Lemma Split_no_sep c s : Forall (λ e, c ∉ e) (Split c s).
Proof.
  induction s as [|x s IH]; cbn; [repeat constructor; apply not_elem_of_nil |].
  destruct (Z.eqb_spec x c); [constructor; [apply not_elem_of_nil | done] |].
  pose proof (Split_nonempty c s). destruct (Split c s) as [|h t]; [done |].
  inversion IH; subst. constructor; [by apply not_elem_of_cons | done].
Qed.

Lemma Split_Forall (P : Z → Prop) c s : Forall P s → Forall (Forall P) (Split c s).
Proof.
  induction 1 as [|x s Hx _ IH]; cbn; [by repeat constructor |]. destruct (x =? c); [by constructor |].
  destruct (Split c s); [by repeat constructor |]. inversion IH; subst. by repeat constructor.
Qed.

(** ** Cleaned paths *)

(** A name of a directory entry. *)
Definition plain (e : bytes) : Prop := e ≠ [] ∧ e ≠ [dot] ∧ e ≠ [dot; dot] ∧ slash ∉ e.

(** The elements a cleaned path can have, in reverse: names, then ".." only at
    the front of a relative path. *)
Inductive cleaned (rooted : bool) : list bytes → Prop :=
| cleaned_nil : cleaned rooted []
| cleaned_name e l : plain e → cleaned rooted l → cleaned rooted (e :: l)
| cleaned_up l : rooted = false → Forall (λ e, e = [dot; dot]) l → cleaned rooted ([dot; dot] :: l).

Lemma all_up_cleaned l : Forall (λ e, e = [dot; dot]) l → cleaned false l.
Proof. destruct l as [|e l]; intros H; [constructor |]. inversion H; subst. by constructor. Qed.

Lemma clean_step_cleaned rooted acc e : slash ∉ e → cleaned rooted acc → cleaned rooted (clean_step rooted acc e).
Proof.
  intros He H. unfold clean_step. case_decide as H1; [done |]. case_decide as H2.
  - subst e. destruct H as [|x l Hx Hl|l Hr Hl].
    + destruct rooted; [constructor | by constructor; [| constructor]].
    + rewrite decide_False by apply Hx. done.
    + rewrite decide_True by done. constructor; [done |]. by constructor.
  - constructor; [| done]. split_and!; naive_solver.
Qed.

Lemma clean_fold_cleaned rooted l : ∀ acc,
  Forall (λ e, slash ∉ e) l → cleaned rooted acc → cleaned rooted (fold_left (clean_step rooted) l acc).
Proof.
  induction l as [|e l IH]; intros acc Hl Hacc; [done |]. inversion Hl; subst. cbn.
  apply IH; [done |]. by apply clean_step_cleaned.
Qed.

Lemma elements_cleaned path : cleaned (is_rooted path) (rev (elements path)).
Proof.
  unfold elements. rewrite rev_involutive. apply clean_fold_cleaned; [apply Split_no_sep | constructor].
Qed.

(** Cleaned elements are left alone. *)
Lemma clean_fold_id rooted l : cleaned rooted l → fold_left (clean_step rooted) (rev l) [] = l.
Proof.
  induction 1 as [|e l He Hl IH|l Hr Hl]; [done | |].
  - cbn [rev]. rewrite fold_left_app, IH. cbn. unfold clean_step.
    rewrite decide_False by (destruct He as (? & ? & _); naive_solver).
    by rewrite decide_False by apply He.
  - subst rooted. cbn [rev]. rewrite fold_left_app.
    assert (Hfold : fold_left (clean_step false) (rev l) [] = l).
    { clear -Hl. induction Hl as [|e l -> Hl IH]; [done |]. cbn [rev]. rewrite fold_left_app, IH. cbn.
      destruct l as [|x l]; [done |]. inversion Hl; subst. done. }
    rewrite Hfold. cbn. destruct l as [|x l]; [done |]. inversion Hl; subst. done.
Qed.

Lemma cleaned_elem rooted l e : cleaned rooted l → e ∈ l → e ≠ [] ∧ slash ∉ e.
Proof.
  assert (Hup : [dot; dot] ≠ [] ∧ slash ∉ [dot; dot]) by (split; [done | rewrite !elem_of_cons, elem_of_nil; naive_solver]).
  induction 1 as [|x l Hx Hl IH|l Hr Hl]; [by intros ?%elem_of_nil | |].
  - intros [-> | ?]%elem_of_cons; [by destruct Hx as (? & _ & _ & ?) | auto].
  - intros [-> | ?]%elem_of_cons; [done |]. rewrite Forall_forall in Hl. by rewrite (Hl e).
Qed.

(** The first byte of the joined elements is not a slash. *)
Lemma Join_not_rooted l : l ≠ [] → Forall (λ e, e ≠ [] ∧ slash ∉ e) l → is_rooted (strings_Join [slash] l) = false.
Proof.
  intros Hl H. unfold is_rooted. apply bool_decide_eq_false_2.
  destruct H as [|e l [He Hs] H]; [done |]. destruct e as [|x e]; [done |].
  assert (x ≠ slash) by (intros ->; apply Hs; by left).
  destruct l; cbn; naive_solver.
Qed.

Lemma cleaned_Forall rooted l : cleaned rooted (rev l) → Forall (λ e, e ≠ [] ∧ slash ∉ e) l.
Proof.
  intros H. apply Forall_forall. intros e He. eapply cleaned_elem; [exact H |].
  apply list_elem_of_In, in_rev. rewrite rev_involutive. by apply list_elem_of_In.
Qed.

(** A path of cleaned elements has these elements and is its own cleaning. *)
Lemma elements_render rooted l :
  cleaned rooted (rev l) → is_rooted (render rooted l) = rooted ∧ elements (render rooted l) = l.
Proof.
  intros H. pose proof (cleaned_Forall _ _ H) as Hl.
  assert (Hr : is_rooted (render rooted l) = rooted).
  { unfold render. destruct rooted; [by apply bool_decide_eq_true_2 |].
    destruct l as [|e l]; [done |]. by apply Join_not_rooted. }
  split; [done |]. unfold elements. rewrite Hr.
  assert (Hf : fold_left (clean_step rooted) l [] = rev l) by (by rewrite <- (rev_involutive l) at 1; apply clean_fold_id).
  assert (Hsplit : l ≠ [] → Split slash (strings_Join [slash] l) = l).
  { intros Hn. apply Split_Join; [done |]. eapply Forall_impl; [exact Hl |]. naive_solver. }
  unfold render. destruct rooted.
  - change (slash :: strings_Join [slash] l) with ([] ++ slash :: strings_Join [slash] l).
    rewrite Split_sep. cbn [Split app fold_left]. change (clean_step true [] []) with (@nil bytes).
    destruct l as [|e l]; [done |]. rewrite Hsplit by done. by rewrite Hf, rev_involutive.
  - destruct l as [|e l]; [done |]. rewrite Hsplit by done. by rewrite Hf, rev_involutive.
Qed.

Lemma Clean_idempotent path : Clean (Clean path) = Clean path.
Proof.
  unfold Clean at 1. destruct (elements_render _ _ (elements_cleaned path)) as [Hr He].
  fold (Clean path) in Hr, He. by rewrite Hr, He.
Qed.

Lemma render_inj rooted l l' :
  cleaned rooted (rev l) → cleaned rooted (rev l') → render rooted l = render rooted l' → l = l'.
Proof.
  intros H H' Heq. rewrite <- (proj2 (elements_render _ _ H)), <- (proj2 (elements_render _ _ H')). by rewrite Heq.
Qed.

(** [Join(dir, name)] of a directory entry is the directory's path with one more
    element. *)
Lemma Join_entry dir name :
  dir ≠ [] → plain name →
  filepath_Join [dir; name] = render (is_rooted dir) (elements dir ++ [name]) ∧
  cleaned (is_rooted dir) (rev (elements dir ++ [name])).
Proof.
  intros Hd Hn. split.
  - destruct dir as [|x dir]; [done |]. cbn [filepath_Join strings_Join].
    change ((x :: dir) ++ [slash] ++ name) with ((x :: dir) ++ slash :: name). unfold Clean.
    assert (Hr : is_rooted ((x :: dir) ++ slash :: name) = is_rooted (x :: dir)) by done.
    rewrite Hr. f_equal. unfold elements. rewrite Hr, Split_sep, fold_left_app.
    rewrite (Split_plain slash name) by apply Hn. cbn [fold_left].
    unfold clean_step at 1. destruct Hn as (H1 & H2 & H3 & _).
    by rewrite (decide_False (P := _ ∨ _)), decide_False by naive_solver.
  - rewrite rev_app_distr. cbn. constructor; [done | apply elements_cleaned].
Qed.

Lemma Join_entry_inj dir name name' :
  dir ≠ [] → plain name → plain name' → filepath_Join [dir; name] = filepath_Join [dir; name'] → name = name'.
Proof.
  intros Hd Hn Hn' H. destruct (Join_entry dir name Hd Hn) as [E C]. destruct (Join_entry dir name' Hd Hn') as [E' C'].
  rewrite E, E' in H. apply (render_inj _ _ _ C C') in H. by apply app_inj_tail in H as [_ ?].
Qed.

Lemma render_nonempty rooted l : cleaned rooted (rev l) → render rooted l ≠ [].
Proof.
  intros H%cleaned_Forall. unfold render. destruct rooted; [done |]. destruct H as [|e l [He _] _]; [done |].
  destruct e; [done |]. by destruct l.
Qed.

(** A joined path is never empty when its last element is not. *)
Lemma Join_nonempty dir name : name ≠ [] → filepath_Join [dir; name] ≠ [].
Proof.
  intros Hn. assert (Hc : ∀ p, Clean p ≠ []) by (intros p; apply render_nonempty, elements_cleaned).
  destruct dir; [| apply Hc]. destruct name; [done | apply Hc].
Qed.

(** Names with an extension. *)
Lemma plain_suffix name suf : slash ∉ name → slash ∉ suf → (2 < length suf)%nat → plain (name ++ suf).
Proof.
  intros H1 H2 Hl. assert (Hlen : (2 < length (name ++ suf))%nat) by (rewrite length_app; lia).
  split_and!; try (intros E; rewrite E in Hlen; cbn in Hlen; lia). by apply not_elem_of_app.
Qed.

Lemma plain_crt name : slash ∉ name → plain (name ++ lit ".crt").
Proof. intros H. apply plain_suffix; [done | by apply (bool_decide_unpack _); vm_compute | cbn; lia]. Qed.
Lemma plain_key name : slash ∉ name → plain (name ++ lit ".key").
Proof. intros H. apply plain_suffix; [done | by apply (bool_decide_unpack _); vm_compute | cbn; lia]. Qed.
