(* ===== verification/GoFlag.v ===== *)
(** * Durations, times and command-line flags

    What src/cmd uses of Go's time ([ParseDuration], [Format] with RFC 3339),
    strconv ([ParseBool]) and flag ([FlagSet.Parse] in mode [ContinueOnError]),
    written out. *)

From Stdlib Require Import SpecFloat.
From S2P Require Import Prelude GoText.

(** ** [time.ParseDuration] *)

(** [leadingInt]: the leading digits as an integer of at most 2^63. *)
Fixpoint leadingInt (x : Z) (s : bytes) : go (Z * bytes) :=
  match s with
  | c :: s' =>
      if negb (is_digit c) then Ok (x, s)
      else if 2 ^ 63 / 10 <? x then Fail (Errorf "time: bad [0-9]*")
      else
        let x := u64 (x * 10 + (c - 48)) in
        if 2 ^ 63 <? x then Fail (Errorf "time: bad [0-9]*") else leadingInt x s'
  | [] => Ok (x, [])
  end.

(** [leadingFraction]: the digits after the point as an integer, and the power of
    ten to divide it by; digits that do not fit are skipped.  The scale, a float64
    in the code, is a power of ten up to 10^19, which float64 represents. *)
Fixpoint leadingFraction (x scale : Z) (overflow : bool) (s : bytes) : Z * Z * bytes :=
  match s with
  | c :: s' =>
      if negb (is_digit c) then (x, scale, s)
      else if overflow then leadingFraction x scale true s'
      else if (2 ^ 63 - 1) / 10 <? x then leadingFraction x scale true s'
      else
        let y := u64 (x * 10 + (c - 48)) in
        if 2 ^ 63 <? y then leadingFraction x scale true s' else leadingFraction y (scale * 10) false s'
  | [] => (x, scale, [])
  end.

(** float64 arithmetic (IEEE 754 binary64, round to nearest even). *)
Definition float_of (z : Z) : spec_float := binary_normalize 53 1024 z 0 false.
Definition trunc_float (f : spec_float) : Z :=
  match f with
  | S754_finite false m e => Z.shiftl (Zpos m) e
  | _ => 0
  end.

(** [uint64(float64(f) * (float64(unit) / scale))] *)
Definition fraction (f unit scale : Z) : Z :=
  u64 (trunc_float (SFmul 53 1024 (float_of f) (SFdiv 53 1024 (float_of unit) (float_of scale)))).

(** [unitMap]; the micro sign is U+00B5 or U+03BC. *)
Definition unitMap (u : bytes) : option Z :=
  if decide (u = lit "ns") then Some 1
  else if decide (u = lit "us" ∨ u = [194; 181; 115] ∨ u = [206; 188; 115]) then Some (10 ^ 3)
  else if decide (u = lit "ms") then Some (10 ^ 6)
  else if decide (u = lit "s") then Some (10 ^ 9)
  else if decide (u = lit "m") then Some (60 * 10 ^ 9)
  else if decide (u = lit "h") then Some (3600 * 10 ^ 9)
  else None.

(** The unit: what precedes the next point or digit. *)
Fixpoint span_unit (s : bytes) : bytes * bytes :=
  match s with
  | c :: s' => if (c =? dot) || is_digit c then ([], s) else let '(u, r) := span_unit s' in (c :: u, r)
  | [] => ([], [])
  end.

Definition invalid_duration : error := Errorf "time: invalid duration".

(** What follows the integer: a point and digits, with whether there is a digit. *)
Definition fraction_part (s : bytes) : Z * Z * bytes * bool :=
  match s with
  | c :: s' =>
      if c =? dot then
        let '(f, scale, s2) := leadingFraction 0 1 false s' in
        (f, scale, s2, negb (bool_decide (length s2 = length s')))
      else (0, 1, s, false)
  | [] => (0, 1, s, false)
  end.

(** One round of the loop: a number with its unit, in nanoseconds. *)
Definition duration_term (s : bytes) : go (Z * bytes) :=
  match s with
  | c :: _ =>
      if negb ((c =? dot) || is_digit c) then Fail invalid_duration
      else
        try! (v, s1) := (match leadingInt 0 s with Fail _ => Fail invalid_duration | r => r end) in
        let pre := negb (bool_decide (length s1 = length s)) in
        let '(f, scale, s2, post) := fraction_part s1 in
        if negb pre && negb post then Fail invalid_duration
        else
          let '(u, s3) := span_unit s2 in
          match u with
          | [] => Fail (Errorf "time: missing unit in duration")
          | _ =>
              match unitMap u with
              | None => Fail (Errorf "time: unknown unit")
              | Some unit =>
                  if 2 ^ 63 / unit <? v then Fail invalid_duration
                  else
                    let v := u64 (v * unit) in
                    if 0 <? f then
                      let v := u64 (v + fraction f unit scale) in
                      if 2 ^ 63 <? v then Fail invalid_duration else Ok (v, s3)
                    else Ok (v, s3)
              end
          end
  | [] => Fail invalid_duration
  end.

(** [for s != ""]; every round consumes at least a byte of [s], so that its length
    is enough fuel. *)
Fixpoint duration_loop (fuel : nat) (d : Z) (s : bytes) : go Z :=
  match s, fuel with
  | [], _ => Ok d
  | _, O => Ok d
  | _, S fuel =>
      try! (v, s) := duration_term s in
      let d := u64 (d + v) in
      if 2 ^ 63 <? d then Fail invalid_duration else duration_loop fuel d s
  end.

(** Conversion of a uint64 to int64. *)
Definition int64 (z : Z) : Z := if u64 z <? 2 ^ 63 then u64 z else u64 z - 2 ^ 64.

(** The sign: whether there is a minus sign, and the rest. *)
Definition split_sign (s : bytes) : bool * bytes :=
  match s with
  | c :: s' => if c =? 45 then (true, s') else if c =? 43 then (false, s') else (false, s)
  | [] => (false, [])
  end.

Definition ParseDuration (s : bytes) : go Z :=
  let '(neg, s) := split_sign s in
  if decide (s = lit "0") then Ok 0
  else match s with
  | [] => Fail invalid_duration
  | _ =>
      try! d := duration_loop (length s) 0 s in
      if (neg : bool) then Ok (int64 (- int64 d))
      else if 2 ^ 63 - 1 <? d then Fail invalid_duration else Ok (int64 d)
  end.

(** ** [strconv.ParseBool] *)
Definition ParseBool (s : bytes) : option bool :=
  if decide (s ∈ map lit ["1"; "t"; "T"; "true"; "TRUE"; "True"]) then Some true
  else if decide (s ∈ map lit ["0"; "f"; "F"; "false"; "FALSE"; "False"]) then Some false
  else None.

(** ** [flag.FlagSet] *)

(** A defined flag: its type and its value, the default before parsing. *)
Inductive FlagValue := FString (s : bytes) | FDuration (d : Z) | FBool (b : bool).

Definition IsBoolFlag (v : FlagValue) : bool := match v with FBool _ => true | _ => false end.

(** [flag.Value.Set] *)
Definition Set_flag (v : FlagValue) (s : bytes) : go FlagValue :=
  match v with
  | FString _ => Ok (FString s)
  | FDuration _ => match ParseDuration s with Ok d => Ok (FDuration d) | Fail _ => Fail (Errorf "parse error") | Panic => Panic end
  | FBool _ => match ParseBool s with Some b => Ok (FBool b) | None => Fail (Errorf "parse error") end
  end.

(** The flags of a set, by name. *)
Abbreviation Flags := (gmap bytes FlagValue).

(** [name=value]: the name ends at the first equals sign after its first byte. *)
Definition split_value (name : bytes) : bytes * option bytes :=
  match name with
  | c :: name' =>
      match index_byte 61 name' with
      | Some i => (c :: take i name', Some (drop (S i) name'))
      | None => (name, None)
      end
  | [] => ([], None)
  end.

(** What the first argument is to [parseOne]. *)
Inductive arg_kind :=
| ArgStop             (** not a flag: parsing stops, the argument stays *)
| ArgTerminator       (** "--" *)
| ArgBad              (** bad flag syntax *)
| ArgFlag (name : bytes) (value : option bytes).

Definition classify (s : bytes) : arg_kind :=
  match s with
  | c :: c1 :: rest =>
      if negb (c =? 45) then ArgStop
      else
        let name := if c1 =? 45 then rest else c1 :: rest in
        if (c1 =? 45) && bool_decide (rest = []) then ArgTerminator
        else match name with
        | [] => ArgBad
        | n :: _ => if (n =? 45) || (n =? 61) then ArgBad
                    else let '(nm, v) := split_value name in ArgFlag nm v
        end
  | _ => ArgStop
  end.

(** [Parse]: the flags with their values, and the remaining arguments. *)
Fixpoint FlagSet_Parse (fs : Flags) (args : list bytes) : go (Flags * list bytes) :=
  match args with
  | [] => Ok (fs, [])
  | s :: args' =>
      match classify s with
      | ArgStop => Ok (fs, args)
      | ArgTerminator => Ok (fs, args')
      | ArgBad => Fail (Errorf "bad flag syntax")
      | ArgFlag name value =>
          match fs !! name with
          | None =>
              if decide (name = lit "help" ∨ name = lit "h") then Fail (Errorf "flag: help requested")
              else Fail (Errorf "flag provided but not defined")
          | Some v =>
              if IsBoolFlag v then
                try! v' := go_wrap "invalid boolean value for flag"
                             (Set_flag v (match value with Some x => x | None => lit "true" end)) in
                FlagSet_Parse (<[name := v']> fs) args'
              else
                match value, args' with
                | Some x, _ =>
                    try! v' := go_wrap "invalid value for flag" (Set_flag v x) in
                    FlagSet_Parse (<[name := v']> fs) args'
                | None, x :: args'' =>
                    try! v' := go_wrap "invalid value for flag" (Set_flag v x) in
                    FlagSet_Parse (<[name := v']> fs) args''
                | None, [] => Fail (Errorf "flag needs an argument")
                end
          end
      end
  end.

(** Reading a flag through the pointer that defined it. *)
Definition flag_string (fs : Flags) (name : bytes) : bytes :=
  match fs !! name with Some (FString s) => s | _ => [] end.
Definition flag_duration (fs : Flags) (name : bytes) : Z :=
  match fs !! name with Some (FDuration d) => d | _ => 0 end.
Definition flag_bool (fs : Flags) (name : bytes) : bool :=
  match fs !! name with Some (FBool b) => b | _ => false end.

(** ** [Time.Format(time.RFC3339)] of a time in UTC *)

(** The proleptic Gregorian date of a day counted from 1970-01-01: eras of 400
    years, years starting in March. *)
Definition civil (days : Z) : Z * Z * Z :=
  let z := days + 719468 in
  let era := z / 146097 in
  let doe := z mod 146097 in
  let yoe := (doe - doe / 1460 + doe / 36524 - doe / 146096) / 365 in
  let doy := doe - (365 * yoe + yoe / 4 - yoe / 100) in
  let mp := (5 * doy + 2) / 153 in
  let d := doy - (153 * mp + 2) / 5 + 1 in
  let m := if mp <? 10 then mp + 3 else mp - 9 in
  (yoe + era * 400 + (if m <=? 2 then 1 else 0), m, d).

Definition digit (d : Z) : Z := 48 + d mod 10.
Definition pad2 (v : Z) : bytes := [digit (v / 10); digit v].
Definition pad4 (v : Z) : bytes := [digit (v / 1000); digit (v / 100); digit (v / 10); digit v].

Definition FormatRFC3339 (t : Z) : bytes :=
  let secs := t / 10 ^ 9 in
  let '(y, m, d) := civil (secs / 86400) in
  let sod := secs mod 86400 in
  pad4 y ++ [45] ++ pad2 m ++ [45] ++ pad2 d ++ lit "T" ++
  pad2 (sod / 3600) ++ [colon] ++ pad2 (sod / 60 mod 60) ++ [colon] ++ pad2 (sod mod 60) ++ lit "Z".

(** ** Samples *)

Example durations_read :
  map ParseDuration (map lit ["8760h"; "1h30m"; "1.5h"; "-2.25s"; "0"; "+5us"; "0.1s"; ".5m"]) =
    map Ok [8760 * 3600 * 10 ^ 9; 5400 * 10 ^ 9; 5400 * 10 ^ 9; - 2250000000; 0; 5000; 100000000; 30 * 10 ^ 9].
Proof. by vm_compute. Qed.

Example durations_refused :
  map (is_ok ∘ ParseDuration) (map lit [""; "1"; "h"; "1x"; "9223372036854775808ns"; "2562048h"; "-"; "1h-2m"; "."; "1.h"]) =
    [false; false; false; false; false; false; false; false; false; true].
Proof. by vm_compute. Qed.

Example dates_printed :
  map FormatRFC3339 [0; 951782400 * 10 ^ 9; 1767225599 * 10 ^ 9 + 5] =
    map lit ["1970-01-01T00:00:00Z"; "2000-02-29T00:00:00Z"; "2025-12-31T23:59:59Z"].
Proof. by vm_compute. Qed.

(** ** Lemmas on flags *)

Lemma FlagSet_Parse_string fs s n x v args :
  classify s = ArgFlag n None → fs !! n = Some (FString x) →
  FlagSet_Parse fs (s :: v :: args) = FlagSet_Parse (<[n := FString v]> fs) args.
Proof. intros Hc Hl. cbn [FlagSet_Parse]. by rewrite Hc, Hl. Qed.

Lemma FlagSet_Parse_duration fs s n x v d args :
  classify s = ArgFlag n None → fs !! n = Some (FDuration x) → ParseDuration v = Ok d →
  FlagSet_Parse fs (s :: v :: args) = FlagSet_Parse (<[n := FDuration d]> fs) args.
Proof. intros Hc Hl Hd. cbn [FlagSet_Parse]. rewrite Hc, Hl. cbn [IsBoolFlag Set_flag]. by rewrite Hd. Qed.

(** Reading a flag set one option at a time. *)
Ltac parse_flags :=
  repeat first
    [ erewrite FlagSet_Parse_string; [| by vm_compute | by vm_compute]
    | erewrite FlagSet_Parse_duration; [| by vm_compute | by vm_compute | eassumption] ];
  cbn [FlagSet_Parse].

(** ** Decimal numbers: [strconv.Itoa] and the verb [%d] *)

Fixpoint dec_digits (fuel : nat) (n : Z) (acc : bytes) : bytes :=
  match fuel with
  | O => acc
  | S fuel => let acc := (48 + n mod 10) :: acc in if n <? 10 then acc else dec_digits fuel (n / 10) acc
  end.

(** A number has at most as many decimal digits as binary digits. *)
Definition dec (n : Z) : bytes := dec_digits (S (Z.to_nat (Z.log2 n))) n [].
Definition Itoa (n : Z) : bytes := if n <? 0 then 45 :: dec (- n) else dec n.

Lemma leadingInt_step x d s : 0 ≤ x → 0 ≤ d < 10 → x * 10 + d ≤ 2 ^ 63 →
  leadingInt x ((48 + d) :: s) = leadingInt (x * 10 + d) s.
Proof.
  intros Hx Hd Hb. cbn [leadingInt].
  assert (is_digit (48 + d) = true) as -> by (unfold is_digit; lia). cbn [negb].
  destruct (Z.ltb_spec (2 ^ 63 / 10) x) as [H|_]; [exfalso; change (2 ^ 63 / 10) with 922337203685477580 in H; lia |].
  replace (x * 10 + (48 + d - 48)) with (x * 10 + d) by lia.
  rewrite wrap_small by (unfold in_u; lia).
  by destruct (Z.ltb_spec (2 ^ 63) (x * 10 + d)); [lia |].
Qed.

Lemma leadingInt_digits fuel n acc rest : 0 ≤ n ≤ 2 ^ 63 → n < 2 ^ Z.of_nat fuel →
  leadingInt 0 (dec_digits fuel n acc ++ rest) = leadingInt n (acc ++ rest).
Proof.
  revert n acc. induction fuel as [|fuel IH]; intros n acc Hn Hf; [cbn in *; by replace n with 0 by lia |].
  cbn [dec_digits]. destruct (Z.ltb_spec n 10) as [Hlt|Hge].
  - cbn [app]. rewrite Z.mod_small by lia. rewrite leadingInt_step by lia. done.
  - pose proof (Z.div_mod n 10 ltac:(lia)) as Hdm. pose proof (Z.mod_pos_bound n 10 ltac:(lia)) as Hm. rewrite IH.
    + cbn [app]. rewrite leadingInt_step by lia. f_equal. lia.
    + lia.
    + rewrite Nat2Z.inj_succ, Z.pow_succ_r in Hf by lia. apply Z.div_lt_upper_bound; lia.
Qed.

Lemma dec_bound n : 0 ≤ n → n < 2 ^ Z.of_nat (S (Z.to_nat (Z.log2 n))).
Proof.
  intros H. rewrite Nat2Z.inj_succ, Z2Nat.id by apply Z.log2_nonneg.
  destruct (decide (n = 0)) as [->|]; [done |]. apply Z.log2_spec. lia.
Qed.

(** A printed number reads back. *)
Lemma leadingInt_dec n rest :
  0 ≤ n ≤ 2 ^ 63 → match rest with c :: _ => is_digit c = false | [] => True end →
  leadingInt 0 (dec n ++ rest) = Ok (n, rest).
Proof.
  intros Hn Hr. unfold dec. rewrite leadingInt_digits by (done || (apply dec_bound; lia)). cbn [app].
  destruct rest as [|c rest]; [done |]. cbn [leadingInt]. by rewrite Hr.
Qed.

(** ** Durations: the loop ends, the result fits, whole hours are exact *)

Lemma leadingInt_length x s v s' : leadingInt x s = Ok (v, s') → (length s' ≤ length s)%nat.
Proof.
  revert x. induction s as [|c s IH]; intros x; cbn; [by intros [= _ <-] |].
  destruct (negb _); [by intros [= _ <-] |]. destruct (_ <? _); [done |]. destruct (_ <? _); [done |].
  intros H%IH. lia.
Qed.

Lemma leadingFraction_length x k o s : (length (leadingFraction x k o s).2 ≤ length s)%nat.
Proof.
  revert x k o. induction s as [|c s IH]; intros x k o; [done |]. cbn [leadingFraction].
  destruct (negb _); [done |]. cbn [length].
  destruct o; [specialize (IH x k true); lia |]. destruct (_ <? _); [specialize (IH x k true); lia |].
  destruct (_ <? _); [specialize (IH x k true); lia |]. match goal with |- context [leadingFraction ?a ?b ?c s] => specialize (IH a b c) end. lia.
Qed.

Lemma span_unit_length s : (length (span_unit s).1 + length (span_unit s).2 = length s)%nat.
Proof. induction s as [|c s IH]; cbn; [done |]. destruct (_ || _); [done |]. destruct (span_unit s). cbn in *. lia. Qed.

Lemma duration_term_shorter s v s' : duration_term s = Ok (v, s') → (length s' < length s)%nat.
Proof.
  unfold duration_term. destruct s as [|c s0]; [done |]. set (s := c :: s0). destruct (negb _); [done |].
  destruct (leadingInt 0 s) as [[n s1]| |] eqn:E1; cbn [go_bind]; [| done | done]. apply leadingInt_length in E1.
  assert (H2 : (length (fraction_part s1).1.2 ≤ length s1)%nat).
  { unfold fraction_part. destruct s1 as [|c1 s1]; [done |]. destruct (_ =? _); [| done].
    pose proof (leadingFraction_length 0 1 false s1) as Hf. destruct (leadingFraction _ _ _ _) as [[f k] s2]. cbn in *. lia. }
  destruct (fraction_part s1) as [[[f k] s2] post]. cbn in H2.
  destruct (_ && _); [done |]. pose proof (span_unit_length s2) as H3. destruct (span_unit s2) as [u s3]. cbn in H3.
  destruct u as [|u0 u]; [done |]. cbn in H3. destruct (unitMap _) as [unit|]; [| done]. destruct (_ <? _); [done |].
  destruct (0 <? f); [destruct (_ <? _); [done |] |]; intros [= _ <-]; lia.
Qed.

(** More fuel than bytes changes nothing. *)
Lemma duration_loop_fuel fuel fuel' d s :
  (length s ≤ fuel)%nat → (length s ≤ fuel')%nat → duration_loop fuel d s = duration_loop fuel' d s.
Proof.
  revert fuel' d s. induction fuel as [|fuel IH]; intros fuel' d s H1 H2.
  - destruct s; [by destruct fuel' | cbn in H1; lia].
  - destruct s as [|c s]; [by destruct fuel' |]. destruct fuel' as [|fuel']; [cbn in H2; lia |].
    cbn [duration_loop]. destruct (duration_term (c :: s)) as [[v s']| |] eqn:E; cbn [go_bind]; [| done | done].
    apply duration_term_shorter in E. cbn in *. destruct (_ <? _); [done |]. apply IH; lia.
Qed.

Lemma int64_range z : - 2 ^ 63 ≤ int64 z < 2 ^ 63.
Proof.
  unfold int64. pose proof (wrap_in_u 64 z ltac:(lia)) as [H0 H1]. destruct (Z.ltb_spec (u64 z) (2 ^ 63)); lia.
Qed.

Lemma ParseDuration_range s d : ParseDuration s = Ok d → - 2 ^ 63 ≤ d < 2 ^ 63.
Proof.
  unfold ParseDuration. destruct (split_sign s) as [neg s1].
  case_decide; [intros [= <-]; lia |]. destruct s1 as [|c s1]; [done |].
  destruct (duration_loop _ _ _) as [v| |]; cbn [go_bind]; [| done | done].
  destruct neg; [intros [= <-]; apply int64_range |]. destruct (_ <? _); [done |]. intros [= <-]. apply int64_range.
Qed.

Lemma dec_cons n : 0 ≤ n → ∃ c l, dec n = c :: l ∧ is_digit c = true.
Proof.
  intros Hn. assert (Hgen : ∀ fuel m acc, 0 ≤ m → acc = [] ∨ (∃ c l, acc = c :: l ∧ is_digit c = true) →
    fuel = O ∧ dec_digits fuel m acc = acc ∨ ∃ c l, dec_digits fuel m acc = c :: l ∧ is_digit c = true).
  { induction fuel as [|fuel IH]; intros m acc Hm Hacc; [by left |]. right. cbn [dec_digits].
    assert (Hd : is_digit (48 + m mod 10) = true).
    { pose proof (Z.mod_pos_bound m 10 ltac:(lia)). unfold is_digit. lia. }
    destruct (m <? 10); [by eauto |].
    destruct (IH (m / 10) ((48 + m mod 10) :: acc)) as [[-> E] | H]; [by apply Z.div_pos; lia | by right; eauto | | done].
    rewrite E. eauto. }
  destruct (Hgen (S (Z.to_nat (Z.log2 n))) n []) as [[? _] | H]; [done | by left | done | exact H].
Qed.

Lemma ParseDuration_hours n : 0 ≤ n ≤ 2562047 → ParseDuration (dec n ++ lit "h") = Ok (n * (3600 * 10 ^ 9)).
Proof.
  intros Hn. destruct (dec_cons n ltac:(lia)) as (c & l & Hc & Hd).
  pose proof (leadingInt_dec n (lit "h") ltac:(lia) eq_refl) as Hl.
  unfold ParseDuration, split_sign. rewrite Hc in *. cbn [app] in *.
  assert (Hsign : (c =? 45) = false ∧ (c =? 43) = false ∧ ((c =? dot) || is_digit c = true)).
  { unfold is_digit, dot in *. lia. }
  destruct Hsign as (-> & -> & Hfirst). rewrite decide_False by (intros [= _ E]; by destruct l).
  cbn [length duration_loop].
  assert (Hterm : duration_term (c :: l ++ lit "h") = Ok (n * (3600 * 10 ^ 9), [])).
  { unfold duration_term. rewrite Hfirst. cbn [negb]. rewrite Hl. cbn [go_bind].
    rewrite bool_decide_eq_false_2 by (cbn; rewrite length_app; cbn; lia).
    change (lit "h") with [104]. cbn [fraction_part negb andb Z.eqb Pos.eqb dot span_unit is_digit Z.leb orb].
    change (is_digit 104) with false. cbv iota beta.
    change (unitMap [104]) with (Some (3600 * 10 ^ 9)). cbv iota beta.
    change (2 ^ 63 / (3600 * 10 ^ 9)) with 2562047. destruct (Z.ltb_spec 2562047 n); [lia |].
    change (0 <? 0) with false. cbv iota. rewrite wrap_small by (unfold in_u; lia). done. }
  rewrite Hterm. cbn [go_bind]. rewrite Z.add_0_l, wrap_small by (unfold in_u; lia).
  destruct (Z.ltb_spec (2 ^ 63) (n * (3600 * 10 ^ 9))); [lia |].
  destruct (length (l ++ lit "h")); cbn [duration_loop go_bind];
    (destruct (Z.ltb_spec (2 ^ 63 - 1) (n * (3600 * 10 ^ 9))); [lia |]; f_equal; unfold int64;
     rewrite wrap_small by (unfold in_u; lia); destruct (Z.ltb_spec (n * (3600 * 10 ^ 9)) (2 ^ 63)); lia).
Qed.
