(* ===== verification/Config.v ===== *)
(** * Package config: the configuration, its defaults and its validation

    Models src/config/config.go.  Reading the file and decoding YAML
    (gopkg.in/yaml.v3) are the parameters of [Load]. *)

From S2P Require Import Prelude GoText.

(** ** Data *)

Record PKIConfig := mkPKIConfig { CA : bytes; CertPath : bytes; Key : bytes; PeersDir : bytes }.
Record ListenConfig := mkListenConfig { Host : bytes; Port : Z }.
Record TUNConfig := mkTUNConfig { Dev : bytes; MTU : Z }.
Record LighthouseConfig := mkLighthouseConfig {
  AmLighthouse : bool; Interval : Z; Hosts : list bytes }.
Record PunchyConfig := mkPunchyConfig { cPunch : bool; cRespond : bool }.
Record FirewallRule := mkFirewallRule { rPort : bytes; rProto : bytes; rGroup : bytes; rCIDR : bytes }.
Record FirewallConfig := mkFirewallConfig { Inbound : list FirewallRule; Outbound : list FirewallRule }.
Record LoggingConfig := mkLoggingConfig { Level : bytes; Format : bytes }.

Record Config := mkConfig {
  cPKI : PKIConfig;
  cListen : ListenConfig;
  cTUN : TUNConfig;
  cLighthouse : LighthouseConfig;
  cStaticHostMap : gmap bytes (list bytes);
  cPunchy : PunchyConfig;
  cFirewall : FirewallConfig;
  cLogging : LoggingConfig;
}.

(** ** Operations *)

(** [if f == "" { f = d }] and [if f == 0 { f = d }]. *)
Definition or_str (f d : bytes) : bytes := match f with [] => d | _ => f end.
Definition or_int (f d : Z) : Z := if f =? 0 then d else f.

Definition setDefaults (c : Config) : Config :=
  {| cPKI := cPKI c;
     cListen := {| Host := or_str (Host (cListen c)) (lit "0.0.0.0"); Port := Port (cListen c) |};
     cTUN := {| Dev := or_str (Dev (cTUN c)) (lit "neth0"); MTU := or_int (MTU (cTUN c)) 1300 |};
     cLighthouse := {| AmLighthouse := AmLighthouse (cLighthouse c);
                       Interval := or_int (Interval (cLighthouse c)) 60;
                       Hosts := Hosts (cLighthouse c) |};
     cStaticHostMap := cStaticHostMap c;
     cPunchy := cPunchy c;
     cFirewall := cFirewall c;
     cLogging := {| Level := or_str (Level (cLogging c)) (lit "info");
                    Format := or_str (Format (cLogging c)) (lit "text") |} |}.

(** [if cond { errs = append(errs, e) }] *)
Definition add_err (cond : bool) (e : error) (errs : list error) : list error :=
  if cond then errs ++ [e] else errs.

Definition is_empty (s : bytes) : bool := match s with [] => true | _ => false end.

(** [errors.Join]: nil when there is no error. *)
Definition Join (errs : list error) : go unit :=
  match errs with [] => Ok tt | _ => Fail (Joined errs) end.

Definition Validate (c : Config) : go unit :=
  let errs := [] in
  let errs := add_err (is_empty (CA (cPKI c))) (Errorf "pki.ca is required") errs in
  let errs := add_err (is_empty (CertPath (cPKI c))) (Errorf "pki.cert is required") errs in
  let errs := add_err (is_empty (Key (cPKI c))) (Errorf "pki.key is required") errs in
  let errs := add_err ((Port (cListen c) <? 1) || (65535 <? Port (cListen c)))
                (Errorf "listen.port is out of range [1, 65535]") errs in
  Join errs.

Section Load.

Context (ReadFile : bytes → go bytes) (Unmarshal : bytes → go Config).

Definition Load (path : bytes) : go Config :=
  try! data := go_wrap "config: read" (ReadFile path) in
  try! cfg := go_wrap "config: parse" (Unmarshal data) in
  let cfg := setDefaults cfg in
  try! _ := Validate cfg in
  Ok cfg.

End Load.

(** ** Specification *)

(** What the daemon relies on after loading. *)
Record Config_valid (c : Config) : Prop := {
  valid_ca : CA (cPKI c) ≠ [];
  valid_cert : CertPath (cPKI c) ≠ [];
  valid_key : Key (cPKI c) ≠ [];
  valid_port : 1 ≤ Port (cListen c) ≤ 65535;
}.

Record Config_filled (c : Config) : Prop := {
  filled_host : Host (cListen c) ≠ [];
  filled_dev : Dev (cTUN c) ≠ [];
  filled_mtu : MTU (cTUN c) ≠ 0;
  filled_interval : Interval (cLighthouse c) ≠ 0;
  filled_level : Level (cLogging c) ≠ [];
  filled_format : Format (cLogging c) ≠ [];
}.

(** The violations of a configuration, in the order they are reported. *)
Definition violations (c : Config) : list error :=
  (if bool_decide (CA (cPKI c) = []) then [Errorf "pki.ca is required"] else []) ++
  (if bool_decide (CertPath (cPKI c) = []) then [Errorf "pki.cert is required"] else []) ++
  (if bool_decide (Key (cPKI c) = []) then [Errorf "pki.key is required"] else []) ++
  (if bool_decide (1 ≤ Port (cListen c) ≤ 65535) then []
   else [Errorf "listen.port is out of range [1, 65535]"]).

Lemma add_err_app b e errs : add_err b e errs = errs ++ (if b then [e] else []).
Proof. destruct b; cbn; [done | by rewrite app_nil_r]. Qed.

Lemma is_empty_decide s : is_empty s = bool_decide (s = []).
Proof. by destruct s; case_bool_decide. Qed.

Lemma Validate_violations c : Validate c = Join (violations c).
Proof.
  unfold Validate, violations. rewrite !add_err_app, !is_empty_decide, <- !app_assoc. cbn [app].
  do 4 f_equal. case_bool_decide;
    destruct (Z.ltb_spec (Port (cListen c)) 1), (Z.ltb_spec 65535 (Port (cListen c)));
    cbn; done || lia.
Qed.

Lemma violations_nil c : violations c = [] ↔ Config_valid c.
Proof.
  unfold violations. split.
  - intros H. repeat case_bool_decide; try discriminate. by split.
  - intros [Hca Hce Hk Hp]. rewrite !bool_decide_eq_false_2, bool_decide_eq_true_2 by done. done.
Qed.

Lemma setDefaults_filled c : Config_filled (setDefaults c).
Proof.
  assert (Hs : ∀ f d, d ≠ [] → or_str f d ≠ []) by (intros [|] ?; done).
  assert (Hi : ∀ f d, d ≠ 0 → or_int f d ≠ 0) by
    (intros f d Hd; unfold or_int; destruct (Z.eqb_spec f 0); done).
  split; cbn; (apply Hs || apply Hi); done.
Qed.

Lemma setDefaults_id c : Config_filled c → setDefaults c = c.
Proof.
  intros [H1 H2 H3 H4 H5 H6]. destruct c as [pki [host port] [dev mtu] [am iv hs] shm pu fw [lv fm]].
  cbn in *. unfold setDefaults, or_int. cbn.
  destruct (Z.eqb_spec mtu 0), (Z.eqb_spec iv 0); try done.
  destruct host, dev, lv, fm; done.
Qed.

Lemma setDefaults_valid c : Config_valid (setDefaults c) ↔ Config_valid c.
Proof. split; intros [? ? ? ?]; by split. Qed.

(** ** Properties *)

(** [Load] succeeds exactly when the file is readable, decodes, and names
    the three PKI files and a port in 1..65535; the result is the decoded
    configuration with the defaults applied, which leave no defaulted field empty
    and change nothing when applied again.  Otherwise an error comes back, and when the
    decoded values are at fault it joins one error per violation. *)
Theorem Load_spec ReadFile Unmarshal path :
  match Load ReadFile Unmarshal path with
  | Ok cfg => ∃ data c, ReadFile path = Ok data ∧ Unmarshal data = Ok c ∧
      cfg = setDefaults c ∧ Config_valid cfg ∧ Config_filled cfg ∧ setDefaults cfg = cfg
  | Fail e =>
      (∃ e', ReadFile path = Fail e' ∧ e = Wrapf "config: read" e') ∨
      (∃ data e', ReadFile path = Ok data ∧ Unmarshal data = Fail e' ∧ e = Wrapf "config: parse" e') ∨
      (∃ data c, ReadFile path = Ok data ∧ Unmarshal data = Ok c ∧
        ¬ Config_valid c ∧ e = Joined (violations (setDefaults c)))
  | Panic => ReadFile path = Panic ∨ ∃ data, ReadFile path = Ok data ∧ Unmarshal data = Panic
  end.
Proof.
  unfold Load. destruct (ReadFile path) as [data|e|] eqn:E1; cbn; [| by left; eauto | by left].
  destruct (Unmarshal data) as [c|e|] eqn:E2; cbn; [| right; left; by eauto 10 | by eauto].
  rewrite Validate_violations. destruct (violations (setDefaults c)) eqn:E3; cbn.
  - exists data, c. apply violations_nil in E3.
    split_and!; auto using setDefaults_filled. apply setDefaults_id, setDefaults_filled.
  - right. right. exists data, c. rewrite <- setDefaults_valid, <- violations_nil, E3. done.
Qed.
