(* ===== verification/Firewall.v ===== *)
(** * Package firewall: rules, connection tracking, the stateful filter

    Models src/firewall: [ParseRule] (rule.go), [matches], [AllowInbound] and
    [AllowOutbound] (firewall.go), the tracking table (conntrack.go) and its
    expiry (expiry.go).  Times are nanoseconds; each [time.Now()] is an argument.
    A [range] over a Go map visits the entries in an unspecified order, so the
    loops over the table take that order as an argument. *)

From S2P Require Import Prelude Net GoText Config.

(** ** Data *)

Definition ProtoAny : Z := 0.
Definition ProtoICMP : Z := 1.
Definition ProtoTCP : Z := 6.
Definition ProtoUDP : Z := 17.

(** [Proto.String]; [strconv.Itoa] of a byte. *)
Definition Proto_String (p : Z) : bytes :=
  if p =? ProtoAny then lit "any"
  else if p =? ProtoICMP then lit "icmp"
  else if p =? ProtoTCP then lit "tcp"
  else if p =? ProtoUDP then lit "udp"
  else dec3 p.

Record Rule := mkRule {
  rulePort : Z;
  rulePortAny : bool;
  ruleProto : Z;
  ruleGroup : bytes;
  ruleGroupAny : bool;
  ruleCIDR : Prefix;
  ruleCIDAny : bool;
}.

(** [connKey]; a comparable struct, used as a map key. *)
Record connKey := mkConnKey {
  SrcIP : Addr; DstIP : Addr; SrcPort : Z; DstPort : Z; kProto : Z }.

#[global] Instance connKey_eq_dec : EqDecision connKey.
Proof. solve_decision. Defined.

#[global] Instance connKey_countable : Countable connKey.
Proof.
  refine (inj_countable' (λ k, (SrcIP k, DstIP k, SrcPort k, DstPort k, kProto k))
    (λ '(a, b, c, d, e), mkConnKey a b c d e) _). by intros [].
Defined.

(** [conntrack.seen]: last-seen time per key. *)
Abbreviation conntrack := (gmap connKey Z).

Record Firewall := mkFirewall {
  inbound : list Rule;
  outbound : list Rule;
  ct : conntrack;
}.

(** ** ParseRule *)

Definition parse_proto (s : bytes) : go Z :=
  let t := ToLower (TrimSpace s) in
  if bool_decide (t = lit "") || bool_decide (t = lit "any") then Ok ProtoAny
  else if bool_decide (t = lit "tcp") then Ok ProtoTCP
  else if bool_decide (t = lit "udp") then Ok ProtoUDP
  else if bool_decide (t = lit "icmp") then Ok ProtoICMP
  else Fail (Errorf "firewall: unknown protocol").

Definition is_any (t : bytes) : bool := bool_decide (t = lit "") || bool_decide (t = lit "any").

Definition ParseRule (r : FirewallRule) : go Rule :=
  try! proto := parse_proto (rProto r) in
  try! (port, portAny) :=
    (if is_any (ToLower (TrimSpace (rPort r))) then Ok (0, true)
     else try! p := go_wrap "firewall: invalid port" (ParseUint10 (rPort r) 16) in
          Ok (u16 p, false)) in
  let '(group, groupAny) :=
    (if is_any (TrimSpace (rGroup r)) then ([], true) else (rGroup r, false)) in
  try! (cidr, cidAny) :=
    (if is_any (ToLower (TrimSpace (rCIDR r))) then Ok (PrefixZero, true)
     else try! prefix := go_wrap "firewall: invalid CIDR" (ParsePrefix (rCIDR r)) in
          Ok (Masked prefix, false)) in
  Ok {| rulePort := port; rulePortAny := portAny; ruleProto := proto;
        ruleGroup := group; ruleGroupAny := groupAny; ruleCIDR := cidr; ruleCIDAny := cidAny |}.

(** ** Connection tracking *)

Definition reversed (k : connKey) : connKey :=
  {| SrcIP := DstIP k; DstIP := SrcIP k; SrcPort := DstPort k; DstPort := SrcPort k;
     kProto := kProto k |}.

Definition newConntrack : conntrack := ∅.

Definition Track (now : Z) (k : connKey) (t : conntrack) : conntrack := <[k := now]> t.

Definition IsEstablished (k : connKey) (t : conntrack) : bool :=
  bool_decide (is_Some (t !! k)) || bool_decide (is_Some (t !! reversed k)).

(** [now.Sub(last)] saturates at the bounds of [time.Duration]. *)
Definition time_sub (a b : Z) : Z := Z.max (- 2 ^ 63) (Z.min (2 ^ 63 - 1) (a - b)).

Definition ttl (tcpTimeout udpTimeout defaultTimeout proto : Z) : Z :=
  if proto =? ProtoTCP then tcpTimeout
  else if proto =? ProtoUDP then udpTimeout
  else defaultTimeout.

(** The loop [for k, last := range ct.seen], over the entries in the order
    [order] in which the runtime yields them. *)
Fixpoint expire_loop (tcp udp dflt now : Z) (order : list (connKey * Z)) (t : conntrack) : conntrack :=
  match order with
  | [] => t
  | (k, last) :: order' =>
      let t := if ttl tcp udp dflt (kProto k) <=? time_sub now last then delete k t else t in
      expire_loop tcp udp dflt now order' t
  end.

Definition Expire (tcp udp dflt now : Z) (t : conntrack) : conntrack :=
  expire_loop tcp udp dflt now (map_to_list t) t.

(** ** The filter *)

Definition New (ins outs : list Rule) : Firewall :=
  {| inbound := ins; outbound := outs; ct := newConntrack |}.

Definition matches (r : Rule) (remoteIP : Addr) (remoteGroups : list bytes) (port proto : Z) : bool :=
  if negb (ruleProto r =? ProtoAny) && negb (ruleProto r =? proto) then false
  else if negb (rulePortAny r) && negb (rulePort r =? port) then false
  else if negb (ruleGroupAny r) && negb (existsb (λ g, bool_decide (g = ruleGroup r)) remoteGroups)
  then false
  else if negb (ruleCIDAny r) && negb (Contains (ruleCIDR r) remoteIP) then false
  else true.

(** The key both directions use: the remote address and the destination port. *)
Definition flow_key (ip : Addr) (port proto : Z) : connKey :=
  {| SrcIP := AddrZero; DstIP := ip; SrcPort := 0; DstPort := port; kProto := proto |}.

(** The common shape of the two filters: [for _, r := range rules { if matches
    { Track; return true } }; return false]. *)
Fixpoint scan_rules (rules : list Rule) (ip : Addr) (groups : list bytes) (port proto now : Z)
    (t : conntrack) : conntrack * bool :=
  match rules with
  | [] => (t, false)
  | r :: rules' =>
      if matches r ip groups port proto then (Track now (flow_key ip port proto) t, true)
      else scan_rules rules' ip groups port proto now t
  end.

Definition AllowInbound (srcIP : Addr) (srcGroups : list bytes) (dstPort proto now : Z)
    (f : Firewall) : Firewall * bool :=
  let k := flow_key srcIP dstPort proto in
  if IsEstablished k (ct f) then (f, true)
  else let '(t, b) := scan_rules (inbound f) srcIP srcGroups dstPort proto now (ct f) in
       ({| inbound := inbound f; outbound := outbound f; ct := t |}, b).

Definition AllowOutbound (dstIP : Addr) (dstGroups : list bytes) (dstPort proto now : Z)
    (f : Firewall) : Firewall * bool :=
  let k := flow_key dstIP dstPort proto in
  if IsEstablished k (ct f) then (f, true)
  else let '(t, b) := scan_rules (outbound f) dstIP dstGroups dstPort proto now (ct f) in
       ({| inbound := inbound f; outbound := outbound f; ct := t |}, b).

(** ** Expiry *)

Definition Millisecond : Z := 1000000.
Definition Second : Z := 1000 * Millisecond.
Definition Minute : Z := 60 * Second.

Definition defaultTCPTimeout : Z := 5 * Minute.
Definition defaultUDPTimeout : Z := 30 * Second.
Definition defaultICMPTimeout : Z := 10 * Second.

Definition ExpireWith (tcp udp dflt now : Z) (f : Firewall) : Firewall :=
  {| inbound := inbound f; outbound := outbound f; ct := Expire tcp udp dflt now (ct f) |}.

(** One tick of [RunExpiry]'s loop. *)
Definition expiry_tick (now : Z) (f : Firewall) : Firewall :=
  ExpireWith defaultTCPTimeout defaultUDPTimeout defaultICMPTimeout now f.

(** The loop until [ctx] is cancelled: one [Expire] per tick received. *)
Definition RunExpiry (ticks : list Z) (f : Firewall) : Firewall :=
  fold_left (λ f now, expiry_tick now f) ticks f.

(** ** The filter as a state machine *)

Inductive fw_event : Type :=
| EvIn (ip : Addr) (groups : list bytes) (port proto now : Z)
| EvOut (ip : Addr) (groups : list bytes) (port proto now : Z)
| EvExpire (tcp udp dflt now : Z).

(** The answer to a packet, [None] for an expiry run. *)
Definition fw_step (f : Firewall) (e : fw_event) : Firewall * option bool :=
  match e with
  | EvIn ip groups port proto now =>
      let '(f', b) := AllowInbound ip groups port proto now f in (f', Some b)
  | EvOut ip groups port proto now =>
      let '(f', b) := AllowOutbound ip groups port proto now f in (f', Some b)
  | EvExpire tcp udp dflt now => (ExpireWith tcp udp dflt now f, None)
  end.

(** States reachable from a firewall built by [New]. *)
Inductive fw_reachable (ins outs : list Rule) : Firewall → Prop :=
| fw_init : fw_reachable ins outs (New ins outs)
| fw_next f e : fw_reachable ins outs f → fw_reachable ins outs (fw_step f e).1.

(** ** Rule matching *)

(** Declarative reading of a rule: each field is a wildcard or agrees. *)
Definition rule_admits (r : Rule) (ip : Addr) (groups : list bytes) (port proto : Z) : Prop :=
  (ruleProto r = ProtoAny ∨ ruleProto r = proto) ∧
  (rulePortAny r = true ∨ rulePort r = port) ∧
  (ruleGroupAny r = true ∨ ruleGroup r ∈ groups) ∧
  (ruleCIDAny r = true ∨ Contains (ruleCIDR r) ip = true).

Lemma group_loop g (l : list bytes) : existsb (λ x, bool_decide (x = g)) l = true ↔ g ∈ l.
Proof.
  rewrite existsb_exists. setoid_rewrite bool_decide_eq_true. setoid_rewrite <- list_elem_of_In.
  split; [by intros (x & Hx & ->) | eauto].
Qed.

Lemma matches_admits r ip groups port proto :
  matches r ip groups port proto = true ↔ rule_admits r ip groups port proto.
Proof.
  unfold matches, rule_admits. rewrite <- group_loop, <- !Z.eqb_eq.
  destruct (ruleProto r =? ProtoAny), (ruleProto r =? proto), (rulePortAny r), (rulePort r =? port),
    (ruleGroupAny r), (existsb _ groups), (ruleCIDAny r), (Contains _ _); cbn; intuition discriminate.
Qed.

(** ** The table *)

Lemma reversed_involutive k : reversed (reversed k) = k.
Proof. by destruct k. Qed.

Lemma IsEstablished_reversed k t : IsEstablished (reversed k) t = IsEstablished k t.
Proof. unfold IsEstablished. rewrite reversed_involutive. apply orb_comm. Qed.

Lemma scan_rules_spec rules ip groups port proto now t :
  scan_rules rules ip groups port proto now t =
    if existsb (λ r, matches r ip groups port proto) rules
    then (Track now (flow_key ip port proto) t, true) else (t, false).
Proof. induction rules as [|r rules IH]; cbn; [done |]. by destruct (matches _ _ _ _ _). Qed.

Lemma existsb_rules rules ip groups port proto :
  existsb (λ r, matches r ip groups port proto) rules = true ↔
    ∃ r, r ∈ rules ∧ rule_admits r ip groups port proto.
Proof.
  rewrite existsb_exists. setoid_rewrite matches_admits. by setoid_rewrite <- list_elem_of_In.
Qed.

(** Entries that survive an expiry run. *)
Definition alive (tcp udp dflt now : Z) (kv : connKey * Z) : Prop :=
  time_sub now kv.2 < ttl tcp udp dflt (kProto kv.1).

#[global] Instance alive_dec tcp udp dflt now kv : Decision (alive tcp udp dflt now kv).
Proof. unfold alive. apply _. Defined.

Lemma alive_leb tcp udp dflt now k last :
  (ttl tcp udp dflt (kProto k) <=? time_sub now last) = negb (bool_decide (alive tcp udp dflt now (k, last))).
Proof. unfold alive. cbn. case_bool_decide; [apply Z.leb_gt | apply Z.leb_le]; lia. Qed.

Lemma expire_loop_keep tcp udp dflt now order t k :
  (∀ last, (k, last) ∈ order → alive tcp udp dflt now (k, last)) →
  expire_loop tcp udp dflt now order t !! k = t !! k.
Proof.
  revert t. induction order as [|[k' last] order IH]; intros t H; cbn [expire_loop]; [done |].
  rewrite IH by (intros; apply H; by right).
  rewrite alive_leb. case_bool_decide as Ha; cbn [negb]; [done |].
  rewrite lookup_delete_ne; [done |]. intros <-. apply Ha, H. by left.
Qed.

Lemma expire_loop_None tcp udp dflt now order t k :
  t !! k = None → expire_loop tcp udp dflt now order t !! k = None.
Proof.
  revert t. induction order as [|[k' last] order IH]; intros t H; cbn [expire_loop]; [done |].
  apply IH. destruct (_ <=? _); [| done]. apply lookup_delete_None. by right.
Qed.

Lemma expire_loop_drop tcp udp dflt now order t k last :
  (k, last) ∈ order → ¬ alive tcp udp dflt now (k, last) →
  expire_loop tcp udp dflt now order t !! k = None.
Proof.
  intros Hin Hna. revert t. induction order as [|[k' last'] order IH]; intros t; [by inversion Hin |].
  cbn [expire_loop]. apply elem_of_cons in Hin as [Heq | Hin]; [| by apply IH].
  simplify_eq. rewrite alive_leb, bool_decide_eq_false_2 by done. cbn [negb].
  apply expire_loop_None, lookup_delete_eq.
Qed.

(** The loop computes the surviving entries, in whatever order the runtime
    visits the map. *)
Lemma expire_loop_filter tcp udp dflt now order (t : conntrack) :
  order ≡ₚ map_to_list t →
  expire_loop tcp udp dflt now order t = filter (alive tcp udp dflt now) t.
Proof.
  intros Hp. apply map_eq. intros k.
  assert (Hin : ∀ last, (k, last) ∈ order ↔ t !! k = Some last)
    by (intros; by rewrite Hp, elem_of_map_to_list).
  destruct (t !! k) as [v|] eqn:E.
  - destruct (decide (alive tcp udp dflt now (k, v))).
    + rewrite expire_loop_keep by (intros last Hl; apply Hin in Hl; by simplify_eq).
      rewrite E. symmetry. by apply map_lookup_filter_Some.
    + rewrite (expire_loop_drop _ _ _ _ _ _ _ v) by (done || by apply Hin).
      symmetry. apply map_lookup_filter_None. right. intros v' Hv'. by simplify_eq.
  - rewrite expire_loop_keep by (intros last Hl; apply Hin in Hl; done).
    rewrite E. symmetry. apply map_lookup_filter_None. by left.
Qed.

Lemma Expire_filter tcp udp dflt now t : Expire tcp udp dflt now t = filter (alive tcp udp dflt now) t.
Proof. by apply expire_loop_filter. Qed.

(** ** Reachable states *)

(** Every tracked flow was admitted by a rule of one of the directions. *)
Definition justified (ins outs : list Rule) (k : connKey) : Prop :=
  ∃ r groups, r ∈ ins ++ outs ∧ rule_admits r (DstIP k) groups (DstPort k) (kProto k).

Definition fw_inv (ins outs : list Rule) (f : Firewall) : Prop :=
  inbound f = ins ∧ outbound f = outs ∧
  ∀ k t, ct f !! k = Some t → justified ins outs k ∧ k = flow_key (DstIP k) (DstPort k) (kProto k).

Lemma fw_inv_track ins outs rules ip groups port proto now f :
  fw_inv ins outs f → rules ⊆ ins ++ outs →
  fw_inv ins outs {| inbound := inbound f; outbound := outbound f;
    ct := (scan_rules rules ip groups port proto now (ct f)).1 |}.
Proof.
  intros (Hi & Ho & Hct) Hsub. rewrite scan_rules_spec.
  destruct (existsb _ rules) eqn:E; split_and!; try done. cbn.
  apply existsb_rules in E as (r & Hr & Hadm).
  intros k t Hk. unfold Track in Hk. apply lookup_insert_Some in Hk as [[<- <-] | [_ Hk]]; [| by eapply Hct].
  split; [| done]. exists r, groups. split; [by apply Hsub | done].
Qed.

Lemma fw_step_inv ins outs f e : fw_inv ins outs f → fw_inv ins outs (fw_step f e).1.
Proof.
  intros H. pose proof H as (Hi & Ho & Hct). destruct e as [ip g p pr now | ip g p pr now | a b c now];
    cbn [fw_step].
  - unfold AllowInbound. destruct (IsEstablished _ _); [done |].
    pose proof (fw_inv_track ins outs (inbound f) ip g p pr now f H) as Hs. rewrite Hi in *.
    destruct (scan_rules ins ip g p pr now (ct f)). apply Hs. intros x Hx. apply elem_of_app. by left.
  - unfold AllowOutbound. destruct (IsEstablished _ _); [done |].
    pose proof (fw_inv_track ins outs (outbound f) ip g p pr now f H) as Hs. rewrite Ho in *.
    destruct (scan_rules outs ip g p pr now (ct f)). apply Hs. intros x Hx. apply elem_of_app. by right.
  - split_and!; [done | done |]. cbn. intros k t Hk. rewrite Expire_filter in Hk.
    apply map_lookup_filter_Some in Hk as [Hk _]. by eapply Hct.
Qed.

Lemma fw_reachable_inv ins outs f : fw_reachable ins outs f → fw_inv ins outs f.
Proof.
  induction 1; [| by apply fw_step_inv].
  split_and!; [done | done |]. intros k t Hk. cbn in Hk. unfold newConntrack in Hk. by rewrite lookup_empty in Hk.
Qed.

(** What an established flow of a reachable firewall implies. *)
Lemma established_justified ins outs f ip port proto :
  fw_inv ins outs f → IsEstablished (flow_key ip port proto) (ct f) = true →
  justified ins outs (flow_key ip port proto).
Proof.
  intros (_ & _ & Hct) H. unfold IsEstablished in H. apply orb_true_iff in H.
  rewrite !bool_decide_eq_true in H. destruct H as [[t Ht] | [t Ht]]; [exact (proj1 (Hct _ _ Ht)) |].
  destruct (Hct _ _ Ht) as [Hj Heq]. unfold flow_key, reversed in Heq.
  cbn in Heq. by simplify_eq.
Qed.

(** ** Properties *)

(** The decision of either filter and its effect on the table, on every
    branch: a packet passes exactly when its flow is established or some rule of
    the direction admits it; the rules never change; the table gains the flow,
    stamped [now], when a rule decided, and is untouched otherwise (an
    established flow is not restamped). *)
Theorem Allow_spec ip groups port proto now f :
  let k := flow_key ip port proto in
  let verdict rules := IsEstablished k (ct f) = true ∨ ∃ r, r ∈ rules ∧ rule_admits r ip groups port proto in
  let table (b : bool) := if b && negb (IsEstablished k (ct f)) then <[k := now]> (ct f) else ct f in
  ((AllowInbound ip groups port proto now f).2 = true ↔ verdict (inbound f)) ∧
  ((AllowOutbound ip groups port proto now f).2 = true ↔ verdict (outbound f)) ∧
  (AllowInbound ip groups port proto now f).1 =
    mkFirewall (inbound f) (outbound f) (table (AllowInbound ip groups port proto now f).2) ∧
  (AllowOutbound ip groups port proto now f).1 =
    mkFirewall (inbound f) (outbound f) (table (AllowOutbound ip groups port proto now f).2).
Proof.
  cbv zeta. unfold AllowInbound, AllowOutbound. rewrite <- !existsb_rules, !scan_rules_spec.
  destruct (IsEstablished _ _); [destruct f; cbn; intuition congruence |].
  destruct (existsb _ (inbound f)), (existsb _ (outbound f)), f; cbn; intuition congruence.
Qed.

(** The order of the rules does not matter: permuting both rule lists leaves
    every decision and every table update the same. *)
Theorem Allow_permutation ins ins' outs outs' t ip groups port proto now :
  ins ≡ₚ ins' → outs ≡ₚ outs' →
  let f := mkFirewall ins outs t in
  let f' := mkFirewall ins' outs' t in
  (AllowInbound ip groups port proto now f).2 = (AllowInbound ip groups port proto now f').2 ∧
  (AllowOutbound ip groups port proto now f).2 = (AllowOutbound ip groups port proto now f').2 ∧
  ct (AllowInbound ip groups port proto now f).1 = ct (AllowInbound ip groups port proto now f').1 ∧
  ct (AllowOutbound ip groups port proto now f).1 = ct (AllowOutbound ip groups port proto now f').1.
Proof.
  intros Hi Ho. cbv zeta. unfold AllowInbound, AllowOutbound. cbn [ct inbound outbound].
  rewrite !scan_rules_spec.
  assert (E : ∀ l l' : list Rule, l ≡ₚ l' →
    existsb (λ r, matches r ip groups port proto) l = existsb (λ r, matches r ip groups port proto) l').
  { intros l l' Hp. apply eq_true_iff_eq. rewrite !existsb_rules. by setoid_rewrite Hp. }
  rewrite (E _ _ Hi), (E _ _ Ho). destruct (IsEstablished _ _); [done |].
  by destruct (existsb _ ins'), (existsb _ outs').
Qed.

(** C22. Safety over every run: whatever packets and expiry runs came before, a
    packet that passes in either direction belongs to a flow (remote address,
    destination port, protocol) that some configured rule, inbound or outbound,
    admits for some set of groups.  With no rules nothing ever passes. *)
Theorem firewall_no_rule_no_traffic ins outs f ip groups port proto now :
  fw_reachable ins outs f →
  (AllowInbound ip groups port proto now f).2 = true ∨
  (AllowOutbound ip groups port proto now f).2 = true →
  ∃ r groups', r ∈ ins ++ outs ∧ rule_admits r ip groups' port proto.
Proof.
  intros Hr H. apply fw_reachable_inv in Hr. pose proof Hr as (Hi & Ho & _).
  destruct (IsEstablished (flow_key ip port proto) (ct f)) eqn:E.
  { by apply (established_justified ins outs f). }
  unfold AllowInbound, AllowOutbound in H. rewrite E, !scan_rules_spec in H.
  destruct H as [H | H].
  - destruct (existsb _ (inbound f)) eqn:Ex; [| done]. apply existsb_rules in Ex as (r & Hin & Hadm).
    exists r, groups. rewrite elem_of_app, <- Hi. auto.
  - destruct (existsb _ (outbound f)) eqn:Ex; [| done]. apply existsb_rules in Ex as (r & Hin & Hadm).
    exists r, groups. rewrite elem_of_app, <- Ho. auto.
Qed.

Lemma firewall_no_rule_no_traffic_witness :
  let out := mkRule 443 false ProtoTCP [] true PrefixZero true in
  ∃ r groups', r ∈ [] ++ [out] ∧ rule_admits r (Addr4 7) groups' 443 ProtoTCP.
Proof.
  intros out.
  apply (firewall_no_rule_no_traffic [] [out]
    (fw_step (New [] [out]) (EvOut (Addr4 7) [] 443 ProtoTCP 10)).1 (Addr4 7) [] 443 ProtoTCP 11).
  - apply fw_next, fw_init.
  - left. reflexivity.
Defined.

(** Expiry: in whatever order the runtime visits the table, exactly the
    entries younger than their protocol's timeout survive, with their stamps. *)
Theorem Expire_order_independent tcp udp dflt now order (t : conntrack) :
  order ≡ₚ map_to_list t →
  expire_loop tcp udp dflt now order t = Expire tcp udp dflt now t ∧
  ∀ k last, Expire tcp udp dflt now t !! k = Some last ↔
    t !! k = Some last ∧ time_sub now last < ttl tcp udp dflt (kProto k).
Proof.
  intros Hp. rewrite Expire_filter. split; [by apply expire_loop_filter |].
  intros k last. rewrite map_lookup_filter_Some. done.
Qed.

Lemma Expire_order_independent_witness :
  let k1 := flow_key (Addr4 1) 53 ProtoUDP in
  let k2 := flow_key (Addr4 1) 22 ProtoTCP in
  let t : conntrack := <[k1 := 0]> (<[k2 := 0]> ∅) in
  expire_loop 300 30 10 40 (reverse (map_to_list t)) t = Expire 300 30 10 40 t.
Proof.
  intros k1 k2 t.
  destruct (Expire_order_independent 300 30 10 40 (reverse (map_to_list t)) t) as [H _].
  - apply reverse_Permutation.
  - exact H.
Defined.

(** ** Rules as written in the configuration *)

(** How a reader understands the four fields, without the parser: [None] stands
    for no restriction.  Words are read without regard to case and surrounding
    space, except in a group. *)
Definition says (s : bytes) (w : string) : Prop := ToLower (TrimSpace s) = lit w.

Definition wildcard (s : bytes) : Prop := says s "" ∨ says s "any".

(** The IANA numbers of the protocols. *)
Inductive reads_proto (s : bytes) : option Z → Prop :=
| reads_any_proto : wildcard s → reads_proto s None
| reads_icmp : says s "icmp" → reads_proto s (Some 1)
| reads_tcp : says s "tcp" → reads_proto s (Some 6)
| reads_udp : says s "udp" → reads_proto s (Some 17).

(** A number in decimal: one digit or more, the most significant first. *)
Definition decimal (s : bytes) : Z := foldl (λ v c, 10 * v + (c - 48)) 0 s.

Inductive reads_port (s : bytes) : option Z → Prop :=
| reads_any_port : wildcard s → reads_port s None
| reads_number : ¬ wildcard s → s ≠ [] → Forall (λ c, 48 ≤ c ≤ 57) s → decimal s < 65536 → reads_port s (Some (decimal s)).

Inductive reads_group (s : bytes) : option bytes → Prop :=
| reads_any_group : TrimSpace s = lit "" ∨ TrimSpace s = lit "any" → reads_group s None
| reads_name : TrimSpace s ≠ lit "" → TrimSpace s ≠ lit "any" → reads_group s (Some s).

Inductive reads_cidr (s : bytes) : option Prefix → Prop :=
| reads_any_cidr : wildcard s → reads_cidr s None
| reads_prefix p : ¬ wildcard s → ParsePrefix s = Ok p → reads_cidr s (Some p).

(** What the text of a rule says. *)
Record reading := mkReading {
  rdProto : option Z; rdPort : option Z; rdGroup : option bytes; rdCIDR : option Prefix }.

Record reads_rule (r : FirewallRule) (d : reading) : Prop := {
  reads_1 : reads_proto (rProto r) (rdProto d);
  reads_2 : reads_port (rPort r) (rdPort d);
  reads_3 : reads_group (rGroup r) (rdGroup d);
  reads_4 : reads_cidr (rCIDR r) (rdCIDR d);
}.

(** The packets it lets through. *)
Definition reading_admits (d : reading) (ip : Addr) (groups : list bytes) (port proto : Z) : Prop :=
  (∀ p, rdProto d = Some p → p = proto) ∧ (∀ p, rdPort d = Some p → p = port) ∧
  (∀ g, rdGroup d = Some g → g ∈ groups) ∧ (∀ c, rdCIDR d = Some c → Contains c ip = true).

(** *** The parser, field by field *)

Lemma is_any_spec t : is_any t = true ↔ t = lit "" ∨ t = lit "any".
Proof. unfold is_any. by rewrite orb_true_iff, !bool_decide_eq_true. Qed.

Lemma wildcard_spec s : is_any (ToLower (TrimSpace s)) = true ↔ wildcard s.
Proof. apply is_any_spec. Qed.

Lemma parse_proto_reads s o : reads_proto s o → parse_proto s = Ok (default 0 o).
Proof. unfold parse_proto. destruct 1 as [[H|H]|H|H|H]; unfold says in H; by rewrite H. Qed.

Lemma parse_proto_refuses s : (∃ o, reads_proto s o) ∨ ∃ e, parse_proto s = Fail e.
Proof.
  unfold parse_proto. cbv zeta. fold (is_any (ToLower (TrimSpace s))).
  destruct (is_any _) eqn:Hw; [left; exists None; constructor; by apply wildcard_spec |].
  case_bool_decide; [left; eexists; by apply reads_tcp |].
  case_bool_decide; [left; eexists; by apply reads_udp |].
  case_bool_decide; [left; eexists; by apply reads_icmp | eauto].
Qed.

(** [ParseUint] reads exactly the decimal numbers below the bound. *)
Lemma foldl_decimal_le s v : Forall (λ c, 48 ≤ c ≤ 57) s → 0 ≤ v → v ≤ foldl (λ v c, 10 * v + (c - 48)) v s.
Proof.
  intros H. revert v. induction H as [|c s Hc _ IH]; intros v Hv; cbn; [done |].
  specialize (IH (10 * v + (c - 48))). lia.
Qed.

Lemma parse_digits_spec maxVal s v : 0 ≤ v ≤ maxVal →
  let d := foldl (λ v c, 10 * v + (c - 48)) v s in
  (Forall (λ c, 48 ≤ c ≤ 57) s ∧ d ≤ maxVal → parse_digits maxVal v s = Ok d) ∧
  (¬ (Forall (λ c, 48 ≤ c ≤ 57) s ∧ d ≤ maxVal) → ∃ e, parse_digits maxVal v s = Fail e).
Proof.
  revert v. induction s as [|c s IH]; intros v Hv; cbn [parse_digits foldl].
  { split; [done |]. intros []. split; [done | cbn; lia]. }
  unfold is_digit. destruct (Z.leb_spec 48 c), (Z.leb_spec c 57); cbn [andb];
    try (split; [intros [[? _]%Forall_cons _]; lia | eauto]).
  replace (v * 10 + (c - 48)) with (10 * v + (c - 48)) by lia.
  destruct (Z.ltb_spec maxVal (10 * v + (c - 48))) as [Hgt|Hle].
  - split; [| eauto]. intros [[_ Hs]%Forall_cons Hd]. pose proof (foldl_decimal_le s (10 * v + (c - 48)) Hs). lia.
  - destruct (IH (10 * v + (c - 48))) as [H1 H2]; [lia |]. split.
    + intros [[_ Hs]%Forall_cons Hd]. by apply H1.
    + intros Hn. apply H2. intros [Hs Hd]. apply Hn. split; [by constructor | done].
Qed.

Definition port_field (s : bytes) : go (Z * bool) :=
  if is_any (ToLower (TrimSpace s)) then Ok (0, true)
  else try! p := go_wrap "firewall: invalid port" (ParseUint10 s 16) in Ok (u16 p, false).

Lemma port_field_reads s o : reads_port s o → port_field s = Ok (default 0 o, bool_decide (o = None)).
Proof.
  unfold port_field. destruct 1 as [Hw | Hw Hs Hd Hb].
  - by rewrite (proj2 (wildcard_spec s) Hw).
  - rewrite (not_true_is_false (is_any (ToLower (TrimSpace s)))) by (by rewrite wildcard_spec). unfold ParseUint10. destruct s as [|c s]; [done |].
    destruct (parse_digits_spec (2 ^ 16 - 1) (c :: s) 0) as [Hok _]; [lia |].
    rewrite Hok by (split; [done |]; unfold decimal in Hb; lia).
    cbn [go_wrap go_bind]. fold (decimal (c :: s)). rewrite wrap_small; [done |].
    pose proof (foldl_decimal_le _ 0 Hd). unfold decimal in *. unfold in_u. lia.
Qed.

Lemma port_field_refuses s : (∃ o, reads_port s o) ∨ ∃ e, port_field s = Fail e.
Proof.
  unfold port_field. destruct (is_any _) eqn:Hw; [left; exists None; constructor; by apply wildcard_spec |].
  assert (Hw' : ¬ wildcard s) by (rewrite <- wildcard_spec; congruence).
  unfold ParseUint10. destruct s as [|c s]; [cbn; eauto |].
  destruct (parse_digits_spec (2 ^ 16 - 1) (c :: s) 0) as [_ Hf]; [lia |].
  destruct (decide (Forall (λ c, 48 ≤ c ≤ 57) (c :: s) ∧ decimal (c :: s) ≤ 2 ^ 16 - 1)) as [[Hd Hb]|Hn].
  - left. eexists. apply reads_number; [done | done | done | lia].
  - right. destruct (Hf Hn) as [e ->]. cbn. eauto.
Qed.

Definition cidr_field (s : bytes) : go (Prefix * bool) :=
  if is_any (ToLower (TrimSpace s)) then Ok (PrefixZero, true)
  else try! prefix := go_wrap "firewall: invalid CIDR" (ParsePrefix s) in Ok (Masked prefix, false).

Lemma cidr_field_reads s o :
  reads_cidr s o → cidr_field s = Ok (from_option Masked PrefixZero o, bool_decide (o = None)) ∧ (∀ c, o = Some c → Prefix_ok c).
Proof.
  unfold cidr_field. destruct 1 as [Hw | p Hw Hp].
  - by rewrite (proj2 (wildcard_spec s) Hw).
  - rewrite (not_true_is_false (is_any (ToLower (TrimSpace s)))) by (by rewrite wildcard_spec). pose proof (ParsePrefix_yields s) as Hy. rewrite Hp in Hy |- *.
    split; [done |]. by intros c [= <-].
Qed.

Lemma cidr_field_refuses s : (∃ o, reads_cidr s o) ∨ ∃ e, cidr_field s = Fail e.
Proof.
  unfold cidr_field. destruct (is_any _) eqn:Hw; [left; exists None; constructor; by apply wildcard_spec |].
  pose proof (ParsePrefix_yields s) as Hy. destruct (ParsePrefix s) as [p|e|] eqn:Hp; [| cbn; eauto | done].
  left. exists (Some p). constructor; [rewrite <- wildcard_spec; congruence | done].
Qed.

Lemma group_field s : ∃ o, reads_group s o ∧
  ∀ o', reads_group s o' → (if is_any (TrimSpace s) then ([], true) else (s, false)) = (default [] o', bool_decide (o' = None)).
Proof.
  destruct (is_any (TrimSpace s)) eqn:Hw.
  - apply is_any_spec in Hw. exists None. split; [by constructor |]. intros o' [_ | H1 H2]; [done | naive_solver].
  - assert (Hn : ¬ (TrimSpace s = lit "" ∨ TrimSpace s = lit "any")) by (rewrite <- is_any_spec; congruence).
    exists (Some s). split; [constructor; naive_solver |]. by intros o' [H | _ _].
Qed.

Lemma ParseRule_fields r : ParseRule r =
  try! proto := parse_proto (rProto r) in
  try! (port, portAny) := port_field (rPort r) in
  let '(group, groupAny) := (if is_any (TrimSpace (rGroup r)) then ([], true) else (rGroup r, false)) in
  try! (cidr, cidAny) := cidr_field (rCIDR r) in
  Ok (mkRule port portAny proto group groupAny cidr cidAny).
Proof. done. Qed.

(** A wildcard or a value that agrees. *)
Lemma field_matches {A} (o : option A) (P : A → Prop) (d : A) :
  (bool_decide (o = None) = true ∨ P (default d o)) ↔ ∀ a, o = Some a → P a.
Proof. destruct o as [a|]; cbn; split; naive_solver. Qed.

(** C23. The meaning of a rule's text: [ParseRule] accepts exactly the texts that
    can be read (a protocol name or none, a decimal port below 65536 or none, a
    group or none, a CIDR prefix or none), refuses every other text with an error,
    and the rule it compiles matches a packet exactly when the reading lets it
    through, with the protocol numbers of IANA; the masking of host bits changes
    nothing. *)
Theorem ParseRule_spec r :
  (∀ d, reads_rule r d → ∃ rule, ParseRule r = Ok rule ∧
     ∀ ip groups port proto, Addr_ok ip →
       (matches rule ip groups port proto = true ↔ reading_admits d ip groups port proto)) ∧
  ((∀ d, ¬ reads_rule r d) → ∃ e, ParseRule r = Fail e).
Proof.
  rewrite ParseRule_fields. destruct (group_field (rGroup r)) as (og & Hog & Hgroup). split.
  - intros [pr po g c] [H1 H2 H3 H4]. cbn [rdProto rdPort rdGroup rdCIDR] in *.
    rewrite (parse_proto_reads _ _ H1). cbn [go_bind]. rewrite (port_field_reads _ _ H2). cbn [go_bind].
    rewrite (Hgroup _ H3). destruct (cidr_field_reads _ _ H4) as [-> Hc]. cbn [go_bind]. eexists. split; [done |].
    intros ip groups port proto Hip. rewrite matches_admits. unfold rule_admits, reading_admits. cbn.
    apply Morphisms_Prop.and_iff_morphism; [| apply Morphisms_Prop.and_iff_morphism; [| apply Morphisms_Prop.and_iff_morphism]].
    + destruct H1; cbn; unfold ProtoAny; naive_solver lia.
    + apply (field_matches po (λ p, p = port)).
    + apply (field_matches g (λ g, g ∈ groups)).
    + destruct c as [c|]; cbn; [| naive_solver]. rewrite Contains_Masked by eauto. naive_solver.
  - intros Hno. destruct (parse_proto_refuses (rProto r)) as [[o1 H1] | [e ->]]; [| by exists e].
    destruct (port_field_refuses (rPort r)) as [[o2 H2] | [e He]].
    2:{ rewrite (parse_proto_reads _ _ H1), He. by exists e. }
    destruct (cidr_field_refuses (rCIDR r)) as [[o4 H4] | [e He]]; [by destruct (Hno (mkReading o1 o2 og o4)) |].
    rewrite (parse_proto_reads _ _ H1), (port_field_reads _ _ H2), He. destruct (if is_any _ then _ else _). by exists e.
Qed.

(** A rule for HTTPS inside 10.0.0.0/8, and one whose port is out of range. *)
Lemma ParseRule_spec_witness :
  let r port := {| rPort := lit port; rProto := lit " TCP"; rGroup := lit ""; rCIDR := lit "10.0.0.0/8" |} in
  (∃ rule, ParseRule (r "443") = Ok rule ∧ matches rule (Addr4 (10 * 2 ^ 24 + 1)) [] 443 6 = true ∧
     matches rule (Addr4 (10 * 2 ^ 24 + 1)) [] 443 17 = false) ∧
  ∃ e, ParseRule (r "65536") = Fail e.
Proof.
  intros r. split.
  - destruct (proj1 (ParseRule_spec (r "443")) (mkReading (Some 6) (Some 443) None (Some (mkPrefix (Addr4 (10 * 2 ^ 24)) 8))))
      as (rule & Hrule & Hm).
    + split; cbn [rdProto rdPort rdGroup rdCIDR].
      * by apply reads_tcp.
      * apply (reads_number (lit "443")); [by intros [H|H] | done | by repeat constructor | done].
      * apply reads_any_group. by left.
      * apply reads_prefix; [by intros [H|H] | by vm_compute].
    + exists rule. assert (Hip : Addr_ok (Addr4 (10 * 2 ^ 24 + 1))) by (cbn; unfold in_u; lia). split_and!; [done | |].
      * apply Hm; [done |]. split_and!; by intros ? [= <-].
      * apply not_true_is_false. intros H. apply Hm in H as [H _]; [| done]. by specialize (H 6 eq_refl).
  - apply (proj2 (ParseRule_spec (r "65536"))). intros [pr po g c] [_ H _ _]. cbn in H.
    inversion H as [[Hw|Hw] | Hw Hs Hd Hb]; [by vm_compute in Hw | by vm_compute in Hw | by vm_compute in Hb].
Defined.

(** ** How long a flow stays open *)

Lemma ExpireWith_lookup tcp udp dflt now f k last :
  ct (ExpireWith tcp udp dflt now f) !! k = Some last ↔
    ct f !! k = Some last ∧ time_sub now last < ttl tcp udp dflt (kProto k).
Proof. cbn. rewrite Expire_filter, map_lookup_filter_Some. done. Qed.

Lemma RunExpiry_lookup ticks f k last :
  ct (RunExpiry ticks f) !! k = Some last ↔
    ct f !! k = Some last ∧
    Forall (λ now, time_sub now last < ttl defaultTCPTimeout defaultUDPTimeout defaultICMPTimeout (kProto k)) ticks.
Proof.
  revert f. induction ticks as [|now ticks IH]; intros f; cbn [RunExpiry fold_left].
  - split; [by split | by intros [? _]].
  - change (fold_left _ ticks ?g) with (RunExpiry ticks g). rewrite IH. unfold expiry_tick.
    rewrite ExpireWith_lookup, Forall_cons. tauto.
Qed.

(** Timeouts: a flow tracked at [last] survives the expiry loop's ticks up
    to its protocol's limit and no longer: it is in the table after a series of
    ticks exactly when each tick came less than 5 minutes (TCP), 30 seconds
    (UDP) or 10 seconds (any other protocol) after [last]. *)
Theorem RunExpiry_timeouts ticks f ip port proto last :
  Forall (λ now, last ≤ now < last + 2 ^ 63) ticks →
  ct f !! flow_key ip port proto = Some last →
  ct (RunExpiry ticks f) !! flow_key ip port proto = Some last ↔
    Forall (λ now, now - last <
      (if proto =? 6 then 300 * Second else if proto =? 17 then 30 * Second else 10 * Second)) ticks.
Proof.
  intros Ht Hf. rewrite RunExpiry_lookup. cbn [kProto flow_key].
  assert (Hiff : ∀ now, now ∈ ticks →
    time_sub now last < ttl defaultTCPTimeout defaultUDPTimeout defaultICMPTimeout proto ↔
    now - last < (if proto =? 6 then 300 * Second else if proto =? 17 then 30 * Second else 10 * Second)).
  { intros now Hn. rewrite Forall_forall in Ht. specialize (Ht now Hn). cbn in Ht.
    unfold time_sub. rewrite Z.min_r, Z.max_r by lia. done. }
  rewrite !Forall_forall. split.
  - intros [_ H] now Hn. by apply Hiff, H.
  - intros H. split; [done |]. intros now Hn. by apply Hiff, H.
Qed.

Lemma RunExpiry_timeouts_witness :
  let f := (AllowOutbound (Addr4 9) [] 53 ProtoUDP 0
             (New [] [mkRule 0 true ProtoAny [] true PrefixZero true])).1 in
  ct (RunExpiry [Second] f) !! flow_key (Addr4 9) 53 ProtoUDP = Some 0.
Proof.
  intros f. apply (RunExpiry_timeouts [Second] f (Addr4 9) 53 ProtoUDP 0).
  - repeat constructor; unfold Second, Millisecond; lia.
  - reflexivity.
  - repeat constructor; unfold Second, Millisecond; cbn; lia.
Defined.

(** C40. What connection tracking lets back in: after an outbound packet to a
    host's port [p] passed, an inbound packet from that host passes when its
    destination port is [p]; but with no inbound rule, a packet whose
    destination port differs (as in the reply to a client's own source port) is
    still dropped, because the key records the destination port of either
    direction and never the source port. *)
Theorem tracked_return_traffic outs ip groups groups' p q proto now now' :
  (AllowOutbound ip groups p proto now (New [] outs)).2 = true →
  let f := (AllowOutbound ip groups p proto now (New [] outs)).1 in
  (AllowInbound ip groups' p proto now' f).2 = true ∧
  (ip ≠ AddrZero → q ≠ p → (AllowInbound ip groups' q proto now' f).2 = false).
Proof.
  unfold AllowOutbound. cbn [ct New]. unfold newConntrack.
  assert (Hempty : ∀ k, IsEstablished k ∅ = false).
  { intros k. unfold IsEstablished. rewrite !lookup_empty. by rewrite !bool_decide_eq_false_2 by (intros [? ?]; done). }
  rewrite Hempty, scan_rules_spec. cbn [outbound inbound New]. destruct (existsb _ outs); [| done]. intros _.
  cbn [fst snd]. unfold AllowInbound. cbn [ct inbound].
  unfold Track, IsEstablished. split.
  - rewrite lookup_insert_eq, bool_decide_eq_true_2 by eauto. done.
  - intros Hip Hq. rewrite !lookup_insert_ne by (unfold flow_key, reversed; cbn; congruence).
    rewrite lookup_empty, !bool_decide_eq_false_2 by (intros [? ?]; done). done.
Qed.

Lemma tracked_return_traffic_witness :
  let any := mkRule 0 true ProtoAny [] true PrefixZero true in
  let f := (AllowOutbound (Addr4 9) [] 443 ProtoTCP 0 (New [] [any])).1 in
  (AllowInbound (Addr4 9) [] 51234 ProtoTCP 1 f).2 = false.
Proof.
  intros any f.
  destruct (tracked_return_traffic [any] (Addr4 9) [] [] 443 51234 ProtoTCP 0 1) as [_ H].
  - reflexivity.
  - apply H; discriminate.
Defined.
