(* ===== verification/Messages.v ===== *)
(** * Package nethpb: the protobuf messages

    The message types of src/nethpb/neth.pb.go with their fields, and the
    nil-safe getters of the [oneof] body.  The unmarshaller never leaves a nil
    sub-message inside a set [oneof] case or a repeated field, so these are
    values; [WhoAmIReply.addr], a singular message field, may be absent.  The rest of
    the generated file is in [Descriptor] and [Nethpb]. *)

From S2P Require Import Prelude.

Record IpPort := mkIpPort { ipIp : bytes; ipPort : Z }.
Record HostQuery := mkHostQuery { qVpnIp : bytes }.
Record HostQueryReply := mkHostQueryReply { rVpnIp : bytes; rAddrs : list IpPort }.
Record HostUpdateNotification := mkHostUpdateNotification { uAddrs : list IpPort }.
Record WhoAmI := mkWhoAmI { }.
Record WhoAmIReply := mkWhoAmIReply { wAddr : option IpPort }.
Record HostPunchNotification := mkHostPunchNotification { pVpnIp : bytes; pAddrs : list IpPort }.

(** [isLightHouseMessage_Body]: the cases of the [oneof]. *)
Inductive LightHouseBody : Type :=
| LH_Query (q : HostQuery)
| LH_QueryReply (r : HostQueryReply)
| LH_Update (u : HostUpdateNotification)
| LH_WhoAmI (w : WhoAmI)
| LH_WhoAmIReply (r : WhoAmIReply)
| LH_Punch (p : HostPunchNotification).

(** [Body] is nil when no case is set. *)
Record LightHouseMessage := mkLightHouseMessage { lhBody : option LightHouseBody }.

Definition GetQuery (m : LightHouseMessage) : option HostQuery :=
  match lhBody m with Some (LH_Query q) => Some q | _ => None end.
Definition GetQueryReply (m : LightHouseMessage) : option HostQueryReply :=
  match lhBody m with Some (LH_QueryReply r) => Some r | _ => None end.
Definition GetUpdate (m : LightHouseMessage) : option HostUpdateNotification :=
  match lhBody m with Some (LH_Update u) => Some u | _ => None end.
Definition GetWhoAmI (m : LightHouseMessage) : option WhoAmI :=
  match lhBody m with Some (LH_WhoAmI w) => Some w | _ => None end.
Definition GetWhoAmIReply (m : LightHouseMessage) : option WhoAmIReply :=
  match lhBody m with Some (LH_WhoAmIReply r) => Some r | _ => None end.
Definition GetPunch (m : LightHouseMessage) : option HostPunchNotification :=
  match lhBody m with Some (LH_Punch p) => Some p | _ => None end.

Record HandshakeDetails := mkHandshakeDetails {
  dCert : bytes;
  dInitiatorIndex : Z;
  dResponderIndex : Z;
  dTime : Z;
}.

Record HandshakeMessage := mkHandshakeMessage {
  mDetails : bytes;
  mNoisePayload : bytes;
  mHmac : bytes;
}.

(** Field types: uint32, uint64, bytes. *)
Definition HandshakeDetails_ok (d : HandshakeDetails) : Prop :=
  bytes_ok (dCert d) ∧ in_u 32 (dInitiatorIndex d) ∧ in_u 32 (dResponderIndex d) ∧ in_u 64 (dTime d).

(** Messages the encoder accepts and gives back: proto3 strings here are text of
    addresses, ports are uint32. *)
Definition IpPort_ok (p : IpPort) : Prop := Forall (in_u 7) (ipIp p) ∧ in_u 32 (ipPort p).

Definition LightHouseMessage_ok (m : LightHouseMessage) : Prop :=
  match lhBody m with
  | None => True
  | Some (LH_Query q) => Forall (in_u 7) (qVpnIp q)
  | Some (LH_QueryReply r) => Forall (in_u 7) (rVpnIp r) ∧ Forall IpPort_ok (rAddrs r)
  | Some (LH_Update u) => Forall IpPort_ok (uAddrs u)
  | Some (LH_WhoAmI _) => True
  | Some (LH_WhoAmIReply r) => match wAddr r with None => True | Some p => IpPort_ok p end
  | Some (LH_Punch p) => Forall (in_u 7) (pVpnIp p) ∧ Forall IpPort_ok (pAddrs p)
  end.
