(* ===== verification/Descriptor.v ===== *)
(** * Package nethpb: the embedded descriptor

    src/nethpb/neth.pb.go carries the schema of the messages three times: as the
    Go structs with their tags, as the bytes of a serialised FileDescriptorProto,
    and as tables that connect the two.  All three are here as the file has them,
    with a reader of the descriptor after the published encoding (varints, tagged
    fields, and the field numbers of descriptor.proto), and they are shown to say
    the same. *)

From S2P Require Import Prelude GoText.

(** ** Reading the protobuf encoding *)

(** A base-128 number, least significant group first, of at most [fuel] bytes (ten
    of them hold 64 bits). *)
Fixpoint varint (fuel : nat) (b : bytes) : option (Z * bytes) :=
  match fuel, b with
  | S fuel', x :: r =>
      if x <? 128 then Some (x, r)
      else '(v, r') ← varint fuel' r; Some (x - 128 + 128 * v, r')
  | _, _ => None
  end.

Inductive wire := Varint (n : Z) | Len (b : bytes).

(** The fields of a message: number and value.  Every field takes at least a byte,
    so the length of the text is fuel enough. *)
Fixpoint read_fields (fuel : nat) (b : bytes) : option (list (Z * wire)) :=
  match b, fuel with
  | [], _ => Some []
  | _, O => None
  | _, S fuel' =>
      '(tag, r) ← varint 10 b;
      if tag mod 8 =? 0 then
        '(v, r') ← varint 10 r;
        rest ← read_fields fuel' r';
        Some ((tag / 8, Varint v) :: rest)
      else if tag mod 8 =? 2 then
        '(n, r') ← varint 10 r;
        if Z.of_nat (length r') <? n then None
        else
          rest ← read_fields fuel' (drop (Z.to_nat n) r');
          Some ((tag / 8, Len (take (Z.to_nat n) r')) :: rest)
      else None
  end.
Definition fields (b : bytes) : option (list (Z * wire)) := read_fields (length b) b.

Definition ints (k : Z) (l : list (Z * wire)) : list Z :=
  omap (λ '(n, w), if n =? k then match w with Varint v => Some v | Len _ => None end else None) l.
Definition strs (k : Z) (l : list (Z * wire)) : list bytes :=
  omap (λ '(n, w), if n =? k then match w with Len b => Some b | Varint _ => None end else None) l.

(** ** descriptor.proto *)

Inductive Kind := KString | KBytes | KUint32 | KUint64 | KMessage (type_name : bytes).

Record FieldDesc := mkFieldDesc {
  fName : bytes;
  fNumber : Z;
  fRepeated : bool;
  fKind : Kind;
  fOneof : option Z;
  fJson : bytes;
}.
Record MessageDesc := mkMessageDesc { mName : bytes; mFields : list FieldDesc; mOneofs : list bytes }.
Record FileDesc := mkFileDesc { fdPackage : bytes; fdSyntax : bytes; fdGoPackage : bytes; fdMessages : list MessageDesc }.

(** FieldDescriptorProto: name 1, number 3, label 4, type 5, type_name 6,
    oneof_index 9, json_name 10. *)
Definition field_kind (ty : Z) (type_name : option bytes) : option Kind :=
  match ty, type_name with
  | 4, None => Some KUint64
  | 9, None => Some KString
  | 11, Some t => Some (KMessage t)
  | 12, None => Some KBytes
  | 13, None => Some KUint32
  | _, _ => None
  end.

Definition read_field (b : bytes) : option FieldDesc :=
  l ← fields b;
  name ← head (strs 1 l); number ← head (ints 3 l); label ← head (ints 4 l); ty ← head (ints 5 l);
  kind ← field_kind ty (head (strs 6 l)); json ← head (strs 10 l);
  repeated ← (match label with 1 => Some false | 3 => Some true | _ => None end);
  Some (mkFieldDesc name number repeated kind (head (ints 9 l)) json).

(** DescriptorProto: name 1, field 2, oneof_decl 8 with its name 1. *)
Definition read_message (b : bytes) : option MessageDesc :=
  l ← fields b;
  name ← head (strs 1 l);
  fs ← mapM read_field (strs 2 l);
  oneofs ← mapM (λ o, l' ← fields o; head (strs 1 l')) (strs 8 l);
  Some (mkMessageDesc name fs oneofs).

(** FileDescriptorProto: package 2, message_type 4, options 8 with go_package 11,
    syntax 12. *)
Definition read_file (b : bytes) : option FileDesc :=
  l ← fields b;
  package ← head (strs 2 l); syntax ← head (strs 12 l);
  options ← head (strs 8 l); opts ← fields options; go_package ← head (strs 11 opts);
  msgs ← mapM read_message (strs 4 l);
  Some (mkFileDesc package syntax go_package msgs).

(** ** The Go types *)

Inductive GoMessage :=
| GLightHouseMessage | GHostQuery | GHostQueryReply | GHostUpdateNotification | GWhoAmI | GWhoAmIReply
| GHostPunchNotification | GIpPort | GHandshakeDetails | GHandshakeMessage.

#[export] Instance GoMessage_eq_dec : EqDecision GoMessage.
Proof. solve_decision. Defined.

(** Types of struct fields: string, uint32, uint64, []byte, pointers to messages and
    slices of such pointers. *)
Inductive GoFieldType := TString | TUint32 | TUint64 | TBytes | TPtr (m : GoMessage) | TSlice (m : GoMessage).

#[export] Instance GoFieldType_eq_dec : EqDecision GoFieldType.
Proof. solve_decision. Defined.

(** A struct field: name, type and the value of its protobuf tag. *)
Record GoField := mkGoField { gName : bytes; gType : GoFieldType; gTag : bytes }.

#[export] Instance GoField_eq_dec : EqDecision GoField.
Proof. solve_decision. Defined.

(** The exported fields of the structs. *)
Definition HostQuery_fields : list GoField :=
  [mkGoField (lit "VpnIp") TString (lit "bytes,1,opt,name=vpn_ip,json=vpnIp,proto3")].
Definition HostQueryReply_fields : list GoField :=
  [mkGoField (lit "VpnIp") TString (lit "bytes,1,opt,name=vpn_ip,json=vpnIp,proto3");
   mkGoField (lit "Addrs") (TSlice GIpPort) (lit "bytes,2,rep,name=addrs,proto3")].
Definition HostUpdateNotification_fields : list GoField :=
  [mkGoField (lit "Addrs") (TSlice GIpPort) (lit "bytes,1,rep,name=addrs,proto3")].
Definition WhoAmIReply_fields : list GoField :=
  [mkGoField (lit "Addr") (TPtr GIpPort) (lit "bytes,1,opt,name=addr,proto3")].
Definition HostPunchNotification_fields : list GoField :=
  [mkGoField (lit "VpnIp") TString (lit "bytes,1,opt,name=vpn_ip,json=vpnIp,proto3");
   mkGoField (lit "Addrs") (TSlice GIpPort) (lit "bytes,2,rep,name=addrs,proto3")].
Definition IpPort_fields : list GoField :=
  [mkGoField (lit "Ip") TString (lit "bytes,1,opt,name=ip,proto3");
   mkGoField (lit "Port") TUint32 (lit "varint,2,opt,name=port,proto3")].
Definition HandshakeDetails_fields : list GoField :=
  [mkGoField (lit "Cert") TBytes (lit "bytes,1,opt,name=cert,proto3");
   mkGoField (lit "InitiatorIndex") TUint32 (lit "varint,2,opt,name=initiator_index,json=initiatorIndex,proto3");
   mkGoField (lit "ResponderIndex") TUint32 (lit "varint,3,opt,name=responder_index,json=responderIndex,proto3");
   mkGoField (lit "Time") TUint64 (lit "varint,4,opt,name=time,proto3")].
Definition HandshakeMessage_fields : list GoField :=
  [mkGoField (lit "Details") TBytes (lit "bytes,1,opt,name=details,proto3");
   mkGoField (lit "NoisePayload") TBytes (lit "bytes,2,opt,name=noise_payload,json=noisePayload,proto3");
   mkGoField (lit "Hmac") TBytes (lit "bytes,3,opt,name=hmac,proto3")].

(** The [Body] of a [LightHouseMessage] is its [oneof], tagged with the name of it; its
    cases are structs of their own. *)
Definition struct_fields (m : GoMessage) : list GoField :=
  match m with
  | GLightHouseMessage => []
  | GHostQuery => HostQuery_fields
  | GHostQueryReply => HostQueryReply_fields
  | GHostUpdateNotification => HostUpdateNotification_fields
  | GWhoAmI => []
  | GWhoAmIReply => WhoAmIReply_fields
  | GHostPunchNotification => HostPunchNotification_fields
  | GIpPort => IpPort_fields
  | GHandshakeDetails => HandshakeDetails_fields
  | GHandshakeMessage => HandshakeMessage_fields
  end.

Definition oneof_tag (m : GoMessage) : list bytes :=
  match m with GLightHouseMessage => [lit "body"] | _ => [] end.

(** The structs of the cases, by their one field. *)
Inductive OneofWrapper :=
| LightHouseMessage_Query | LightHouseMessage_QueryReply | LightHouseMessage_Update
| LightHouseMessage_WhoAmI | LightHouseMessage_WhoAmIReply | LightHouseMessage_Punch.

Definition wrapper_field (w : OneofWrapper) : GoField :=
  match w with
  | LightHouseMessage_Query => mkGoField (lit "Query") (TPtr GHostQuery) (lit "bytes,1,opt,name=query,proto3,oneof")
  | LightHouseMessage_QueryReply =>
      mkGoField (lit "QueryReply") (TPtr GHostQueryReply) (lit "bytes,2,opt,name=query_reply,json=queryReply,proto3,oneof")
  | LightHouseMessage_Update =>
      mkGoField (lit "Update") (TPtr GHostUpdateNotification) (lit "bytes,3,opt,name=update,proto3,oneof")
  | LightHouseMessage_WhoAmI =>
      mkGoField (lit "WhoAmI") (TPtr GWhoAmI) (lit "bytes,4,opt,name=who_am_i,json=whoAmI,proto3,oneof")
  | LightHouseMessage_WhoAmIReply =>
      mkGoField (lit "WhoAmIReply") (TPtr GWhoAmIReply) (lit "bytes,5,opt,name=who_am_i_reply,json=whoAmIReply,proto3,oneof")
  | LightHouseMessage_Punch =>
      mkGoField (lit "Punch") (TPtr GHostPunchNotification) (lit "bytes,6,opt,name=punch,proto3,oneof")
  end.

(** The types by their names in the source. *)
Definition GoMessage_name (m : GoMessage) : bytes :=
  match m with
  | GLightHouseMessage => lit "LightHouseMessage"
  | GHostQuery => lit "HostQuery"
  | GHostQueryReply => lit "HostQueryReply"
  | GHostUpdateNotification => lit "HostUpdateNotification"
  | GWhoAmI => lit "WhoAmI"
  | GWhoAmIReply => lit "WhoAmIReply"
  | GHostPunchNotification => lit "HostPunchNotification"
  | GIpPort => lit "IpPort"
  | GHandshakeDetails => lit "HandshakeDetails"
  | GHandshakeMessage => lit "HandshakeMessage"
  end.

(** ** The tables *)

(** The path of the package: that of the module (go.mod) and the directory. *)
Definition PkgPath : bytes := lit "github.com/rykth/neth/nethpb".

Definition file_neth_proto_goTypes : list GoMessage :=
  [GLightHouseMessage; GHostQuery; GHostQueryReply; GHostUpdateNotification; GWhoAmI; GWhoAmIReply;
   GHostPunchNotification; GIpPort; GHandshakeDetails; GHandshakeMessage].

(** The Go type of each field of message type, in order; then the bounds of the
    (empty) sections for methods and extensions, and the start of the first. *)
Definition file_neth_proto_depIdxs : list Z := [1; 2; 3; 4; 5; 6; 7; 7; 7; 7; 10; 10; 10; 10; 0].

Definition OneofWrappers (m : GoMessage) : list OneofWrapper :=
  match m with
  | GLightHouseMessage =>
      [LightHouseMessage_Query; LightHouseMessage_QueryReply; LightHouseMessage_Update; LightHouseMessage_WhoAmI;
       LightHouseMessage_WhoAmIReply; LightHouseMessage_Punch]
  | _ => []
  end.

(** The serialised descriptor. *)
Definition file_neth_proto_rawDesc : bytes :=
  [10; 10; 110; 101; 116; 104; 46; 112; 114; 111; 116; 111; 18; 4; 110; 101; 116; 104; 34; 206; 2; 10; 17; 76;
   105; 103; 104; 116; 72; 111; 117; 115; 101; 77; 101; 115; 115; 97; 103; 101; 18; 39; 10; 5; 113; 117; 101; 114;
   121; 24; 1; 32; 1; 40; 11; 50; 15; 46; 110; 101; 116; 104; 46; 72; 111; 115; 116; 81; 117; 101; 114; 121;
   72; 0; 82; 5; 113; 117; 101; 114; 121; 18; 55; 10; 11; 113; 117; 101; 114; 121; 95; 114; 101; 112; 108; 121;
   24; 2; 32; 1; 40; 11; 50; 20; 46; 110; 101; 116; 104; 46; 72; 111; 115; 116; 81; 117; 101; 114; 121; 82;
   101; 112; 108; 121; 72; 0; 82; 10; 113; 117; 101; 114; 121; 82; 101; 112; 108; 121; 18; 54; 10; 6; 117; 112;
   100; 97; 116; 101; 24; 3; 32; 1; 40; 11; 50; 28; 46; 110; 101; 116; 104; 46; 72; 111; 115; 116; 85; 112;
   100; 97; 116; 101; 78; 111; 116; 105; 102; 105; 99; 97; 116; 105; 111; 110; 72; 0; 82; 6; 117; 112; 100; 97;
   116; 101; 18; 40; 10; 8; 119; 104; 111; 95; 97; 109; 95; 105; 24; 4; 32; 1; 40; 11; 50; 12; 46; 110;
   101; 116; 104; 46; 87; 104; 111; 65; 109; 73; 72; 0; 82; 6; 119; 104; 111; 65; 109; 73; 18; 56; 10; 14;
   119; 104; 111; 95; 97; 109; 95; 105; 95; 114; 101; 112; 108; 121; 24; 5; 32; 1; 40; 11; 50; 17; 46; 110;
   101; 116; 104; 46; 87; 104; 111; 65; 109; 73; 82; 101; 112; 108; 121; 72; 0; 82; 11; 119; 104; 111; 65; 109;
   73; 82; 101; 112; 108; 121; 18; 51; 10; 5; 112; 117; 110; 99; 104; 24; 6; 32; 1; 40; 11; 50; 27; 46;
   110; 101; 116; 104; 46; 72; 111; 115; 116; 80; 117; 110; 99; 104; 78; 111; 116; 105; 102; 105; 99; 97; 116; 105;
   111; 110; 72; 0; 82; 5; 112; 117; 110; 99; 104; 66; 6; 10; 4; 98; 111; 100; 121; 34; 34; 10; 9; 72;
   111; 115; 116; 81; 117; 101; 114; 121; 18; 21; 10; 6; 118; 112; 110; 95; 105; 112; 24; 1; 32; 1; 40; 9;
   82; 5; 118; 112; 110; 73; 112; 34; 75; 10; 14; 72; 111; 115; 116; 81; 117; 101; 114; 121; 82; 101; 112; 108;
   121; 18; 21; 10; 6; 118; 112; 110; 95; 105; 112; 24; 1; 32; 1; 40; 9; 82; 5; 118; 112; 110; 73; 112;
   18; 34; 10; 5; 97; 100; 100; 114; 115; 24; 2; 32; 3; 40; 11; 50; 12; 46; 110; 101; 116; 104; 46; 73;
   112; 80; 111; 114; 116; 82; 5; 97; 100; 100; 114; 115; 34; 60; 10; 22; 72; 111; 115; 116; 85; 112; 100; 97;
   116; 101; 78; 111; 116; 105; 102; 105; 99; 97; 116; 105; 111; 110; 18; 34; 10; 5; 97; 100; 100; 114; 115; 24;
   1; 32; 3; 40; 11; 50; 12; 46; 110; 101; 116; 104; 46; 73; 112; 80; 111; 114; 116; 82; 5; 97; 100; 100;
   114; 115; 34; 8; 10; 6; 87; 104; 111; 65; 109; 73; 34; 47; 10; 11; 87; 104; 111; 65; 109; 73; 82; 101;
   112; 108; 121; 18; 32; 10; 4; 97; 100; 100; 114; 24; 1; 32; 1; 40; 11; 50; 12; 46; 110; 101; 116; 104;
   46; 73; 112; 80; 111; 114; 116; 82; 4; 97; 100; 100; 114; 34; 82; 10; 21; 72; 111; 115; 116; 80; 117; 110;
   99; 104; 78; 111; 116; 105; 102; 105; 99; 97; 116; 105; 111; 110; 18; 21; 10; 6; 118; 112; 110; 95; 105; 112;
   24; 1; 32; 1; 40; 9; 82; 5; 118; 112; 110; 73; 112; 18; 34; 10; 5; 97; 100; 100; 114; 115; 24; 2;
   32; 3; 40; 11; 50; 12; 46; 110; 101; 116; 104; 46; 73; 112; 80; 111; 114; 116; 82; 5; 97; 100; 100; 114;
   115; 34; 44; 10; 6; 73; 112; 80; 111; 114; 116; 18; 14; 10; 2; 105; 112; 24; 1; 32; 1; 40; 9; 82;
   2; 105; 112; 18; 18; 10; 4; 112; 111; 114; 116; 24; 2; 32; 1; 40; 13; 82; 4; 112; 111; 114; 116; 34;
   140; 1; 10; 16; 72; 97; 110; 100; 115; 104; 97; 107; 101; 68; 101; 116; 97; 105; 108; 115; 18; 18; 10; 4;
   99; 101; 114; 116; 24; 1; 32; 1; 40; 12; 82; 4; 99; 101; 114; 116; 18; 39; 10; 15; 105; 110; 105; 116;
   105; 97; 116; 111; 114; 95; 105; 110; 100; 101; 120; 24; 2; 32; 1; 40; 13; 82; 14; 105; 110; 105; 116; 105;
   97; 116; 111; 114; 73; 110; 100; 101; 120; 18; 39; 10; 15; 114; 101; 115; 112; 111; 110; 100; 101; 114; 95; 105;
   110; 100; 101; 120; 24; 3; 32; 1; 40; 13; 82; 14; 114; 101; 115; 112; 111; 110; 100; 101; 114; 73; 110; 100;
   101; 120; 18; 18; 10; 4; 116; 105; 109; 101; 24; 4; 32; 1; 40; 4; 82; 4; 116; 105; 109; 101; 34; 101;
   10; 16; 72; 97; 110; 100; 115; 104; 97; 107; 101; 77; 101; 115; 115; 97; 103; 101; 18; 24; 10; 7; 100; 101;
   116; 97; 105; 108; 115; 24; 1; 32; 1; 40; 12; 82; 7; 100; 101; 116; 97; 105; 108; 115; 18; 35; 10; 13;
   110; 111; 105; 115; 101; 95; 112; 97; 121; 108; 111; 97; 100; 24; 2; 32; 1; 40; 12; 82; 12; 110; 111; 105;
   115; 101; 80; 97; 121; 108; 111; 97; 100; 18; 18; 10; 4; 104; 109; 97; 99; 24; 3; 32; 1; 40; 12; 82;
   4; 104; 109; 97; 99; 66; 30; 90; 28; 103; 105; 116; 104; 117; 98; 46; 99; 111; 109; 47; 114; 121; 107; 116;
   104; 47; 110; 101; 116; 104; 47; 110; 101; 116; 104; 112; 98; 98; 6; 112; 114; 111; 116; 111; 51].

(** ** Structs from the descriptor *)

(** The Go name of a field: every part of it capitalised, the underscores gone. *)
Fixpoint camel (up : bool) (s : bytes) : bytes :=
  match s with
  | [] => []
  | x :: s' => if x =? 95 then camel true s' else (if up then x - 32 else x) :: camel false s'
  end.

Definition wire_name (k : Kind) : bytes :=
  match k with KUint32 | KUint64 => lit "varint" | _ => lit "bytes" end.

(** The tag of a field: wire type, number, label, name, the JSON name if it is
    another, the syntax and whether the field is in a [oneof]. *)
Definition field_tag (f : FieldDesc) : bytes :=
  wire_name (fKind f) ++ lit "," ++ dec3 (fNumber f) ++ lit "," ++ (if fRepeated f then lit "rep" else lit "opt") ++
  lit ",name=" ++ fName f ++ (if bool_decide (fJson f = fName f) then [] else lit ",json=" ++ fJson f) ++
  lit ",proto3" ++ (match fOneof f with Some _ => lit ",oneof" | None => [] end).

(** The message a dependency index names. *)
Definition dependency (types : list GoMessage) (deps : list Z) (k : nat) : option GoMessage :=
  i ← deps !! k; types !! Z.to_nat i.

(** The Go type of a field, where [k] fields of message type came before: a message
    is found through the tables, and must be the one the descriptor names. *)
Definition field_type (package : bytes) (types : list GoMessage) (deps : list Z) (k : nat) (f : FieldDesc)
    : option (nat * GoFieldType) :=
  match fKind f with
  | KString => Some (k, TString)
  | KBytes => Some (k, TBytes)
  | KUint32 => Some (k, TUint32)
  | KUint64 => Some (k, TUint64)
  | KMessage t =>
      m ← dependency types deps k;
      if decide (t = lit "." ++ package ++ lit "." ++ GoMessage_name m) then
        Some (S k, if fRepeated f then TSlice m else TPtr m)
      else None
  end.

Fixpoint go_fields (package : bytes) (types : list GoMessage) (deps : list Z) (k : nat) (l : list FieldDesc)
    : option (nat * list (option Z * GoField)) :=
  match l with
  | [] => Some (k, [])
  | f :: l' =>
      '(k', t) ← field_type package types deps k f;
      '(k'', rest) ← go_fields package types deps k' l';
      Some (k'', (fOneof f, mkGoField (camel true (fName f)) t (field_tag f)) :: rest)
  end.

(** Per message: its name, the names of its [oneof]s, its plain fields, and the
    fields of its first [oneof]. *)
Record go_struct := mkGoStruct { gsName : bytes; gsOneofs : list bytes; gsFields : list GoField; gsCases : list GoField }.

Definition plain_fields (l : list (option Z * GoField)) : list GoField :=
  omap (λ '(o, f), match o with None => Some f | Some _ => None end) l.
Definition case_fields (l : list (option Z * GoField)) : list GoField :=
  omap (λ '(o, f), match o with Some 0 => Some f | _ => None end) l.

Fixpoint go_structs (package : bytes) (types : list GoMessage) (deps : list Z) (k : nat) (l : list MessageDesc)
    : option (nat * list go_struct) :=
  match l with
  | [] => Some (k, [])
  | m :: l' =>
      '(k', fs) ← go_fields package types deps k (mFields m);
      '(k'', rest) ← go_structs package types deps k' l';
      Some (k'', mkGoStruct (mName m) (mOneofs m) (plain_fields fs) (case_fields fs) :: rest)
  end.

(** The structs as the source declares them. *)
Definition declared (m : GoMessage) : go_struct :=
  mkGoStruct (GoMessage_name m) (oneof_tag m) (struct_fields m) (map wrapper_field (OneofWrappers m)).

(** ** Properties *)

(** C32. The generated code agrees with itself: the embedded bytes are a file
    descriptor, for package neth in proto3 and for this Go package; its messages are, in order, the entries
    of the table of Go types; the structs one gets from it, with the message types of
    the fields looked up in the dependency table and compared with the names in the
    descriptor, are the structs of the source, down to the names, types and tags of
    their fields and to the cases of the [oneof]; all entries of the first section
    of the dependency table are used; and no message uses a field number or a field
    name twice. *)
Theorem descriptor_matches_structs :
  ∃ file, read_file file_neth_proto_rawDesc = Some file ∧
    fdPackage file = lit "neth" ∧ fdSyntax file = lit "proto3" ∧ fdGoPackage file = PkgPath ∧
    go_structs (fdPackage file) file_neth_proto_goTypes file_neth_proto_depIdxs 0 (fdMessages file) =
      Some (10%nat, map declared file_neth_proto_goTypes) ∧
    Forall (λ m, NoDup (map fNumber (mFields m)) ∧ NoDup (map fName (mFields m))) (fdMessages file).
Proof.
  destruct (read_file file_neth_proto_rawDesc) as [file|] eqn:Hfile; [| by vm_compute in Hfile].
  exists file. split; [done |]. vm_compute in Hfile. injection Hfile as <-.
  split; [done |]. split; [done |]. split; [done |]. split; [by vm_compute |].
  apply (bool_decide_unpack _). by vm_compute.
Qed.
