(* ===== verification/Nethpb.v ===== *)
(** * Package nethpb: methods of the messages and registration

    The rest of src/nethpb/neth.pb.go: the getters, which may be called on a nil
    message, [Reset], [ProtoReflect] and [Descriptor] of every message type, the
    once-only compression of the descriptor, and the registration of the types when
    the package is initialised.  protoimpl is a set of parameters: whether it uses
    unsafe pointers, [CompressGZIP] and [TypeBuilder.Build]. *)

From S2P Require Import Prelude GoText Messages Descriptor.

(** ** Getters: the zero value of the field for a nil message *)

Definition GetBody (m : option LightHouseMessage) : option LightHouseBody :=
  match m with Some m => lhBody m | None => None end.

Definition HostQuery_GetVpnIp (x : option HostQuery) : bytes :=
  match x with Some x => qVpnIp x | None => [] end.
Definition HostQueryReply_GetVpnIp (x : option HostQueryReply) : bytes :=
  match x with Some x => rVpnIp x | None => [] end.
Definition HostQueryReply_GetAddrs (x : option HostQueryReply) : list IpPort :=
  match x with Some x => rAddrs x | None => [] end.
Definition HostUpdateNotification_GetAddrs (x : option HostUpdateNotification) : list IpPort :=
  match x with Some x => uAddrs x | None => [] end.
Definition WhoAmIReply_GetAddr (x : option WhoAmIReply) : option IpPort :=
  match x with Some x => wAddr x | None => None end.
Definition HostPunchNotification_GetVpnIp (x : option HostPunchNotification) : bytes :=
  match x with Some x => pVpnIp x | None => [] end.
Definition HostPunchNotification_GetAddrs (x : option HostPunchNotification) : list IpPort :=
  match x with Some x => pAddrs x | None => [] end.
Definition IpPort_GetIp (x : option IpPort) : bytes :=
  match x with Some x => ipIp x | None => [] end.
Definition IpPort_GetPort (x : option IpPort) : Z :=
  match x with Some x => ipPort x | None => 0 end.
Definition HandshakeDetails_GetCert (x : option HandshakeDetails) : bytes :=
  match x with Some x => dCert x | None => [] end.
Definition HandshakeDetails_GetInitiatorIndex (x : option HandshakeDetails) : Z :=
  match x with Some x => dInitiatorIndex x | None => 0 end.
Definition HandshakeDetails_GetResponderIndex (x : option HandshakeDetails) : Z :=
  match x with Some x => dResponderIndex x | None => 0 end.
Definition HandshakeDetails_GetTime (x : option HandshakeDetails) : Z :=
  match x with Some x => dTime x | None => 0 end.
Definition HandshakeMessage_GetDetails (x : option HandshakeMessage) : bytes :=
  match x with Some x => mDetails x | None => [] end.
Definition HandshakeMessage_GetNoisePayload (x : option HandshakeMessage) : bytes :=
  match x with Some x => mNoisePayload x | None => [] end.
Definition HandshakeMessage_GetHmac (x : option HandshakeMessage) : bytes :=
  match x with Some x => mHmac x | None => [] end.

(** ** Message objects *)

(** What every message struct starts with, next to its own fields: the type
    information attached to it (by the number of the type; nil at first), the cached
    size and the fields the decoder did not know. *)
Record Message (T : Type) := mkMessage {
  state : option nat;
  sizeCache : Z;
  unknownFields : bytes;
  body : T;
}.
Arguments mkMessage {T} _ _ _ _.
Arguments state {T} _.
Arguments sizeCache {T} _.
Arguments unknownFields {T} _.
Arguments body {T} _.

(** A new message of a type. *)
Definition zero {T} (z : T) : Message T := mkMessage None 0 [] z.

(** What [ProtoReflect] returns: the message's own state, or a wrapper made from the
    type information with the given number. *)
Inductive Reflected := OwnState (info : option nat) | MessageOf (info : nat).

Section Methods.

(** [protoimpl.UnsafeEnabled] *)
Context (UnsafeEnabled : bool).

(** [*x = T{}], and the type information if it can be stored. *)
Definition reset {T} (mi : nat) (z : T) (x : Message T) : Message T :=
  let x := zero z in
  if UnsafeEnabled then mkMessage (Some mi) (sizeCache x) (unknownFields x) (body x) else x.

Definition proto_reflect {T} (mi : nat) (x : option (Message T)) : option (Message T) * Reflected :=
  match x with
  | Some m =>
      if UnsafeEnabled then
        let m := match state m with
                 | None => mkMessage (Some mi) (sizeCache m) (unknownFields m) (body m)
                 | Some _ => m
                 end in
        (Some m, OwnState (state m))
      else (x, MessageOf mi)
  | None => (x, MessageOf mi)
  end.

Definition LightHouseMessage_Reset : Message LightHouseMessage → Message LightHouseMessage := reset 0 (mkLightHouseMessage None).
Definition LightHouseMessage_ProtoReflect : option (Message LightHouseMessage) → option (Message LightHouseMessage) * Reflected := proto_reflect 0.
Definition HostQuery_Reset : Message HostQuery → Message HostQuery := reset 1 (mkHostQuery []).
Definition HostQuery_ProtoReflect : option (Message HostQuery) → option (Message HostQuery) * Reflected := proto_reflect 1.
Definition HostQueryReply_Reset : Message HostQueryReply → Message HostQueryReply := reset 2 (mkHostQueryReply [] []).
Definition HostQueryReply_ProtoReflect : option (Message HostQueryReply) → option (Message HostQueryReply) * Reflected := proto_reflect 2.
Definition HostUpdateNotification_Reset : Message HostUpdateNotification → Message HostUpdateNotification := reset 3 (mkHostUpdateNotification []).
Definition HostUpdateNotification_ProtoReflect : option (Message HostUpdateNotification) → option (Message HostUpdateNotification) * Reflected := proto_reflect 3.
Definition WhoAmI_Reset : Message WhoAmI → Message WhoAmI := reset 4 mkWhoAmI.
Definition WhoAmI_ProtoReflect : option (Message WhoAmI) → option (Message WhoAmI) * Reflected := proto_reflect 4.
Definition WhoAmIReply_Reset : Message WhoAmIReply → Message WhoAmIReply := reset 5 (mkWhoAmIReply None).
Definition WhoAmIReply_ProtoReflect : option (Message WhoAmIReply) → option (Message WhoAmIReply) * Reflected := proto_reflect 5.
Definition HostPunchNotification_Reset : Message HostPunchNotification → Message HostPunchNotification := reset 6 (mkHostPunchNotification [] []).
Definition HostPunchNotification_ProtoReflect : option (Message HostPunchNotification) → option (Message HostPunchNotification) * Reflected := proto_reflect 6.
Definition IpPort_Reset : Message IpPort → Message IpPort := reset 7 (mkIpPort [] 0).
Definition IpPort_ProtoReflect : option (Message IpPort) → option (Message IpPort) * Reflected := proto_reflect 7.
Definition HandshakeDetails_Reset : Message HandshakeDetails → Message HandshakeDetails := reset 8 (mkHandshakeDetails [] 0 0 0).
Definition HandshakeDetails_ProtoReflect : option (Message HandshakeDetails) → option (Message HandshakeDetails) * Reflected := proto_reflect 8.
Definition HandshakeMessage_Reset : Message HandshakeMessage → Message HandshakeMessage := reset 9 (mkHandshakeMessage [] [] []).
Definition HandshakeMessage_ProtoReflect : option (Message HandshakeMessage) → option (Message HandshakeMessage) * Reflected := proto_reflect 9.

End Methods.

(** ** The package's variables *)

(** The parts of a message object protoimpl may ask for, by number. *)
Inductive Internal := IState | ISizeCache | IUnknownFields.

(** The closures assigned to [Exporter]: they assert the type of the message. *)
Definition exporter (t : GoMessage) (v : GoMessage) (i : Z) : go (option Internal) :=
  if decide (v = t) then
    Ok (match i with 0 => Some IState | 1 => Some ISizeCache | 2 => Some IUnknownFields | _ => None end)
  else Panic.

(** The fields of [protoimpl.MessageInfo] that the package sets. *)
Record MessageInfo := mkMessageInfo {
  Exporter : option (GoMessage → Z → go (option Internal));
  miOneofWrappers : list OneofWrapper;
}.

(** The arguments of [Build]. *)
Record TypeBuilder := mkTypeBuilder {
  GoPackagePath : bytes;
  RawDescriptor : option bytes;
  NumEnums : Z;
  NumMessages : Z;
  NumExtensions : Z;
  NumServices : Z;
  GoTypes : option (list GoMessage);
  DependencyIndexes : option (list Z);
  MessageInfos : list MessageInfo;
}.

(** The variables; a slice set to nil is [None]. *)
Record Package (File : Type) := mkPackage {
  File_neth_proto : option File;
  rawDesc : option bytes;
  rawDescOnce : bool;
  rawDescData : bytes;
  msgTypes : list MessageInfo;
  goTypes : option (list GoMessage);
  depIdxs : option (list Z);
}.
Arguments mkPackage {File} _ _ _ _ _ _ _.
Arguments File_neth_proto {File} _.
Arguments rawDesc {File} _.
Arguments rawDescOnce {File} _.
Arguments rawDescData {File} _.
Arguments msgTypes {File} _.
Arguments goTypes {File} _.
Arguments depIdxs {File} _.

(** The initial values: [rawDescData] shares the bytes of [rawDesc]. *)
Definition initial_package {File} : Package File :=
  mkPackage None (Some file_neth_proto_rawDesc) false file_neth_proto_rawDesc
    (replicate 10 (mkMessageInfo None [])) (Some file_neth_proto_goTypes) (Some file_neth_proto_depIdxs).

Section Registration.

Context {File : Type} (UnsafeEnabled : bool) (CompressGZIP : bytes → bytes) (Build : TypeBuilder → go File).

(** [rawDescOnce.Do(...)] and the bytes after it. *)
Definition file_neth_proto_rawDescGZIP : M (Package File) bytes := λ p,
  let p := if rawDescOnce p then p
           else mkPackage (File_neth_proto p) (rawDesc p) true (CompressGZIP (rawDescData p))
                  (msgTypes p) (goTypes p) (depIdxs p) in
  (p, Ok (rawDescData p)).

(** [Descriptor] of the message type with number [i]. *)
Definition descriptor (i : Z) : M (Package File) (bytes * list Z) :=
  let! b := file_neth_proto_rawDescGZIP in gret (b, [i]).

Definition LightHouseMessage_Descriptor : M (Package File) (bytes * list Z) := descriptor 0.
Definition HostQuery_Descriptor : M (Package File) (bytes * list Z) := descriptor 1.
Definition HostQueryReply_Descriptor : M (Package File) (bytes * list Z) := descriptor 2.
Definition HostUpdateNotification_Descriptor : M (Package File) (bytes * list Z) := descriptor 3.
Definition WhoAmI_Descriptor : M (Package File) (bytes * list Z) := descriptor 4.
Definition WhoAmIReply_Descriptor : M (Package File) (bytes * list Z) := descriptor 5.
Definition HostPunchNotification_Descriptor : M (Package File) (bytes * list Z) := descriptor 6.
Definition IpPort_Descriptor : M (Package File) (bytes * list Z) := descriptor 7.
Definition HandshakeDetails_Descriptor : M (Package File) (bytes * list Z) := descriptor 8.
Definition HandshakeMessage_Descriptor : M (Package File) (bytes * list Z) := descriptor 9.

(** The ten assignments to [Exporter]. *)
Definition set_exporters (infos : list MessageInfo) : list MessageInfo :=
  zip_with (λ t mi, mkMessageInfo (Some (exporter t)) (miOneofWrappers mi)) file_neth_proto_goTypes infos.

(** The assignment to [file_neth_proto_msgTypes[0].OneofWrappers]. *)
Definition set_wrappers (infos : list MessageInfo) : list MessageInfo :=
  alter (λ mi, mkMessageInfo (Exporter mi) (OneofWrappers GLightHouseMessage)) 0%nat infos.

Definition file_neth_proto_init : M (Package File) unit := λ p,
  match File_neth_proto p with
  | Some _ => (p, Ok tt)
  | None =>
      let infos := msgTypes p in
      let infos := if negb UnsafeEnabled then set_exporters infos else infos in
      let infos := set_wrappers infos in
      let p := mkPackage (File_neth_proto p) (rawDesc p) (rawDescOnce p) (rawDescData p) infos (goTypes p) (depIdxs p) in
      match Build (mkTypeBuilder PkgPath (rawDesc p) 0 10 0 0 (goTypes p) (depIdxs p) (msgTypes p)) with
      | Ok file => (mkPackage (Some file) None (rawDescOnce p) (rawDescData p) (msgTypes p) None None, Ok tt)
      | Fail e => (p, Fail e)
      | Panic => (p, Panic)
      end
  end.

(** ** Calls into the package, in any order *)

Inductive pkg_call :=
| CallInit
| CallDescriptor (i : Z).

Definition pkg_run (c : pkg_call) : M (Package File) (option (bytes * list Z)) :=
  match c with
  | CallInit => do! file_neth_proto_init in gret None
  | CallDescriptor i => let! d := descriptor i in gret (Some d)
  end.

Fixpoint pkg_runs (cs : list pkg_call) : M (Package File) (list (option (bytes * list Z))) :=
  match cs with
  | [] => gret []
  | c :: cs' => let! r := pkg_run c in let! rs := pkg_runs cs' in gret (r :: rs)
  end.

(** The type information the builder is given. *)
Definition registered_infos : list MessageInfo :=
  map (λ t, mkMessageInfo (if UnsafeEnabled then None else Some (exporter t)) (OneofWrappers t)) file_neth_proto_goTypes.

Definition registration : TypeBuilder :=
  mkTypeBuilder PkgPath (Some file_neth_proto_rawDesc) 0 10 0 0 (Some file_neth_proto_goTypes) (Some file_neth_proto_depIdxs)
    registered_infos.

(** Before and after the registration, and before and after the compression. *)
Definition pkg_ok (file : File) (p : Package File) : Prop :=
  rawDescData p = (if rawDescOnce p then CompressGZIP file_neth_proto_rawDesc else file_neth_proto_rawDesc) ∧
  (p = mkPackage None (Some file_neth_proto_rawDesc) (rawDescOnce p) (rawDescData p)
         (replicate 10 (mkMessageInfo None [])) (Some file_neth_proto_goTypes) (Some file_neth_proto_depIdxs) ∨
   p = mkPackage (Some file) None (rawDescOnce p) (rawDescData p) registered_infos None None).

Lemma gzip_ok file p :
  pkg_ok file p → ∃ p', file_neth_proto_rawDescGZIP p = (p', Ok (CompressGZIP file_neth_proto_rawDesc)) ∧ pkg_ok file p' ∧
    File_neth_proto p' = File_neth_proto p.
Proof.
  intros [Hd Hp]. unfold file_neth_proto_rawDescGZIP. destruct p as [f r o d m g x]. cbn in *. destruct o.
  - rewrite Hd. eexists. split; [done |]. split; [| done]. split; [done |]. cbn. by destruct Hp as [[=]|[=]]; simplify_eq; [left | right].
  - rewrite Hd. eexists. split; [done |]. split; [| done]. split; [done |]. cbn. by destruct Hp as [[=]|[=]]; simplify_eq; [left | right].
Qed.

Lemma infos_registered :
  set_wrappers (if negb UnsafeEnabled then set_exporters (replicate 10 (mkMessageInfo None []))
                else replicate 10 (mkMessageInfo None [])) = registered_infos.
Proof. unfold registered_infos. by destruct UnsafeEnabled. Qed.

Lemma init_ok file p :
  Build registration = Ok file → pkg_ok file p →
  ∃ p', file_neth_proto_init p = (p', Ok tt) ∧ pkg_ok file p' ∧ File_neth_proto p' = Some file.
Proof.
  intros Hb [Hd [Hp | Hp]]; rewrite Hp; unfold file_neth_proto_init; cbn [File_neth_proto msgTypes rawDesc goTypes depIdxs].
  - rewrite infos_registered. fold registration. rewrite Hb. eexists. split; [done |]. split; [| done]. split; [done | by right].
  - eexists. split; [done |]. split; [| done]. split; [done | by right].
Qed.

Lemma runs_ok file cs p :
  Build registration = Ok file → pkg_ok file p →
  ∃ p', pkg_runs cs p = (p', Ok (map (λ c, match c with
      | CallInit => None | CallDescriptor i => Some (CompressGZIP file_neth_proto_rawDesc, [i]) end) cs)) ∧
    pkg_ok file p' ∧ File_neth_proto p' = if existsb (λ c, match c with CallInit => true | _ => false end) cs
                                          then Some file else File_neth_proto p.
Proof.
  intros Hb. revert p. induction cs as [|[|i] cs IH]; intros p Hp; [by exists p | |].
  - destruct (init_ok file p Hb Hp) as (p1 & H1 & Hp1 & Hf1). destruct (IH p1 Hp1) as (p2 & H2 & Hp2 & Hf2).
    exists p2. cbn [pkg_runs pkg_run]. unfold gbind. rewrite H1. cbn. rewrite H2. split_and!; [done | done |].
    rewrite Hf2, Hf1. by destruct (existsb _ cs).
  - destruct (gzip_ok file p Hp) as (p1 & H1 & Hp1 & Hf1). destruct (IH p1 Hp1) as (p2 & H2 & Hp2 & Hf2).
    exists p2. cbn [pkg_runs pkg_run]. unfold descriptor, gbind. rewrite H1. cbn. rewrite H2. split_and!; [done | done |].
    by rewrite Hf2, Hf1.
Qed.

End Registration.

(** ** Properties *)

(** Registration, for any order and number of calls: the initialisation hands the
    builder the embedded descriptor, the type and dependency tables and one type
    information per message, with the cases of the [oneof] in the first and the
    accessors of the message's own type in each where unsafe pointers are not used;
    it does so once, drops its tables afterwards, and later calls change nothing.
    Before and after it [Descriptor] answers with the compressed descriptor and the
    number of the type, although the initialisation drops the bytes it was made
    from, and the compression is applied once. *)
Theorem package_registration {File : Type} (UnsafeEnabled : bool) (CompressGZIP : bytes → bytes)
    (Build : TypeBuilder → go File) (file : File) (calls : list pkg_call) :
  Build (registration UnsafeEnabled) = Ok file →
  ∃ p, pkg_runs UnsafeEnabled CompressGZIP Build calls initial_package =
      (p, Ok (map (λ c, match c with
                        | CallInit => None
                        | CallDescriptor i => Some (CompressGZIP file_neth_proto_rawDesc, [i])
                        end) calls)) ∧
    (CallInit ∈ calls →
     File_neth_proto p = Some file ∧ msgTypes p = registered_infos UnsafeEnabled ∧
     rawDesc p = None ∧ goTypes p = None ∧ depIdxs p = None ∧
     file_neth_proto_init UnsafeEnabled Build p = (p, Ok tt)) ∧
    (CallInit ∉ calls → File_neth_proto p = None).
Proof.
  intros Hb.
  destruct (runs_ok UnsafeEnabled CompressGZIP Build file calls initial_package Hb) as (p & Hrun & [_ Hp] & Hf); [by split; [| left] |].
  exists p. split; [exact Hrun |]. split; intros Hc.
  - rewrite (proj2 (existsb_exists _ _)) in Hf by (exists CallInit; by rewrite <- list_elem_of_In).
    destruct Hp as [Hp | Hp]; [by rewrite Hp in Hf |]. rewrite Hp. done.
  - destruct (existsb _ calls) eqn:E; [| done]. apply existsb_exists in E as ([] & Hin & Hx); [| done].
    by rewrite <- list_elem_of_In in Hin.
Qed.

(** The program's own use: main runs after the initialisation. *)
Lemma package_registration_witness :
  ∃ p, pkg_runs true (λ b, 31 :: b) (λ b, Ok (NumMessages b)) [CallInit; CallDescriptor 9; CallInit] initial_package =
      (p, Ok [None; Some (31 :: file_neth_proto_rawDesc, [9]); None]) ∧ File_neth_proto p = Some 10.
Proof.
  destruct (package_registration true (λ b, 31 :: b) (λ b, Ok (NumMessages b)) 10 [CallInit; CallDescriptor 9; CallInit] eq_refl)
    as (p & Hrun & Hin & _). exists p. split; [exact Hrun |]. apply Hin. constructor.
Defined.
