(* ===== verification/External.v ===== *)
(** * Code outside the repository

    What neth calls and does not contain: cryptographic primitives, the Noise
    implementation (github.com/flynn/noise), protobuf encoding
    (google.golang.org/protobuf), X.509, PEM and ASN.1.  Each is a class of
    operations, a parameter of the definitions that use it; what the theorems
    need of an implementation is a separate class of laws stating its documented
    behaviour, which a theorem names only when it needs it. *)

From S2P Require Import Prelude Messages.

(** ** Hashes and AEAD ciphers *)

Class CryptoLib := {
  (** [sha256.Sum256] and [hmac.New(sha256.New, key)] over the written bytes *)
  sha256 : bytes → bytes;
  hmac_sha256 : bytes → bytes → bytes;
  (** [cipher.AEAD] values, made by [aes.NewCipher] and [cipher.NewGCM] *)
  AEAD : Type;
  NewAESGCM : bytes → go AEAD;
  (** [Seal(nil, nonce, plaintext, additionalData)] *)
  Seal : AEAD → bytes → bytes → bytes → bytes;
  (** [Open(nil, nonce, ciphertext, additionalData)] *)
  Open : AEAD → bytes → bytes → bytes → option bytes;
  (** [curve25519.X25519(scalar, point)] of golang.org/x/crypto *)
  X25519 : bytes → bytes → go bytes;
}.

(** SHA-256 has 32-byte digests; AES takes 32-byte keys; [Open] inverts [Seal]
    for the same key, nonce and additional data; and since the keystream and the
    tag are functions of these, what [Open] accepts is what [Seal] produces. *)
Class CryptoLaws `{CryptoLib} : Prop := {
  sha256_length b : length (sha256 b) = 32%nat;
  sha256_bytes b : bytes_ok (sha256 b);
  NewAESGCM_32 k : length k = 32%nat → ∃ a, NewAESGCM k = Ok a;
  Open_Seal a n p ad : Open a n (Seal a n p ad) ad = Some p;
  Seal_Open a n c ad p : Open a n c ad = Some p → c = Seal a n p ad;
}.

(** ** github.com/flynn/noise *)

Record DHKey := mkDHKey { Private : bytes; Public : bytes }.

(** [noise.Config], the fields neth sets. *)
Record NoiseConfig := mkNoiseConfig {
  ncCipherSuite : string;
  ncPattern : string;
  ncInitiator : bool;
  ncStaticKeypair : DHKey;
  ncPeerStatic : bytes;
  ncPresharedKey : bytes;
  ncPresharedKeyPlacement : Z;
}.

Class NoiseLib := {
  HandshakeState : Type;
  CipherState : Type;
  NewHandshakeState : NoiseConfig → go HandshakeState;
  (** [hs.WriteMessage(nil, payload)]: the random bytes drawn for the ephemeral
      key are an argument; the state is advanced in place; the cipher states are
      nil until the handshake is complete. *)
  WriteMessage : bytes → bytes → M HandshakeState (bytes * option (CipherState * CipherState));
  (** [hs.ReadMessage(nil, message)] *)
  ReadMessage : bytes → M HandshakeState (bytes * option (CipherState * CipherState));
  UnsafeKey : CipherState → bytes;
  (** a key pair of the cipher suite's Diffie-Hellman function *)
  is_keypair : DHKey → Prop;
}.

(** ** google.golang.org/protobuf *)

Class ProtoLib := {
  marshal_handshake : HandshakeMessage → go bytes;
  unmarshal_handshake : bytes → go HandshakeMessage;
  marshal_details : HandshakeDetails → go bytes;
  unmarshal_details : bytes → go HandshakeDetails;
  marshal_lighthouse : LightHouseMessage → go bytes;
  unmarshal_lighthouse : bytes → go LightHouseMessage;
}.

(** Encoding a message whose fields fit their types succeeds and decoding gives
    the message back. *)
Class ProtoLaws `{ProtoLib} : Prop := {
  handshake_roundtrip m : ∃ b, marshal_handshake m = Ok b ∧ unmarshal_handshake b = Ok m;
  details_roundtrip d : HandshakeDetails_ok d →
    ∃ b, marshal_details d = Ok b ∧ unmarshal_details b = Ok d;
  lighthouse_roundtrip m : LightHouseMessage_ok m →
    ∃ b, marshal_lighthouse m = Ok b ∧ unmarshal_lighthouse b = Ok m;
  (** errors are returned *)
  marshal_lighthouse_safe m : marshal_lighthouse m ≠ Panic;
}.

(** ** encoding/pem, crypto/x509 *)

(** [x509.Certificate.PublicKey]: an [ed25519.PublicKey], or a value of another
    dynamic type (nil included). *)
Inductive PublicKey := Ed25519Key (pub : bytes) | OtherKey.

(** The parts of [x509.Certificate] that neth reads.  Times are nanoseconds. *)
Record X509Certificate := mkX509Certificate {
  xIsCA : bool;
  xCommonName : bytes;
  xPublicKey : PublicKey;
  xNotBefore : Z;
  xNotAfter : Z;
  (** [Extensions]: object identifier and value *)
  xExtensions : list (list Z * bytes);
  (** the rest of the certificate, opaque to neth *)
  xRest : bytes;
}.

Class CertLib := {
  (** [pem.Decode]: type and body of the first block *)
  pem_decode : bytes → option (bytes * bytes);
  pem_encode : bytes → bytes → bytes;
  ParseCertificate : bytes → go X509Certificate;
  (** [x.Verify] with the given roots and time, any extended key usage *)
  x509_verify : X509Certificate → list X509Certificate → Z → go unit;
  (** [asn1.Unmarshal] at the three types of the extensions *)
  asn1_unmarshal_vpnip : bytes → go (bytes * Z);
  asn1_unmarshal_raws : bytes → go (list bytes);
  asn1_unmarshal_octets : bytes → go bytes;
  (** [asn1.Marshal] at these types *)
  asn1_marshal_vpnip : bytes * Z → go bytes;
  asn1_marshal_raws : list (Z * bytes) → go bytes;
  asn1_marshal_octets : bytes → go bytes;
}.

Class CertLaws `{CertLib} : Prop := {
  pem_roundtrip t b : pem_decode (pem_encode t b) = Some (t, b);
  pem_encode_bytes t b : bytes_ok t → bytes_ok b → bytes_ok (pem_encode t b);
}.

(** ** Issuing certificates: crypto/ed25519, crypto/x509 *)

(** The fields of the [x509.Certificate] templates that neth fills in. *)
Record CertTemplate := mkCertTemplate {
  tSerialNumber : Z;
  tCommonName : bytes;
  tNotBefore : Z;
  tNotAfter : Z;
  tIsCA : bool;
  tKeyUsage : Z;
  tBasicConstraintsValid : bool;
  tExtraExtensions : list (list Z * bytes);
}.

(** [x509.KeyUsage] *)
Definition KeyUsageDigitalSignature : Z := 1.
Definition KeyUsageCertSign : Z := 32.
Definition KeyUsageCRLSign : Z := 64.

(** The dynamic type of what [x509.ParsePKCS8PrivateKey] returns. *)
Inductive PrivateKey := Ed25519Private (key : bytes) | OtherPrivate.

Class IssueLib := {
  (** the public key of an Ed25519 seed *)
  ed25519_public : bytes → bytes;
  (** [x509.CreateCertificate(rand, template, parent, pub, priv)] with Ed25519
      keys, whose signatures draw nothing; a self-signed certificate has its
      template for parent *)
  CreateCertificate : CertTemplate → CertTemplate + X509Certificate → bytes → bytes → go bytes;
  MarshalPKCS8PrivateKey : bytes → go bytes;
  ParsePKCS8PrivateKey : bytes → go PrivateKey;
}.

(** [ed25519.NewKeyFromSeed]: the seed followed by the public key. *)
Definition NewKeyFromSeed `{IssueLib} (seed : bytes) : bytes := seed ++ ed25519_public seed.

(** A time as X.509 stores it, in whole seconds. *)
Definition second : Z := 10 ^ 9.
Definition whole_seconds (t : Z) : Z := t - t mod second.

(** What [CreateCertificate] needs of a template to represent it: a serial number
    that is not negative, a name in ASCII, times within the years it can write (here: a
    year 1 to 9999), and extra extensions that repeat neither each other nor the
    standard ones (2.5.29). *)
Record template_ok (t : CertTemplate) : Prop := {
  template_serial : in_u 128 (tSerialNumber t);
  template_name : tCommonName t ≠ [] ∧ Forall (in_u 7) (tCommonName t);
  template_times : ∀ x, x = tNotBefore t ∨ x = tNotAfter t → - 62135596800 * second ≤ x < 253402300800 * second;
  template_oids : NoDup (map fst (tExtraExtensions t));
  template_private : Forall (λ ext, take 3 ext.1 ≠ [2; 5; 29] ∧ bytes_ok ext.2) (tExtraExtensions t);
}.

(** [x] is what the certificate made from [t] for the public key [pub] reads as. *)
Record certifies (t : CertTemplate) (pub : bytes) (x : X509Certificate) : Prop := {
  certifies_ca : xIsCA x = tBasicConstraintsValid t && tIsCA t;
  certifies_name : xCommonName x = tCommonName t;
  certifies_key : xPublicKey x = Ed25519Key pub;
  certifies_from : xNotBefore x = whole_seconds (tNotBefore t);
  certifies_until : xNotAfter x = whole_seconds (tNotAfter t);
  certifies_extensions : ∃ std, xExtensions x = std ++ tExtraExtensions t ∧
    Forall (λ ext, take 3 ext.1 = [2; 5; 29]) std;
}.

Definition valid_at (x : X509Certificate) (now : Z) : Prop := xNotBefore x ≤ now ≤ xNotAfter x.

(** The template of a certificate authority. *)
Record ca_template (t : CertTemplate) : Prop := {
  ca_is : tIsCA t = true;
  ca_constraints : tBasicConstraintsValid t = true;
  ca_usage : tKeyUsage t = Z.lor KeyUsageCertSign KeyUsageCRLSign;
  ca_extras : tExtraExtensions t = [];
}.

Class IssueLaws `{CertLib} `{IssueLib} : Prop := {
  ed25519_public_length seed : length (ed25519_public seed) = 32%nat;
  (** PKCS #8 stores the seed *)
  pkcs8_roundtrip seed : length seed = 32%nat → bytes_ok seed →
    ∃ der, MarshalPKCS8PrivateKey (NewKeyFromSeed seed) = Ok der ∧
      ParsePKCS8PrivateKey der = Ok (Ed25519Private (NewKeyFromSeed seed));
  (** [asn1.Unmarshal] inverts [asn1.Marshal] *)
  asn1_vpnip_roundtrip ip bits : bytes_ok ip → - 2 ^ 63 ≤ bits < 2 ^ 63 →
    ∃ v, asn1_marshal_vpnip (ip, bits) = Ok v ∧ bytes_ok v ∧ asn1_unmarshal_vpnip v = Ok (ip, bits);
  asn1_raws_roundtrip tag l : 0 ≤ tag < 31 → Forall bytes_ok l →
    ∃ v, asn1_marshal_raws (map (λ b, (tag, b)) l) = Ok v ∧ bytes_ok v ∧ asn1_unmarshal_raws v = Ok l;
  asn1_octets_roundtrip b : bytes_ok b →
    ∃ v, asn1_marshal_octets b = Ok v ∧ bytes_ok v ∧ asn1_unmarshal_octets v = Ok b;
  (** a self-signed CA reads back as its template says and verifies itself while valid *)
  create_ca t seed : template_ok t → ca_template t → length seed = 32%nat →
    ∃ der x, CreateCertificate t (inl t) (ed25519_public seed) (NewKeyFromSeed seed) = Ok der ∧
      bytes_ok der ∧ ParseCertificate der = Ok x ∧ certifies t (ed25519_public seed) x ∧
      ∀ now, valid_at x now → x509_verify x [x] now = Ok tt;
  (** a certificate issued with the key of such a CA reads back as its template
      says and verifies against that CA while both are valid *)
  create_issued ct seed cder ca t pub :
    length seed = 32%nat → ca_template ct →
    CreateCertificate ct (inl ct) (ed25519_public seed) (NewKeyFromSeed seed) = Ok cder →
    ParseCertificate cder = Ok ca → template_ok t → tIsCA t = false →
    length pub = 32%nat → pub ≠ ed25519_public seed →
    ∃ der x, CreateCertificate t (inr ca) pub (NewKeyFromSeed seed) = Ok der ∧
      bytes_ok der ∧ ParseCertificate der = Ok x ∧ certifies t pub x ∧
      ∀ now, valid_at x now → valid_at ca now → x509_verify x [ca] now = Ok tt;
  (** a certificate does not verify outside its validity *)
  verify_valid x roots now : x509_verify x roots now = Ok tt → valid_at x now;
}.
