(* ===== verification/Cert.v ===== *)
(** * Package cert: certificates with neth extensions

    Models src/cert: the [Certificate] struct, PEM/DER parsing with the walk over
    the X.509 extensions (cert.go), the extension codecs (extensions.go, oid.go),
    verification (verify.go) and the X25519 key files (keys.go).  Creating and
    signing certificates (ca.go) is in [Authority]. *)

From S2P Require Import Prelude Bytes Net GoText External.

(** ** Data *)

Definition pemTypeCert : bytes := lit "CERTIFICATE".
Definition pemTypeCurve25519Key : bytes := lit "NETH CURVE25519 PRIVATE KEY".

Definition oidVpnIP : list Z := [1; 3; 6; 1; 4; 1; 65535; 1; 1].
Definition oidGroups : list Z := [1; 3; 6; 1; 4; 1; 65535; 1; 2].
Definition oidCurve25519Key : list Z := [1; 3; 6; 1; 4; 1; 65535; 1; 3].

Record Certificate := mkCertificate {
  raw : bytes;
  x509 : X509Certificate;
  cVpnIP : Prefix;
  cGroups : list bytes;
  X25519PublicKey : bytes;
}.

(** The updates the extension walk makes. *)
Definition set_VpnIP (p : Prefix) (c : Certificate) : Certificate :=
  mkCertificate (raw c) (x509 c) p (cGroups c) (X25519PublicKey c).
Definition set_Groups (g : list bytes) (c : Certificate) : Certificate :=
  mkCertificate (raw c) (x509 c) (cVpnIP c) g (X25519PublicKey c).
Definition set_X25519 (k : bytes) (c : Certificate) : Certificate :=
  mkCertificate (raw c) (x509 c) (cVpnIP c) (cGroups c) k.

Section Cert.

Context {crypto : CryptoLib} {certlib : CertLib}.

(** ** Extension codecs *)

Definition encodeVpnIP (prefix : Prefix) : go (list Z * bytes) :=
  try! ip := (if Is4 (pIP prefix) then As4 (pIP prefix) else Ok (As16 (pIP prefix))) in
  try! val := go_wrap "encode vpn_ip" (asn1_marshal_vpnip (ip, pBits prefix)) in
  Ok (oidVpnIP, val).

Definition decodeVpnIP (ext : list Z * bytes) : go Prefix :=
  try! (ip, bits) := go_wrap "decode vpn_ip" (asn1_unmarshal_vpnip ext.2) in
  if decide (length ip = 4%nat) then Ok (PrefixFrom (AddrFrom4 ip) bits)
  else if decide (length ip = 16%nat) then Ok (PrefixFrom (AddrFrom16 ip) bits)
  else Fail (Errorf "decode vpn_ip: unexpected IP length").

(** [asn1.TagUTF8String] *)
Definition TagUTF8String : Z := 12.

Definition encodeGroups (groups : list bytes) : go (list Z * bytes) :=
  try! val := go_wrap "encode groups" (asn1_marshal_raws (map (λ g, (TagUTF8String, g)) groups)) in
  Ok (oidGroups, val).

Definition decodeGroups (ext : list Z * bytes) : go (list bytes) :=
  go_wrap "decode groups" (asn1_unmarshal_raws ext.2).

Definition encodeCurve25519Key (pub : bytes) : go (list Z * bytes) :=
  if negb (bool_decide (length pub = 32%nat)) then
    Fail (Errorf "encode curve25519_key: expected 32 bytes")
  else
    try! val := go_wrap "encode curve25519_key" (asn1_marshal_octets pub) in
    Ok (oidCurve25519Key, val).

Definition decodeCurve25519Key (ext : list Z * bytes) : go bytes :=
  try! b := go_wrap "decode curve25519_key" (asn1_unmarshal_octets ext.2) in
  if negb (bool_decide (length b = 32%nat)) then
    Fail (Errorf "decode curve25519_key: expected 32 bytes")
  else Ok b.

(** ** Parsing *)

(** One round of [for _, ext := range x.Extensions { switch ... }]. *)
Definition apply_extension (c : Certificate) (ext : list Z * bytes) : go Certificate :=
  if decide (ext.1 = oidVpnIP) then
    try! p := decodeVpnIP ext in Ok (set_VpnIP p c)
  else if decide (ext.1 = oidGroups) then
    try! g := decodeGroups ext in Ok (set_Groups g c)
  else if decide (ext.1 = oidCurve25519Key) then
    try! k := decodeCurve25519Key ext in Ok (set_X25519 k c)
  else Ok c.

Fixpoint walk_extensions (c : Certificate) (exts : list (list Z * bytes)) : go Certificate :=
  match exts with
  | [] => Ok c
  | ext :: exts' => try! c := apply_extension c ext in walk_extensions c exts'
  end.

Definition parseDER (der : bytes) : go Certificate :=
  try! x := go_wrap "cert: parse X.509" (ParseCertificate der) in
  walk_extensions (mkCertificate der x PrefixZero [] []) (xExtensions x).

Definition Parse_cert (pemBytes : bytes) : go Certificate :=
  match pem_decode pemBytes with
  | None => Fail (Errorf "cert: no PEM block found")
  | Some (ty, body) =>
      if negb (bool_decide (ty = pemTypeCert)) then Fail (Errorf "cert: expected CERTIFICATE PEM block")
      else parseDER body
  end.

Definition PEM (c : Certificate) : bytes := pem_encode pemTypeCert (raw c).
Definition Fingerprint (c : Certificate) : bytes := sha256 (raw c).
Definition IsCA (c : Certificate) : bool := xIsCA (x509 c).
Definition Name (c : Certificate) : bytes := xCommonName (x509 c).
Definition X509 (c : Certificate) : X509Certificate := x509 c.

(** ** Verification *)

Definition Verify (cert : Certificate) (caPool : list Certificate) (now : Z) : go unit :=
  if IsCA cert then Fail (Errorf "verify: expected node certificate, got CA certificate")
  else go_wrap "verify" (x509_verify (x509 cert) (map x509 caPool) now).

Definition VerifyCA (ca : Certificate) (now : Z) : go unit :=
  if negb (IsCA ca) then Fail (Errorf "verify CA: certificate is not a CA")
  else go_wrap "verify CA" (x509_verify (x509 ca) [x509 ca] now).

(** ** X25519 key files *)

Definition MarshalX25519PrivateKey (key : bytes) : go bytes :=
  if negb (bool_decide (length key = 32%nat)) then
    Fail (Errorf "marshal X25519 private key: expected 32 bytes")
  else Ok (pem_encode pemTypeCurve25519Key key).

Definition ParseX25519PrivateKey (pemBytes : bytes) : go bytes :=
  match pem_decode pemBytes with
  | None => Fail (Errorf "parse X25519 private key: no PEM block")
  | Some (ty, body) =>
      if negb (bool_decide (ty = pemTypeCurve25519Key)) then
        Fail (Errorf "parse X25519 private key: unexpected type")
      else if negb (bool_decide (length body = 32%nat)) then
        Fail (Errorf "parse X25519 private key: expected 32 bytes")
      else Ok body
  end.

(** The clamping of [GenerateX25519KeyPair] (RFC 7748, section 5):
    [priv[0] &= 248; priv[31] &= 127; priv[31] |= 64]. *)
Definition clamp (priv : bytes) : bytes :=
  let p := <[0%nat := Z.land (priv !!! 0%nat) 248]> priv in
  let p := <[31%nat := Z.land (p !!! 31%nat) 127]> p in
  <[31%nat := Z.lor (p !!! 31%nat) 64]> p.

(** [curve25519.Basepoint] *)
Definition Basepoint : bytes := 9 :: replicate 31 0.

(** [rnd] is what [rand.Read] fills the 32-byte slice with, or its error. *)
Definition GenerateX25519KeyPair (rnd : go bytes) : go (bytes * bytes) :=
  try! b := go_wrap "generate X25519 key" rnd in
  let priv := clamp b in
  try! pub := go_wrap "derive X25519 public key" (X25519 priv Basepoint) in
  Ok (priv, pub).

(** ** Diffie-Hellman *)

(** Multiplying the base point cannot fail and gives the public half of a key
    pair of Noise's 25519 functions. *)
Class DHLaws `{CryptoLib} `{NoiseLib} : Prop := {
  X25519_base k : length k = 32%nat → bytes_ok k →
    ∃ pub, X25519 k Basepoint = Ok pub ∧ length pub = 32%nat ∧ bytes_ok pub;
  X25519_keypair k pub : length k = 32%nat → X25519 k Basepoint = Ok pub →
    is_keypair {| Private := k; Public := pub |};
}.

(** ** Lemmas *)

(** What every round of the walk keeps: the source bytes, and the length of an
    extracted key. *)
Lemma walk_extensions_inv c exts c' :
  walk_extensions c exts = Ok c' →
  X25519PublicKey c = [] ∨ length (X25519PublicKey c) = 32%nat →
  raw c' = raw c ∧ x509 c' = x509 c ∧
  (X25519PublicKey c' = [] ∨ length (X25519PublicKey c') = 32%nat).
Proof.
  revert c. induction exts as [|ext exts IH]; intros c H Hk; cbn in H; [by simplify_eq |].
  destruct (apply_extension c ext) as [c1| |] eqn:E; cbn in H; [| done | done].
  assert (raw c1 = raw c ∧ x509 c1 = x509 c ∧
    (X25519PublicKey c1 = [] ∨ length (X25519PublicKey c1) = 32%nat)) as (H1 & H2 & H3).
  { unfold apply_extension in E. repeat case_decide.
    - destruct (decodeVpnIP ext); cbn in E; simplify_eq; done.
    - destruct (decodeGroups ext); cbn in E; simplify_eq; done.
    - destruct (decodeCurve25519Key ext) as [k| |] eqn:Ek; cbn in E; simplify_eq.
      cbn. split_and!; try done. right. unfold decodeCurve25519Key in Ek.
      destruct (asn1_unmarshal_octets ext.2); cbn in Ek; try done.
      case_bool_decide; cbn in Ek; by simplify_eq.
    - by simplify_eq. }
  destruct (IH c1 H H3) as (-> & -> & ?). done.
Qed.

Lemma Parse_cert_inv pemBytes c :
  Parse_cert pemBytes = Ok c →
  pem_decode pemBytes = Some (pemTypeCert, raw c) ∧ ParseCertificate (raw c) = Ok (x509 c) ∧
  (X25519PublicKey c = [] ∨ length (X25519PublicKey c) = 32%nat) ∧ parseDER (raw c) = Ok c.
Proof.
  unfold Parse_cert. destruct (pem_decode pemBytes) as [[ty body]|]; [| done].
  case_bool_decide as Hty; cbn; [subst | done]. unfold parseDER.
  destruct (ParseCertificate body) as [x| |] eqn:Ex; cbn; try done. intros H.
  destruct (walk_extensions_inv _ _ _ H) as (Hr & Hx & Hk); [by left |]. cbn in Hr, Hx.
  rewrite Hr, Hx, Ex. done.
Qed.

End Cert.

(** ** Properties *)

(** A parsed certificate keeps the bytes it was parsed from, so printing it
    as PEM and parsing again gives the same certificate (the same extracted VPN
    address, groups and key), which is how a certificate travels in a handshake;
    and an extracted X25519 key is absent or has 32 bytes. *)
Theorem Parse_PEM {crypto : CryptoLib} {certlib : CertLib} {cert_laws : CertLaws} pemBytes c :
  Parse_cert pemBytes = Ok c →
  Parse_cert (PEM c) = Ok c ∧
  (X25519PublicKey c = [] ∨ length (X25519PublicKey c) = 32%nat).
Proof.
  intros H. destruct (Parse_cert_inv pemBytes c H) as (_ & _ & Hk & Hder). split; [| done].
  unfold Parse_cert, PEM. by rewrite pem_roundtrip, bool_decide_eq_true_2.
Qed.

(** A byte after each mask, checked on all 256 values. *)
Lemma clamp_first x : in_u 8 x → Z.land x 248 mod 8 = 0.
Proof.
  intros Hx. pattern x. refine (in_u8_seqZ _ _ x Hx). apply (bool_decide_unpack _). by vm_compute.
Qed.

Lemma clamp_last x : in_u 8 x → 64 ≤ Z.lor (Z.land x 127) 64 < 128.
Proof.
  intros Hx. pattern x. refine (in_u8_seqZ _ _ x Hx). apply (bool_decide_unpack _). by vm_compute.
Qed.

Lemma clamp_ok b : bytes_ok b → length b = 32%nat → bytes_ok (clamp b) ∧ length (clamp b) = 32%nat.
Proof.
  intros Hok Hl. assert (in_u 8 248 ∧ in_u 8 127 ∧ in_u 8 64) as (? & ? & ?) by done.
  split; [| unfold clamp; by rewrite !length_insert]. unfold clamp. auto 12 with neth lia.
Qed.

(** A generated X25519 private key is a clamped scalar (a multiple of eight
    with bit 254 set and bit 255 clear, RFC 7748) of 32 bytes that survives the
    key file: marshalling it succeeds and parsing the file gives it back. *)
Theorem GenerateX25519KeyPair_spec {crypto : CryptoLib} {certlib : CertLib} {cert_laws : CertLaws} rnd priv pub :
  bytes_ok rnd → length rnd = 32%nat →
  GenerateX25519KeyPair (Ok rnd) = Ok (priv, pub) →
  (priv !!! 0%nat) mod 8 = 0 ∧ 64 ≤ priv !!! 31%nat < 128 ∧
  X25519 priv Basepoint = Ok pub ∧
  ∃ file, MarshalX25519PrivateKey priv = Ok file ∧ ParseX25519PrivateKey file = Ok priv.
Proof.
  intros Hok Hl. unfold GenerateX25519KeyPair. cbn.
  destruct (X25519 (clamp rnd) Basepoint) as [q| |] eqn:Ex; cbn; try done. intros [= <- <-].
  destruct (clamp_ok rnd Hok Hl) as [_ Hlen].
  split_and!; [| | | done |].
  - unfold clamp. rewrite !list_lookup_total_insert_ne, list_lookup_total_insert_eq by lia.
    by apply clamp_first, bytes_ok_total.
  - unfold clamp. rewrite !list_lookup_total_insert_eq by (rewrite ?length_insert; lia).
    rewrite list_lookup_total_insert_ne by lia. by apply clamp_last, bytes_ok_total.
  - unfold clamp. rewrite !list_lookup_total_insert_eq by (rewrite ?length_insert; lia).
    rewrite list_lookup_total_insert_ne by lia. by apply clamp_last, bytes_ok_total.
  - unfold MarshalX25519PrivateKey, ParseX25519PrivateKey.
    rewrite bool_decide_eq_true_2 by done. eexists. split; [done |].
    by rewrite pem_roundtrip, !bool_decide_eq_true_2.
Qed.
