(* ===== verification/Authority.v ===== *)
(** * Issuing certificates: src/cert/ca.go and the Ed25519 keys of src/cert/keys.go

    [GenerateCA] and [Sign] fill an X.509 template and have crypto/x509 create the
    certificate ([CreateCertificate] of [IssueLib]).  What the random generator
    delivers and the reading of the clock are arguments. *)

From S2P Require Import Prelude Bytes Net GoText External Cert.

Section Authority.

Context {crypto : CryptoLib} {certlib : CertLib} {issue : IssueLib}.

(** ** Operations *)

(** [rand.Int(rand.Reader, 1 << 128)]: 16 random bytes, none of which is ever
    rejected; a failing generator makes [newSerial] panic. *)
Definition newSerial (rnd : go bytes) : go Z :=
  match rnd with
  | Ok b => Ok (be_uint b)
  | _ => Panic
  end.

(** [ed25519.GenerateKey(rand.Reader)] from the 32 bytes it reads. *)
Definition GenerateKey (rnd : go bytes) : go (bytes * bytes) :=
  try! seed := rnd in
  Ok (ed25519_public seed, NewKeyFromSeed seed).

Definition GenerateCA (keyRnd serialRnd : go bytes) (now : Z) (name : bytes) (duration : Z)
    : go (Certificate * bytes) :=
  try! (pub, priv) := go_wrap "generate CA key" (GenerateKey keyRnd) in
  try! serial := newSerial serialRnd in
  let template := {|
    tSerialNumber := serial;
    tCommonName := name;
    tNotBefore := now;
    tNotAfter := now + duration;
    tIsCA := true;
    tKeyUsage := Z.lor KeyUsageCertSign KeyUsageCRLSign;
    tBasicConstraintsValid := true;
    tExtraExtensions := [];
  |} in
  try! der := go_wrap "create CA certificate" (CreateCertificate template (inl template) pub priv) in
  try! cert := parseDER der in
  Ok (cert, priv).

Definition Sign (keyRnd serialRnd : go bytes) (now : Z) (ca : Certificate) (name : bytes) (vpnIP : Prefix)
    (groups : list bytes) (curve25519Pub : bytes) (duration : Z) (caKey : bytes) : go Certificate :=
  try! (nodePub, _) := go_wrap "sign: generate identity key" (GenerateKey keyRnd) in
  try! extVpnIP := go_wrap "sign: encode vpn_ip" (encodeVpnIP vpnIP) in
  try! extCurve := go_wrap "sign: encode curve25519_key" (encodeCurve25519Key curve25519Pub) in
  let extras := [extVpnIP; extCurve] in
  try! extras :=
    (if (0 <? length groups)%nat then
       try! extGroups := go_wrap "sign: encode groups" (encodeGroups groups) in
       Ok (extras ++ [extGroups])
     else Ok extras) in
  try! serial := newSerial serialRnd in
  let template := {|
    tSerialNumber := serial;
    tCommonName := name;
    tNotBefore := now;
    tNotAfter := now + duration;
    tIsCA := false;
    tKeyUsage := KeyUsageDigitalSignature;
    tBasicConstraintsValid := false;
    tExtraExtensions := extras;
  |} in
  try! der := go_wrap "sign: create certificate" (CreateCertificate template (inr (x509 ca)) nodePub caKey) in
  parseDER der.

(** ** Ed25519 key files *)

Definition MarshalEd25519PrivateKey (key : bytes) : go bytes :=
  try! der := go_wrap "marshal Ed25519 private key" (MarshalPKCS8PrivateKey key) in
  Ok (pem_encode (lit "PRIVATE KEY") der).

(** The type of the PEM block is not looked at. *)
Definition ParseEd25519PrivateKey (pemBytes : bytes) : go bytes :=
  match pem_decode pemBytes with
  | None => Fail (Errorf "parse Ed25519 private key: no PEM block")
  | Some (_, body) =>
      try! key := go_wrap "parse Ed25519 private key" (ParsePKCS8PrivateKey body) in
      match key with
      | Ed25519Private ed => Ok ed
      | OtherPrivate => Fail (Errorf "parse Ed25519 private key: not an Ed25519 key")
      end
  end.

(** ** Extensions written and read back *)

Context {cert_laws : CertLaws} {issue_laws : IssueLaws}.

(** A VPN prefix that fits a certificate: a prefix [netip.ParsePrefix] returns. *)
Definition vpn_prefix (p : Prefix) : Prop := Prefix_ok p ∧ 0 ≤ pBits p.

Lemma vpn_prefix_from p : vpn_prefix p →
  ∃ ip, (length ip = 4%nat ∧ PrefixFrom (AddrFrom4 ip) (pBits p) = p ∨
         length ip = 16%nat ∧ PrefixFrom (AddrFrom16 ip) (pBits p) = p) ∧ bytes_ok ip ∧ pBits p ≤ 128 ∧
    (if Is4 (pIP p) then As4 (pIP p) else Ok (As16 (pIP p))) = Ok ip.
Proof.
  intros [(Hok & Hb & Hz & H0) Hn]. destruct p as [[|a|a z] bits]; cbn in *; [by specialize (H0 eq_refl); lia | |].
  - exists (be_bytes 4 a). split_and!; [| apply be_bytes_ok | lia | done]. left. split; [apply length_be_bytes |].
    unfold AddrFrom4, PrefixFrom. cbn [withoutZone BitLen]. rewrite be_uint_be_bytes by apply Hok.
    by destruct (Z.leb_spec 0 bits), (Z.leb_spec bits 32); try lia.
  - destruct z; [| done]. exists (be_bytes 16 a). split_and!; [| apply be_bytes_ok | lia | done].
    right. split; [apply length_be_bytes |].
    unfold AddrFrom16, PrefixFrom. cbn [withoutZone BitLen]. rewrite be_uint_be_bytes by apply Hok.
    by destruct (Z.leb_spec 0 bits), (Z.leb_spec bits 128); try lia.
Qed.

Lemma encodeVpnIP_ok p : vpn_prefix p →
  ∃ v, encodeVpnIP p = Ok (oidVpnIP, v) ∧ bytes_ok v ∧ decodeVpnIP (oidVpnIP, v) = Ok p.
Proof.
  intros Hp. destruct (vpn_prefix_from p Hp) as (ip & Hip & Hok & Hb & Henc).
  destruct (asn1_vpnip_roundtrip ip (pBits p) Hok) as (v & Hm & Hv & Hu); [destruct Hp; lia |].
  exists v. unfold encodeVpnIP, decodeVpnIP. rewrite Henc. cbn [go_bind snd]. rewrite Hm, Hu. cbn [go_bind go_wrap].
  split_and!; [done | done |]. destruct Hip as [[Hl H] | [Hl H]].
  - by rewrite decide_True, H.
  - by rewrite decide_False, decide_True, H by lia.
Qed.

Lemma encodeCurve_ok k : length k = 32%nat → bytes_ok k →
  ∃ v, encodeCurve25519Key k = Ok (oidCurve25519Key, v) ∧ bytes_ok v ∧
    decodeCurve25519Key (oidCurve25519Key, v) = Ok k.
Proof.
  intros Hl Hk. destruct (asn1_octets_roundtrip k Hk) as (v & Hm & Hv & Hu). exists v.
  unfold encodeCurve25519Key, decodeCurve25519Key. rewrite bool_decide_eq_true_2 by done.
  cbn [negb snd]. rewrite Hm, Hu. cbn [go_bind go_wrap]. by rewrite bool_decide_eq_true_2.
Qed.

Lemma encodeGroups_ok g : Forall bytes_ok g →
  ∃ v, encodeGroups g = Ok (oidGroups, v) ∧ bytes_ok v ∧ decodeGroups (oidGroups, v) = Ok g.
Proof.
  intros Hg. destruct (asn1_raws_roundtrip TagUTF8String g ltac:(unfold TagUTF8String; lia) Hg) as (v & Hm & Hv & Hu).
  exists v. unfold encodeGroups, decodeGroups. rewrite Hm. cbn [go_bind go_wrap snd]. by rewrite Hu.
Qed.

(** Standard extensions do not matter to the walk. *)
Lemma walk_standard c std exts :
  Forall (λ ext, take 3 ext.1 = [2; 5; 29]) std →
  walk_extensions c (std ++ exts) = walk_extensions c exts.
Proof.
  induction 1 as [|ext std Hext _ IH]; [done |]. cbn [app walk_extensions]. unfold apply_extension.
  do 3 (rewrite decide_False by (intros E; by rewrite E in Hext)). exact IH.
Qed.

(** ** What the two operations promise *)

(** [ca] is a certificate authority with the key of [seed]. *)
Record authority (ca : Certificate) (seed name : bytes) (from until : Z) : Prop := {
  authority_seed : length seed = 32%nat;
  authority_made : ∃ ct, ca_template ct ∧
    CreateCertificate ct (inl ct) (ed25519_public seed) (NewKeyFromSeed seed) = Ok (raw ca);
  authority_bytes : bytes_ok (raw ca);
  authority_parses : parseDER (raw ca) = Ok ca;
  authority_x509 : ParseCertificate (raw ca) = Ok (x509 ca);
  authority_is_ca : IsCA ca = true;
  authority_name : Name ca = name;
  authority_key : xPublicKey (X509 ca) = Ed25519Key (ed25519_public seed);
  authority_from : xNotBefore (X509 ca) = whole_seconds from;
  authority_until : xNotAfter (X509 ca) = whole_seconds until;
  authority_verifies now : valid_at (X509 ca) now → VerifyCA ca now = Ok tt;
}.

(** [node] is a node certificate of [ca] with the requested contents. *)
Record issued (ca node : Certificate) (name : bytes) (vpnIP : Prefix) (groups : list bytes) (key : bytes)
    (from until : Z) : Prop := {
  issued_bytes : bytes_ok (raw node);
  issued_parses : parseDER (raw node) = Ok node;
  issued_not_ca : IsCA node = false;
  issued_name : Name node = name;
  issued_vpnip : cVpnIP node = vpnIP;
  issued_groups : cGroups node = groups;
  issued_key : X25519PublicKey node = key;
  issued_from : xNotBefore (X509 node) = whole_seconds from;
  issued_until : xNotAfter (X509 node) = whole_seconds until;
  issued_verifies now : valid_at (X509 node) now → valid_at (X509 ca) now → Verify node [ca] now = Ok tt;
}.

(** The name and validity a template can carry. *)
Definition writable (name : bytes) (now duration : Z) : Prop :=
  (name ≠ [] ∧ ascii name) ∧
  ∀ x, x = now ∨ x = now + duration → - 62135596800 * second ≤ x < 253402300800 * second.

Lemma serial_ok ser : bytes_ok ser → length ser = 16%nat → in_u 128 (be_uint ser).
Proof. apply be_uint_16. Qed.

Lemma GenerateCA_run seed ser now name duration :
  length seed = 32%nat → bytes_ok ser → length ser = 16%nat → writable name now duration →
  ∃ ca, GenerateCA (Ok seed) (Ok ser) now name duration = Ok (ca, NewKeyFromSeed seed) ∧
    authority ca seed name now (now + duration).
Proof.
  intros Hs Hser Hl [Hname Htimes]. unfold GenerateCA. cbn [go_bind go_wrap GenerateKey newSerial].
  match goal with |- context [CreateCertificate ?t _ _ _] => set (ct := t) end.
  assert (Hct : ca_template ct) by done.
  assert (Hok : template_ok ct) by (split; try done; [by apply serial_ok | constructor]).
  destruct (create_ca ct seed Hok Hct Hs) as (der & x & Hc & Hb & Hx & [Hca Hn Hk Hf Hu (std & Hstd & Hstd2)] & Hv).
  exists (mkCertificate der x PrefixZero [] []). rewrite Hc. cbn [go_bind go_wrap].
  assert (Hp : parseDER der = Ok (mkCertificate der x PrefixZero [] [])).
  { unfold parseDER. rewrite Hx. cbn [go_bind go_wrap]. rewrite Hstd, walk_standard by done. done. }
  rewrite Hp. split; [done |]. split; try done.
  - by exists ct.
  - intros t Ht. unfold VerifyCA, IsCA. cbn [x509]. rewrite Hca. cbn. by rewrite Hv.
Qed.

Lemma Sign_run ca seed caName caFrom caUntil nodeSeed ser now name vpnIP groups key duration :
  authority ca seed caName caFrom caUntil →
  length nodeSeed = 32%nat → ed25519_public nodeSeed ≠ ed25519_public seed →
  bytes_ok ser → length ser = 16%nat → writable name now duration →
  vpn_prefix vpnIP → Forall bytes_ok groups → length key = 32%nat → bytes_ok key →
  ∃ node, Sign (Ok nodeSeed) (Ok ser) now ca name vpnIP groups key duration (NewKeyFromSeed seed) = Ok node ∧
    issued ca node name vpnIP groups key now (now + duration).
Proof.
  intros Hauth Hns Hdiff Hser Hl [Hname Htimes] Hip Hg Hkl Hk. unfold Sign. cbn [go_bind go_wrap GenerateKey newSerial].
  destruct (encodeVpnIP_ok vpnIP Hip) as (vi & Ei & Bi & Di). rewrite Ei. cbn [go_bind go_wrap].
  destruct (encodeCurve_ok key Hkl Hk) as (vc & Ec & Bc & Dc). rewrite Ec. cbn [go_bind go_wrap].
  destruct (encodeGroups_ok groups Hg) as (vg & Eg & Bg & Dg).
  set (extras := [(oidVpnIP, vi); (oidCurve25519Key, vc)] ++
    (if (0 <? length groups)%nat then [(oidGroups, vg)] else [])).
  match goal with |- context [go_bind (if _ then _ else _) ?k] =>
    assert (Hext : ∀ x, x = Ok extras → go_bind x k = k extras) by (by intros ? ->) end.
  rewrite Hext by (rewrite Eg; unfold extras; by destruct (0 <? length groups)%nat).
  cbn [newSerial go_bind go_wrap]. clear Hext.
  match goal with |- context [CreateCertificate ?t0 _ _ _] => set (t := t0) end.
  destruct (authority_made _ _ _ _ _ Hauth) as (ct & Hct & Hmade).
  assert (Hok : template_ok t).
  { split; try done; [by apply serial_ok | |]; subst t extras; cbn [tExtraExtensions];
      destruct (0 <? length groups)%nat; cbn [map fst app].
    1-2: apply (bool_decide_unpack _); by vm_compute.
    1-2: repeat constructor; done. }
  destruct (create_issued ct seed (raw ca) (x509 ca) t (ed25519_public nodeSeed)
    (authority_seed _ _ _ _ _ Hauth) Hct Hmade
    (authority_x509 _ _ _ _ _ Hauth) Hok eq_refl (ed25519_public_length _) Hdiff)
    as (der & x & Hc & Hb & Hx & [Hca Hn Hpk Hf Hu (std & Hstd & Hstd2)] & Hv).
  rewrite Hc. cbn [go_bind go_wrap]. exists (mkCertificate der x vpnIP groups key).
  assert (Hp : parseDER der = Ok (mkCertificate der x vpnIP groups key)).
  { unfold parseDER. rewrite Hx. cbn [go_bind go_wrap]. rewrite Hstd, walk_standard by done.
    subst t. cbn [tExtraExtensions]. unfold extras.
    cbn [app walk_extensions]. unfold apply_extension. cbn [fst].
    rewrite (decide_True (P := oidVpnIP = oidVpnIP)), Di by done. cbn [go_bind].
    rewrite (decide_False (P := oidCurve25519Key = oidVpnIP)), (decide_False (P := oidCurve25519Key = oidGroups)),
      (decide_True (P := oidCurve25519Key = oidCurve25519Key)), Dc by done. cbn [go_bind].
    destruct groups as [|g groups]; [done |]. cbn [length Nat.ltb Nat.leb walk_extensions].
    unfold apply_extension. cbn [fst].
    rewrite (decide_False (P := oidGroups = oidVpnIP)), (decide_True (P := oidGroups = oidGroups)), Dg by done. done. }
  split; [done |]. split; try done.
  intros tm Ht1 Ht2. unfold Verify, IsCA. cbn [x509]. rewrite Hca. cbn. by rewrite Hv.
Qed.

Lemma Ed25519_file seed : length seed = 32%nat → bytes_ok seed →
  ∃ file, MarshalEd25519PrivateKey (NewKeyFromSeed seed) = Ok file ∧
    ParseEd25519PrivateKey file = Ok (NewKeyFromSeed seed).
Proof.
  intros Hl Hs. destruct (pkcs8_roundtrip seed Hl Hs) as (der & Hm & Hp).
  exists (pem_encode (lit "PRIVATE KEY") der). unfold MarshalEd25519PrivateKey, ParseEd25519PrivateKey.
  rewrite Hm, pem_roundtrip. cbn [go_bind go_wrap]. by rewrite Hp.
Qed.

End Authority.

(** ** Properties *)

(** C25. Issuing: a CA made by [GenerateCA] verifies itself, and [Sign] with its key
    issues a certificate that carries the requested name, VPN prefix, groups and
    X25519 key also after a trip through its PEM text, verifies against that CA at
    every time when both are valid, and at no time outside the requested validity
    (both ends in whole seconds).  [Sign] refuses a public key that does not have
    32 bytes. *)
Theorem issued_certificate {crypto : CryptoLib} {certlib : CertLib} {issue : IssueLib}
    {cert_laws : CertLaws} {issue_laws : IssueLaws} seed ser now name duration :
  length seed = 32%nat → bytes_ok ser → length ser = 16%nat → writable name now duration →
  ∃ ca, GenerateCA (Ok seed) (Ok ser) now name duration = Ok (ca, NewKeyFromSeed seed) ∧
    Name ca = name ∧
    (∀ t, whole_seconds now ≤ t ≤ whole_seconds (now + duration) → VerifyCA ca t = Ok tt) ∧
    ∀ nodeSeed ser' now' name' vpnIP groups key duration',
      length nodeSeed = 32%nat → ed25519_public nodeSeed ≠ ed25519_public seed →
      bytes_ok ser' → length ser' = 16%nat → writable name' now' duration' →
      vpn_prefix vpnIP → Forall bytes_ok groups → bytes_ok key →
      match Sign (Ok nodeSeed) (Ok ser') now' ca name' vpnIP groups key duration' (NewKeyFromSeed seed) with
      | Ok node =>
          length key = 32%nat ∧ Parse_cert (PEM node) = Ok node ∧ IsCA node = false ∧ Name node = name' ∧
          cVpnIP node = vpnIP ∧ cGroups node = groups ∧ X25519PublicKey node = key ∧
          (∀ t, whole_seconds now' ≤ t ≤ whole_seconds (now' + duration') → whole_seconds now ≤ t ≤ whole_seconds (now + duration) →
             Verify node [ca] t = Ok tt) ∧
          (∀ t, Verify node [ca] t = Ok tt → whole_seconds now' ≤ t ≤ whole_seconds (now' + duration'))
      | Fail _ => length key ≠ 32%nat
      | Panic => False
      end.
Proof.
  intros Hs Hser Hl Hw. destruct (GenerateCA_run seed ser now name duration Hs Hser Hl Hw) as (ca & Hca & Hauth).
  exists ca. split; [done |]. split; [apply Hauth |]. split.
  { intros t Ht. apply Hauth. unfold valid_at. by rewrite (authority_from _ _ _ _ _ Hauth), (authority_until _ _ _ _ _ Hauth). }
  intros nodeSeed ser' now' name' vpnIP groups key duration' Hns Hd Hser' Hl' Hw' Hip Hg Hk.
  destruct (decide (length key = 32%nat)) as [Hkl|Hkl].
  - destruct (Sign_run ca seed name _ _ nodeSeed ser' now' name' vpnIP groups key duration' Hauth) as (node & -> & Hi); try done.
    split; [done |]. split.
    { unfold Parse_cert, PEM. rewrite pem_roundtrip, bool_decide_eq_true_2 by done. apply Hi. }
    do 5 (split; [apply Hi |]). split.
    + intros t H1 H2. apply Hi; unfold valid_at.
      * by rewrite (issued_from _ _ _ _ _ _ _ _ Hi), (issued_until _ _ _ _ _ _ _ _ Hi).
      * by rewrite (authority_from _ _ _ _ _ Hauth), (authority_until _ _ _ _ _ Hauth).
    + intros t Hv. unfold Verify in Hv. rewrite (issued_not_ca _ _ _ _ _ _ _ _ Hi) in Hv.
      destruct (x509_verify _ _ _) as [[]| |] eqn:E; [| done ..]. apply verify_valid in E. unfold valid_at in E.
      by rewrite <- (issued_from _ _ _ _ _ _ _ _ Hi), <- (issued_until _ _ _ _ _ _ _ _ Hi).
  - destruct (encodeVpnIP_ok vpnIP Hip) as (v & Ev & _). unfold Sign. cbn [go_bind go_wrap GenerateKey].
    rewrite Ev. cbn [go_bind go_wrap]. unfold encodeCurve25519Key. rewrite bool_decide_eq_false_2 by done. done.
Qed.
