(* ===== verification/CertTool.v ===== *)
(** * The certificate tool: src/cmd/neth-cert/main.go

    The four commands of neth-cert over a file system and a standard output.  The
    operating system's files are a class: reading, writing and the permission bits
    of a file, with the documented behaviour of [os.ReadFile] and [os.WriteFile] as
    laws.  What the random generator and the clock deliver to a run is a [ToolEnv].
    Messages on standard error are left out. *)

From S2P Require Import Prelude Bytes Net GoText GoPath GoFlag External Cert Authority.

(** ** Files *)

Class FileSystem (FS : Type) := {
  (** [os.ReadFile] *)
  fs_read : FS → bytes → go bytes;
  (** [os.WriteFile(path, data, perm)] *)
  fs_write : bytes → bytes → Z → M FS unit;
  (** the permission bits of the file a path names, if it exists *)
  fs_mode : FS → bytes → option Z;
  (** two paths name the same file *)
  same_file : bytes → bytes → Prop;
}.

(** A written file reads back under every path that names it, no other file is
    touched whether or not the write succeeds, a new file gets the given permission
    bits less the umask, and an existing file keeps its own. *)
Class FileSystemLaws FS `{FileSystem FS} : Prop := {
  same_file_refl p : same_file p p;
  read_written p d m s s' q : fs_write p d m s = (s', Ok tt) → same_file p q → fs_read s' q = Ok d;
  read_other p d m s q : ¬ same_file p q → fs_read (fs_write p d m s).1 q = fs_read s q;
  mode_other p d m s q : ¬ same_file p q → fs_mode (fs_write p d m s).1 q = fs_mode s q;
  mode_created p d m s s' : fs_write p d m s = (s', Ok tt) → fs_mode s p = None →
    ∃ umask, fs_mode s' p = Some (Z.land m (Z.lnot umask));
  mode_kept p d m s s' x : fs_write p d m s = (s', Ok tt) → fs_mode s p = Some x → fs_mode s' p = Some x;
}.

(** ** State *)

Record ToolEnv := mkToolEnv {
  teKey : go bytes;
  teSerial : go bytes;
  teX25519 : go bytes;
  teNow : Z;
}.

Record Tool FS := mkTool { tFiles : FS; tStdout : bytes }.
Arguments mkTool {FS} _ _.
Arguments tFiles {FS} _.
Arguments tStdout {FS} _.

Section CertTool.

Context {crypto : CryptoLib} {certlib : CertLib} {issue : IssueLib}.
Context {FS : Type} {files : FileSystem FS}.

(** [fmt.Printf] *)
Definition Printf (s : bytes) : M (Tool FS) unit := λ t, (mkTool (tFiles t) (tStdout t ++ s), Ok tt).
Definition newline : bytes := [10].

Definition ReadFile (path : bytes) : M (Tool FS) bytes := λ t, (t, fs_read (tFiles t) path).

Definition writeFile (path data : bytes) (mode : Z) : M (Tool FS) unit := λ t,
  let '(fs, r) := fs_write path data mode (tFiles t) in
  (mkTool fs (tStdout t), go_wrap "write" r).

(** 0o644 and 0o600 *)
Definition mode_crt : Z := 420.
Definition mode_key : Z := 384.

(** ** printCertSummary *)

Definition bool_text (b : bool) : bytes := if b then lit "true" else lit "false".

Definition printCertSummary (c : Certificate) : M (Tool FS) unit :=
  let x := X509 c in
  do! Printf (lit "  Name        : " ++ Name c ++ newline) in
  do! Printf (lit "  Is CA       : " ++ bool_text (IsCA c) ++ newline) in
  do! (if Prefix_IsValid (cVpnIP c) then Printf (lit "  VPN IP      : " ++ Prefix_String (cVpnIP c) ++ newline)
       else gret tt) in
  do! (if (0 <? length (cGroups c))%nat then
         Printf (lit "  Groups      : " ++ strings_Join (lit ", ") (cGroups c) ++ newline)
       else gret tt) in
  do! (if (0 <? length (X25519PublicKey c))%nat then
         Printf (lit "  X25519 key  : " ++ EncodeToString (X25519PublicKey c) ++ newline)
       else gret tt) in
  do! Printf (lit "  Not before  : " ++ FormatRFC3339 (xNotBefore x) ++ newline) in
  do! Printf (lit "  Not after   : " ++ FormatRFC3339 (xNotAfter x) ++ newline) in
  Printf (lit "  Fingerprint : " ++ EncodeToString (Fingerprint c) ++ newline).

(** ** The commands *)

Definition year : Z := 8760 * (3600 * 10 ^ 9).

Definition ca_flags : Flags :=
  <[lit "name" := FString []]> (<[lit "duration" := FDuration year]>
  (<[lit "out-dir" := FString (lit ".")]> ∅)).

Definition cmdCA (e : ToolEnv) (args : list bytes) : M (Tool FS) unit :=
  let! (fs, _) := glift (FlagSet_Parse ca_flags args) in
  let name := flag_string fs (lit "name") in
  let dur := flag_duration fs (lit "duration") in
  let outDir := flag_string fs (lit "out-dir") in
  if bool_decide (name = []) then gfail (Errorf "--name is required")
  else
    let! (ca, caKey) := glift (go_wrap "generate CA" (GenerateCA (teKey e) (teSerial e) (teNow e) name dur)) in
    let crtPath := filepath_Join [outDir; name ++ lit ".crt"] in
    let keyPath := filepath_Join [outDir; name ++ lit ".key"] in
    do! writeFile crtPath (PEM ca) mode_crt in
    let! keyPEM := glift (MarshalEd25519PrivateKey caKey) in
    do! writeFile keyPath keyPEM mode_key in
    do! Printf (lit "CA certificate : " ++ crtPath ++ newline) in
    do! Printf (lit "CA private key : " ++ keyPath ++ newline) in
    printCertSummary ca.

(** [caKey.Public()]: the last 32 of the key's 64 bytes. *)
Definition Public_of (key : bytes) : go bytes :=
  if decide (length key < 32)%nat then Panic else Ok (take 32 (drop 32 key ++ replicate 32 0)).

(** [for _, g := range strings.Split(groups, ",") { if g = TrimSpace(g); g != "" ... }] *)
Definition group_list (groups : bytes) : list bytes :=
  match groups with
  | [] => []
  | _ => filter (λ g, g ≠ []) (map TrimSpace (Split 44 groups))
  end.

Definition sign_flags : Flags :=
  <[lit "ca-crt" := FString []]> (<[lit "ca-key" := FString []]> (<[lit "name" := FString []]>
  (<[lit "ip" := FString []]> (<[lit "groups" := FString []]> (<[lit "duration" := FDuration year]>
  (<[lit "out-dir" := FString (lit ".")]> ∅)))))).

(** The type assertion [ca.X509().PublicKey.(ed25519.PublicKey)] of the first
    test is the one-result form, which panics on another type. *)
Definition check_ca_key (ca : Certificate) (caKey : bytes) : go unit :=
  try! expectedPub := Public_of caKey in
  match xPublicKey (X509 ca) with
  | OtherKey => Panic
  | Ed25519Key certPub =>
      if negb (bool_decide (certPub = expectedPub)) then Fail (Errorf "CA key does not match CA certificate")
      else Ok tt
  end.

Definition cmdSign (e : ToolEnv) (args : list bytes) : M (Tool FS) unit :=
  let! (fs, _) := glift (FlagSet_Parse sign_flags args) in
  let caCrtPath := flag_string fs (lit "ca-crt") in
  let caKeyPath := flag_string fs (lit "ca-key") in
  let name := flag_string fs (lit "name") in
  let ip := flag_string fs (lit "ip") in
  let groups := flag_string fs (lit "groups") in
  let dur := flag_duration fs (lit "duration") in
  let outDir := flag_string fs (lit "out-dir") in
  if bool_decide (caCrtPath = []) || bool_decide (caKeyPath = []) || bool_decide (name = []) || bool_decide (ip = [])
  then gfail (Errorf "--ca-crt, --ca-key, --name, and --ip are required")
  else
    let! vpnIP := glift (go_wrap "invalid --ip" (ParsePrefix ip)) in
    let! caPEM := gwrap "read CA certificate" (ReadFile caCrtPath) in
    let! ca := glift (go_wrap "parse CA certificate" (Parse_cert caPEM)) in
    if negb (IsCA ca) then gfail (Errorf "not a CA certificate")
    else
      let! caKeyPEM := gwrap "read CA key" (ReadFile caKeyPath) in
      let! caKey := glift (go_wrap "parse CA key" (ParseEd25519PrivateKey caKeyPEM)) in
      do! glift (check_ca_key ca caKey) in
      let! (nodePriv, nodePub) := glift (go_wrap "generate node key" (GenerateX25519KeyPair (teX25519 e))) in
      let groupList := group_list groups in
      let! node := glift (go_wrap "sign certificate"
        (Sign (teKey e) (teSerial e) (teNow e) ca name vpnIP groupList nodePub dur caKey)) in
      let crtPath := filepath_Join [outDir; name ++ lit ".crt"] in
      let keyPath := filepath_Join [outDir; name ++ lit ".key"] in
      do! writeFile crtPath (PEM node) mode_crt in
      let! nodeKeyPEM := glift (MarshalX25519PrivateKey nodePriv) in
      do! writeFile keyPath nodeKeyPEM mode_key in
      do! Printf (lit "Node certificate : " ++ crtPath ++ newline) in
      do! Printf (lit "Node private key : " ++ keyPath ++ newline) in
      printCertSummary node.

Definition verify_flags : Flags := <[lit "ca-crt" := FString []]> (<[lit "cert" := FString []]> ∅).

Definition cmdVerify (e : ToolEnv) (args : list bytes) : M (Tool FS) unit :=
  let! (fs, _) := glift (FlagSet_Parse verify_flags args) in
  let caCrtPath := flag_string fs (lit "ca-crt") in
  let certPath := flag_string fs (lit "cert") in
  if bool_decide (caCrtPath = []) || bool_decide (certPath = []) then gfail (Errorf "--ca-crt and --cert are required")
  else
    let! caPEM := gwrap "read CA certificate" (ReadFile caCrtPath) in
    let! ca := glift (go_wrap "parse CA certificate" (Parse_cert caPEM)) in
    let! nodePEM := gwrap "read certificate" (ReadFile certPath) in
    let! node := glift (go_wrap "parse certificate" (Parse_cert nodePEM)) in
    do! glift (go_wrap "verification failed" (Verify node [ca] (teNow e))) in
    Printf (lit "OK: certificate is valid" ++ newline).

Definition print_flags : Flags := <[lit "cert" := FString []]> ∅.

Definition cmdPrint (e : ToolEnv) (args : list bytes) : M (Tool FS) unit :=
  let! (fs, _) := glift (FlagSet_Parse print_flags args) in
  let certPath := flag_string fs (lit "cert") in
  if bool_decide (certPath = []) then gfail (Errorf "--cert is required")
  else
    let! pemBytes := gwrap "read certificate" (ReadFile certPath) in
    let! c := glift (go_wrap "parse certificate" (Parse_cert pemBytes)) in
    printCertSummary c.

(** [main], with [os.Args] and the exit status; a panic ends the process with
    another status. *)
Definition dispatch (e : ToolEnv) (cmd : bytes) (args : list bytes) : option (M (Tool FS) unit) :=
  if decide (cmd = lit "ca") then Some (cmdCA e args)
  else if decide (cmd = lit "sign") then Some (cmdSign e args)
  else if decide (cmd = lit "verify") then Some (cmdVerify e args)
  else if decide (cmd = lit "print") then Some (cmdPrint e args)
  else None.

Definition main (e : ToolEnv) (args : list bytes) : M (Tool FS) Z :=
  match args with
  | _ :: cmd :: rest =>
      match dispatch e cmd rest with
      | None => gret 1
      | Some m => λ t,
          match m t with
          | (t', Ok _) => (t', Ok 0)
          | (t', Fail _) => (t', Ok 1)
          | (t', Panic) => (t', Panic)
          end
      end
  | _ => gret 1
  end.

End CertTool.

(** ** What the tool writes *)

Section Writes.

Context {crypto : CryptoLib} {certlib : CertLib} {issue : IssueLib}.
Context {FS : Type} {files : FileSystem FS} {files_laws : FileSystemLaws FS}.

Definition output_paths (fs : Flags) : list bytes :=
  let dir := flag_string fs (lit "out-dir") in
  let name := flag_string fs (lit "name") in
  [filepath_Join [dir; name ++ lit ".crt"]; filepath_Join [dir; name ++ lit ".key"]].

(** The files a command line may write: the two outputs of [ca] and [sign]. *)
Definition outputs (args : list bytes) : list bytes :=
  match args with
  | _ :: cmd :: rest =>
      let paths (flags : Flags) := match FlagSet_Parse flags rest with Ok (fs, _) => output_paths fs | _ => [] end in
      if decide (cmd = lit "ca") then paths ca_flags
      else if decide (cmd = lit "sign") then paths sign_flags
      else []
  | _ => []
  end.

(** Every file other than [paths] is as in [s]. *)
Definition only_changed (paths : list bytes) (s : FS) (t : Tool FS) : Prop :=
  ∀ q, (∀ p, p ∈ paths → ¬ same_file p q) → fs_read (tFiles t) q = fs_read s q ∧ fs_mode (tFiles t) q = fs_mode s q.

Lemma writeFile_only paths s p d m : p ∈ paths → keeps (only_changed paths s) (writeFile p d m).
Proof.
  intros Hp t Ht q Hq. specialize (Ht q Hq). unfold writeFile.
  pose proof (read_other p d m (tFiles t) q (Hq p Hp)) as H1. pose proof (mode_other p d m (tFiles t) q (Hq p Hp)) as H2.
  destruct (fs_write p d m (tFiles t)) as [s' r]. cbn in *. by rewrite H1, H2.
Qed.

Lemma Printf_only paths s x : keeps (only_changed paths s) (Printf x).
Proof. by intros t Ht. Qed.
Lemma ReadFile_only paths s x : keeps (only_changed paths s) (ReadFile x).
Proof. by intros t Ht. Qed.

Hint Resolve Printf_only ReadFile_only : neth.

Lemma printCertSummary_only paths s c : keeps (only_changed paths s) (printCertSummary c).
Proof. unfold printCertSummary. keep_all. Qed.
Hint Resolve printCertSummary_only : neth.

Lemma cmdCA_only e fs rest rest' s :
  FlagSet_Parse ca_flags rest = Ok (fs, rest') → keeps (only_changed (output_paths fs) s) (cmdCA e rest).
Proof.
  intros Hp. unfold cmdCA. rewrite Hp. intros t Ht. erewrite gbind_ok by reflexivity. revert t Ht. cbv beta match.
  match goal with |- ∀ t, ?I t → ?I (?m t).1 => change (keeps I m) end.
  keep_all; apply writeFile_only; unfold output_paths; rewrite !elem_of_cons; auto.
Qed.

Lemma cmdSign_only e fs rest rest' s :
  FlagSet_Parse sign_flags rest = Ok (fs, rest') → keeps (only_changed (output_paths fs) s) (cmdSign e rest).
Proof.
  intros Hp. unfold cmdSign. rewrite Hp. intros t Ht. erewrite gbind_ok by reflexivity. revert t Ht. cbv beta match.
  match goal with |- ∀ t, ?I t → ?I (?m t).1 => change (keeps I m) end.
  keep_all; apply writeFile_only; unfold output_paths; rewrite !elem_of_cons; auto.
Qed.

Lemma cmdVerify_only e rest s : keeps (only_changed [] s) (cmdVerify e rest).
Proof. unfold cmdVerify. keep_all. Qed.
Lemma cmdPrint_only e rest s : keeps (only_changed [] s) (cmdPrint e rest).
Proof. unfold cmdPrint. keep_all. Qed.

Lemma main_only e args s : keeps (only_changed (outputs args) s) (main e args).
Proof.
  assert (Hnone : ∀ (m : M (Tool FS) unit), keeps (only_changed [] s) m → keeps (only_changed [] s) (λ t,
    match m t with (t', Ok _) => (t', Ok 0) | (t', Fail _) => (t', Ok 1) | (t', Panic) => (t', Panic) end)).
  { intros m Hm t Ht. specialize (Hm t Ht). by destruct (m t) as [t' [| |]]. }
  assert (Hsome : ∀ paths (m : M (Tool FS) unit), keeps (only_changed paths s) m → keeps (only_changed paths s) (λ t,
    match m t with (t', Ok _) => (t', Ok 0) | (t', Fail _) => (t', Ok 1) | (t', Panic) => (t', Panic) end)).
  { intros paths m Hm t Ht. specialize (Hm t Ht). by destruct (m t) as [t' [| |]]. }
  unfold main, outputs, dispatch. destruct args as [|prog [|cmd rest]]; [apply keeps_ret .. |].
  case_decide; [| case_decide; [| case_decide; [| case_decide]]].
  - destruct (FlagSet_Parse ca_flags rest) as [[fs r]| |] eqn:Hp; apply Hsome; [by eapply cmdCA_only | |];
      unfold cmdCA; rewrite Hp; by intros t Ht.
  - destruct (FlagSet_Parse sign_flags rest) as [[fs r]| |] eqn:Hp; apply Hsome; [by eapply cmdSign_only | |];
      unfold cmdSign; rewrite Hp; by intros t Ht.
  - apply Hnone, cmdVerify_only.
  - apply Hnone, cmdPrint_only.
  - apply keeps_ret.
Qed.

End Writes.

(** ** Properties *)

(** C35. What a run of the tool can change: whatever the command line, the file
    system, the outcome and however it ends, only the two output files of [ca] and
    [sign] are written, and these are entries of the output directory when the name
    has no path separator; [verify] and [print] write nothing. *)
Theorem tool_writes {crypto : CryptoLib} {certlib : CertLib} {issue : IssueLib}
    {FS : Type} {files : FileSystem FS} {files_laws : FileSystemLaws FS} e args (t : Tool FS) :
  let t' := (main e args t).1 in
  (∀ q, (∀ p, p ∈ outputs args → ¬ same_file p q) →
     fs_read (tFiles t') q = fs_read (tFiles t) q ∧ fs_mode (tFiles t') q = fs_mode (tFiles t) q) ∧
  (∀ p, p ∈ outputs args → ∃ flags fs rest, flags ∈ [ca_flags; sign_flags] ∧
     FlagSet_Parse flags (drop 2 args) = Ok (fs, rest) ∧
     let dir := flag_string fs (lit "out-dir") in
     let name := flag_string fs (lit "name") in
     dir ≠ [] → (slash ∉ name) → ∃ entry, p = render (is_rooted dir) (elements dir ++ [entry]) ∧ plain entry).
Proof.
  intros t'. split.
  - apply (main_only e args (tFiles t) t). by intros q _.
  - assert (Hpaths : ∀ fs p, p ∈ output_paths fs →
      let dir := flag_string fs (lit "out-dir") in let name := flag_string fs (lit "name") in
      dir ≠ [] → (slash ∉ name) → ∃ entry, p = render (is_rooted dir) (elements dir ++ [entry]) ∧ plain entry).
    { intros fs p Hp dir name Hd Hn. unfold output_paths in Hp. fold dir name in Hp.
      rewrite !elem_of_cons, elem_of_nil in Hp. destruct Hp as [-> | [-> | []]].
      - exists (name ++ lit ".crt"). split; [by apply Join_entry, plain_crt | by apply plain_crt].
      - exists (name ++ lit ".key"). split; [by apply Join_entry, plain_key | by apply plain_key]. }
    intros p Hp. unfold outputs in Hp. destruct args as [|prog [|cmd rest]]; [by apply elem_of_nil in Hp .. |].
    cbn [drop]. repeat case_decide; [| | by apply elem_of_nil in Hp].
    + destruct (FlagSet_Parse ca_flags rest) as [[fs r]| |] eqn:E; [| by apply elem_of_nil in Hp ..].
      eexists _, fs, r. split; [| split; [exact E | by apply Hpaths]]. rewrite !elem_of_cons. auto.
    + destruct (FlagSet_Parse sign_flags rest) as [[fs r]| |] eqn:E; [| by apply elem_of_nil in Hp ..].
      eexists _, fs, r. split; [| split; [exact E | by apply Hpaths]]. rewrite !elem_of_cons. auto.
Qed.

(** C33. The check of the CA key: given a CA certificate and a readable Ed25519 key
    that is not its key, [sign] writes nothing; it exits with status 1 when the
    certificate has another Ed25519 key, and it panics when the certificate's key
    is of another type. *)
Theorem sign_checks_ca_key {crypto : CryptoLib} {certlib : CertLib} {issue : IssueLib}
    {FS : Type} {files : FileSystem FS} e prog args fs rest p crt keyFile ca key (t : Tool FS) :
  FlagSet_Parse sign_flags args = Ok (fs, rest) → flag_string fs (lit "name") ≠ [] →
  ParsePrefix (flag_string fs (lit "ip")) = Ok p →
  flag_string fs (lit "ca-crt") ≠ [] → fs_read (tFiles t) (flag_string fs (lit "ca-crt")) = Ok crt →
  Parse_cert crt = Ok ca → IsCA ca = true →
  flag_string fs (lit "ca-key") ≠ [] → fs_read (tFiles t) (flag_string fs (lit "ca-key")) = Ok keyFile →
  ParseEd25519PrivateKey keyFile = Ok key → length key = 64%nat →
  match xPublicKey (X509 ca) with
  | Ed25519Key pub => pub ≠ drop 32 key → main e (prog :: lit "sign" :: args) t = (t, Ok 1)
  | OtherKey => main e (prog :: lit "sign" :: args) t = (t, Panic)
  end.
Proof.
  intros Hf Hname Hip Hc Hcr Hcp Hca Hk Hkr Hkp Hkl.
  assert (Hpub : Public_of key = Ok (drop 32 key)).
  { unfold Public_of. rewrite decide_False by lia. by rewrite take_app_length' by (rewrite length_drop; lia). }
  assert (Hrun : ∀ r, check_ca_key ca key = r → (∀ u, r ≠ Ok u) →
    cmdSign e args t = (t, match r with Ok _ => Ok tt | Fail er => Fail er | Panic => Panic end)).
  { intros r Hr Hne. unfold cmdSign. rewrite Hf. erewrite gbind_ok by reflexivity. cbv beta match.
    rewrite !bool_decide_eq_false_2; [cbn [orb] | intros E; by rewrite E in Hip | done ..].
    rewrite Hip. erewrite gbind_ok by reflexivity.
    erewrite (gbind_ok (gwrap _ (ReadFile _))); [| unfold gwrap, ReadFile; rewrite Hcr; reflexivity].
    rewrite Hcp. erewrite gbind_ok by reflexivity. rewrite Hca. cbn [negb].
    erewrite (gbind_ok (gwrap _ (ReadFile _))); [| unfold gwrap, ReadFile; rewrite Hkr; reflexivity].
    rewrite Hkp. erewrite gbind_ok by reflexivity. rewrite Hr.
    destruct r as [u| |]; [by destruct (Hne u) | done | done]. }
  unfold check_ca_key in Hrun. rewrite Hpub in Hrun. cbn [go_bind] in Hrun. unfold main. cbn [dispatch].
  assert (Hd : dispatch e (lit "sign") args = Some (cmdSign (FS := FS) e args)) by reflexivity. rewrite Hd.
  destruct (xPublicKey (X509 ca)) as [pub|].
  - intros Hne. rewrite bool_decide_eq_false_2 in Hrun by done. by rewrite (Hrun _ eq_refl).
  - by rewrite (Hrun _ eq_refl).
Qed.
