(* ===== verification/NoiseUtil.v ===== *)
(** * Package noiseutil: AEAD helpers and the packet nonce

    Models src/noiseutil/aead.go. *)

From S2P Require Import Prelude Bytes External.

Section NoiseUtil.

Context {crypto : CryptoLib} {noise : NoiseLib}.

(** A nil [*noise.CipherState] would be dereferenced. *)
Definition CipherFromState (cs : option CipherState) : go AEAD :=
  match cs with
  | None => Panic
  | Some cs => go_wrap "noiseutil" (NewAESGCM (UnsafeKey cs))
  end.

(** Bytes 0..7 hold the counter in little-endian order, 8..11 are zero. *)
Definition CounterNonce (counter : Z) : bytes := le_bytes 8 counter ++ replicate 4 0.

Definition Encrypt (aead : AEAD) (counter : Z) (header plaintext : bytes) : go bytes :=
  Ok (Seal aead (CounterNonce counter) plaintext header).

Definition Decrypt (aead : AEAD) (counter : Z) (header ciphertext : bytes) : go bytes :=
  of_option (Errorf "noiseutil: decrypt")
    (Open aead (CounterNonce counter) ciphertext header).

Lemma length_CounterNonce c : length (CounterNonce c) = 12%nat.
Proof. unfold CounterNonce. by rewrite length_app, length_le_bytes. Qed.

Lemma CounterNonce_inj c d : in_u 64 c → in_u 64 d → CounterNonce c = CounterNonce d → c = d.
Proof.
  intros Hc Hd H. unfold CounterNonce in H. apply app_inv_tail in H.
  by apply (le_bytes_inj 8).
Qed.

Lemma Decrypt_Encrypt `{!CryptoLaws} a c hdr p :
  go_bind (Encrypt a c hdr p) (λ ct, Decrypt a c hdr ct) = Ok p.
Proof. cbn. unfold Decrypt. by rewrite Open_Seal. Qed.

Lemma Decrypt_inv `{!CryptoLaws} a c hdr ct p :
  Decrypt a c hdr ct = Ok p → Encrypt a c hdr p = Ok ct.
Proof.
  unfold Decrypt, Encrypt. destruct (Open _ _ _ _) as [q|] eqn:E; cbn; [| done].
  intros [= ->]. f_equal. symmetry. by apply Seal_Open.
Qed.

End NoiseUtil.
