(* ===== verification/HostMap.v ===== *)
(** * Sessions and their registry: src/hostmap.go

    [HostInfo] values are shared through pointers: the registry's two maps hold
    the same object, whose replay window and counter are updated in place.  A
    session is therefore a location in a store, and the maps hold locations. *)

From S2P Require Import Prelude Bytes Net Replay External Cert NoiseUtil.

Section HostMap.

Context {crypto : CryptoLib}.

(** ** Data *)

Record HostInfo := mkHostInfo {
  VpnIP : Addr;
  Remote : UDPAddr;
  Index : Z;
  RemoteIndex : Z;
  SendCipher : AEAD;
  RecvCipher : AEAD;
  Counter : Z;
  hCert : option Certificate;
  hWindow : Window;
}.

Definition set_Counter (c : Z) (h : HostInfo) : HostInfo :=
  mkHostInfo (VpnIP h) (Remote h) (Index h) (RemoteIndex h) (SendCipher h) (RecvCipher h) c
    (hCert h) (hWindow h).

Definition set_hWindow (w : Window) (h : HostInfo) : HostInfo :=
  mkHostInfo (VpnIP h) (Remote h) (Index h) (RemoteIndex h) (SendCipher h) (RecvCipher h)
    (Counter h) (hCert h) w.

(** Pointers to [HostInfo] and the store they point into. *)
Abbreviation loc := nat.
Abbreviation hosts := (gmap nat HostInfo).

Record HostMap := mkHostMap {
  byVpnIP : gmap Addr loc;
  byIndex : gmap Z loc;
}.

(** [&HostInfo{...}]: a location not in use. *)
Definition fresh_loc (s : hosts) : loc := fresh (dom s : gset nat).

(** ** Operations *)

Definition NewHostMap : HostMap := {| byVpnIP := ∅; byIndex := ∅ |}.

(** [Add(h)] for the session at [l]; a dangling pointer would panic. *)
Definition Add (s : hosts) (l : loc) (m : HostMap) : go HostMap :=
  match s !! l with
  | None => Panic
  | Some h => Ok {| byVpnIP := <[VpnIP h := l]> (byVpnIP m); byIndex := <[Index h := l]> (byIndex m) |}
  end.

Definition GetByVpnIP (ip : Addr) (m : HostMap) : option loc := byVpnIP m !! ip.

Definition GetByIndex (idx : Z) (m : HostMap) : option loc := byIndex m !! idx.

Definition Remove (s : hosts) (ip : Addr) (m : HostMap) : go HostMap :=
  match byVpnIP m !! ip with
  | None => Ok {| byVpnIP := delete ip (byVpnIP m); byIndex := byIndex m |}
  | Some l =>
      match s !! l with
      | None => Panic
      | Some h => Ok {| byVpnIP := delete ip (byVpnIP m); byIndex := delete (Index h) (byIndex m) |}
      end
  end.

(** [host.CheckReplay(counter)] through the pointer. *)
Definition host_CheckReplay (l : loc) (counter : Z) : M hosts bool := λ s,
  match s !! l with
  | None => (s, Panic)
  | Some h => let '(w, r) := CheckReplay counter (hWindow h) in (<[l := set_hWindow w h]> s, r)
  end.

(** [host.Counter.Add(1)]: an atomic uint64, wrapping. *)
Definition host_NextCounter (l : loc) : M hosts Z := λ s,
  match s !! l with
  | None => (s, Panic)
  | Some h => let c := u64 (Counter h + 1) in (<[l := set_Counter c h]> s, Ok c)
  end.

(** ** Invariant *)

(** Every entry of either map points to a live session, and carries that
    session's own address or index as its key. *)
Record HostMap_ok (s : hosts) (m : HostMap) : Prop := {
  byVpnIP_ok ip l : byVpnIP m !! ip = Some l → ∃ h, s !! l = Some h ∧ VpnIP h = ip;
  byIndex_ok i l : byIndex m !! i = Some l → ∃ h, s !! l = Some h ∧ Index h = i;
}.

(** What in-place updates never change: the identity of a session. *)
Definition same_identity (h h' : HostInfo) : Prop :=
  VpnIP h' = VpnIP h ∧ Remote h' = Remote h ∧ Index h' = Index h ∧ RemoteIndex h' = RemoteIndex h ∧
  SendCipher h' = SendCipher h ∧ RecvCipher h' = RecvCipher h ∧ hCert h' = hCert h.

(** One store extends another: sessions stay, with the same identity. *)
Definition extends (s s' : hosts) : Prop :=
  ∀ l h, s !! l = Some h → ∃ h', s' !! l = Some h' ∧ same_identity h h'.

#[global] Instance extends_preorder : PreOrder extends.
Proof.
  unfold extends, same_identity. split.
  - intros s l h Hl. eauto 10.
  - intros s1 s2 s3 H12 H23 l h Hl. destruct (H12 l h Hl) as (h2 & Hl2 & ?).
    destruct (H23 l h2 Hl2) as (h3 & Hl3 & ?). exists h3. intuition congruence.
Qed.

Lemma fresh_loc_None s : s !! fresh_loc s = None.
Proof. unfold fresh_loc. pose proof (is_fresh (dom s : gset nat)) as H. by apply not_elem_of_dom in H. Qed.

Lemma extends_alloc s h : extends s (<[fresh_loc s := h]> s).
Proof.
  intros l h' Hl. exists h'. rewrite lookup_insert_ne; [done |].
  intros <-. by rewrite fresh_loc_None in Hl.
Qed.

Lemma extends_update s l h h' :
  s !! l = Some h → same_identity h h' → extends s (<[l := h']> s).
Proof.
  intros Hl Hs l0 h0 Hl0. destruct (decide (l = l0)) as [->|].
  - rewrite lookup_insert_eq. simplify_eq. eauto.
  - rewrite lookup_insert_ne by done. exists h0. unfold same_identity. auto 10.
Qed.

Lemma HostMap_ok_extends s s' m : extends s s' → HostMap_ok s m → HostMap_ok s' m.
Proof.
  intros He [H1 H2]. split.
  - intros ip l Hl. destruct (H1 ip l Hl) as (h & Hh & <-). destruct (He l h Hh) as (h' & Hh' & Hid).
    exists h'. split; [done | apply Hid].
  - intros i l Hl. destruct (H2 i l Hl) as (h & Hh & <-). destruct (He l h Hh) as (h' & Hh' & Hid).
    exists h'. split; [done | apply Hid].
Qed.

Lemma host_CheckReplay_extends l c s s' r :
  host_CheckReplay l c s = (s', r) → extends s s'.
Proof.
  unfold host_CheckReplay. destruct (s !! l) as [h|] eqn:E; [| intros [= <- _]; reflexivity].
  destruct (CheckReplay c (hWindow h)) as [w r']. intros [= <- _].
  eapply extends_update; [exact E |]. unfold same_identity. auto 10.
Qed.

Lemma host_NextCounter_extends l s s' r :
  host_NextCounter l s = (s', r) → extends s s'.
Proof.
  unfold host_NextCounter. destruct (s !! l) as [h|] eqn:E; [| intros [= <- _]; reflexivity].
  intros [= <- _]. eapply extends_update; [exact E |]. unfold same_identity. auto 10.
Qed.

Lemma NewHostMap_ok s : HostMap_ok s NewHostMap.
Proof. split; cbn; intros ? ? H; by rewrite lookup_empty in H. Qed.

Lemma Add_ok s l h m :
  s !! l = Some h → HostMap_ok s m →
  ∃ m', Add s l m = Ok m' ∧ HostMap_ok s m' ∧
    GetByVpnIP (VpnIP h) m' = Some l ∧ GetByIndex (Index h) m' = Some l ∧
    (∀ ip, ip ≠ VpnIP h → GetByVpnIP ip m' = GetByVpnIP ip m) ∧
    (∀ i, i ≠ Index h → GetByIndex i m' = GetByIndex i m).
Proof.
  intros Hl [H1 H2]. unfold Add. rewrite Hl. eexists. split; [done |].
  unfold GetByVpnIP, GetByIndex. cbn. split_and!.
  - split; cbn.
    + intros ip l' [[<- <-] | [_ ?]]%lookup_insert_Some; eauto.
    + intros i l' [[<- <-] | [_ ?]]%lookup_insert_Some; eauto.
  - by rewrite lookup_insert_eq.
  - by rewrite lookup_insert_eq.
  - intros ip Hne. by rewrite lookup_insert_ne.
  - intros i Hne. by rewrite lookup_insert_ne.
Qed.

(** [Remove] deletes the two entries of the session registered for [ip]. *)
Lemma Remove_entries s ip m :
  HostMap_ok s m →
  ∃ m', Remove s ip m = Ok m' ∧ GetByVpnIP ip m' = None ∧ (∀ ip', ip' ≠ ip → GetByVpnIP ip' m' = GetByVpnIP ip' m) ∧
    ∀ l h, GetByVpnIP ip m = Some l → s !! l = Some h →
      GetByIndex (Index h) m' = None ∧ ∀ i, i ≠ Index h → GetByIndex i m' = GetByIndex i m.
Proof.
  intros [H1 H2]. unfold Remove, GetByVpnIP, GetByIndex. destruct (byVpnIP m !! ip) as [l|] eqn:E.
  - destruct (H1 ip l E) as (h & Hh & <-). rewrite Hh. eexists. split; [done |]. cbn. split_and!; [by rewrite lookup_delete_eq | |].
    + intros ip' Hne. by rewrite lookup_delete_ne.
    + intros l' h' [= <-] Hh'. simplify_eq. split; [by rewrite lookup_delete_eq | intros i Hne; by rewrite lookup_delete_ne].
  - eexists. split; [done |]. cbn. split_and!; [by rewrite lookup_delete_eq | | done].
    intros ip' Hne. by rewrite lookup_delete_ne.
Qed.

Lemma Remove_ok s ip m :
  HostMap_ok s m →
  ∃ m', Remove s ip m = Ok m' ∧ HostMap_ok s m' ∧ GetByVpnIP ip m' = None ∧
    (∀ l h, GetByVpnIP ip m = Some l → s !! l = Some h → GetByIndex (Index h) m' = None) ∧
    (∀ ip', ip' ≠ ip → GetByVpnIP ip' m' = GetByVpnIP ip' m).
Proof.
  intros [H1 H2]. unfold Remove, GetByVpnIP, GetByIndex.
  destruct (byVpnIP m !! ip) as [l|] eqn:E.
  - destruct (H1 ip l E) as (h & Hh & <-). rewrite Hh. eexists. split; [done |]. cbn. split_and!.
    + split; cbn; intros ? ? [? ?]%lookup_delete_Some; eauto.
    + by rewrite lookup_delete_eq.
    + intros l' h' [= <-] Hh'. simplify_eq. by rewrite lookup_delete_eq.
    + intros ip' Hne. by rewrite lookup_delete_ne.
  - eexists. split; [done |]. cbn. split_and!.
    + split; cbn; [intros ? ? [? ?]%lookup_delete_Some; eauto | done].
    + by rewrite lookup_delete_eq.
    + done.
    + intros ip' Hne. by rewrite lookup_delete_ne.
Qed.

(** ** The registry as a state machine *)

(** The steps the daemon takes on the registry: a completed handshake stores a
    new session and adds it, a tunnel is closed, a packet is checked, a packet
    is sent. *)
Inductive hm_step : hosts * HostMap → hosts * HostMap → Prop :=
| hm_add s m h m' :
    Add (<[fresh_loc s := h]> s) (fresh_loc s) m = Ok m' →
    hm_step (s, m) (<[fresh_loc s := h]> s, m')
| hm_remove s m ip m' :
    Remove s ip m = Ok m' → hm_step (s, m) (s, m')
| hm_check s m l c s' r :
    host_CheckReplay l c s = (s', r) → hm_step (s, m) (s', m)
| hm_send s m l s' r :
    host_NextCounter l s = (s', r) → hm_step (s, m) (s', m).

Lemma hm_step_ok sm sm' : hm_step sm sm' → HostMap_ok sm.1 sm.2 → HostMap_ok sm'.1 sm'.2.
Proof.
  destruct 1 as [s m h m' Ha | s m ip m' Hr | s m l c s' r Hc | s m l s' r Hn]; cbn; intros Hok.
  - eapply HostMap_ok_extends in Hok; [| apply (extends_alloc s h)].
    destruct (Add_ok _ (fresh_loc s) h m (lookup_insert_eq _ _ _) Hok) as (m1 & Hm1 & Hok1 & _).
    rewrite Ha in Hm1. by simplify_eq.
  - destruct (Remove_ok s ip m Hok) as (m1 & Hm1 & Hok1 & _). rewrite Hr in Hm1. by simplify_eq.
  - eapply HostMap_ok_extends; [by eapply host_CheckReplay_extends | done].
  - eapply HostMap_ok_extends; [by eapply host_NextCounter_extends | done].
Qed.

Lemma hm_reachable_ok sm : rtc hm_step (∅, NewHostMap) sm → HostMap_ok sm.1 sm.2.
Proof.
  intros H. remember (∅ : hosts, NewHostMap) as sm0 eqn:E.
  assert (Hok : HostMap_ok sm0.1 sm0.2) by (subst; apply NewHostMap_ok).
  clear E. induction H as [|sm1 sm2 sm3 Hstep _ IH]; [done |]. by apply IH, (hm_step_ok sm1).
Qed.

(** ** Packet counters *)

(** The counters [n] successive packets of a session draw. *)
Fixpoint draw_counters (n : nat) (l : loc) : M hosts (list Z) :=
  match n with
  | O => gret []
  | S n' =>
      let! c := host_NextCounter l in
      let! cs := draw_counters n' l in
      gret (c :: cs)
  end.

Lemma draw_counters_seq n l s h :
  s !! l = Some h → 0 ≤ Counter h → Counter h + Z.of_nat n < 2 ^ 64 →
  ∃ s', draw_counters n l s = (s', Ok (seqZ (Counter h + 1) (Z.of_nat n))).
Proof.
  revert s h. induction n as [|n IH]; intros s h Hl H0 Hn; cbn [draw_counters]; [by eexists |].
  assert (Hstep : host_NextCounter l s = (<[l := set_Counter (Counter h + 1) h]> s, Ok (Counter h + 1))).
  { unfold host_NextCounter. rewrite Hl. by rewrite wrap_small by (unfold in_u; lia). }
  rewrite (gbind_ok _ _ _ _ _ Hstep).
  destruct (IH (<[l := set_Counter (Counter h + 1) h]> s) (set_Counter (Counter h + 1) h)) as [s' Hs'];
    cbn; [by rewrite lookup_insert_eq | lia | lia |].
  rewrite (gbind_ok _ _ _ _ _ Hs'). eexists. unfold gret. f_equal. f_equal.
  rewrite (seqZ_cons (Counter h + 1)) by lia. cbn. f_equal. f_equal; lia.
Qed.

End HostMap.

(** ** Properties *)

(** In every state the daemon's steps can reach from an empty registry, an
    entry of either map points to a live session that carries the entry's key as
    its own VPN address or index; so [Add] and [Remove] never dereference a
    dangling pointer: a session just added is found under both keys, a removed
    address and the index of the session it named are gone, and no other address
    is affected. *)
Theorem HostMap_reachable {crypto : CryptoLib} s m :
  rtc hm_step (∅, NewHostMap) (s, m) →
  HostMap_ok s m ∧
  (∀ l h, s !! l = Some h → ∃ m', Add s l m = Ok m' ∧
     GetByVpnIP (VpnIP h) m' = Some l ∧ GetByIndex (Index h) m' = Some l ∧
     ∀ ip, ip ≠ VpnIP h → GetByVpnIP ip m' = GetByVpnIP ip m) ∧
  (∀ ip, ∃ m', Remove s ip m = Ok m' ∧ GetByVpnIP ip m' = None ∧
     (∀ l h, GetByVpnIP ip m = Some l → s !! l = Some h → GetByIndex (Index h) m' = None) ∧
     ∀ ip', ip' ≠ ip → GetByVpnIP ip' m' = GetByVpnIP ip' m).
Proof.
  intros H. apply hm_reachable_ok in H. cbn in H. split_and!; [done | |].
  - intros l h Hl. destruct (Add_ok s l h m Hl H) as (m' & ? & _ & ? & ? & ? & _). eauto.
  - intros ip. destruct (Remove_ok s ip m H) as (m' & ? & _ & ? & ? & ?). eauto.
Qed.

(** A re-handshake does not retire the old session: when a session is added
    for a VPN address that already has one under another index, the old index
    still resolves to the old session, also after the address is removed. *)
Theorem Add_keeps_stale_index {crypto : CryptoLib} s m l h l' h' :
  HostMap_ok s m → s !! l = Some h → s !! l' = Some h' →
  GetByVpnIP (VpnIP h) m = Some l → GetByIndex (Index h) m = Some l →
  VpnIP h' = VpnIP h → Index h' ≠ Index h →
  ∃ m1 m2, Add s l' m = Ok m1 ∧ Remove s (VpnIP h) m1 = Ok m2 ∧
    GetByVpnIP (VpnIP h) m1 = Some l' ∧
    GetByIndex (Index h) m1 = Some l ∧ GetByIndex (Index h) m2 = Some l.
Proof.
  intros Hok Hl Hl' Hip Hidx Hsame Hne. unfold Add. rewrite Hl'. do 2 eexists. split; [done |].
  unfold Remove, GetByVpnIP, GetByIndex in *. cbn. rewrite Hsame, lookup_insert_eq, Hl'.
  split; [done |]. cbn. rewrite lookup_insert_ne by done. split_and!; [done | done |].
  by rewrite lookup_delete_ne, lookup_insert_ne.
Qed.

(** Nonce discipline: as long as a session has sent fewer than 2^64 packets
    in all, the counters it draws are consecutive starting at 1, and no two of
    its packets are sealed under the same 12-byte nonce. *)
Theorem session_nonces_distinct {crypto : CryptoLib} n l s h :
  s !! l = Some h → Counter h = 0 → Z.of_nat n < 2 ^ 64 →
  ∃ s' cs, draw_counters n l s = (s', Ok cs) ∧ cs = seqZ 1 (Z.of_nat n) ∧
    NoDup (map CounterNonce cs) ∧ Forall (λ c, length (CounterNonce c) = 12%nat) cs.
Proof.
  intros Hl H0 Hn. destruct (draw_counters_seq n l s h Hl ltac:(lia) ltac:(lia)) as [s' Hs'].
  rewrite H0 in Hs'. exists s', (seqZ 1 (Z.of_nat n)). split_and!; [done | done | |].
  - change (map CounterNonce) with (fmap (M := list) CounterNonce).
    apply NoDup_fmap_2_strong; [| apply NoDup_seqZ].
    intros x y [Hx1 Hx2]%elem_of_seqZ [Hy1 Hy2]%elem_of_seqZ. apply CounterNonce_inj; unfold in_u; lia.
  - apply Forall_forall. intros c _. apply length_CounterNonce.
Qed.
