(* ===== verification/Handshake.v ===== *)
(** * Package handshake: handshake messages and Noise states

    Models src/handshake: the pre-shared key, the two message builders, the
    parsers and the HMAC check (handshake.go), and the Noise configurations
    (noise.go).  [time.Now().UnixNano()] is an argument. *)

From S2P Require Import Prelude Bytes Messages External Cert.

Section Handshake.

Context {crypto : CryptoLib} {noise : NoiseLib} {proto : ProtoLib} {certlib : CertLib}.

(** ** Pre-shared key *)

(** [psk[i] = lf[i] ^ rf[i]] for the 32 bytes of the fingerprints. *)
Definition DerivePreSharedKey (local remote : Certificate) : bytes :=
  let lf := Fingerprint local in
  let rf := Fingerprint remote in
  map (λ i, Z.lxor (lf !!! i) (rf !!! i)) (seq 0 32).

(** ** Messages *)

(** The HMAC both builders and the check compute: key is the sender's
    fingerprint, data is the details followed by the Noise payload. *)
Definition message_mac (cert : Certificate) (details payload : bytes) : bytes :=
  hmac_sha256 (Fingerprint cert) (details ++ payload).

Definition BuildInitiatorMessage (localCert : Certificate) (noisePayload : bytes) (localIndex now : Z)
    : go HandshakeMessage :=
  let details := {| dCert := PEM localCert; dInitiatorIndex := localIndex;
                    dResponderIndex := 0; dTime := u64 now |} in
  try! detailsBytes := go_wrap "handshake: marshal details" (marshal_details details) in
  Ok {| mDetails := detailsBytes; mNoisePayload := noisePayload;
        mHmac := message_mac localCert detailsBytes noisePayload |}.

Definition BuildResponderMessage (localCert : Certificate) (noisePayload : bytes)
    (initiatorIndex responderIndex now : Z) : go HandshakeMessage :=
  let details := {| dCert := PEM localCert; dInitiatorIndex := initiatorIndex;
                    dResponderIndex := responderIndex; dTime := u64 now |} in
  try! detailsBytes := go_wrap "handshake: marshal responder details" (marshal_details details) in
  Ok {| mDetails := detailsBytes; mNoisePayload := noisePayload;
        mHmac := message_mac localCert detailsBytes noisePayload |}.

Definition ParseHandshakeMessage (raw : bytes) : go HandshakeMessage :=
  go_wrap "handshake: parse message" (unmarshal_handshake raw).

Definition ParseDetails (msg : HandshakeMessage) : go HandshakeDetails :=
  go_wrap "handshake: parse details" (unmarshal_details (mDetails msg)).

(** [hmac.Equal] is equality of the two byte strings. *)
Definition VerifyHMAC (msg : HandshakeMessage) (senderCert : Certificate) : go unit :=
  if bool_decide (message_mac senderCert (mDetails msg) (mNoisePayload msg) = mHmac msg) then Ok tt
  else Fail (Errorf "handshake: HMAC verification failed").

(** ** Noise states *)

Definition cipherSuite : string := "25519_AESGCM_SHA256".
Definition HandshakeIK : string := "IK".

Definition initiatorConfig (localStatic : DHKey) (remoteStatic psk : bytes) : NoiseConfig :=
  {| ncCipherSuite := cipherSuite; ncPattern := HandshakeIK; ncInitiator := true;
     ncStaticKeypair := localStatic; ncPeerStatic := remoteStatic;
     ncPresharedKey := psk; ncPresharedKeyPlacement := 0 |}.

Definition responderConfig (localStatic : DHKey) (psk : bytes) : NoiseConfig :=
  {| ncCipherSuite := cipherSuite; ncPattern := HandshakeIK; ncInitiator := false;
     ncStaticKeypair := localStatic; ncPeerStatic := [];
     ncPresharedKey := psk; ncPresharedKeyPlacement := 0 |}.

Definition NewInitiatorState (localStatic : DHKey) (remoteStatic psk : bytes) : go HandshakeState :=
  go_wrap "noise: new initiator state" (NewHandshakeState (initiatorConfig localStatic remoteStatic psk)).

Definition NewResponderState (localStatic : DHKey) (psk : bytes) : go HandshakeState :=
  go_wrap "noise: new responder state" (NewHandshakeState (responderConfig localStatic psk)).

(** ** Documented behaviour of flynn/noise for this pattern

    The Noise IKpsk0 handshake completes between an initiator that knows the
    responder's static public key and a responder holding the same pre-shared
    key: two messages, no payload, and both sides end with the same pair of
    cipher keys, 32 bytes each. *)
Class NoiseLaws : Prop := {
  noise_IKpsk0 ki kr psk e1 e2 :
    is_keypair ki → is_keypair kr → length psk = 32%nat →
    ∃ hsi hsi1 hsi2 hsr hsr1 hsr2 m1 m2 c1 c2 d1 d2,
      NewHandshakeState (initiatorConfig ki (Public kr) psk) = Ok hsi ∧
      WriteMessage e1 [] hsi = (hsi1, Ok (m1, None)) ∧
      NewHandshakeState (responderConfig kr psk) = Ok hsr ∧
      ReadMessage m1 hsr = (hsr1, Ok ([], None)) ∧
      WriteMessage e2 [] hsr1 = (hsr2, Ok (m2, Some (c1, c2))) ∧
      ReadMessage m2 hsi1 = (hsi2, Ok ([], Some (d1, d2))) ∧
      UnsafeKey d1 = UnsafeKey c1 ∧ UnsafeKey d2 = UnsafeKey c2;
  UnsafeKey_length c : length (UnsafeKey c) = 32%nat;
}.

(** ** Lemmas *)

Lemma DerivePreSharedKey_comm a b : DerivePreSharedKey a b = DerivePreSharedKey b a.
Proof. unfold DerivePreSharedKey. apply map_ext. intros i. apply Z.lxor_comm. Qed.

Lemma length_DerivePreSharedKey a b : length (DerivePreSharedKey a b) = 32%nat.
Proof. unfold DerivePreSharedKey. by rewrite length_map. Qed.

Lemma VerifyHMAC_built cert d n :
  VerifyHMAC (mkHandshakeMessage d n (message_mac cert d n)) cert = Ok tt.
Proof. unfold VerifyHMAC. cbn. by rewrite bool_decide_eq_true_2. Qed.

End Handshake.

Arguments NoiseLaws {noise}.

(** ** Properties *)

(** What a sender builds, the receiver authenticates: after the trip through
    the wire encoding the responder reads back the initiator's certificate text
    and index (with responder index 0) and the HMAC check against the sender's
    certificate succeeds; the pre-shared key is 32 bytes and does not depend on
    which side derives it. *)
Theorem initiator_message_accepted {crypto : CryptoLib} {proto : ProtoLib} {certlib : CertLib}
    {proto_laws : ProtoLaws} local remote payload idx now :
  bytes_ok (PEM local) → in_u 32 idx →
  ∃ msg wire msg' details,
    BuildInitiatorMessage local payload idx now = Ok msg ∧
    marshal_handshake msg = Ok wire ∧
    ParseHandshakeMessage wire = Ok msg' ∧ ParseDetails msg' = Ok details ∧
    VerifyHMAC msg' local = Ok tt ∧ mNoisePayload msg' = payload ∧
    dCert details = PEM local ∧ dInitiatorIndex details = idx ∧ dResponderIndex details = 0 ∧
    DerivePreSharedKey local remote = DerivePreSharedKey remote local ∧
    length (DerivePreSharedKey local remote) = 32%nat.
Proof.
  intros Hpem Hidx.
  destruct (details_roundtrip (mkHandshakeDetails (PEM local) idx 0 (u64 now))) as (d & Hd1 & Hd2).
  { split_and!; cbn; [done | done | unfold in_u; lia | by apply wrap_in_u]. }
  destruct (handshake_roundtrip (mkHandshakeMessage d payload (message_mac local d payload)))
    as (w & Hw1 & Hw2).
  unfold BuildInitiatorMessage. rewrite Hd1. cbn [go_bind go_wrap].
  do 4 eexists. split; [done |]. split; [exact Hw1 |].
  unfold ParseHandshakeMessage, ParseDetails. rewrite Hw2. split; [done |].
  cbn [mDetails]. rewrite Hd2. split; [done |].
  split; [apply VerifyHMAC_built |]. do 4 (split; [reflexivity |]).
  split; [apply DerivePreSharedKey_comm | apply length_DerivePreSharedKey].
Qed.
