(* ===== verification/HandshakeManager.v ===== *)
(** * The handshake manager: src/handshake_manager.go

    [pendingHandshake] objects are shared by the maps [pending] and [indexMap],
    so they live in a store and the maps hold locations.  The manager runs inside
    a world that also records the datagrams handed to the socket and carries the
    state [X] of the rest of the daemon, which the completion callback updates.
    What the environment supplies during one call (clock readings, randomness,
    results of socket writes) is an [Env]. *)

From S2P Require Import Prelude Bytes Header Net Replay Firewall Messages External Cert NoiseUtil.
From S2P Require Import HostMap Handshake.

(** ** Environment and effects *)

(** One reading per call site of [time.Now()], the bytes of [crypto/rand], the
    entropy of the Noise ephemeral key, and the outcome of each write. *)
Record Env := mkEnv {
  nowVerify : Z;
  nowBuild : Z;
  nowRetry : Z;
  nowTrack : Z;
  randBytes : error + bytes;
  entropy : bytes;
  udpResult : bytes → UDPAddr → option error;
  tunResult : bytes → option error;
}.

Inductive Output : Type :=
| UDPSend (data : bytes) (to : UDPAddr)
| TUNWrite (data : bytes).

Definition maxPendingPackets : nat := 50.
Definition maxHandshakeAttempts : Z := 10.
Definition retryBase : Z := 500 * Millisecond.
Definition retryMax : Z := 30 * Second.

Section HandshakeManager.

Context {crypto : CryptoLib} {noise : NoiseLib} {proto : ProtoLib} {certlib : CertLib}.

(** ** Data *)

Record pendingHandshake := mkPending {
  phState : HandshakeState;
  phLocalIndex : Z;
  phRemoteVpnIP : Addr;
  phRemoteAddr : UDPAddr;
  phPackets : list bytes;
  phAttempts : Z;
  phNextRetry : Z;
  phStage0 : bytes;
}.

Record Manager := mkManager {
  localCert : Certificate;
  localKey : DHKey;
  caPool : list Certificate;
  phs : gmap nat pendingHandshake;
  pending : gmap Addr nat;
  indexMap : gmap Z nat;
}.

Record World (X : Type) := mkWorld {
  mgr : Manager;
  out : list Output;
  rest : X;
}.
Arguments mkWorld {X} _ _ _.
Arguments mgr {X} _.
Arguments out {X} _.
Arguments rest {X} _.

Definition set_tables (s : gmap nat pendingHandshake) (p : gmap Addr nat) (i : gmap Z nat)
    (m : Manager) : Manager :=
  mkManager (localCert m) (localKey m) (caPool m) s p i.

Definition NewHandshakeManager (cert : Certificate) (key : DHKey) (pool : list Certificate) : Manager :=
  mkManager cert key pool ∅ ∅ ∅.

(** ** Helpers *)

Definition randomIndex (e : Env) : go Z := try! b := of_sum (randBytes e) in Ok (le_uint b).

Definition marshalHandshakePacket (msg : HandshakeMessage) (remoteIndex subtype : Z) : go bytes :=
  let hdrBytes := Bytes (mkHeader Version TypeHandshake subtype remoteIndex 0) in
  try! body := go_wrap "handshake: marshal message" (marshal_handshake msg) in
  Ok (hdrBytes ++ body).

Definition buildHandshakePacket (cert : Certificate) (noiseMsg : bytes) (localIndex subtype now : Z)
    : go bytes :=
  try! outerMsg := BuildInitiatorMessage cert noiseMsg localIndex now in
  marshalHandshakePacket outerMsg 0 subtype.

Definition ciphersFromStates (cs : option (CipherState * CipherState)) (isInitiator : bool)
    : go (AEAD * AEAD) :=
  try! c1 := CipherFromState (fst <$> cs) in
  try! c2 := CipherFromState (snd <$> cs) in
  if isInitiator then Ok (c1, c2) else Ok (c2, c1).

(** [1<<min(ph.attempts, 6)] *)
Definition retryDelay (attempts : Z) : Z :=
  let delay := retryBase * Z.shiftl 1 (Z.min attempts 6) in
  if retryMax <? delay then retryMax else delay.

Definition set_retry (attempts next : Z) (p : pendingHandshake) : pendingHandshake :=
  mkPending (phState p) (phLocalIndex p) (phRemoteVpnIP p) (phRemoteAddr p) (phPackets p)
    attempts next (phStage0 p).

Definition set_packets (l : list bytes) (p : pendingHandshake) : pendingHandshake :=
  mkPending (phState p) (phLocalIndex p) (phRemoteVpnIP p) (phRemoteAddr p) l
    (phAttempts p) (phNextRetry p) (phStage0 p).

Definition fresh_ploc (s : gmap nat pendingHandshake) : nat := fresh (dom s : gset nat).

Section World.

Context {X : Type}.

(** [conn.WriteTo(data, to)] *)
Definition WriteTo (e : Env) (data : bytes) (to : UDPAddr) : M (World X) unit := λ w,
  (mkWorld (mgr w) (out w ++ [UDPSend data to]) (rest w), of_err (udpResult e data to)).

Definition get_mgr : M (World X) Manager := λ w, (w, Ok (mgr w)).
Definition set_mgr (m : Manager) : M (World X) unit := λ w, (mkWorld m (out w) (rest w), Ok tt).

(** [QueuePacket]: at most [maxPendingPackets] copies, dropping the oldest. *)
Definition QueuePacket (remoteVpnIP : Addr) (pkt : bytes) : M (World X) unit :=
  let! m := get_mgr in
  match pending m !! remoteVpnIP with
  | None => gret tt
  | Some l =>
      match phs m !! l with
      | None => gpanic
      | Some ph =>
          let q := if decide (maxPendingPackets ≤ length (phPackets ph))%nat
                   then drop 1 (phPackets ph) else phPackets ph in
          set_mgr (set_tables (<[l := set_packets (q ++ [pkt]) ph]> (phs m)) (pending m) (indexMap m) m)
      end
  end.

(** ** StartHandshake *)

Definition StartHandshake (e : Env) (remoteVpnIP : Addr) (addr : UDPAddr) (remoteCert : Certificate)
    : M (World X) unit :=
  let! m := get_mgr in
  match pending m !! remoteVpnIP with
  | Some _ => gret tt
  | None =>
      let! localIndex := glift (go_wrap "handshake: random index" (randomIndex e)) in
      let psk := DerivePreSharedKey (localCert m) remoteCert in
      let! hs := glift (go_wrap "handshake: initiator state"
                   (NewInitiatorState (localKey m) (X25519PublicKey remoteCert) psk)) in
      let '(hs, res) := WriteMessage (entropy e) [] hs in
      let! (noiseMsg, _) := glift (go_wrap "handshake: write stage-0" res) in
      let! wireBytes := glift (buildHandshakePacket (localCert m) noiseMsg localIndex
                          HandshakeInitiation (nowBuild e)) in
      let ph := {| phState := hs; phLocalIndex := localIndex; phRemoteVpnIP := remoteVpnIP;
                   phRemoteAddr := addr; phPackets := []; phAttempts := 1;
                   phNextRetry := nowRetry e + retryBase; phStage0 := wireBytes |} in
      let l := fresh_ploc (phs m) in
      do! set_mgr (set_tables (<[l := ph]> (phs m)) (<[remoteVpnIP := l]> (pending m))
                    (<[localIndex := l]> (indexMap m)) m) in
      WriteTo e wireBytes addr
  end.

(** ** Inbound handshake packets *)

Context (onComplete : HostInfo → list bytes → M (World X) unit).

(** Parsing and authentication of the outer envelope, common to both stages. *)
Definition authenticate (e : Env) (m : Manager) (parseMsg : string) (body : bytes)
    : go (HandshakeMessage * HandshakeDetails * Certificate) :=
  try! msg := ParseHandshakeMessage body in
  try! details := ParseDetails msg in
  try! cert := go_wrap parseMsg (Parse_cert (dCert details)) in
  try! _ := go_wrap "handshake: cert verify" (Verify cert (caPool m) (nowVerify e)) in
  try! _ := VerifyHMAC msg cert in
  Ok (msg, details, cert).

Definition HandleStage0 (e : Env) (pkt : bytes) (from : UDPAddr) : M (World X) unit :=
  let! m := get_mgr in
  if decide (length pkt < HeaderLen)%nat then gfail (Errorf "handshake: stage0 packet too short")
  else
    let! _ := glift (go_wrap "handshake: parse header" (Parse pkt)) in
    let! (msg, details, senderCert) :=
      glift (authenticate e m "handshake: parse sender cert" (drop HeaderLen pkt)) in
    let psk := DerivePreSharedKey (localCert m) senderCert in
    let! respHS := glift (NewResponderState (localKey m) psk) in
    let '(respHS, res) := ReadMessage (mNoisePayload msg) respHS in
    let! _ := glift (go_wrap "handshake: noise read stage-0" res) in
    let! localIndex := glift (randomIndex e) in
    let '(respHS, res) := WriteMessage (entropy e) [] respHS in
    let! (noiseReply, cs) := glift (go_wrap "handshake: noise write stage-1" res) in
    let! respMsg := glift (BuildResponderMessage (localCert m) noiseReply
                      (dInitiatorIndex details) localIndex (nowBuild e)) in
    let! respBytes := glift (marshalHandshakePacket respMsg (dInitiatorIndex details) HandshakeResponse) in
    do! gwrap "handshake: send stage-1" (WriteTo e respBytes from) in
    let! (sendCipher, recvCipher) := glift (ciphersFromStates cs false) in
    onComplete {| VpnIP := pIP (cVpnIP senderCert); Remote := from; Index := localIndex;
                  RemoteIndex := dInitiatorIndex details; SendCipher := sendCipher;
                  RecvCipher := recvCipher; Counter := 0; hCert := Some senderCert;
                  hWindow := newWindow |} [].

(** The Noise state of the pending object is advanced in place by [ReadMessage];
    at that point no map refers to the object any more. *)
Definition HandleStage1 (e : Env) (pkt : bytes) : M (World X) unit :=
  if decide (length pkt < HeaderLen)%nat then gfail (Errorf "handshake: stage1 packet too short")
  else
    let! h := glift (go_wrap "handshake: parse header" (Parse pkt)) in
    let! m := get_mgr in
    match indexMap m !! hRemoteIndex h with
    | None => gfail (Errorf "handshake: unknown RemoteIndex")
    | Some l =>
        match phs m !! l with
        | None => gpanic
        | Some ph =>
            do! set_mgr (set_tables (phs m) (delete (phRemoteVpnIP ph) (pending m))
                          (delete (hRemoteIndex h) (indexMap m)) m) in
            let! (msg, details, responderCert) :=
              glift (authenticate e m "handshake: parse responder cert" (drop HeaderLen pkt)) in
            let '(_, res) := ReadMessage (mNoisePayload msg) (phState ph) in
            let! (_, cs) := glift (go_wrap "handshake: noise read stage-1" res) in
            let! (sendCipher, recvCipher) := glift (ciphersFromStates cs true) in
            onComplete {| VpnIP := phRemoteVpnIP ph; Remote := phRemoteAddr ph;
                          Index := phLocalIndex ph; RemoteIndex := dResponderIndex details;
                          SendCipher := sendCipher; RecvCipher := recvCipher; Counter := 0;
                          hCert := Some responderCert; hWindow := newWindow |} (phPackets ph)
        end
    end.

(** ** Retries *)

(** One entry of [for vpnIP, ph := range m.pending]. *)
Definition retryOne (e : Env) (now : Z) (entry : Addr * nat) : M (World X) unit :=
  let '(vpnIP, l) := entry in
  let! m := get_mgr in
  match phs m !! l with
  | None => gpanic
  | Some ph =>
      if now <? phNextRetry ph then gret tt
      else if maxHandshakeAttempts <=? phAttempts ph then
        set_mgr (set_tables (phs m) (delete vpnIP (pending m)) (delete (phLocalIndex ph) (indexMap m)) m)
      else
        let attempts := phAttempts ph + 1 in
        do! set_mgr (set_tables (<[l := set_retry attempts (now + retryDelay attempts) ph]> (phs m))
                      (pending m) (indexMap m) m) in
        gignore (WriteTo e (phStage0 ph) (phRemoteAddr ph))
  end.

(** [order] is the order, of the entries of [pending], in which the runtime yields the entries. *)
Definition retryPending (e : Env) (order : list (Addr * nat)) (now : Z) : M (World X) unit :=
  gfor order (retryOne e now).

(** The ticks of [Run]; [ord] is the runtime's iteration order of a map. *)
Definition Run (ord : gmap Addr nat → list (Addr * nat)) (ticks : list (Env * Z)) : M (World X) unit :=
  gfor ticks (λ '(e, now), let! m := get_mgr in retryPending e (ord (pending m)) now).

End World.

End HandshakeManager.

Arguments mkWorld {noise X} _ _ _.
Arguments mgr {noise X} _.
Arguments out {noise X} _.
Arguments rest {noise X} _.

(** ** Invariant *)

Section Invariant.

Context {noise : NoiseLib}.

(** Entries of both maps point to live objects that carry the entry's key; an
    object found by its index is still the pending one of its peer; and every
    object respects the limits on attempts and queued packets. *)
Record Manager_ok (m : Manager) : Prop := {
  pending_live ip l : pending m !! ip = Some l →
    ∃ ph, phs m !! l = Some ph ∧ phRemoteVpnIP ph = ip;
  index_live i l : indexMap m !! i = Some l →
    ∃ ph, phs m !! l = Some ph ∧ phLocalIndex ph = i ∧ pending m !! phRemoteVpnIP ph = Some l;
  ph_bounds l ph : phs m !! l = Some ph →
    1 ≤ phAttempts ph ≤ maxHandshakeAttempts ∧ (length (phPackets ph) ≤ maxPendingPackets)%nat;
}.

Lemma fresh_ploc_None (s : gmap nat pendingHandshake) : s !! fresh_ploc s = None.
Proof. unfold fresh_ploc. pose proof (is_fresh (dom s : gset nat)) as H. by apply not_elem_of_dom in H. Qed.

Lemma New_ok cert key pool : Manager_ok (NewHandshakeManager cert key pool).
Proof. by split; cbn; intros ? ? ?%lookup_empty_Some. Qed.

(** Updating an object without changing its keys, within the limits. *)
Lemma Manager_ok_update m l ph ph' :
  Manager_ok m → phs m !! l = Some ph →
  phRemoteVpnIP ph' = phRemoteVpnIP ph → phLocalIndex ph' = phLocalIndex ph →
  1 ≤ phAttempts ph' ≤ maxHandshakeAttempts → (length (phPackets ph') ≤ maxPendingPackets)%nat →
  Manager_ok (set_tables (<[l := ph']> (phs m)) (pending m) (indexMap m) m).
Proof.
  intros [H1 H2 H3] Hl Hip Hidx Ha Hp.
  assert (Hlive : ∀ l0 ph0, phs m !! l0 = Some ph0 → ∃ ph1, <[l := ph']> (phs m) !! l0 = Some ph1 ∧
    phRemoteVpnIP ph1 = phRemoteVpnIP ph0 ∧ phLocalIndex ph1 = phLocalIndex ph0).
  { intros l0 ph0 H0. destruct (decide (l = l0)) as [->|].
    - rewrite lookup_insert_eq. simplify_eq. eauto.
    - rewrite lookup_insert_ne by done. eauto. }
  split; cbn.
  - intros ip l0 H0. destruct (H1 _ _ H0) as (ph0 & Hph0 & <-).
    destruct (Hlive _ _ Hph0) as (ph1 & ? & ? & ?). eauto.
  - intros i l0 H0. destruct (H2 _ _ H0) as (ph0 & Hph0 & <- & Hp0).
    destruct (Hlive _ _ Hph0) as (ph1 & ? & Hip1 & ?). exists ph1. by rewrite Hip1.
  - intros l0 ph0 [[<- <-] | [_ ?]]%lookup_insert_Some; eauto.
Qed.

(** Dropping an object from both maps keeps the invariant. *)
Lemma Manager_ok_delete m l ph :
  Manager_ok m → phs m !! l = Some ph → pending m !! phRemoteVpnIP ph = Some l →
  Manager_ok (set_tables (phs m) (delete (phRemoteVpnIP ph) (pending m))
                (delete (phLocalIndex ph) (indexMap m)) m).
Proof.
  intros [H1 H2 H3] Hl Hpl. split; cbn; [| | done].
  - intros ip' l' [_ ?]%lookup_delete_Some. eauto.
  - intros i' l' [Hne Hi]%lookup_delete_Some. destruct (H2 _ _ Hi) as (ph' & Hl' & Hi' & Hp').
    exists ph'. split_and!; [done | done |]. apply lookup_delete_Some. split; [| done].
    intros Heq. rewrite Heq in Hpl. by simplify_eq.
Qed.

Lemma Manager_ok_add m ph :
  Manager_ok m → pending m !! phRemoteVpnIP ph = None → 1 ≤ phAttempts ph ≤ maxHandshakeAttempts →
  (length (phPackets ph) ≤ maxPendingPackets)%nat →
  let l := fresh_ploc (phs m) in
  Manager_ok (set_tables (<[l := ph]> (phs m)) (<[phRemoteVpnIP ph := l]> (pending m))
    (<[phLocalIndex ph := l]> (indexMap m)) m).
Proof.
  intros [H1 H2 H3] Hnew Ha Hp l.
  assert (Hlive : ∀ l0 ph0, phs m !! l0 = Some ph0 → <[l := ph]> (phs m) !! l0 = Some ph0).
  { intros l0 ph0 H0. rewrite lookup_insert_ne; [done |]. intros <-. unfold l in H0.
    by rewrite fresh_ploc_None in H0. }
  split; cbn.
  - intros ip l0 [[<- <-] | [_ H0]]%lookup_insert_Some; [by rewrite lookup_insert_eq; eauto |].
    destruct (H1 _ _ H0) as (ph0 & ? & ?). eauto.
  - intros i l0 [[<- <-] | [_ H0]]%lookup_insert_Some.
    { exists ph. by rewrite !lookup_insert_eq. }
    destruct (H2 _ _ H0) as (ph0 & ? & ? & Hp0). exists ph0. split_and!; [eauto | done |].
    rewrite lookup_insert_ne; [done |]. congruence.
  - intros l0 ph0 [[<- <-] | [_ ?]]%lookup_insert_Some; eauto.
Qed.

(** ** Retries *)

(** What a tick at [now] does with a pending handshake. *)
Inductive retry_action := Wait | GiveUp | Resend.

Definition retry_action_of (now : Z) (ph : pendingHandshake) : retry_action :=
  if now <? phNextRetry ph then Wait
  else if maxHandshakeAttempts <=? phAttempts ph then GiveUp
  else Resend.

Definition after_resend (now : Z) (ph : pendingHandshake) : pendingHandshake :=
  set_retry (phAttempts ph + 1) (now + retryDelay (phAttempts ph + 1)) ph.

(** The datagrams of one tick. *)
Definition retry_sends (s : gmap nat pendingHandshake) (now : Z) (order : list (Addr * nat)) : list Output :=
  flat_map (λ '(_, l), match s !! l with
    | Some ph => match retry_action_of now ph with
                 | Resend => [UDPSend (phStage0 ph) (phRemoteAddr ph)]
                 | _ => []
                 end
    | None => [] end) order.

Definition retry_mgr (now : Z) (ip : Addr) (l : nat) (m : Manager) : Manager :=
  match phs m !! l with
  | None => m
  | Some ph =>
      match retry_action_of now ph with
      | Wait => m
      | GiveUp => set_tables (phs m) (delete ip (pending m)) (delete (phLocalIndex ph) (indexMap m)) m
      | Resend => set_tables (<[l := after_resend now ph]> (phs m)) (pending m) (indexMap m) m
      end
  end.

Lemma retryOne_eq {X} e now ip l (w : World X) ph :
  phs (mgr w) !! l = Some ph →
  retryOne e now (ip, l) w =
    (mkWorld (retry_mgr now ip l (mgr w)) (out w ++ retry_sends (phs (mgr w)) now [(ip, l)]) (rest w), Ok tt).
Proof.
  intros Hl. unfold retryOne, retry_mgr, retry_sends, get_mgr, set_mgr, WriteTo.
  gsimpl. cbn [flat_map]. rewrite Hl. unfold retry_action_of.
  destruct (now <? phNextRetry ph); [by destruct w; rewrite !app_nil_r |].
  destruct (maxHandshakeAttempts <=? phAttempts ph); [by rewrite !app_nil_r |].
  cbn. by destruct (udpResult _ _ _).
Qed.

Lemma retry_mgr_ok now ip l m :
  Manager_ok m → pending m !! ip = Some l → Manager_ok (retry_mgr now ip l m).
Proof.
  intros Hok Hip. destruct (pending_live _ Hok _ _ Hip) as (ph & Hl & <-).
  unfold retry_mgr. rewrite Hl. unfold retry_action_of.
  destruct (now <? phNextRetry ph); [done |].
  destruct (Z.leb_spec maxHandshakeAttempts (phAttempts ph)); [by eapply Manager_ok_delete |].
  destruct (ph_bounds _ Hok _ _ Hl). eapply Manager_ok_update; try done. cbn. lia.
Qed.

(** The other entries of the map are not affected. *)
Lemma retry_mgr_frame now ip l m :
  Manager_ok m → pending m !! ip = Some l →
  (∀ ip', ip' ≠ ip → pending (retry_mgr now ip l m) !! ip' = pending m !! ip') ∧
  (∀ l', l' ≠ l → phs (retry_mgr now ip l m) !! l' = phs m !! l').
Proof.
  intros Hok Hip. destruct (pending_live _ Hok _ _ Hip) as (ph & Hl & <-).
  unfold retry_mgr. rewrite Hl. destruct (retry_action_of now ph); cbn; split; try done.
  - intros ip' Hne. by rewrite lookup_delete_ne.
  - intros l' Hne. by rewrite lookup_insert_ne.
Qed.

Lemma pending_inj m ip ip' l :
  Manager_ok m → pending m !! ip = Some l → pending m !! ip' = Some l → ip = ip'.
Proof.
  intros Hok H1 H2. destruct (pending_live _ Hok _ _ H1) as (ph1 & Hl1 & <-).
  destruct (pending_live _ Hok _ _ H2) as (ph2 & Hl2 & <-). by simplify_eq.
Qed.

(** What one tick leaves of an entry. *)
Definition retried (now : Z) (m' : Manager) (ip : Addr) (l : nat) (ph : pendingHandshake) : Prop :=
  match retry_action_of now ph with
  | Wait => pending m' !! ip = Some l ∧ phs m' !! l = Some ph
  | GiveUp => pending m' !! ip = None ∧ indexMap m' !! phLocalIndex ph = None
  | Resend => pending m' !! ip = Some l ∧ phs m' !! l = Some (after_resend now ph)
  end.

Record tick_post (now : Z) (order : list (Addr * nat)) (m m' : Manager) : Prop := {
  tick_ok : Manager_ok m';
  tick_pending ip : ip ∉ order.*1 → pending m' !! ip = pending m !! ip;
  tick_phs l : l ∉ order.*2 → phs m' !! l = phs m !! l;
  tick_index : indexMap m' ⊆ indexMap m;
  tick_entry ip l ph : (ip, l) ∈ order → phs m !! l = Some ph → retried now m' ip l ph;
}.

Lemma tick_post_nil now m : Manager_ok m → tick_post now [] m m.
Proof. intros. split; try done. intros ip l ph Hin. by apply elem_of_nil in Hin. Qed.

Lemma tick_post_cons now ip l order m m' :
  Manager_ok m → ip ∉ order.*1 → l ∉ order.*2 → pending m !! ip = Some l →
  tick_post now order (retry_mgr now ip l m) m' → tick_post now ((ip, l) :: order) m m'.
Proof.
  intros Hok Hip Hl Hpl [H1 H2 H3 H4 H5].
  destruct (retry_mgr_frame now ip l m Hok Hpl) as [F1 F2].
  split; cbn; [done | | | |].
  - intros ip' [Hn1 Hn2]%not_elem_of_cons. by rewrite H2, F1.
  - intros l' [Hn1 Hn2]%not_elem_of_cons. by rewrite H3, F2.
  - etrans; [exact H4 |]. unfold retry_mgr.
    destruct (phs m !! l) as [ph|]; [| done]. destruct (retry_action_of now ph); cbn; try done.
    apply delete_subseteq.
  - intros ip' l' ph' [[= -> ->] | Hin]%elem_of_cons Hph'.
    + specialize (H2 ip Hip). specialize (H3 l Hl). unfold retried. revert H2 H3 H4.
      unfold retry_mgr. rewrite Hph'. destruct (retry_action_of now ph'); cbn; intros Hp' Hs' Hsub;
        rewrite Hp', ?Hs'.
      * done.
      * rewrite lookup_delete_eq. split; [done |]. eapply lookup_weaken_None; [| exact Hsub].
        apply lookup_delete_eq.
      * by rewrite lookup_insert_eq.
    + apply H5; [done |]. rewrite F2; [done |]. intros ->. apply Hl, list_elem_of_fmap. by exists (ip', l).
Qed.

Lemma retry_sends_ext s s' now order :
  (∀ l, l ∈ order.*2 → s' !! l = s !! l) → retry_sends s' now order = retry_sends s now order.
Proof.
  induction order as [|[ip l] order IH]; [done |]. cbn. intros H.
  rewrite (H l) by (by left). f_equal. apply IH. intros l' Hl'. apply H. by right.
Qed.

Lemma retryPending_post {X} e now order (w : World X) :
  Manager_ok (mgr w) → NoDup order.*1 →
  (∀ ip l, (ip, l) ∈ order → pending (mgr w) !! ip = Some l) →
  ∃ m', retryPending e order now w =
      (mkWorld m' (out w ++ retry_sends (phs (mgr w)) now order) (rest w), Ok tt) ∧
    tick_post now order (mgr w) m'.
Proof.
  revert w. induction order as [|[ip l] order IH]; intros w Hok Hnd Hall.
  { exists (mgr w). split; [by destruct w; cbn; rewrite app_nil_r | by apply tick_post_nil]. }
  apply NoDup_cons in Hnd as [Hnin Hnd]. cbn in Hnin.
  assert (Hpl : pending (mgr w) !! ip = Some l) by (apply Hall; by left).
  assert (Hnl : l ∉ order.*2).
  { intros ([ip' l'] & -> & Hin)%list_elem_of_fmap. cbn in *. apply Hnin, list_elem_of_fmap.
    exists (ip', l'). split; [| done]. cbn. eapply pending_inj; [exact Hok | done | apply Hall; by right]. }
  destruct (pending_live _ Hok _ _ Hpl) as (ph & Hl & _).
  destruct (retry_mgr_frame now ip l (mgr w) Hok Hpl) as [F1 F2].
  destruct (IH (mkWorld (retry_mgr now ip l (mgr w)) (out w ++ retry_sends (phs (mgr w)) now [(ip, l)]) (rest w)))
    as (m' & Hrun & Hpost); [by apply retry_mgr_ok | done | |].
  { cbn. intros ip' l' Hin. rewrite F1; [apply Hall; by right |]. intros ->.
    apply Hnin, list_elem_of_fmap. by exists (ip, l'). }
  exists m'. split; [| by apply tick_post_cons]. cbn [mgr out rest] in Hrun.
  unfold retryPending in *. cbn [gfor]. rewrite (gbind_ok _ _ _ _ _ (retryOne_eq e now ip l w ph Hl)), Hrun.
  assert (Hext : retry_sends (phs (retry_mgr now ip l (mgr w))) now order = retry_sends (phs (mgr w)) now order).
  { apply retry_sends_ext. intros l' Hl'. apply F2. by intros ->. }
  rewrite Hext, <- app_assoc. cbn. by rewrite app_nil_r.
Qed.

(** The hypotheses of a tick hold for any iteration order of the map. *)
Lemma iteration_order (p : gmap Addr nat) order :
  order ≡ₚ map_to_list p →
  NoDup order.*1 ∧ ∀ ip l, (ip, l) ∈ order ↔ p !! ip = Some l.
Proof.
  intros Hp. split.
  - rewrite Hp. apply NoDup_fst_map_to_list.
  - intros ip l. rewrite Hp. apply elem_of_map_to_list.
Qed.

Lemma retryPending_total {X} e now order (w : World X) :
  Manager_ok (mgr w) → order ≡ₚ map_to_list (pending (mgr w)) →
  ∃ m', retryPending e order now w =
      (mkWorld m' (out w ++ retry_sends (phs (mgr w)) now order) (rest w), Ok tt) ∧
    tick_post now order (mgr w) m'.
Proof.
  intros Hok [Hnd Hin]%iteration_order. apply retryPending_post; [done | done |]. naive_solver.
Qed.

(** ** Queueing *)

Lemma QueuePacket_eq {X} ip pkt (w : World X) l ph :
  pending (mgr w) !! ip = Some l → phs (mgr w) !! l = Some ph →
  (length (phPackets ph) ≤ maxPendingPackets)%nat →
  QueuePacket ip pkt w =
    (mkWorld (set_tables (<[l := set_packets (lastn maxPendingPackets (phPackets ph ++ [pkt])) ph]> (phs (mgr w)))
       (pending (mgr w)) (indexMap (mgr w)) (mgr w)) (out w) (rest w), Ok tt).
Proof.
  intros Hip Hl Hb. unfold QueuePacket, get_mgr, set_mgr. gsimpl. rewrite Hip, Hl.
  do 2 f_equal. f_equal. f_equal. f_equal.
  unfold lastn. rewrite length_app. cbn [length].
  case_decide as Hd.
  - replace (length (phPackets ph)) with maxPendingPackets by lia.
    replace (maxPendingPackets + 1 - maxPendingPackets)%nat with 1%nat by lia.
    rewrite drop_app_le; [done |]. unfold maxPendingPackets in *. lia.
  - by replace (length (phPackets ph) + 1 - maxPendingPackets)%nat with 0%nat by lia.
Qed.

Lemma QueuePacket_none {X} ip pkt (w : World X) :
  pending (mgr w) !! ip = None → QueuePacket ip pkt w = (w, Ok tt).
Proof. intros H. unfold QueuePacket, get_mgr. gsimpl. by rewrite H. Qed.

Lemma QueuePacket_ok {X} ip pkt (w : World X) :
  Manager_ok (mgr w) → Manager_ok (mgr (QueuePacket ip pkt w).1) ∧ (QueuePacket ip pkt w).2 = Ok tt.
Proof.
  intros Hok. destruct (pending (mgr w) !! ip) as [l|] eqn:Hip; [| by rewrite QueuePacket_none].
  destruct (pending_live _ Hok _ _ Hip) as (ph & Hl & _). destruct (ph_bounds _ Hok _ _ Hl) as [Ha Hb].
  rewrite (QueuePacket_eq _ _ _ l ph) by done. split; [| done]. cbn [mgr fst].
  eapply Manager_ok_update; try done. cbn. rewrite length_lastn. lia.
Qed.

End Invariant.

(** ** The completion callback *)

(** What the manager relies on from its [onComplete]: it leaves the manager's
    tables alone, and for a session with an empty replay window, over a daemon
    state with the invariant [J], it returns and keeps [J]. *)
Class CompletionHandler {crypto : CryptoLib} {noise : NoiseLib} {X : Type} (J : X → Prop)
    (onComplete : HostInfo → list bytes → M (World X) unit) : Prop := {
  completion_mgr h ps w : mgr (onComplete h ps w).1 = mgr w;
  completion_ok h ps w : hWindow h = newWindow → J (rest w) →
    J (rest (onComplete h ps w).1) ∧ (onComplete h ps w).2 = Ok tt;
}.

Section Operations.

Context {crypto : CryptoLib} {noise : NoiseLib} {proto : ProtoLib} {certlib : CertLib}.
Context {X : Type} (J : X → Prop) (onComplete : HostInfo → list bytes → M (World X) unit).
Context {handler : CompletionHandler J onComplete}.

Definition World_ok (w : World X) : Prop := Manager_ok (mgr w) ∧ J (rest w).

Lemma WriteTo_ok e data to : keeps World_ok (WriteTo e data to).
Proof. by intros w. Qed.

Lemma get_mgr_ok : keeps World_ok get_mgr.
Proof. by intros w. Qed.

Lemma onComplete_ok h ps : hWindow h = newWindow → keeps World_ok (onComplete h ps).
Proof.
  intros Hwin w [H1 H2]. split; [by rewrite completion_mgr | by apply (completion_ok h ps w Hwin H2)].
Qed.

Hint Resolve WriteTo_ok get_mgr_ok onComplete_ok : neth.

Lemma StartHandshake_ok e ip addr cert : keeps World_ok (StartHandshake e ip addr cert).
Proof.
  intros w Hw. unfold StartHandshake, get_mgr, set_mgr, WriteTo. gsimpl.
  destruct (pending (mgr w) !! ip) eqn:Hip; [done |].
  repeat (step_match; try done). cbn. destruct Hw as [Hm HJ]. split; [| done]. cbn.
  apply (Manager_ok_add (mgr w) (mkPending _ _ _ _ _ _ _ _)); cbn; try done; unfold maxHandshakeAttempts; lia.
Qed.

Lemma HandleStage0_ok e pkt from : keeps World_ok (HandleStage0 onComplete e pkt from).
Proof.
  unfold HandleStage0. apply keeps_bind; [auto with neth |]. intros m.
  case_decide; [auto with neth |]. repeat (apply keeps_bind; [auto with neth | intros []]).
  repeat first [step_match | apply keeps_bind; [by auto with neth | intros ?] | by auto with neth].
Qed.

Lemma HandleStage1_ok e pkt : keeps World_ok (HandleStage1 onComplete e pkt).
Proof.
  unfold HandleStage1. case_decide; [auto with neth |]. apply keeps_bind; [auto with neth |]. intros h.
  intros w Hw. rewrite (gbind_ok _ _ _ _ _ (eq_refl : get_mgr w = (w, Ok (mgr w)))).
  destruct (indexMap (mgr w) !! hRemoteIndex h) as [l|] eqn:Hi; [| done].
  destruct Hw as [Hm HJ]. destruct (index_live _ Hm _ _ Hi) as (ph & Hl & <- & Hpl). rewrite Hl.
  erewrite gbind_ok by reflexivity. cbv beta.
  apply (Manager_ok_delete _ l ph) in Hm; [| done | done].
  set (w1 := mkWorld _ _ _). assert (World_ok w1) as Hw1 by done. clearbody w1. revert w1 Hw1.
  match goal with |- ∀ w1, _ → World_ok (fst (?c w1)) => change (keeps World_ok c) end.
  repeat first [step_match | apply keeps_bind; [by auto with neth | intros ?] | by auto with neth].
Qed.

Lemma QueuePacket_World_ok ip pkt : keeps World_ok (QueuePacket ip pkt).
Proof.
  intros w [Hok HJ]. split; [by apply QueuePacket_ok |].
  destruct (pending (mgr w) !! ip) as [l|] eqn:Hip; [| by rewrite QueuePacket_none].
  destruct (pending_live _ Hok _ _ Hip) as (ph & Hl & _).
  destruct (ph_bounds _ Hok _ _ Hl) as [_ Hb]. by rewrite (QueuePacket_eq _ _ _ l ph).
Qed.

(** ** The manager as a state machine *)

(** Calls into the manager in any order, interleaved with anything the rest of
    the daemon does that keeps its own invariant. *)
Inductive mgr_step : World X → World X → Prop :=
| step_start w e ip addr cert : mgr_step w (StartHandshake e ip addr cert w).1
| step_queue w ip pkt : mgr_step w (QueuePacket ip pkt w).1
| step_stage0 w e pkt from : mgr_step w (HandleStage0 onComplete e pkt from w).1
| step_stage1 w e pkt : mgr_step w (HandleStage1 onComplete e pkt w).1
| step_retry w e order now :
    order ≡ₚ map_to_list (pending (mgr w)) → mgr_step w (retryPending e order now w).1
| step_daemon w out' x' : J x' → mgr_step w (mkWorld (mgr w) out' x').

Lemma mgr_step_ok w w' : mgr_step w w' → World_ok w → World_ok w'.
Proof.
  destruct 1 as [w e ip addr cert | w ip pkt | w e pkt from | w e pkt | w e order now Ho | w out' x' Hx];
    intros Hw.
  - by apply StartHandshake_ok.
  - by apply QueuePacket_World_ok.
  - by apply HandleStage0_ok.
  - by apply HandleStage1_ok.
  - destruct (retryPending_total e now order w (proj1 Hw) Ho) as (m' & -> & Hpost).
    split; [apply Hpost | apply Hw].
  - split; [apply Hw | done].
Qed.

Lemma mgr_reachable_ok w w' : World_ok w → rtc mgr_step w w' → World_ok w'.
Proof. intros Hw H. induction H as [|w1 w2 w3 Hs _ IH]; [done |]. by apply IH, (mgr_step_ok w1). Qed.

End Operations.

(** ** Properties *)

(** C19. Whatever sequence of outbound handshakes, queued packets, inbound
    handshake packets and retry ticks a fresh manager goes through, its two maps
    stay consistent (an entry found by index is the pending one of its peer), no
    handshake exceeds 10 attempts, no queue exceeds 50 packets, and neither
    queueing nor a retry tick, in any iteration order, meets a nil object. *)
Theorem Manager_reachable {crypto : CryptoLib} {noise : NoiseLib} {proto : ProtoLib} {certlib : CertLib}
    {X : Type} (J : X → Prop) onComplete {handler : CompletionHandler J onComplete}
    cert key pool o x w :
  J x → rtc (mgr_step J onComplete) (mkWorld (NewHandshakeManager cert key pool) o x) w →
  Manager_ok (mgr w) ∧ J (rest w) ∧
  (∀ ip pkt, (QueuePacket ip pkt w).2 = Ok tt) ∧
  (∀ e order now, order ≡ₚ map_to_list (pending (mgr w)) → (retryPending e order now w).2 = Ok tt).
Proof.
  intros Hx H. apply mgr_reachable_ok in H as [Hm HJ]; [| done | split; [apply New_ok | done]].
  split_and!; [done | done | |].
  - intros ip pkt. by apply QueuePacket_ok.
  - intros e order now Ho. by destruct (retryPending_total e now order w Hm Ho) as (m' & -> & _).
Qed.

(** Queueing a list of packets, in order. *)
Definition QueueAll {noise : NoiseLib} {X} (ip : Addr) (pkts : list bytes) : M (World X) unit :=
  gfor pkts (QueuePacket ip).

Lemma QueueAll_eq {noise : NoiseLib} {X} ip pkts : ∀ (w : World X) l ph,
  pending (mgr w) !! ip = Some l → phs (mgr w) !! l = Some ph →
  (length (phPackets ph) ≤ maxPendingPackets)%nat →
  QueueAll ip pkts w =
    (mkWorld (set_tables (<[l := set_packets (lastn maxPendingPackets (phPackets ph ++ pkts)) ph]> (phs (mgr w)))
       (pending (mgr w)) (indexMap (mgr w)) (mgr w)) (out w) (rest w), Ok tt).
Proof.
  unfold QueueAll. induction pkts as [|pkt pkts IH]; intros w l ph Hip Hl Hb; cbn [gfor].
  - rewrite app_nil_r, lastn_small by done.
    replace (set_packets (phPackets ph) ph) with ph by (by destruct ph).
    rewrite insert_id by done. by destruct w as [[] ? ?].
  - rewrite (gbind_ok _ _ _ _ _ (QueuePacket_eq ip pkt w l ph Hip Hl Hb)).
    erewrite IH; cbn; [| done | by rewrite lookup_insert_eq | cbn; rewrite length_lastn; lia].
    unfold set_tables, set_packets. cbn. rewrite insert_insert_eq. do 6 f_equal.
    change (pkt :: pkts) with ([pkt] ++ pkts). rewrite app_assoc. apply lastn_app.
Qed.

(** C30. Packets queued for a peer with a handshake in progress are kept in
    order, and of more than 50 exactly the 50 most recent are kept; nothing else
    of the manager changes.  Without a handshake in progress they are dropped. *)
Theorem QueueAll_spec {noise : NoiseLib} {X} ip pkts (w : World X) :
  Manager_ok (mgr w) →
  (pending (mgr w) !! ip = None → QueueAll ip pkts w = (w, Ok tt)) ∧
  (∀ l ph, pending (mgr w) !! ip = Some l → phs (mgr w) !! l = Some ph →
     ∃ m', QueueAll ip pkts w = (mkWorld m' (out w) (rest w), Ok tt) ∧
       pending m' = pending (mgr w) ∧ indexMap m' = indexMap (mgr w) ∧
       phs m' !! l = Some (set_packets (lastn maxPendingPackets (phPackets ph ++ pkts)) ph) ∧
       ∀ l', l' ≠ l → phs m' !! l' = phs (mgr w) !! l').
Proof.
  intros Hok. split.
  - intros Hip. unfold QueueAll. induction pkts as [|pkt pkts IH]; [done |]. cbn [gfor].
    by rewrite (gbind_ok _ _ _ _ _ (QueuePacket_none ip pkt w Hip)).
  - intros l ph Hip Hl. destruct (ph_bounds _ Hok _ _ Hl) as [_ Hb].
    rewrite (QueueAll_eq _ _ _ l ph) by done. eexists. split; [done |]. cbn.
    rewrite lookup_insert_eq. split_and!; try done. intros l' Hne. by rewrite lookup_insert_ne.
Qed.

Section Retries.

Context {noise : NoiseLib} {X : Type}.
Context (ord : gmap Addr nat → list (Addr * nat)) (Hord : ∀ p, ord p ≡ₚ map_to_list p).

(** A ticker: each tick comes at most [g] after the one before. *)
Fixpoint ticking (g t : Z) (ticks : list (Env * Z)) : Prop :=
  match ticks with
  | [] => True
  | (_, now) :: ticks' => t ≤ now ≤ t + g ∧ ticking g now ticks'
  end.

(** The time of the last tick, [t] if there was none. *)
Definition last_time (t : Z) (ticks : list (Env * Z)) : Z := default t (last ticks.*2).

(** The pauses between the transmissions of a handshake message, in nanoseconds,
    after the first one of half a second: doubling, at most thirty seconds. *)
Definition backoff : list Z := map (λ s, s * 1000000000) [2; 4; 8; 16; 30; 30; 30; 30; 30].

(** Instants, the first less than [g] after [t], each other one less than [g] after the
    pause that follows its predecessor, and none before. *)
Fixpoint paced (g t : Z) (pauses instants : list Z) {struct instants} : Prop :=
  match instants with
  | [] => True
  | r :: rs => t ≤ r < t + g ∧ match pauses with [] => rs = [] | d :: ds => paced g (r + d) ds rs end
  end.

(** When the next one is due. *)
Fixpoint next_due (t : Z) (pauses instants : list Z) {struct instants} : Z :=
  match instants, pauses with
  | r :: rs, d :: ds => next_due (r + d) ds rs
  | r :: _, [] => r
  | [], _ => t
  end.

(** What the ticks do to the handshake with [ip], the object at [l]: at the instants
    [rs], and only then, it is acted on; each instant but the one after the last
    pause sends the first message again, that one gives up. *)
Record retries (g t : Z) (pauses : list Z) (ticks : list (Env * Z)) (ip : Addr) (l : nat) (ph : pendingHandshake)
    (rs : list Z) (w w' : World X) : Prop := {
  rt_ticks : rs ⊆ ticks.*2;
  rt_paced : paced g (phNextRetry ph) pauses rs;
  rt_due : length rs = S (length pauses) ∨ last_time t ticks < next_due (phNextRetry ph) pauses rs;
  rt_pending : (length rs ≤ length pauses)%nat → pending (mgr w') !! ip = Some l ∧
    ∃ ph', phs (mgr w') !! l = Some ph' ∧ phAttempts ph' = phAttempts ph + Z.of_nat (length rs) ∧
      phPackets ph' = phPackets ph;
  rt_gone : length rs = S (length pauses) →
    pending (mgr w') !! ip = None ∧ indexMap (mgr w') !! phLocalIndex ph = None;
  rt_sent : pending (mgr w) = {[ip := l]} →
    out w' = out w ++ replicate (length pauses `min` length rs) (UDPSend (phStage0 ph) (phRemoteAddr ph));
}.

Lemma Run_cons e now ticks (w : World X) :
  Manager_ok (mgr w) →
  ∃ m', Run ord ((e, now) :: ticks) w =
      Run ord ticks (mkWorld m' (out w ++ retry_sends (phs (mgr w)) now (ord (pending (mgr w)))) (rest w)) ∧
    tick_post now (ord (pending (mgr w))) (mgr w) m'.
Proof.
  intros Hok. destruct (retryPending_total e now (ord (pending (mgr w))) w Hok (Hord _)) as (m' & Hrun & Hpost).
  exists m'. split; [| done]. unfold Run. cbn [gfor].
  erewrite gbind_ok; [reflexivity | exact Hrun].
Qed.

(** After it is gone. *)
Lemma Run_gone ticks : ∀ ip i (w : World X),
  Manager_ok (mgr w) → pending (mgr w) !! ip = None → indexMap (mgr w) !! i = None →
  ∃ w', Run ord ticks w = (w', Ok tt) ∧ rest w' = rest w ∧
    pending (mgr w') !! ip = None ∧ indexMap (mgr w') !! i = None ∧ (pending (mgr w) = ∅ → out w' = out w).
Proof.
  induction ticks as [|[e now] ticks IH]; intros ip i w Hok Hp Hi; [by exists w |].
  destruct (Run_cons e now ticks w Hok) as (m' & -> & Hpost).
  destruct (iteration_order _ _ (Hord (pending (mgr w)))) as [_ Hin].
  assert (Hkeep : ∀ ip, pending (mgr w) !! ip = None → pending m' !! ip = None).
  { intros ip' Hn. rewrite (tick_pending _ _ _ _ Hpost); [done |].
    intros ([ip1 l1] & -> & H1)%list_elem_of_fmap. apply Hin in H1. cbn in *. congruence. }
  destruct (IH ip i (mkWorld m' (out w ++ retry_sends (phs (mgr w)) now (ord (pending (mgr w)))) (rest w)))
    as (w' & Hrun & Hrest & H1 & H2 & H3); cbn; [apply Hpost | by apply Hkeep | |].
  { eapply lookup_weaken_None; [exact Hi | apply Hpost]. }
  exists w'. split_and!; try done. intros He. rewrite H3 by (cbn; apply map_empty; intros; by apply Hkeep; rewrite He).
  assert (ord (pending (mgr w)) = []) as ->; [| by rewrite app_nil_r].
  apply Permutation_nil_r. by rewrite Hord, He, map_to_list_empty.
Qed.

(** The only handshake stays the only one. *)
Lemma tick_lone now m m' ip l o :
  pending m = {[ip := l]} → tick_post now (ord (pending m)) m m' → pending m' !! ip = o →
  pending m' = from_option (λ l, {[ip := l]}) ∅ o.
Proof.
  intros Hp Hpost Ho. destruct (iteration_order _ _ (Hord (pending m))) as [_ Hin].
  apply map_eq. intros ip'. destruct (decide (ip' = ip)) as [->|Hne].
  - rewrite Ho. destruct o; cbn; by rewrite ?lookup_singleton_eq, ?lookup_empty.
  - rewrite (tick_pending _ _ _ _ Hpost).
    + rewrite Hp, lookup_singleton_ne by done. destruct o; cbn; by rewrite ?lookup_singleton_ne, ?lookup_empty.
    + intros ([ip1 l1] & -> & H1)%list_elem_of_fmap. apply Hin in H1. rewrite Hp in H1. apply lookup_singleton_Some in H1 as [-> _]. done.
Qed.

Lemma lone_order m ip l : pending m = {[ip := l]} → ord (pending m) = [(ip, l)].
Proof. intros Hp. apply Permutation_singleton_r. by rewrite Hord, Hp, map_to_list_singleton. Qed.

(** The pauses left after [a] transmissions. *)
Definition pauses_after (a : Z) : list Z := drop (Z.to_nat (a - 1)) backoff.

Lemma pauses_next a : 1 ≤ a < maxHandshakeAttempts →
  pauses_after a = retryDelay (a + 1) :: pauses_after (a + 1) ∧ 0 < retryDelay (a + 1).
Proof.
  unfold maxHandshakeAttempts. intros Ha.
  assert (Hc : a = 1 ∨ a = 2 ∨ a = 3 ∨ a = 4 ∨ a = 5 ∨ a = 6 ∨ a = 7 ∨ a = 8 ∨ a = 9) by lia.
  destruct Hc as [->|[->|[->|[->|[->|[->|[->|[->| ->]]]]]]]]; done.
Qed.

Lemma retry_action_inv now ph :
  match retry_action_of now ph with
  | Wait => now < phNextRetry ph
  | GiveUp => phNextRetry ph ≤ now ∧ maxHandshakeAttempts ≤ phAttempts ph
  | Resend => phNextRetry ph ≤ now ∧ phAttempts ph < maxHandshakeAttempts
  end.
Proof.
  unfold retry_action_of. destruct (Z.ltb_spec now (phNextRetry ph)); [done |].
  by destruct (Z.leb_spec maxHandshakeAttempts (phAttempts ph)).
Qed.

Lemma last_time_cons t e now ticks : last_time t ((e, now) :: ticks) = last_time now ticks.
Proof. unfold last_time. cbn [fmap list_fmap]. rewrite last_cons. by destruct (last _). Qed.

Lemma paced_bound g ds rs t :
  0 ≤ g → Forall (Z.le 0) ds → paced g t ds rs →
  next_due t ds rs ≤ t + foldr Z.add 0 ds + (1 + Z.of_nat (length ds)) * g.
Proof.
  intros Hg Hds. revert rs t. induction Hds as [|d ds Hd Hds IH]; intros [|r rs] t; cbn [paced next_due foldr length].
  - nia.
  - intros [? _]. lia.
  - intros _. assert (0 ≤ foldr Z.add 0 ds) by (clear -Hds; induction Hds; cbn; lia). nia.
  - intros [Hr Hp]. specialize (IH rs (r + d) Hp). nia.
Qed.

Lemma Run_retries g ticks : ∀ t (w : World X) ip l ph,
  Manager_ok (mgr w) → pending (mgr w) !! ip = Some l → phs (mgr w) !! l = Some ph →
  t < phNextRetry ph → ticking g t ticks →
  ∃ rs w', Run ord ticks w = (w', Ok tt) ∧ rest w' = rest w ∧
    retries g t (pauses_after (phAttempts ph)) ticks ip l ph rs w w'.
Proof.
  induction ticks as [|[e now] ticks IH]; intros t w ip l ph Hok Hp Hl Ht Htick.
  { exists [], w. split_and!; [done | done |]. split; [done | done | right; exact Ht | | by intros [=] | intros _; cbn; by rewrite Nat.min_0_r, app_nil_r].
    intros _. split; [done |]. exists ph. split_and!; [done | cbn; lia | done]. }
  destruct Htick as [Hnow Htick]. destruct (ph_bounds _ Hok _ _ Hl) as [Hb _].
  destruct (Run_cons e now ticks w Hok) as (m' & -> & Hpost). set (w1 := mkWorld m' _ _).
  destruct (iteration_order _ _ (Hord (pending (mgr w)))) as [_ Hin].
  pose proof (tick_entry _ _ _ _ Hpost ip l ph (proj2 (Hin _ _) Hp) Hl) as Hr.
  assert (Hsend : pending (mgr w) = {[ip := l]} → out w1 = out w ++ retry_sends (phs (mgr w)) now [(ip, l)]).
  { intros Hlone. cbn. by rewrite (lone_order _ _ _ Hlone). }
  unfold retried in Hr. cbn [retry_sends flat_map] in Hsend. rewrite Hl in Hsend.
  pose proof (retry_action_inv now ph) as Hact. destruct (retry_action_of now ph).
  - (* not due *)
    destruct Hr as [Hp' Hl']. destruct (IH now w1 ip l ph)
      as (rs & w' & Hrun & Hrest & [H1 H2 H3 H4 H5 H6]); [apply Hpost | done .. |].
    exists rs, w'. split_and!; [done | done |]. split; [| done | by rewrite last_time_cons | done | done |].
    + intros r Hr. right. by apply H1.
    + intros Hlone. rewrite H6, (Hsend Hlone); [by rewrite app_nil_r |]. by apply (tick_lone now (mgr w) m' ip l (Some l)).
  - (* the last pause is over *)
    destruct Hr as [Hp' Hi']. destruct (Run_gone ticks ip (phLocalIndex ph) w1)
      as (w' & Hrun & Hrest & H1 & H2 & H3); [apply Hpost | done .. |].
    assert (Hnil : pauses_after (phAttempts ph) = []) by (by replace (phAttempts ph) with 10 by (unfold maxHandshakeAttempts in *; lia)).
    rewrite Hnil. exists [now], w'. split_and!; [done | done |]. split; cbn [length].
    + intros r ->%list_elem_of_singleton. by left.
    + cbn. split; [lia | done].
    + by left.
    + cbn. lia.
    + done.
    + intros Hlone. rewrite H3, (Hsend Hlone); [done |]. by apply (tick_lone now (mgr w) m' ip l None).
  - (* send again *)
    destruct Hr as [Hp' Hl']. destruct (pauses_next (phAttempts ph)) as [Hds Hpos]; [lia |].
    destruct (IH now w1 ip l (after_resend now ph))
      as (rs & w' & Hrun & Hrest & [H1 H2 H3 H4 H5 H6]); [apply Hpost | done | done | cbn; lia | done |].
    cbn [phNextRetry after_resend set_retry phAttempts phPackets phLocalIndex phStage0 phRemoteAddr] in H1, H2, H3, H4, H5, H6.
    rewrite Hds. exists (now :: rs), w'. split_and!; [done | done |]. split; cbn [length].
    + intros r [-> | Hr]%elem_of_cons; [by left | right; by apply H1].
    + cbn [paced]. split; [lia | done].
    + rewrite last_time_cons. cbn [next_due]. destruct H3 as [-> | ?]; [by left | by right].
    + intros Hlen. destruct H4 as (Hp1 & ph' & ? & Ha & ?); [lia |]. split; [done |]. exists ph'. split_and!; [done | rewrite Ha; lia | done].
    + intros [= Hlen]. by apply H5.
    + intros Hlone. rewrite H6, (Hsend Hlone) by (by apply (tick_lone now (mgr w) m' ip l (Some l))).
      cbn [app Nat.min replicate]. by rewrite <- app_assoc.
Qed.

End Retries.

(** C28. Retransmission of an unanswered handshake message, over a ticker whose ticks
    are at most [g] apart (100 ms in [Run]), in any iteration order and beside any other
    handshakes: a handshake that has been sent once is sent again, unchanged and to
    the same address, nine times, the first time when its retry time comes and then
    after 2, 4, 8, 16 and five times 30 seconds, each time less than [g] late and never
    early, and not more; 30 seconds after the last one it is removed from both maps
    and its queue is lost; and this ends no later than 180 s and ten ticks after
    the first retry was due. *)
Theorem Run_gives_up {noise : NoiseLib} {X} ord (Hord : ∀ p, ord p ≡ₚ map_to_list p) g t ticks (w : World X) ip l ph :
  Manager_ok (mgr w) → pending (mgr w) !! ip = Some l → phs (mgr w) !! l = Some ph → phAttempts ph = 1 →
  0 ≤ g → t < phNextRetry ph → ticking g t ticks →
  ∃ rs w', Run ord ticks w = (w', Ok tt) ∧ rest w' = rest w ∧ retries g t backoff ticks ip l ph rs w w' ∧
    (phNextRetry ph + 180000000000 + 10 * g ≤ last_time t ticks → length rs = 10%nat).
Proof.
  intros Hok Hp Hl Ha Hg Ht Htick. destruct (Run_retries ord Hord g ticks t w ip l ph) as (rs & w' & Hrun & Hrest & Hr); try done.
  rewrite Ha in Hr. exists rs, w'. split_and!; try done. intros Hlast.
  destruct (rt_due _ _ _ _ _ _ _ _ _ _ Hr) as [? | Hdue]; [done |].
  pose proof (paced_bound g backoff rs (phNextRetry ph) Hg ltac:(by repeat constructor) (rt_paced _ _ _ _ _ _ _ _ _ _ Hr)) as Hb.
  change (foldr Z.add 0 backoff) with 180000000000 in Hb. change (length backoff) with 9%nat in Hb.
  fold backoff in Hdue. change (pauses_after 1) with backoff in Hdue. lia.
Qed.

(** ** Inbound handshakes *)

Section Inbound.

Context {crypto : CryptoLib} {noise : NoiseLib} {proto : ProtoLib} {certlib : CertLib}.
Context {X : Type} (onComplete : HostInfo → list bytes → M (World X) unit).

(** What passing the outer envelope means. *)
Lemma authenticate_inv e m what body msg details cert :
  authenticate e m what body = Ok (msg, details, cert) →
  ParseHandshakeMessage body = Ok msg ∧ ParseDetails msg = Ok details ∧
  Parse_cert (dCert details) = Ok cert ∧ Verify cert (caPool m) (nowVerify e) = Ok tt ∧
  VerifyHMAC msg cert = Ok tt.
Proof.
  unfold authenticate.
  destruct (ParseHandshakeMessage body) as [msg0| |]; [cbn [go_bind] | done | done].
  destruct (ParseDetails msg0) as [d0| |] eqn:Ed; [cbn [go_bind] | done | done].
  destruct (Parse_cert (dCert d0)) as [c0| |] eqn:Ec; [cbn [go_bind go_wrap] | done | done].
  destruct (Verify c0 (caPool m) (nowVerify e)) as [[]| |] eqn:Ev; [cbn [go_bind go_wrap] | done | done].
  destruct (VerifyHMAC msg0 c0) as [[]| |] eqn:Eh; [cbn [go_bind] | done | done].
  intros [= -> -> ->]. done.
Qed.

Lemma authenticate_ok e m what body msg details cert :
  ParseHandshakeMessage body = Ok msg → ParseDetails msg = Ok details →
  Parse_cert (dCert details) = Ok cert → Verify cert (caPool m) (nowVerify e) = Ok tt →
  VerifyHMAC msg cert = Ok tt → authenticate e m what body = Ok (msg, details, cert).
Proof. intros H1 H2 H3 H4 H5. unfold authenticate. by rewrite H1; cbn; rewrite H2; cbn; rewrite H3; cbn; rewrite H4; cbn; rewrite H5. Qed.

Lemma Parse_length buf h : Parse buf = Ok h → (HeaderLen ≤ length buf)%nat.
Proof. unfold Parse. case_decide; [done | lia]. Qed.

Definition after_send (data : bytes) (to : UDPAddr) (w : World X) : World X :=
  mkWorld (mgr w) (out w ++ [UDPSend data to]) (rest w).

(** How stage 0 can end: nothing happened, or the envelope was authentic, the
    Noise message was read, a reply was sent to the source address, and then
    possibly the callback ran on a session that belongs to the certificate. *)
Definition stage0_outcome (e : Env) (pkt : bytes) (from : UDPAddr) (w w' : World X) (r : go unit) : Prop :=
  ∃ h msg details cert hs hs' nres reply,
    Parse pkt = Ok h ∧ ParseHandshakeMessage (drop HeaderLen pkt) = Ok msg ∧
    ParseDetails msg = Ok details ∧ Parse_cert (dCert details) = Ok cert ∧
    Verify cert (caPool (mgr w)) (nowVerify e) = Ok tt ∧ VerifyHMAC msg cert = Ok tt ∧
    NewResponderState (localKey (mgr w)) (DerivePreSharedKey (localCert (mgr w)) cert) = Ok hs ∧
    ReadMessage (mNoisePayload msg) hs = (hs', Ok nres) ∧
    ((w' = after_send reply from w ∧ r ≠ Ok tt) ∨
     ∃ host, onComplete host [] (after_send reply from w) = (w', r) ∧
       VpnIP host = pIP (cVpnIP cert) ∧ Remote host = from ∧
       RemoteIndex host = dInitiatorIndex details ∧ hCert host = Some cert ∧
       Counter host = 0 ∧ hWindow host = newWindow).

Lemma HandleStage0_inv e pkt from w w' r :
  HandleStage0 onComplete e pkt from w = (w', r) →
  (w' = w ∧ r ≠ Ok tt) ∨ stage0_outcome e pkt from w w' r.
Proof.
  unfold HandleStage0. erewrite gbind_ok by reflexivity.
  destruct (decide _); [intros [= <- <-]; by left |].
  destruct (Parse pkt) as [h| |] eqn:Eh; [| intros [= <- <-]; by left ..].
  erewrite gbind_ok by reflexivity.
  destruct (authenticate _ _ _ _) as [[[msg details] cert]| |] eqn:Ea; [| intros [= <- <-]; by left ..].
  erewrite gbind_ok by reflexivity. cbv beta match.
  destruct (NewResponderState _ _) as [hs| |] eqn:En; [| intros [= <- <-]; by left ..].
  erewrite gbind_ok by reflexivity.
  destruct (ReadMessage (mNoisePayload msg) hs) as [hs' [nres| |]] eqn:Er; [| intros [= <- <-]; by left ..].
  erewrite gbind_ok by reflexivity.
  destruct (randomIndex e) as [idx| |]; [| intros [= <- <-]; by left ..].
  erewrite gbind_ok by reflexivity.
  destruct (WriteMessage (entropy e) [] hs') as [hs2 [[reply cs]| |]]; [| intros [= <- <-]; by left ..].
  erewrite gbind_ok by reflexivity. cbv beta match.
  destruct (BuildResponderMessage _ _ _ _ _) as [rmsg| |]; [| intros [= <- <-]; by left ..].
  erewrite gbind_ok by reflexivity.
  destruct (marshalHandshakePacket _ _ _) as [rbytes| |]; [| intros [= <- <-]; by left ..].
  erewrite gbind_ok by reflexivity.
  intros H. right. exists h, msg, details, cert, hs, hs', nres, rbytes.
  destruct (authenticate_inv _ _ _ _ _ _ _ Ea) as (? & ? & ? & ? & ?).
  do 8 (split; [done |]). revert H. unfold gwrap, WriteTo. unfold gbind at 1.
  destruct (udpResult e rbytes from); cbn [of_err go_wrap]; [intros [= <- <-]; by left |].
  destruct (ciphersFromStates cs false) as [[send recv]| |]; [| intros [= <- <-]; by left ..].
  erewrite gbind_ok by reflexivity. cbv beta match. intros H. right.
  eexists. split; [exact H | done].
Qed.

(** The world in which an inbound response is authenticated. *)
Definition unregistered (i : Z) (ph : pendingHandshake) (w : World X) : World X :=
  mkWorld (set_tables (phs (mgr w)) (delete (phRemoteVpnIP ph) (pending (mgr w)))
             (delete i (indexMap (mgr w))) (mgr w)) (out w) (rest w).

Definition stage1_outcome (e : Env) (pkt : bytes) (ph : pendingHandshake) (w w1 w' : World X) (r : go unit) : Prop :=
  (w' = w1 ∧ r ≠ Ok tt) ∨
  ∃ msg details cert hs' nres host,
    ParseHandshakeMessage (drop HeaderLen pkt) = Ok msg ∧
    ParseDetails msg = Ok details ∧ Parse_cert (dCert details) = Ok cert ∧
    Verify cert (caPool (mgr w)) (nowVerify e) = Ok tt ∧ VerifyHMAC msg cert = Ok tt ∧
    ReadMessage (mNoisePayload msg) (phState ph) = (hs', Ok nres) ∧
    onComplete host (phPackets ph) w1 = (w', r) ∧
    VpnIP host = phRemoteVpnIP ph ∧ Remote host = phRemoteAddr ph ∧ Index host = phLocalIndex ph ∧
    RemoteIndex host = dResponderIndex details ∧ hCert host = Some cert ∧
    Counter host = 0 ∧ hWindow host = newWindow.

Lemma HandleStage1_inv e pkt w w' r h l ph :
  Parse pkt = Ok h → indexMap (mgr w) !! hRemoteIndex h = Some l → phs (mgr w) !! l = Some ph →
  HandleStage1 onComplete e pkt w = (w', r) →
  stage1_outcome e pkt ph w (unregistered (hRemoteIndex h) ph w) w' r.
Proof.
  intros Hp Hi Hl. unfold HandleStage1. rewrite decide_False by (apply Parse_length in Hp; lia).
  rewrite Hp. do 2 erewrite gbind_ok by reflexivity. rewrite Hi, Hl. erewrite gbind_ok by reflexivity.
  fold (unregistered (hRemoteIndex h) ph w). unfold stage1_outcome.
  destruct (authenticate _ _ _ _) as [[[msg details] cert]| |] eqn:Ea; [| intros [= <- <-]; by left ..].
  erewrite gbind_ok by reflexivity. cbv beta match.
  destruct (ReadMessage (mNoisePayload msg) (phState ph)) as [hs' [nres| |]] eqn:Er;
    [| intros [= <- <-]; by left ..].
  erewrite gbind_ok by reflexivity. destruct nres as [pl cs]. cbv beta match.
  destruct (ciphersFromStates cs true) as [[send recv]| |]; [| intros [= <- <-]; by left ..].
  erewrite gbind_ok by reflexivity. cbv beta match. intros H. right.
  destruct (authenticate_inv _ _ _ _ _ _ _ Ea) as (? & ? & ? & ? & ?).
  do 6 eexists. do 6 (split; [done |]). split; [exact H | done].
Qed.

End Inbound.

(** C20. Nothing happens for a forged first message: [HandleStage0] either
    returns an error with no effect at all (nothing sent, no session), or the
    packet carries a certificate that parses, verifies against the CA pool and
    keys a valid HMAC over the envelope, and its Noise part was read with the
    pre-shared key of that certificate; the session given to the callback has the
    certificate's VPN address, the packet's source address, the sender's index, a
    zero counter and an empty replay window. *)
Theorem HandleStage0_authenticates {crypto : CryptoLib} {noise : NoiseLib} {proto : ProtoLib}
    {certlib : CertLib} {X : Type} onComplete e pkt from (w : World X) :
  let '(w', r) := HandleStage0 onComplete e pkt from w in
  (w' = w ∧ r ≠ Ok tt) ∨ stage0_outcome onComplete e pkt from w w' r.
Proof.
  destruct (HandleStage0 onComplete e pkt from w) as [w' r] eqn:E. by apply HandleStage0_inv.
Qed.

(** C29. A response consumes its handshake: when a packet names a pending index,
    the handshake is gone from both maps when [HandleStage1] ends, whether or not
    the packet turns out to be authentic (so a forged response cancels it); a
    session is completed only for an authentic one, with the queued packets
    handed to the callback. *)
Theorem HandleStage1_consumes {crypto : CryptoLib} {noise : NoiseLib} {proto : ProtoLib}
    {certlib : CertLib} {X : Type} (J : X → Prop) onComplete {handler : CompletionHandler J onComplete}
    e pkt (w : World X) h l ph :
  Manager_ok (mgr w) → Parse pkt = Ok h →
  indexMap (mgr w) !! hRemoteIndex h = Some l → phs (mgr w) !! l = Some ph →
  let '(w', r) := HandleStage1 onComplete e pkt w in
  pending (mgr w') !! phRemoteVpnIP ph = None ∧ indexMap (mgr w') !! hRemoteIndex h = None ∧
  stage1_outcome onComplete e pkt ph w (unregistered (hRemoteIndex h) ph w) w' r.
Proof.
  intros Hok Hp Hi Hl. destruct (HandleStage1 onComplete e pkt w) as [w' r] eqn:E.
  pose proof (HandleStage1_inv onComplete e pkt w w' r h l ph Hp Hi Hl E) as Hout.
  assert (Hm : mgr w' = mgr (unregistered (hRemoteIndex h) ph w)).
  { destruct Hout as [[-> _] | (? & ? & ? & ? & ? & host & H)]; [done |].
    destruct H as (_ & _ & _ & _ & _ & _ & H & _). 
    pose proof (completion_mgr host (phPackets ph) (unregistered (hRemoteIndex h) ph w)) as Hc.
    by rewrite H in Hc. }
  rewrite Hm. cbn. by rewrite !lookup_delete_eq.
Qed.
