(* ===== verification/Punchy.v ===== *)
(** * Hole punching: src/punchy.go

    The socket is the parameter [writeTo]; the result of a write is discarded. *)

From S2P Require Import Prelude Net.

Record Punchy := mkPunchy { punch : bool; respond : bool }.

Definition NewPunchy (punch respond : bool) : Punchy := mkPunchy punch respond.

Section Punchy.

Context {S : Type} (writeTo : bytes → UDPAddr → M S unit).

(** A zero-length datagram to each address. *)
Definition Punch (p : Punchy) (remotes : list UDPAddr) : M S unit :=
  if punch p then gfor remotes (λ r, gignore (writeTo [] r)) else gret tt.

Definition RespondToPunch (p : Punchy) (from : UDPAddr) : M S unit :=
  if respond p then gignore (writeTo [] from) else gret tt.

End Punchy.
