(* ===== verification/LightHouse.v ===== *)
(** * Peer discovery: src/lighthouse.go

    The registry of physical addresses and the messages that maintain it.  The
    methods run inside a larger state that contains the [LightHouse] (class
    [LightHouseState]); the callback [sendFn] and the socket [writeTo] of the
    hole puncher are parameters, with the class [Sends] stating what the theorems
    rely on: a send only records the datagram. *)

From S2P Require Import Prelude Bytes Header Net GoText Messages External Punchy.

(** ** Data *)

Record LightHouse := mkLightHouse {
  addrStore : gmap Addr (list UDPAddr);
  lighthouses : list Addr;
  amLighthouse : bool;
  myAddrs : list UDPAddr;
  lhPunchy : option Punchy;
}.

Definition set_addrStore (s : gmap Addr (list UDPAddr)) (lh : LightHouse) : LightHouse :=
  mkLightHouse s (lighthouses lh) (amLighthouse lh) (myAddrs lh) (lhPunchy lh).

Definition set_myAddrs (l : list UDPAddr) (lh : LightHouse) : LightHouse :=
  mkLightHouse (addrStore lh) (lighthouses lh) (amLighthouse lh) l (lhPunchy lh).

(** ** Construction and lookups *)

Definition NewLightHouse (am : bool) (lhs : list Addr) (addrs : list UDPAddr) : LightHouse :=
  mkLightHouse ∅ lhs am addrs None.

Definition SetPunchy (p : Punchy) (lh : LightHouse) : LightHouse :=
  mkLightHouse (addrStore lh) (lighthouses lh) (amLighthouse lh) (myAddrs lh) (Some p).

(** Indexing a Go map of slices: nil when absent. *)
Definition stored (lh : LightHouse) (ip : Addr) : list UDPAddr := default [] (addrStore lh !! ip).

Definition AddStaticEntry (vpnIP : Addr) (addr : UDPAddr) (lh : LightHouse) : LightHouse :=
  set_addrStore (<[vpnIP := stored lh vpnIP ++ [addr]]> (addrStore lh)) lh.

Definition GetAddrs (vpnIP : Addr) (lh : LightHouse) : list UDPAddr :=
  match addrStore lh !! vpnIP with Some addrs => addrs | None => [] end.

Definition same_endpoint (a b : UDPAddr) : bool := IP_Equal (uIP a) (uIP b) && (uPort a =? uPort b).

(** Reverse lookup; [order] is the order in which [range] yields the entries. *)
Fixpoint VpnIPByAddr (order : list (Addr * list UDPAddr)) (addr : UDPAddr) : option Addr :=
  match order with
  | [] => None
  | (vpnIP, addrs) :: order' =>
      if existsb (λ a, same_endpoint a addr) addrs then Some vpnIP else VpnIPByAddr order' addr
  end.

(** ** Conversions *)

Definition ipPortToUDPAddr (p : IpPort) : go UDPAddr :=
  match ParseIP (ipIp p) with
  | None => Fail (Errorf "lighthouse: invalid IP")
  | Some ip => Ok {| uIP := ip; uPort := ipPort p; uZone := [] |}
  end.

Definition udpAddrToIpPort (a : UDPAddr) : IpPort :=
  {| ipIp := IP_String (uIP a); ipPort := u32 (uPort a) |}.

Fixpoint ipPortsToUDPAddrs (ports : list IpPort) : list UDPAddr :=
  match ports with
  | [] => []
  | p :: ports' =>
      match ipPortToUDPAddr p with
      | Ok a => a :: ipPortsToUDPAddrs ports'
      | _ => ipPortsToUDPAddrs ports'
      end
  end.

Definition udpAddrsToIpPorts (addrs : list UDPAddr) : list IpPort := map udpAddrToIpPort addrs.

(** ** The state around it *)

Class LightHouseState (S : Type) := {
  the_lh : S → LightHouse;
  with_lh : LightHouse → S → S;
  the_with l s : the_lh (with_lh l s) = l;
  with_the s : with_lh (the_lh s) s = s;
  with_with l l' s : with_lh l (with_lh l' s) = with_lh l s;
}.

Section LightHouse.

Context {proto : ProtoLib} {S : Type} {lhs : LightHouseState S}.
Context (sendFn writeTo : bytes → UDPAddr → M S unit).

Definition get_lh : M S LightHouse := λ s, (s, Ok (the_lh s)).
Definition set_lh (l : LightHouse) : M S unit := λ s, (with_lh l s, Ok tt).

Definition marshalLightHousePacket (msg : LightHouseMessage) : go bytes :=
  try! body := go_wrap "lighthouse: marshal" (marshal_lighthouse msg) in
  Ok (Bytes (mkHeader Version TypeLightHouse 0 0 0) ++ body).

(** An encoding error is dropped. *)
Definition send (msg : LightHouseMessage) (toVpnIP : Addr) : M S unit :=
  let! lh := get_lh in
  match marshalLightHousePacket msg with
  | Ok wire => gfor (stored lh toVpnIP) (λ a, sendFn wire a)
  | Fail _ => gret tt
  | Panic => gpanic
  end.

(** ** Handlers *)

Definition handleQuery (q : HostQuery) (replyTo : Addr) : M S unit :=
  match ParseAddr (qVpnIp q) with
  | Ok queried =>
      let! lh := get_lh in
      send {| lhBody := Some (LH_QueryReply {| rVpnIp := qVpnIp q;
                rAddrs := udpAddrsToIpPorts (stored lh queried) |}) |} replyTo
  | Fail _ => gret tt
  | Panic => gpanic
  end.

Definition handleQueryReply (r : HostQueryReply) : M S unit :=
  match ParseAddr (rVpnIp r) with
  | Ok vpnIP =>
      let! lh := get_lh in
      set_lh (set_addrStore (<[vpnIP := ipPortsToUDPAddrs (rAddrs r)]> (addrStore lh)) lh)
  | Fail _ => gret tt
  | Panic => gpanic
  end.

Definition handleUpdate (u : HostUpdateNotification) (from : Addr) : M S unit :=
  let! lh := get_lh in
  if negb (amLighthouse lh) then gret tt
  else set_lh (set_addrStore (<[from := ipPortsToUDPAddrs (uAddrs u)]> (addrStore lh)) lh).

Definition handleWhoAmI (from : Addr) : M S unit :=
  let! lh := get_lh in
  let ipPort := match stored lh from with [] => None | a :: _ => Some (udpAddrToIpPort a) end in
  send {| lhBody := Some (LH_WhoAmIReply {| wAddr := ipPort |}) |} from.

Definition handleWhoAmIReply (r : WhoAmIReply) : M S unit :=
  match wAddr r with
  | None => gret tt
  | Some p =>
      match ipPortToUDPAddr p with
      | Ok addr => let! lh := get_lh in set_lh (set_myAddrs (addr :: myAddrs lh) lh)
      | Fail _ => gret tt
      | Panic => gpanic
      end
  end.

Definition handlePunch (p : HostPunchNotification) : M S unit :=
  let! lh := get_lh in
  match lhPunchy lh with
  | None => gret tt
  | Some py => Punch writeTo py (ipPortsToUDPAddrs (pAddrs p))
  end.

(** The [switch] on the getters, in order. *)
Definition HandleMessage (msg : LightHouseMessage) (from : Addr) : M S unit :=
  match GetQuery msg with Some q => handleQuery q from | None =>
  match GetQueryReply msg with Some r => handleQueryReply r | None =>
  match GetUpdate msg with Some u => handleUpdate u from | None =>
  match GetWhoAmI msg with Some _ => handleWhoAmI from | None =>
  match GetWhoAmIReply msg with Some r => handleWhoAmIReply r | None =>
  match GetPunch msg with Some p => handlePunch p | None => gret tt
  end end end end end end.

(** ** Outgoing messages *)

Definition QueryPeer (vpnIP : Addr) : M S unit :=
  let! lh := get_lh in
  gfor (lighthouses lh) (λ lhIP,
    send {| lhBody := Some (LH_Query {| qVpnIp := Addr_String vpnIP |}) |} lhIP).

Definition Advertise : M S unit :=
  let! lh := get_lh in
  gfor (lighthouses lh) (λ lhIP,
    send {| lhBody := Some (LH_Update {| uAddrs := udpAddrsToIpPorts (myAddrs lh) |}) |} lhIP).

(** [Run]: once at the start, then once per tick received. *)
Definition RunLightHouse (ticks : nat) : M S unit :=
  do! Advertise in gfor (seq 0 ticks) (λ _, Advertise).

End LightHouse.

(** ** Sending *)

(** What the lighthouse relies on from its callback and its socket: a send
    records the datagram ([log]), touches nothing of the registry, and its errors
    stay inside. *)
Class Sends {S : Type} {lhs : LightHouseState S} (sendFn writeTo : bytes → UDPAddr → M S unit)
    (log : bytes → UDPAddr → S → S) : Prop := {
  sendFn_log d t s : sendFn d t s = (log d t s, Ok tt);
  writeTo_log d t s : gignore (writeTo d t) s = (log d t s, Ok tt);
  log_lh d t s : the_lh (log d t s) = the_lh s;
  log_with l d t s : log d t (with_lh l s) = with_lh l (log d t s);
}.

Section Facts.

Context {proto : ProtoLib} {proto_laws : ProtoLaws} {S : Type} {lhs : LightHouseState S}.
Context {sendFn writeTo : bytes → UDPAddr → M S unit} {log : bytes → UDPAddr → S → S}.
Context {sends : Sends sendFn writeTo log}.

(** Recording a sequence of datagrams. *)
Definition sent (l : list (bytes * UDPAddr)) (s : S) : S := fold_left (λ s '(d, t), log d t s) l s.

Lemma sent_lh l s : the_lh (sent l s) = the_lh s.
Proof. revert s. induction l as [|[d t] l IH]; intros s; [done |]. cbn. by rewrite IH, log_lh. Qed.

Lemma sent_app l l' s : sent (l ++ l') s = sent l' (sent l s).
Proof. apply fold_left_app. Qed.

Lemma gfor_sendFn d l s : gfor l (λ a, sendFn d a) s = (sent (map (d,.) l) s, Ok tt).
Proof.
  revert s. induction l as [|a l IH]; intros s; [done |]. cbn [gfor].
  rewrite (gbind_ok _ _ _ _ _ (sendFn_log d a s)). apply IH.
Qed.

Lemma gfor_writeTo d l s : gfor l (λ a, gignore (writeTo d a)) s = (sent (map (d,.) l) s, Ok tt).
Proof.
  revert s. induction l as [|a l IH]; intros s; [done |]. cbn [gfor].
  rewrite (gbind_ok _ _ _ _ _ (writeTo_log d a s)). apply IH.
Qed.

Lemma send_ok msg ip s wire :
  marshalLightHousePacket msg = Ok wire →
  send sendFn msg ip s = (sent (map (wire,.) (stored (the_lh s) ip)) s, Ok tt).
Proof. intros H. unfold send. erewrite gbind_ok by reflexivity. rewrite H. apply gfor_sendFn. Qed.

(** Whatever the message, a send goes to stored addresses of the recipient. *)
Lemma send_total msg ip s :
  ∃ l, send sendFn msg ip s = (sent l s, Ok tt) ∧ Forall (λ dt, dt.2 ∈ stored (the_lh s) ip) l.
Proof.
  destruct (marshalLightHousePacket msg) as [wire|err|] eqn:E.
  - exists (map (wire,.) (stored (the_lh s) ip)). split; [by apply send_ok |].
    apply Forall_forall. intros [d t] Hin. apply list_elem_of_fmap in Hin as (a & [= -> ->] & Ha). done.
  - exists []. split; [| done]. unfold send. erewrite gbind_ok by reflexivity. by rewrite E.
  - exfalso. unfold marshalLightHousePacket in E.
    destruct (marshal_lighthouse msg) eqn:Em; try done. by apply marshal_lighthouse_safe in Em.
Qed.

Lemma gfor_send msg ips wire s :
  marshalLightHousePacket msg = Ok wire →
  gfor ips (λ ip, send sendFn msg ip) s =
    (sent (map (wire,.) (concat (map (stored (the_lh s)) ips))) s, Ok tt).
Proof.
  intros H. revert s. induction ips as [|ip ips IH]; intros s; [done |]. cbn [gfor].
  rewrite (gbind_ok _ _ _ _ _ (send_ok msg ip s wire H)), IH, sent_lh. cbn [map concat].
  by rewrite map_app, sent_app.
Qed.

(** Reading back a lighthouse packet. *)
Lemma packet_roundtrip msg :
  LightHouseMessage_ok msg →
  ∃ wire, marshalLightHousePacket msg = Ok wire ∧
    Parse wire = Ok (mkHeader Version TypeLightHouse 0 0 0) ∧
    unmarshal_lighthouse (drop HeaderLen wire) = Ok msg.
Proof.
  intros Hok. unfold marshalLightHousePacket. destruct (lighthouse_roundtrip msg Hok) as (b & -> & Hb).
  cbn [go_wrap go_bind]. eexists. split; [reflexivity |]. split.
  - refine (Parse_Bytes (mkHeader Version TypeLightHouse 0 0 0) b _). by vm_compute.
  - by rewrite drop_app_length' by (by rewrite length_Bytes).
Qed.

End Facts.

(** ** IPv4 endpoints *)

Definition v4_endpoint (a : UDPAddr) : Prop :=
  ∃ p4, To4 (uIP a) = Some p4 ∧ bytes_ok p4 ∧ in_u 32 (uPort a).

(** The form an address takes after a trip: 16 bytes, no zone. *)
Definition mapped (a : UDPAddr) : UDPAddr :=
  mkUDPAddr (v4InV6Prefix ++ default [] (To4 (uIP a))) (uPort a) [].

Lemma To4_length ip p4 : To4 ip = Some p4 → length p4 = 4%nat ∧ ip ≠ [].
Proof.
  unfold To4. destruct (decide _) as [H4|]; [intros [= ->]; split; [done |]; by intros -> |].
  destruct (decide _) as [[H16 _]|]; [| done]. intros [= <-].
  rewrite length_drop, H16. split; [done |]. by intros ->.
Qed.

Lemma mapped_same a : v4_endpoint a → same_endpoint a (mapped a) = true ∧ v4_endpoint (mapped a) ∧
  mapped (mapped a) = mapped a.
Proof.
  intros (p4 & H4 & Hok & Hp). destruct (To4_length _ _ H4) as [Hl _]. unfold mapped. rewrite H4. cbn [default].
  split_and!.
  - unfold same_endpoint. cbn. rewrite Z.eqb_refl, andb_true_r. unfold To4 in H4.
    destruct (decide _) as [|]; [simplify_eq; by apply IP_Equal_mapped |].
    destruct (decide _) as [[H16 Hpre]|]; [| done]. simplify_eq.
    change (0 :: _) with (v4InV6Prefix ++ drop 12 (uIP a)).
    rewrite <- Hpre, take_drop. apply IP_Equal_refl.
  - exists p4. cbn [uIP uPort]. by rewrite To4_mapped.
  - cbn [uIP uPort]. by rewrite To4_mapped.
Qed.

Lemma endpoint_roundtrip a :
  v4_endpoint a → ipPortToUDPAddr (udpAddrToIpPort a) = Ok (mapped a) ∧ IpPort_ok (udpAddrToIpPort a).
Proof.
  intros (p4 & H4 & Hok & Hp). destruct (To4_length _ _ H4) as [Hl Hne]. unfold ipPortToUDPAddr. cbn [ipIp ipPort udpAddrToIpPort].
  rewrite (ParseIP_String_v4 _ p4) by done. rewrite wrap_small by done. split.
  - unfold mapped. by rewrite H4.
  - split; cbn; [| by rewrite wrap_small]. rewrite (IP_String_To4 _ p4) by done. apply string4_ascii.
Qed.

Lemma endpoints_roundtrip l :
  Forall v4_endpoint l →
  ipPortsToUDPAddrs (udpAddrsToIpPorts l) = map mapped l ∧ Forall IpPort_ok (udpAddrsToIpPorts l).
Proof.
  induction 1 as [|a l Ha Hl [IH1 IH2]]; [done |]. destruct (endpoint_roundtrip a Ha) as [H1 H2].
  unfold udpAddrsToIpPorts in *. cbn [map ipPortsToUDPAddrs].
  rewrite H1, IH1. by split; [| apply Forall_cons].
Qed.

Lemma stored_GetAddrs lh ip : stored lh ip = GetAddrs ip lh.
Proof. unfold stored, GetAddrs. by destruct (addrStore lh !! ip). Qed.

(** ** Properties *)

Section Messages.

Context {proto : ProtoLib} {proto_laws : ProtoLaws} {S : Type} {lhs : LightHouseState S}.
Context {sendFn writeTo : bytes → UDPAddr → M S unit} {log : bytes → UDPAddr → S → S}.
Context {sends : Sends sendFn writeTo log}.

(** How a message may change the registry. *)
Definition store_change (msg : LightHouseMessage) (from ip : Addr) (lh : LightHouse) : Prop :=
  (amLighthouse lh = true ∧ ip = from ∧ ∃ u, lhBody msg = Some (LH_Update u)) ∨
  (∃ r, lhBody msg = Some (LH_QueryReply r) ∧ ParseAddr (rVpnIp r) = Ok ip).

Record handled (msg : LightHouseMessage) (from : Addr) (lh lh' : LightHouse)
    (l : list (bytes * UDPAddr)) : Prop := {
  handled_config : lighthouses lh' = lighthouses lh ∧ amLighthouse lh' = amLighthouse lh ∧
                   lhPunchy lh' = lhPunchy lh;
  handled_store ip : addrStore lh' !! ip ≠ addrStore lh !! ip → store_change msg from ip lh;
  handled_sends : Forall (λ '(d, t), t ∈ stored lh from ∨
      d = [] ∧ ∃ py, lhPunchy lh = Some py ∧ punch py = true) l;
}.

(** A message that changes nothing here. *)
Lemma handled_same msg from lh l :
  Forall (λ '(d, t), t ∈ stored lh from ∨ d = [] ∧ ∃ py, lhPunchy lh = Some py ∧ punch py = true) l →
  handled msg from lh lh l.
Proof. intros. by split. Qed.

Lemma handled_insert msg from lh k v :
  store_change msg from k lh → handled msg from lh (set_addrStore (<[k := v]> (addrStore lh)) lh) [].
Proof.
  intros Hc. split; [done | | by constructor]. cbn. intros ip Hne.
  destruct (decide (ip = k)) as [->|]; [done |]. by rewrite lookup_insert_ne in Hne.
Qed.

(** The result of a handler, in the surrounding state. *)
Definition finishes (msg : LightHouseMessage) (from : Addr) (s : S) (x : S * go unit) : Prop :=
  ∃ lh' l, x = (with_lh lh' (sent (log := log) l s), Ok tt) ∧ handled msg from (the_lh s) lh' l.

Lemma finishes_nothing msg from s : finishes msg from s (s, Ok tt).
Proof.
  exists (the_lh s), []. cbn. rewrite with_the. split; [done |]. apply handled_same. by constructor.
Qed.

Lemma finishes_send msg from s reply : finishes msg from s (send sendFn reply from s).
Proof.
  destruct (send_total (log := log) reply from s) as (l & -> & Hl).
  exists (the_lh s), l. rewrite <- (sent_lh (log := log) l s) at 1. rewrite with_the. split; [done |].
  apply handled_same. eapply Forall_impl; [exact Hl |]. intros [d t] H. by left.
Qed.

Lemma finishes_set msg from s lh' :
  handled msg from (the_lh s) lh' [] → finishes msg from s (set_lh lh' s).
Proof. intros H. by exists lh', []. Qed.

Lemma ParseAddr_safe s : ParseAddr s ≠ Panic.
Proof. pose proof (ParseAddr_yields s) as H. by destruct (ParseAddr s). Qed.

Lemma HandleMessage_finishes msg from s : finishes msg from s (HandleMessage sendFn writeTo msg from s).
Proof.
  unfold HandleMessage. destruct msg as [[[q|r|u|w|r|p]|]];
    cbn [GetQuery GetQueryReply GetUpdate GetWhoAmI GetWhoAmIReply GetPunch lhBody].
  - unfold handleQuery. pose proof (ParseAddr_safe (qVpnIp q)).
    destruct (ParseAddr (qVpnIp q)); [| apply finishes_nothing | done].
    erewrite gbind_ok by reflexivity. apply finishes_send.
  - unfold handleQueryReply. pose proof (ParseAddr_safe (rVpnIp r)).
    destruct (ParseAddr (rVpnIp r)) as [ip| |] eqn:E; [| apply finishes_nothing | done].
    erewrite gbind_ok by reflexivity. apply finishes_set, handled_insert. right. eauto.
  - unfold handleUpdate. erewrite gbind_ok by reflexivity.
    destruct (amLighthouse (the_lh s)) eqn:E; cbn [negb]; [| apply finishes_nothing].
    apply finishes_set, handled_insert. left. eauto.
  - unfold handleWhoAmI. erewrite gbind_ok by reflexivity. apply finishes_send.
  - unfold handleWhoAmIReply. destruct (wAddr r) as [a|]; [| apply finishes_nothing].
    unfold ipPortToUDPAddr. destruct (ParseIP (ipIp a)); [| apply finishes_nothing].
    erewrite gbind_ok by reflexivity. apply finishes_set. by split.
  - unfold handlePunch. erewrite gbind_ok by reflexivity.
    destruct (lhPunchy (the_lh s)) as [py|] eqn:E; [| apply finishes_nothing].
    unfold Punch. destruct (punch py) eqn:Ep; [| apply finishes_nothing].
    rewrite gfor_writeTo. exists (the_lh s). eexists.
    split; [erewrite <- (sent_lh (log := log)) at 1; by rewrite with_the |].
    apply handled_same. apply Forall_forall. intros [d t] Hin.
    apply list_elem_of_fmap in Hin as (a & [= -> ->] & _). right. eauto.
  - apply finishes_nothing.
Qed.

(** An advertised address list, as the lighthouse stores it. *)
Lemma HandleMessage_update from ports s :
  amLighthouse (the_lh s) = true →
  HandleMessage sendFn writeTo (mkLightHouseMessage (Some (LH_Update (mkHostUpdateNotification ports)))) from s =
    (with_lh (set_addrStore (<[from := ipPortsToUDPAddrs ports]> (addrStore (the_lh s))) (the_lh s)) s, Ok tt).
Proof.
  intros H. unfold HandleMessage, handleUpdate. cbn [GetQuery GetQueryReply GetUpdate lhBody].
  erewrite gbind_ok by reflexivity. by rewrite H.
Qed.

End Messages.

(** C21. Discovery end to end: the addresses a peer advertises reach, through a
    lighthouse, whoever asks for it.  The peer's update goes to every stored
    address of every lighthouse; the lighthouse that reads it stores the
    addresses; a query it then reads is answered to every stored address of the
    asker; and the asker that reads the answer, from whichever sender, knows the
    peer's addresses: the advertised ones in order, each the same IPv4 endpoint. *)
Theorem discovery {proto : ProtoLib} {proto_laws : ProtoLaws} {S : Type} {lhs : LightHouseState S}
    {sendFn writeTo : bytes → UDPAddr → M S unit} {log : bytes → UDPAddr → S → S}
    {sends : Sends sendFn writeTo log} (sP sL sQ : S) a q :
  let targets lh := concat (map (stored lh) (lighthouses lh)) in
  let sent := sent (log := log) in
  in_u 32 a → Forall v4_endpoint (myAddrs (the_lh sP)) → amLighthouse (the_lh sL) = true →
  ∃ wU wQ wR msgU msgQ msgR sL1 sQ1,
    Advertise sendFn sP = (sent (map (wU,.) (targets (the_lh sP))) sP, Ok tt) ∧
    unmarshal_lighthouse (drop HeaderLen wU) = Ok msgU ∧
    HandleMessage sendFn writeTo msgU (Addr4 a) sL = (sL1, Ok tt) ∧
    QueryPeer sendFn (Addr4 a) sQ = (sent (map (wQ,.) (targets (the_lh sQ))) sQ, Ok tt) ∧
    unmarshal_lighthouse (drop HeaderLen wQ) = Ok msgQ ∧
    HandleMessage sendFn writeTo msgQ q sL1 = (sent (map (wR,.) (GetAddrs q (the_lh sL1))) sL1, Ok tt) ∧
    unmarshal_lighthouse (drop HeaderLen wR) = Ok msgR ∧
    (∀ from, HandleMessage sendFn writeTo msgR from sQ = (sQ1, Ok tt)) ∧
    GetAddrs (Addr4 a) (the_lh sQ1) = map mapped (myAddrs (the_lh sP)) ∧
    Forall2 (λ x y, same_endpoint x y = true) (myAddrs (the_lh sP)) (GetAddrs (Addr4 a) (the_lh sQ1)).
Proof.
  intros targets sent0 Ha HP HL. set (mine := myAddrs (the_lh sP)).
  destruct (endpoints_roundtrip mine HP) as [Hr1 Hok1].
  assert (HP2 : Forall v4_endpoint (map mapped mine)).
  { apply Forall_fmap. eapply Forall_impl; [exact HP |]. intros x Hx. by apply mapped_same. }
  assert (Hmm : map mapped (map mapped mine) = map mapped mine).
  { rewrite map_map. apply map_ext_Forall. eapply Forall_impl; [exact HP |]. intros x Hx. by apply mapped_same. }
  destruct (endpoints_roundtrip _ HP2) as [Hr2 Hok2]. rewrite Hmm in Hr2.
  destruct (packet_roundtrip (mkLightHouseMessage (Some (LH_Update (mkHostUpdateNotification (udpAddrsToIpPorts mine))))))
    as (wU & HwU & _ & HuU); [exact Hok1 |].
  destruct (packet_roundtrip (mkLightHouseMessage (Some (LH_Query (mkHostQuery (string4 a))))))
    as (wQ & HwQ & _ & HuQ); [exact (string4_ascii a) |].
  destruct (packet_roundtrip (mkLightHouseMessage (Some (LH_QueryReply (mkHostQueryReply (string4 a)
    (udpAddrsToIpPorts (map mapped mine))))))) as (wR & HwR & _ & HuR); [by split; [apply string4_ascii |] |].
  exists wU, wQ, wR. do 5 eexists. unfold Advertise, QueryPeer.
  split; [erewrite gbind_ok by reflexivity; by apply gfor_send |]. split; [exact HuU |].
  split; [by apply HandleMessage_update |].
  split; [erewrite gbind_ok by reflexivity; by apply gfor_send |]. split; [exact HuQ |].
  split.
  { unfold HandleMessage, handleQuery. cbn [GetQuery lhBody qVpnIp]. rewrite ParseAddr_string4 by done.
    erewrite gbind_ok by reflexivity. rewrite <- stored_GetAddrs. apply send_ok.
    rewrite the_with. unfold stored at 1. cbn. by rewrite lookup_insert_eq, Hr1. }
  split; [exact HuR |].
  split.
  { intros from. unfold HandleMessage, handleQueryReply. cbn [GetQuery GetQueryReply lhBody rVpnIp rAddrs].
    rewrite ParseAddr_string4 by done. erewrite gbind_ok by reflexivity. reflexivity. }
  rewrite the_with. unfold GetAddrs. cbn. rewrite lookup_insert_eq, Hr2. split; [done |].
  apply Forall2_fmap_r.
  apply Forall_Forall2_diag. eapply Forall_impl; [exact HP |]. intros x Hx. by apply mapped_same.
Qed.

(** What a lighthouse message can do: handling it never panics and changes
    at most one entry of the registry, that of the sender for an update (accepted
    only by a lighthouse) and that of the named peer for a query reply; the
    configuration stays; and every datagram goes to an address stored for the
    sender, except the empty punches of an enabled puncher. *)
Theorem HandleMessage_frame {proto : ProtoLib} {proto_laws : ProtoLaws} {S : Type} {lhs : LightHouseState S}
    {sendFn writeTo : bytes → UDPAddr → M S unit} {log : bytes → UDPAddr → S → S}
    {sends : Sends sendFn writeTo log} msg from (s : S) :
  ∃ lh' l, HandleMessage sendFn writeTo msg from s = (with_lh lh' (sent (log := log) l s), Ok tt) ∧
    handled msg from (the_lh s) lh' l.
Proof. apply HandleMessage_finishes. Qed.

(** The reverse lookup answers from the registry whatever the iteration
    order: it finds nothing exactly when no stored address is the endpoint, and
    what it finds has that endpoint among its addresses. *)
Theorem VpnIPByAddr_spec lh order addr :
  order ≡ₚ map_to_list (addrStore lh) →
  (VpnIPByAddr order addr = None ↔ ∀ ip a, a ∈ GetAddrs ip lh → same_endpoint a addr = false) ∧
  (∀ ip, VpnIPByAddr order addr = Some ip → ∃ a, a ∈ GetAddrs ip lh ∧ same_endpoint a addr = true).
Proof.
  intros Hp.
  assert (Hin : ∀ ip l, (ip, l) ∈ order ↔ addrStore lh !! ip = Some l).
  { intros ip l. rewrite Hp. apply elem_of_map_to_list. }
  assert (Hnone : ∀ o, VpnIPByAddr o addr = None ↔ ∀ ip l a, (ip, l) ∈ o → a ∈ l → same_endpoint a addr = false).
  { intros o. induction o as [|[ip l] o IH]; cbn; [by split; [intros _ ip l a Hx%elem_of_nil |] |].
    destruct (existsb _ l) eqn:E.
    - split; [done |]. intros H. apply existsb_exists in E as (a & Ha & Hs).
      rewrite <- list_elem_of_In in Ha. rewrite (H ip l a) in Hs; [done | by left | done].
    - rewrite IH. split; [| intros H ip' l' a Ho; apply (H ip' l' a); by right].
      intros H ip' l' a [[= -> ->] | Ho]%elem_of_cons Ha; [| by apply (H ip' l' a)].
      apply not_true_is_false. intros Hs. apply not_true_iff_false in E. apply E, existsb_exists.
      exists a. by rewrite <- list_elem_of_In. }
  split.
  - rewrite Hnone. unfold GetAddrs. split.
    + intros H ip a Ha. destruct (addrStore lh !! ip) as [l|] eqn:E; [| by apply elem_of_nil in Ha].
      by apply (H ip l a); [apply Hin |].
    + intros H ip l a Ho Ha. apply (H ip). by apply Hin in Ho as ->.
  - clear Hnone. intros ip. assert (Hsub : ∀ ip l, (ip, l) ∈ order → GetAddrs ip lh = l).
    { intros ip' l Ho. apply Hin in Ho. unfold GetAddrs. by rewrite Ho. }
    clear Hin Hp. induction order as [|[ip0 l0] o IH]; cbn; [done |].
    destruct (existsb _ l0) eqn:E.
    + intros [= <-]. apply existsb_exists in E as (a & Ha & Hs). rewrite <- list_elem_of_In in Ha.
      exists a. by rewrite (Hsub ip0 l0) by (by left).
    + intros H. refine (IH _ H). intros ip' l Ho. apply Hsub. by right.
Qed.
