(* ===== verification/Ipv4.v ===== *)
(** * IPv4 packet accessors: the helpers at the end of src/interface.go

    The four functions that read addresses, protocol and port out of a packet,
    with Go's bounds checks. *)

From S2P Require Import Prelude Bytes Net Firewall.

(** ** Accessors *)

Definition AddrFrom4_at (pkt : bytes) (i : nat) : go Addr :=
  try! a := idx pkt i in
  try! b := idx pkt (i + 1) in
  try! c := idx pkt (i + 2) in
  try! d := idx pkt (i + 3) in
  Ok (AddrFrom4 [a; b; c; d]).

Definition dstIPFromIPv4 (pkt : bytes) : go (option Addr) :=
  if decide (length pkt < 20)%nat then Ok None
  else
    try! b0 := idx pkt 0 in
    if negb (Z.shiftr b0 4 =? 4) then Ok None
    else try! ip := AddrFrom4_at pkt 16 in Ok (Some ip).

Definition srcIPFromIPv4 (pkt : bytes) : go (option Addr) :=
  if decide (length pkt < 20)%nat then Ok None
  else
    try! b0 := idx pkt 0 in
    if negb (Z.shiftr b0 4 =? 4) then Ok None
    else try! ip := AddrFrom4_at pkt 12 in Ok (Some ip).

Definition protoFromIPv4 (pkt : bytes) : go Z :=
  if decide (length pkt < 10)%nat then Ok ProtoAny else idx pkt 9.

(** [binary.BigEndian.Uint16(pkt[i:])] *)
Definition uint16_at (pkt : bytes) (i : nat) : go Z :=
  if decide (i + 2 ≤ length pkt)%nat then Ok (be_uint (slice i (i + 2) pkt)) else Panic.

Definition dstPortFromIPv4 (pkt : bytes) : go Z :=
  if decide (length pkt < 20)%nat then Ok 0
  else
    try! b0 := idx pkt 0 in
    let ihl := (Z.to_nat (Z.land b0 15) * 4)%nat in
    try! p := idx pkt 9 in
    if ((p =? ProtoTCP) || (p =? ProtoUDP)) && bool_decide (ihl + 4 ≤ length pkt)%nat
    then uint16_at pkt (ihl + 2)
    else Ok 0.

(** ** Packets as RFC 791 lays them out *)

(** [b1] holds bytes 1 to 8, [ck] the checksum, [opts] the options. *)
Record ipv4 := mkIpv4 {
  ipIHL : Z; ipB1 : bytes; ipProto : Z; ipCk : bytes; ipSrc : Z; ipDst : Z;
  ipOpts : bytes; ipSport : Z; ipDport : Z; ipPayload : bytes }.

Definition ipv4_ok (p : ipv4) : Prop :=
  5 ≤ ipIHL p ≤ 15 ∧ length (ipB1 p) = 8%nat ∧ length (ipCk p) = 2%nat ∧
  Z.of_nat (length (ipOpts p)) = 4 * (ipIHL p - 5) ∧
  in_u 32 (ipSrc p) ∧ in_u 32 (ipDst p) ∧ in_u 16 (ipDport p).

Definition ipv4_bytes (p : ipv4) : bytes :=
  [64 + ipIHL p] ++ ipB1 p ++ [ipProto p] ++ ipCk p ++ be_bytes 4 (ipSrc p) ++ be_bytes 4 (ipDst p) ++
  ipOpts p ++ be_bytes 2 (ipSport p) ++ be_bytes 2 (ipDport p) ++ ipPayload p.

(** ** Lemmas *)

Lemma idx_in (pkt : bytes) i : (i < length pkt)%nat → ∃ x, idx pkt i = Ok x ∧ pkt !! i = Some x.
Proof.
  intros H. unfold idx. destruct (pkt !! i) as [x|] eqn:E; [eauto |].
  apply lookup_ge_None in E. lia.
Qed.

Lemma AddrFrom4_at_total pkt i : (i + 3 < length pkt)%nat → ∃ a, AddrFrom4_at pkt i = Ok (Addr4 a).
Proof.
  intros H. unfold AddrFrom4_at.
  destruct (idx_in pkt i) as (a & -> & _); [lia |]. destruct (idx_in pkt (i + 1)) as (b & -> & _); [lia |].
  destruct (idx_in pkt (i + 2)) as (c & -> & _); [lia |]. destruct (idx_in pkt (i + 3)) as (d & -> & _); [lia |].
  cbn. eauto.
Qed.

(** Reading the four bytes of an address out of the middle of a packet. *)
Lemma AddrFrom4_at_app pre a post :
  in_u 32 a → AddrFrom4_at (pre ++ be_bytes 4 a ++ post) (length pre) = Ok (Addr4 a).
Proof.
  intros Ha. pose proof (be_uint_be_bytes 4 a Ha) as Hu. pose proof (length_be_bytes 4 a) as Hl.
  destruct (be_bytes 4 a) as [|x [|y [|z [|t [|]]]]]; try discriminate.
  assert (Hk : ∀ k, (pre ++ [x; y; z; t] ++ post) !! (length pre + k)%nat = ([x; y; z; t] ++ post) !! k).
  { intros k. rewrite lookup_app_r by lia. by rewrite Nat.add_sub'. }
  unfold AddrFrom4_at, idx. rewrite !Hk. replace (length pre) with (length pre + 0)%nat by lia. rewrite Hk.
  cbn [lookup list_lookup app go_bind].
  unfold AddrFrom4. by rewrite Hu.
Qed.

Lemma uint16_at_app pre v post :
  in_u 16 v → uint16_at (pre ++ be_bytes 2 v ++ post) (length pre) = Ok v.
Proof.
  intros Hv. unfold uint16_at. rewrite decide_True by (rewrite !length_app, length_be_bytes; lia).
  unfold slice. rewrite drop_app_length. replace (length pre + 2 - length pre)%nat with 2%nat by lia.
  rewrite take_app_length' by by rewrite length_be_bytes. by rewrite be_uint_be_bytes.
Qed.

(** The first byte of a packet, split into version and header length. *)
Lemma first_byte ihl : 5 ≤ ihl ≤ 15 → Z.shiftr (64 + ihl) 4 = 4 ∧ Z.land (64 + ihl) 15 = ihl.
Proof.
  intros H. assert (ihl ∈ seqZ 5 11) as Hin by (apply elem_of_seqZ; lia). clear H.
  revert ihl Hin. apply Forall_forall. vm_compute. repeat constructor.
Qed.

Lemma accessors_safe pkt :
  is_ok (dstIPFromIPv4 pkt) = true ∧ is_ok (srcIPFromIPv4 pkt) = true ∧
  is_ok (protoFromIPv4 pkt) = true ∧ is_ok (dstPortFromIPv4 pkt) = true.
Proof.
  unfold dstIPFromIPv4, srcIPFromIPv4, protoFromIPv4, dstPortFromIPv4. split_and!; case_decide; try done.
  - destruct (idx_in pkt 0) as (b0 & -> & _); [lia |]. cbn [go_bind]. destruct (negb _); [done |].
    by destruct (AddrFrom4_at_total pkt 16) as [a ->]; [lia |].
  - destruct (idx_in pkt 0) as (b0 & -> & _); [lia |]. cbn [go_bind]. destruct (negb _); [done |].
    by destruct (AddrFrom4_at_total pkt 12) as [a ->]; [lia |].
  - by destruct (idx_in pkt 9) as (b & -> & _); [lia |].
  - destruct (idx_in pkt 0) as (b0 & -> & _); [lia |]. destruct (idx_in pkt 9) as (b9 & -> & _); [lia |].
    cbn [go_bind]. case_bool_decide; [| by rewrite andb_false_r].
    destruct (_ && _); [| done]. unfold uint16_at. by rewrite decide_True by lia.
Qed.

Lemma length_ipv4_bytes p : ipv4_ok p → (20 ≤ length (ipv4_bytes p))%nat.
Proof.
  intros (_ & H1 & H2 & _). unfold ipv4_bytes. rewrite !length_app, H1, H2, !length_be_bytes. cbn. lia.
Qed.

(** Bytes 0 and 9, the addresses and the port of a well-formed packet. *)
Lemma ipv4_fields p :
  ipv4_ok p →
  idx (ipv4_bytes p) 0 = Ok (64 + ipIHL p) ∧ idx (ipv4_bytes p) 9 = Ok (ipProto p) ∧
  AddrFrom4_at (ipv4_bytes p) 12 = Ok (Addr4 (ipSrc p)) ∧
  AddrFrom4_at (ipv4_bytes p) 16 = Ok (Addr4 (ipDst p)) ∧
  let ihl := (Z.to_nat (ipIHL p) * 4)%nat in
  (ihl + 4 ≤ length (ipv4_bytes p))%nat ∧ uint16_at (ipv4_bytes p) (ihl + 2) = Ok (ipDport p).
Proof.
  intros (Hi & H1 & H2 & H3 & Hs & Hd & Hp). unfold ipv4_bytes.
  split; [done |]. split.
  { unfold idx. rewrite (lookup_app_r [_]) by (cbn; lia). rewrite lookup_app_r by (rewrite H1; cbn; lia).
    by rewrite H1. }
  set (pre := [64 + ipIHL p] ++ ipB1 p ++ [ipProto p] ++ ipCk p).
  assert (Hl12 : length pre = 12%nat) by (unfold pre; rewrite !length_app, H1, H2; done).
  split.
  { rewrite <- Hl12. etrans; [| by apply (AddrFrom4_at_app pre (ipSrc p))]. f_equal.
    unfold pre. by rewrite <- !app_assoc. }
  split.
  { replace 16%nat with (length (pre ++ be_bytes 4 (ipSrc p))) by (by rewrite length_app, Hl12, length_be_bytes).
    etrans; [| by apply (AddrFrom4_at_app (pre ++ be_bytes 4 (ipSrc p)) (ipDst p))]. f_equal.
    unfold pre. by rewrite <- !app_assoc. }
  set (pre2 := pre ++ be_bytes 4 (ipSrc p) ++ be_bytes 4 (ipDst p) ++ ipOpts p ++ be_bytes 2 (ipSport p)).
  assert (Hl2 : length pre2 = (Z.to_nat (ipIHL p) * 4 + 2)%nat).
  { unfold pre2. rewrite !length_app, Hl12, !length_be_bytes. lia. }
  assert (Hall : [64 + ipIHL p] ++ ipB1 p ++ [ipProto p] ++ ipCk p ++ be_bytes 4 (ipSrc p) ++
    be_bytes 4 (ipDst p) ++ ipOpts p ++ be_bytes 2 (ipSport p) ++ be_bytes 2 (ipDport p) ++ ipPayload p =
    pre2 ++ be_bytes 2 (ipDport p) ++ ipPayload p) by (unfold pre2, pre; by rewrite <- !app_assoc).
  rewrite Hall. split; [rewrite !length_app, Hl2, length_be_bytes; lia |].
  rewrite <- Hl2. by apply uint16_at_app.
Qed.

(** ** Properties *)

(** Reading a packet: none of the accessors panics on any byte string, and
    on a well-formed IPv4 packet, with or without options, they return its source
    and destination address, its protocol, and, for TCP and UDP, its destination
    port (0 otherwise). *)
Theorem ipv4_accessors :
  (∀ pkt, is_ok (dstIPFromIPv4 pkt) = true ∧ is_ok (srcIPFromIPv4 pkt) = true ∧
     is_ok (protoFromIPv4 pkt) = true ∧ is_ok (dstPortFromIPv4 pkt) = true) ∧
  (∀ p, ipv4_ok p →
     dstIPFromIPv4 (ipv4_bytes p) = Ok (Some (Addr4 (ipDst p))) ∧
     srcIPFromIPv4 (ipv4_bytes p) = Ok (Some (Addr4 (ipSrc p))) ∧
     protoFromIPv4 (ipv4_bytes p) = Ok (ipProto p) ∧
     dstPortFromIPv4 (ipv4_bytes p) =
       Ok (if (ipProto p =? ProtoTCP) || (ipProto p =? ProtoUDP) then ipDport p else 0)).
Proof.
  split; [apply accessors_safe |]. intros p Hok.
  pose proof (length_ipv4_bytes p Hok) as Hlen.
  destruct (ipv4_fields p Hok) as (H0 & H9 & Hsrc & Hdst & Hport & Hu).
  destruct (first_byte (ipIHL p)) as [Hv Hi]; [apply Hok |].
  unfold dstIPFromIPv4, srcIPFromIPv4, protoFromIPv4, dstPortFromIPv4.
  rewrite !decide_False by lia. rewrite H0, H9, Hsrc, Hdst. cbn [go_bind]. rewrite Hv, Hi, Hu.
  rewrite (bool_decide_eq_true_2 _ Hport), andb_true_r. change (negb (4 =? 4)) with false. cbn [go_bind].
  by destruct (_ || _).
Qed.

Lemma ipv4_accessors_witness :
  let p := mkIpv4 6 [0; 0; 48; 0; 1; 0; 0; 64] 6 [0; 0] 167772161 167772162 [1; 1; 1; 0] 1234 443 [7; 8] in
  ipv4_ok p ∧ dstPortFromIPv4 (ipv4_bytes p) = Ok 443.
Proof.
  set (p := mkIpv4 _ _ _ _ _ _ _ _ _ _).
  assert (Hok : ipv4_ok p) by (unfold ipv4_ok, in_u; cbn; repeat split; lia).
  split; [exact Hok |]. apply (proj2 ipv4_accessors p Hok).
Defined.
