(* ===== verification/Session.v ===== *)
(** * Two managers completing a handshake

    The whole exchange of src/handshake_manager.go between an initiator and a
    responder: [StartHandshake] on one node, [HandleStage0] on the other,
    [HandleStage1] back on the first, with packets queued in between. *)

From S2P Require Import Prelude Bytes Header Net Replay Firewall Messages External Cert NoiseUtil.
From S2P Require Import HostMap Handshake HandshakeManager.

(** The sessions of the two ends fit together: what one seals the other opens,
    and each addresses packets to the other's index. *)
Definition paired {crypto : CryptoLib} (a b : HostInfo) : Prop :=
  SendCipher a = RecvCipher b ∧ RecvCipher a = SendCipher b ∧
  RemoteIndex a = Index b ∧ RemoteIndex b = Index a.

(** Nothing was sent or received yet. *)
Definition new_session {crypto : CryptoLib} (h : HostInfo) : Prop := Counter h = 0 ∧ hWindow h = newWindow.

(** A certificate as the daemon loads it: it survives its own PEM text. *)
Definition cert_ok {certlib : CertLib} (c : Certificate) : Prop :=
  Parse_cert (PEM c) = Ok c ∧ bytes_ok (PEM c).

Section Exchange.

Context {crypto : CryptoLib} {noise : NoiseLib} {proto : ProtoLib} {certlib : CertLib}.
Context {crypto_laws : CryptoLaws} {noise_laws : NoiseLaws} {proto_laws : ProtoLaws}.
Context {XA XB : Type}.
Context (onA : HostInfo → list bytes → M (World XA) unit).
Context (onB : HostInfo → list bytes → M (World XB) unit).

(** The random index a call draws. *)
Definition draws_index (e : Env) (i : Z) : Prop :=
  ∃ b, randBytes e = inr b ∧ bytes_ok b ∧ length b = 4%nat ∧ le_uint b = i.

Lemma draws_index_spec e i : draws_index e i → randomIndex e = Ok i ∧ in_u 32 i.
Proof.
  intros (b & Hb & Hok & Hl & <-). unfold randomIndex. rewrite Hb. split; [done |].
  pose proof (le_uint_bound b Hok) as H. by rewrite Hl in H.
Qed.

(** The two nodes trust each other's certificates and the initiator knows the
    responder's. *)
Record trust (mA mB : Manager) (certA certB : Certificate) (eB e1 : Env) : Prop := {
  trust_certA : localCert mA = certA;
  trust_certB : localCert mB = certB;
  trust_keyA : is_keypair (localKey mA);
  trust_keyB : is_keypair (localKey mB);
  trust_pubB : X25519PublicKey certB = Public (localKey mB);
  trust_okA : cert_ok certA;
  trust_okB : cert_ok certB;
  trust_verifyA : Verify certA (caPool mB) (nowVerify eB) = Ok tt;
  trust_verifyB : Verify certB (caPool mA) (nowVerify e1) = Ok tt;
}.

(** ** Steps of the exchange *)

(** A handshake packet of either stage reads back as it was built. *)
Lemma handshake_packet_read e m what cert msg details i sub pkt :
  marshalHandshakePacket msg i sub = Ok pkt → in_u 32 i → in_u 8 sub →
  ParseDetails msg = Ok details → dCert details = PEM cert → cert_ok cert →
  Verify cert (caPool m) (nowVerify e) = Ok tt → VerifyHMAC msg cert = Ok tt →
  Parse pkt = Ok (mkHeader Version TypeHandshake sub i 0) ∧
  authenticate e m what (drop HeaderLen pkt) = Ok (msg, details, cert).
Proof.
  intros Hpkt Hi Hsub Hd Hc [Hparse _] Hv Hh. unfold marshalHandshakePacket in Hpkt.
  destruct (handshake_roundtrip msg) as (body & Hm & Hu). rewrite Hm in Hpkt. cbn [go_bind go_wrap] in Hpkt.
  assert (pkt = Bytes (mkHeader Version TypeHandshake sub i 0) ++ body) as -> by congruence. clear Hpkt.
  split.
  - refine (Parse_Bytes (mkHeader Version TypeHandshake sub i 0) body _).
    unfold wire_ok, Header_ok, in_u, Version, TypeHandshake in *. cbn. lia.
  - rewrite drop_app_length' by (by rewrite length_Bytes). apply authenticate_ok; try done.
    + unfold ParseHandshakeMessage. by rewrite Hu.
    + by rewrite Hc.
Qed.

Lemma marshal_total msg i sub : ∃ pkt, marshalHandshakePacket msg i sub = Ok pkt.
Proof.
  unfold marshalHandshakePacket. destruct (handshake_roundtrip msg) as (body & -> & _). cbn. eauto.
Qed.

(** Both builders produce a message whose details read back and whose HMAC holds. *)
Definition built (cert : Certificate) (payload : bytes) (details : HandshakeDetails)
    (msg : HandshakeMessage) : Prop :=
  ParseDetails msg = Ok details ∧ VerifyHMAC msg cert = Ok tt ∧ mNoisePayload msg = payload.

Lemma built_details cert payload d b :
  unmarshal_details b = Ok d → built cert payload d (mkHandshakeMessage b payload (message_mac cert b payload)).
Proof.
  intros H. split_and!; [| apply VerifyHMAC_built | done]. unfold ParseDetails. cbn. by rewrite H.
Qed.

Lemma BuildInitiatorMessage_built cert payload i now :
  cert_ok cert → in_u 32 i →
  ∃ msg, BuildInitiatorMessage cert payload i now = Ok msg ∧
    built cert payload (mkHandshakeDetails (PEM cert) i 0 (u64 now)) msg.
Proof.
  intros [_ Hpem] Hi. unfold BuildInitiatorMessage.
  destruct (details_roundtrip (mkHandshakeDetails (PEM cert) i 0 (u64 now))) as (b & -> & Hb).
  { split_and!; cbn; [done | done | unfold in_u; lia | by apply wrap_in_u]. }
  cbn. eexists. split; [done |]. by apply built_details.
Qed.

Lemma BuildResponderMessage_built cert payload i j now :
  cert_ok cert → in_u 32 i → in_u 32 j →
  ∃ msg, BuildResponderMessage cert payload i j now = Ok msg ∧
    built cert payload (mkHandshakeDetails (PEM cert) i j (u64 now)) msg.
Proof.
  intros [_ Hpem] Hi Hj. unfold BuildResponderMessage.
  destruct (details_roundtrip (mkHandshakeDetails (PEM cert) i j (u64 now))) as (b & -> & Hb).
  { split_and!; cbn; [done | done | done | by apply wrap_in_u]. }
  cbn. eexists. split; [done |]. by apply built_details.
Qed.

Lemma ciphers_total c1 c2 :
  ∃ a1 a2, NewAESGCM (UnsafeKey c1) = Ok a1 ∧ NewAESGCM (UnsafeKey c2) = Ok a2 ∧
    ciphersFromStates (Some (c1, c2)) true = Ok (a1, a2) ∧
    ciphersFromStates (Some (c1, c2)) false = Ok (a2, a1).
Proof.
  destruct (NewAESGCM_32 (UnsafeKey c1) (UnsafeKey_length c1)) as [a1 H1].
  destruct (NewAESGCM_32 (UnsafeKey c2) (UnsafeKey_length c2)) as [a2 H2].
  exists a1, a2. unfold ciphersFromStates, CipherFromState. cbn. by rewrite H1, H2.
Qed.

(** The pending handshake of a started exchange. *)
Definition started (e : Env) (ip : Addr) (addr : UDPAddr) (i : Z) (hs : HandshakeState) (pkt : bytes)
    : pendingHandshake :=
  mkPending hs i ip addr [] 1 (nowRetry e + retryBase) pkt.

Definition registered (ph : pendingHandshake) (pkt : bytes) (w : World XA) : World XA :=
  let l := fresh_ploc (phs (mgr w)) in
  mkWorld (set_tables (<[l := ph]> (phs (mgr w))) (<[phRemoteVpnIP ph := l]> (pending (mgr w)))
             (<[phLocalIndex ph := l]> (indexMap (mgr w))) (mgr w))
    (out w ++ [UDPSend pkt (phRemoteAddr ph)]) (rest w).

Lemma StartHandshake_run e ip addr certB (w : World XA) i hs hs1 m1 msg pkt :
  pending (mgr w) !! ip = None → draws_index e i →
  NewHandshakeState (initiatorConfig (localKey (mgr w)) (X25519PublicKey certB)
    (DerivePreSharedKey (localCert (mgr w)) certB)) = Ok hs →
  WriteMessage (entropy e) [] hs = (hs1, Ok (m1, None)) →
  BuildInitiatorMessage (localCert (mgr w)) m1 i (nowBuild e) = Ok msg →
  marshalHandshakePacket msg 0 HandshakeInitiation = Ok pkt →
  udpResult e pkt addr = None →
  StartHandshake e ip addr certB w = (registered (started e ip addr i hs1 pkt) pkt w, Ok tt).
Proof.
  intros Hp [Hi _]%draws_index_spec Hn Hw Hb Hm Hu. unfold StartHandshake.
  erewrite gbind_ok by reflexivity. rewrite Hp, Hi. erewrite gbind_ok by reflexivity.
  unfold NewInitiatorState. rewrite Hn. erewrite gbind_ok by reflexivity. rewrite Hw.
  erewrite gbind_ok by reflexivity. cbv beta match. unfold buildHandshakePacket. rewrite Hb. cbn [go_bind].
  rewrite Hm. do 2 erewrite gbind_ok by reflexivity. unfold WriteTo. by rewrite Hu.
Qed.

Lemma HandleStage0_run e pkt from (w : World XB) h msg details cert hs hs1 hs2 pl m2 j c1 c2 a1 a2 rmsg reply :
  Parse pkt = Ok h →
  authenticate e (mgr w) "handshake: parse sender cert" (drop HeaderLen pkt) = Ok (msg, details, cert) →
  NewHandshakeState (responderConfig (localKey (mgr w)) (DerivePreSharedKey (localCert (mgr w)) cert)) = Ok hs →
  ReadMessage (mNoisePayload msg) hs = (hs1, Ok pl) → draws_index e j →
  WriteMessage (entropy e) [] hs1 = (hs2, Ok (m2, Some (c1, c2))) →
  BuildResponderMessage (localCert (mgr w)) m2 (dInitiatorIndex details) j (nowBuild e) = Ok rmsg →
  marshalHandshakePacket rmsg (dInitiatorIndex details) HandshakeResponse = Ok reply →
  udpResult e reply from = None → ciphersFromStates (Some (c1, c2)) false = Ok (a2, a1) →
  HandleStage0 onB e pkt from w =
    onB (mkHostInfo (pIP (cVpnIP cert)) from j (dInitiatorIndex details) a2 a1 0 (Some cert) newWindow) []
      (after_send reply from w).
Proof.
  intros Hp Ha Hn Hr [Hj _]%draws_index_spec Hw Hb Hm Hu Hc. unfold HandleStage0.
  erewrite gbind_ok by reflexivity. rewrite decide_False by (apply Parse_length in Hp; lia).
  rewrite Hp. erewrite gbind_ok by reflexivity. rewrite Ha. erewrite gbind_ok by reflexivity. cbv beta match.
  unfold NewResponderState. rewrite Hn. erewrite gbind_ok by reflexivity. rewrite Hr.
  erewrite gbind_ok by reflexivity. rewrite Hj. erewrite gbind_ok by reflexivity. rewrite Hw.
  erewrite gbind_ok by reflexivity. cbv beta match. rewrite Hb. erewrite gbind_ok by reflexivity.
  rewrite Hm. erewrite gbind_ok by reflexivity.
  erewrite (gbind_ok (gwrap _ _)); [| unfold gwrap, WriteTo; by rewrite Hu].
  rewrite Hc. erewrite gbind_ok by reflexivity. done.
Qed.

Lemma HandleStage1_run e pkt (w : World XA) h l ph msg details cert hs1 pl c1 c2 a1 a2 :
  Parse pkt = Ok h → indexMap (mgr w) !! hRemoteIndex h = Some l → phs (mgr w) !! l = Some ph →
  authenticate e (mgr w) "handshake: parse responder cert" (drop HeaderLen pkt) = Ok (msg, details, cert) →
  ReadMessage (mNoisePayload msg) (phState ph) = (hs1, Ok (pl, Some (c1, c2))) →
  ciphersFromStates (Some (c1, c2)) true = Ok (a1, a2) →
  HandleStage1 onA e pkt w =
    onA (mkHostInfo (phRemoteVpnIP ph) (phRemoteAddr ph) (phLocalIndex ph) (dResponderIndex details)
           a1 a2 0 (Some cert) newWindow) (phPackets ph) (unregistered (hRemoteIndex h) ph w).
Proof.
  intros Hp Hi Hl Ha Hr Hc. unfold HandleStage1. rewrite decide_False by (apply Parse_length in Hp; lia).
  rewrite Hp. do 2 erewrite gbind_ok by reflexivity. rewrite Hi, Hl. erewrite gbind_ok by reflexivity.
  fold (unregistered (hRemoteIndex h) ph w). rewrite Ha. erewrite gbind_ok by reflexivity. cbv beta match.
  rewrite Hr. erewrite gbind_ok by reflexivity. cbv beta match. rewrite Hc.
  by erewrite gbind_ok by reflexivity.
Qed.

(** ** The whole exchange *)

(** The initiator [wA] dials [ip] at [addr] and queues [pkts]; its datagrams reach
    the responder [wB] as coming from [from]. *)
Definition exchange_completes (wA : World XA) (wB : World XB) (certA certB : Certificate) (e0 eB e1 : Env)
    (i j : Z) (ip : Addr) (addr from : UDPAddr) (pkts : list bytes) : Prop :=
  ∃ pkt0 pkt1 hostA hostB wA1 wA2 wA3,
    StartHandshake e0 ip addr certB wA = (wA1, Ok tt) ∧ out wA1 = out wA ++ [UDPSend pkt0 addr] ∧
    Parse pkt0 = Ok (mkHeader Version TypeHandshake HandshakeInitiation 0 0) ∧
    HandleStage0 onB eB pkt0 from wB = onB hostB [] (after_send pkt1 from wB) ∧
    Parse pkt1 = Ok (mkHeader Version TypeHandshake HandshakeResponse i 0) ∧
    QueueAll ip pkts wA1 = (wA2, Ok tt) ∧
    HandleStage1 onA e1 pkt1 wA2 = onA hostA (lastn maxPendingPackets pkts) wA3 ∧
    pending (mgr wA3) !! ip = None ∧ out wA3 = out wA1 ∧ rest wA3 = rest wA ∧
    paired hostA hostB ∧ VpnIP hostA = ip ∧ VpnIP hostB = pIP (cVpnIP certA) ∧
    hCert hostA = Some certB ∧ hCert hostB = Some certA ∧ Remote hostA = addr ∧ Remote hostB = from ∧
    Index hostA = i ∧ Index hostB = j ∧ new_session hostA ∧ new_session hostB ∧ indexMap (mgr wA3) !! i = None.

Lemma exchange (wA : World XA) (wB : World XB) certA certB e0 eB e1 i j ip addr from pkts :
  trust (mgr wA) (mgr wB) certA certB eB e1 →
  pending (mgr wA) !! ip = None → draws_index e0 i → draws_index eB j →
  (∀ d t, udpResult e0 d t = None) → (∀ d t, udpResult eB d t = None) →
  exchange_completes wA wB certA certB e0 eB e1 i j ip addr from pkts.
Proof.
  intros Ht Hnone Hi Hj HuA HuB. destruct Ht as [HcA HcB HkA HkB Hpub HokA HokB HvA HvB].
  pose proof (proj2 (draws_index_spec _ _ Hi)) as Hi32. pose proof (proj2 (draws_index_spec _ _ Hj)) as Hj32.
  set (psk := DerivePreSharedKey certA certB).
  destruct (noise_IKpsk0 _ _ psk (entropy e0) (entropy eB) HkA HkB (length_DerivePreSharedKey _ _))
    as (hsi & hsi1 & hsi2 & hsr & hsr1 & hsr2 & m1 & m2 & c1 & c2 & d1 & d2 & Hn1 & Hw1 & Hn2 & Hr1 & Hw2 & Hr2 & Hk1 & Hk2).
  destruct (BuildInitiatorMessage_built certA m1 i (nowBuild e0) HokA Hi32) as (msg0 & Hb0 & Hd0 & Hh0 & Hp0).
  destruct (BuildResponderMessage_built certB m2 i j (nowBuild eB) HokB Hi32 Hj32) as (msg1 & Hb1 & Hd1 & Hh1 & Hp1).
  destruct (marshal_total msg0 0 HandshakeInitiation) as [pkt0 Hm0].
  destruct (marshal_total msg1 i HandshakeResponse) as [pkt1 Hm1].
  destruct (ciphers_total c1 c2) as (a1 & a2 & Ha1 & Ha2 & _ & Hcs).
  assert (HcsA : ciphersFromStates (Some (d1, d2)) true = Ok (a1, a2)).
  { unfold ciphersFromStates, CipherFromState. cbn. by rewrite Hk1, Hk2, Ha1, Ha2. }
  destruct (handshake_packet_read eB (mgr wB) "handshake: parse sender cert" certA msg0 _ _ _ pkt0 Hm0
    ltac:(unfold in_u; lia) ltac:(unfold in_u, HandshakeInitiation; lia) Hd0 eq_refl HokA HvA Hh0) as [HP0 HA0].
  set (ph := started e0 ip addr i hsi1 pkt0).
  set (wA1 := registered ph pkt0 wA). set (l := fresh_ploc (phs (mgr wA))).
  set (ph' := set_packets (lastn maxPendingPackets pkts) ph).
  set (wA2 := mkWorld (set_tables (<[l := ph']> (phs (mgr wA1))) (pending (mgr wA1)) (indexMap (mgr wA1)) (mgr wA1))
    (out wA1) (rest wA1)).
  destruct (handshake_packet_read e1 (mgr wA2) "handshake: parse responder cert" certB msg1 _ _ _ pkt1 Hm1
    Hi32 ltac:(unfold in_u, HandshakeResponse; lia) Hd1 eq_refl HokB HvB Hh1) as [HP1 HA1].
  exists pkt0, pkt1. do 2 eexists. exists wA1, wA2. eexists.
  split; [by apply (StartHandshake_run e0 ip addr certB wA i hsi hsi1 m1 msg0 pkt0); rewrite ?HcA, ?Hpub |].
  split; [done |]. split; [exact HP0 |].
  split.
  { apply (HandleStage0_run eB pkt0 from wB _ msg0 _ certA hsr hsr1 hsr2 ([], None) m2 j c1 c2 a1 a2
      msg1 pkt1 HP0 HA0); rewrite ?HcB, ?Hp0; try done. by rewrite DerivePreSharedKey_comm. }
  split; [exact HP1 |].
  split; [apply (QueueAll_eq ip pkts wA1 l ph); cbn; [by rewrite lookup_insert_eq .. | lia] |].
  split; [eapply (HandleStage1_run e1 pkt1 wA2 _ l ph'); eauto; cbn; [by rewrite lookup_insert_eq .. | by rewrite Hp1] |].
  cbn. rewrite !lookup_delete_eq. split_and!; done.
Qed.

End Exchange.

(** ** Properties *)

(** C6. A handshake between two nodes that trust each other completes, whatever
    the outputs of the random generators: the initiator sends one packet, the
    responder answers it with one packet and completes a session for the
    initiator's certificate address, and the answer completes the initiator's
    session for the address it dialled, with the last 50 of the packets queued
    meanwhile handed over in order.  The two sessions are paired: each end's
    sending cipher is the other's receiving cipher, and each sends to the index
    the other chose; no counter is used yet, and the initiator's tables no longer
    hold the handshake. *)
Theorem handshake_completes {crypto : CryptoLib} {noise : NoiseLib} {proto : ProtoLib} {certlib : CertLib}
    {crypto_laws : CryptoLaws} {noise_laws : NoiseLaws} {proto_laws : ProtoLaws} {XA XB : Type}
    (onA : HostInfo → list bytes → M (World XA) unit) (onB : HostInfo → list bytes → M (World XB) unit)
    (wA : World XA) (wB : World XB) certA certB e0 eB e1 i j ip addr from pkts :
  trust (mgr wA) (mgr wB) certA certB eB e1 →
  pending (mgr wA) !! ip = None → draws_index e0 i → draws_index eB j →
  (∀ d t, udpResult e0 d t = None) → (∀ d t, udpResult eB d t = None) →
  ∃ pkt0 pkt1 hostA hostB wA1 wA2 wA3,
    StartHandshake e0 ip addr certB wA = (wA1, Ok tt) ∧ out wA1 = out wA ++ [UDPSend pkt0 addr] ∧
    Parse pkt0 = Ok (mkHeader Version TypeHandshake HandshakeInitiation 0 0) ∧
    HandleStage0 onB eB pkt0 from wB = onB hostB [] (after_send pkt1 from wB) ∧
    Parse pkt1 = Ok (mkHeader Version TypeHandshake HandshakeResponse i 0) ∧
    QueueAll ip pkts wA1 = (wA2, Ok tt) ∧
    HandleStage1 onA e1 pkt1 wA2 = onA hostA (lastn maxPendingPackets pkts) wA3 ∧
    pending (mgr wA3) !! ip = None ∧ out wA3 = out wA1 ∧ rest wA3 = rest wA ∧
    paired hostA hostB ∧ VpnIP hostA = ip ∧ VpnIP hostB = pIP (cVpnIP certA) ∧
    hCert hostA = Some certB ∧ hCert hostB = Some certA ∧ Remote hostA = addr ∧ Remote hostB = from ∧
    Index hostA = i ∧ Index hostB = j ∧ new_session hostA ∧ new_session hostB ∧ indexMap (mgr wA3) !! i = None.
Proof. apply exchange. Qed.
