(* ===== verification/Pki.v ===== *)
(** * Loading the node's keys and certificates: src/pki.go

    [os.ReadFile] is the parameter [ReadFile]; the two readings of the clock are
    arguments. *)

From S2P Require Import Prelude Config External Cert.

Record PKI := mkPKI {
  CACerts : list Certificate;
  NodeCert : Certificate;
  Curve25519Key : bytes;
}.

Section Pki.

Context {crypto : CryptoLib} {certlib : CertLib}.
Context (ReadFile : bytes → go bytes).

Definition loadAndParseCA (path : bytes) (now : Z) : go Certificate :=
  try! data := go_wrap "pki: read CA" (ReadFile path) in
  try! caCert := go_wrap "pki: parse CA" (Parse_cert data) in
  try! _ := go_wrap "pki" (VerifyCA caCert now) in
  Ok caCert.

Definition loadAndParseNodeCert (path : bytes) (ca : Certificate) (now : Z) : go Certificate :=
  try! data := go_wrap "pki: read cert" (ReadFile path) in
  try! nodeCert := go_wrap "pki: parse cert" (Parse_cert data) in
  try! _ := go_wrap "pki" (Verify nodeCert [ca] now) in
  Ok nodeCert.

(** [subtle.ConstantTimeCompare(x, y) != 1]: the byte strings differ. *)
Definition loadAndVerifyKey (path : bytes) (nodeCert : Certificate) : go bytes :=
  try! data := go_wrap "pki: read key" (ReadFile path) in
  try! privKey := go_wrap "pki: parse key" (ParseX25519PrivateKey data) in
  try! derivedPub := go_wrap "pki: derive public key" (X25519 privKey Basepoint) in
  if negb (bool_decide (derivedPub = X25519PublicKey nodeCert)) then
    Fail (Errorf "pki: private key does not match the public key in the certificate")
  else Ok privKey.

Definition LoadPKI (cfg : PKIConfig) (nowCA nowNode : Z) : go PKI :=
  try! caCert := loadAndParseCA (CA cfg) nowCA in
  try! nodeCert := loadAndParseNodeCert (CertPath cfg) caCert nowNode in
  try! privKey := loadAndVerifyKey (Key cfg) nodeCert in
  Ok {| CACerts := [caCert]; NodeCert := nodeCert; Curve25519Key := privKey |}.

(** ** Inversion of the loaders *)

Lemma loadAndParseCA_inv path now ca :
  loadAndParseCA path now = Ok ca →
  ∃ data, ReadFile path = Ok data ∧ Parse_cert data = Ok ca ∧ VerifyCA ca now = Ok tt.
Proof.
  unfold loadAndParseCA.
  destruct (ReadFile path) as [data| |]; [cbn [go_wrap go_bind] | done ..].
  destruct (Parse_cert data) as [c| |] eqn:Ec; [cbn [go_wrap go_bind] | done ..].
  destruct (VerifyCA c now) as [[]| |] eqn:Ev; [cbn [go_wrap go_bind] | done ..]. intros [= ->]. eauto.
Qed.

Lemma loadAndParseNodeCert_inv path ca now c :
  loadAndParseNodeCert path ca now = Ok c →
  ∃ data, ReadFile path = Ok data ∧ Parse_cert data = Ok c ∧ Verify c [ca] now = Ok tt.
Proof.
  unfold loadAndParseNodeCert.
  destruct (ReadFile path) as [data| |]; [cbn [go_wrap go_bind] | done ..].
  destruct (Parse_cert data) as [c0| |] eqn:Ec; [cbn [go_wrap go_bind] | done ..].
  destruct (Verify c0 [ca] now) as [[]| |] eqn:Ev; [cbn [go_wrap go_bind] | done ..]. intros [= ->]. eauto.
Qed.

Lemma ParseX25519PrivateKey_length data k : ParseX25519PrivateKey data = Ok k → length k = 32%nat.
Proof.
  unfold ParseX25519PrivateKey. destruct (pem_decode data) as [[ty body]|]; [| done].
  case_bool_decide; cbn; [| done]. case_bool_decide; cbn; [| done]. by intros [= <-].
Qed.

Lemma loadAndVerifyKey_inv path c k :
  loadAndVerifyKey path c = Ok k →
  ∃ data, ReadFile path = Ok data ∧ ParseX25519PrivateKey data = Ok k ∧ X25519 k Basepoint = Ok (X25519PublicKey c).
Proof.
  unfold loadAndVerifyKey.
  destruct (ReadFile path) as [data| |]; [cbn [go_wrap go_bind] | done ..].
  destruct (ParseX25519PrivateKey data) as [k0| |] eqn:Ek; [cbn [go_wrap go_bind] | done ..].
  destruct (X25519 k0 Basepoint) as [p| |] eqn:Ep; [cbn [go_wrap go_bind] | done ..].
  case_bool_decide as Hp; cbn [negb]; [| done]. intros [= ->]. subst p. eauto.
Qed.

Lemma LoadPKI_inv cfg nowCA nowNode pki :
  LoadPKI cfg nowCA nowNode = Ok pki →
  ∃ ca, CACerts pki = [ca] ∧ IsCA ca = true ∧ x509_verify (x509 ca) [x509 ca] nowCA = Ok tt ∧
    IsCA (NodeCert pki) = false ∧ x509_verify (x509 (NodeCert pki)) [x509 ca] nowNode = Ok tt ∧
    length (Curve25519Key pki) = 32%nat ∧
    X25519 (Curve25519Key pki) Basepoint = Ok (X25519PublicKey (NodeCert pki)) ∧
    ∃ caFile certFile, ReadFile (CA cfg) = Ok caFile ∧ Parse_cert caFile = Ok ca ∧
      ReadFile (CertPath cfg) = Ok certFile ∧ Parse_cert certFile = Ok (NodeCert pki).
Proof.
  unfold LoadPKI.
  destruct (loadAndParseCA _ _) as [ca| |] eqn:E1; [cbn [go_bind] | done ..].
  destruct (loadAndParseNodeCert _ _ _) as [nc| |] eqn:E2; [cbn [go_bind] | done ..].
  destruct (loadAndVerifyKey _ _) as [k| |] eqn:E3; [cbn [go_bind] | done ..]. intros [= <-].
  apply loadAndParseCA_inv in E1 as (d1 & Hr1 & Hp1 & Hv1).
  apply loadAndParseNodeCert_inv in E2 as (d2 & Hr2 & Hp2 & Hv2).
  apply loadAndVerifyKey_inv in E3 as (d3 & Hr3 & Hp3 & Hx).
  unfold VerifyCA in Hv1. destruct (IsCA ca) eqn:Ec; [| done]. cbn [negb] in Hv1.
  unfold Verify in Hv2. destruct (IsCA nc) eqn:En; [done |]. cbn [map] in Hv2.
  exists ca. cbn [CACerts NodeCert Curve25519Key]. split_and!; try done.
  - by destruct (x509_verify (x509 ca) _ _) as [[]| |].
  - by destruct (x509_verify (x509 nc) _ _) as [[]| |].
  - by eapply ParseX25519PrivateKey_length.
  - eauto 10.
Qed.

End Pki.

(** ** Properties *)

(** What a successfully loaded PKI guarantees: the one CA certificate is a
    CA that verifies itself, the node certificate is not a CA and is verified by
    that CA, the private key has 32 bytes, and it is the private half of the
    public key in the node certificate, so the static key pair given to Noise
    is a matching one. *)
Theorem LoadPKI_spec {crypto : CryptoLib} {certlib : CertLib} ReadFile cfg nowCA nowNode pki :
  LoadPKI ReadFile cfg nowCA nowNode = Ok pki →
  ∃ ca, CACerts pki = [ca] ∧ IsCA ca = true ∧ x509_verify (x509 ca) [x509 ca] nowCA = Ok tt ∧
    IsCA (NodeCert pki) = false ∧ x509_verify (x509 (NodeCert pki)) [x509 ca] nowNode = Ok tt ∧
    length (Curve25519Key pki) = 32%nat ∧
    X25519 (Curve25519Key pki) Basepoint = Ok (X25519PublicKey (NodeCert pki)) ∧
    ∃ caFile certFile, ReadFile (CA cfg) = Ok caFile ∧ Parse_cert caFile = Ok ca ∧
      ReadFile (CertPath cfg) = Ok certFile ∧ Parse_cert certFile = Ok (NodeCert pki).
Proof. apply LoadPKI_inv. Qed.
