(* ===== verification/Provision.v ===== *)
(** * Provisioning a network with neth-cert

    What the commands of [CertTool] leave on disk, and that it is what the daemon
    needs: the files of [neth-cert ca] and [neth-cert sign] verify with
    [neth-cert verify], load with [LoadPKI], and let two nodes complete a
    handshake. *)

From S2P Require Import Prelude Bytes Header Net GoText GoPath GoFlag Config Messages External Cert Authority.
From S2P Require Import CertTool NoiseUtil HostMap Handshake HandshakeManager Session Pki.

(** ** Command lines *)

Definition crt_path (dir name : bytes) : bytes := filepath_Join [dir; name ++ lit ".crt"].
Definition key_path (dir name : bytes) : bytes := filepath_Join [dir; name ++ lit ".key"].

Definition ca_line (name dur dir : bytes) : list bytes :=
  [lit "neth-cert"; lit "ca"; lit "--name"; name; lit "--duration"; dur; lit "--out-dir"; dir].

Definition sign_line (caCrt caKey name ip groups dur dir : bytes) : list bytes :=
  [lit "neth-cert"; lit "sign"; lit "--ca-crt"; caCrt; lit "--ca-key"; caKey; lit "--name"; name; lit "--ip"; ip;
   lit "--groups"; groups; lit "--duration"; dur; lit "--out-dir"; dir].

Definition verify_line (caCrt cert : bytes) : list bytes :=
  [lit "neth-cert"; lit "verify"; lit "--ca-crt"; caCrt; lit "--cert"; cert].

Section Provision.

Context {crypto : CryptoLib} {noise : NoiseLib} {certlib : CertLib} {issue : IssueLib}.
Context {FS : Type} {files : FileSystem FS}.
Context {cert_laws : CertLaws} {issue_laws : IssueLaws} {files_laws : FileSystemLaws FS}.
Context {dh_laws : DHLaws}.

(** ** What a run of the tool draws *)

(** Random bytes for a key and a serial number, and a clock and duration that a
    certificate can represent. *)
Record draws (e : ToolEnv) (seed : bytes) (name : bytes) (duration : Z) : Prop := {
  draws_key : teKey e = Ok seed;
  draws_key_length : length seed = 32%nat;
  draws_key_bytes : bytes_ok seed;
  draws_serial : ∃ ser, teSerial e = Ok ser ∧ bytes_ok ser ∧ length ser = 16%nat;
  draws_writable : writable name (teNow e) duration;
}.

(** No write fails. *)
Definition writes_succeed : Prop := ∀ p d m (s : FS), ∃ s', fs_write p d m s = (s', Ok tt).

(** ** What is on disk *)

Definition on_disk_ca (s : FS) (dir name seed : bytes) (ca : Certificate) : Prop :=
  fs_read s (crt_path dir name) = Ok (PEM ca) ∧
  ∃ file, fs_read s (key_path dir name) = Ok file ∧ ParseEd25519PrivateKey file = Ok (NewKeyFromSeed seed).

Definition on_disk_node (s : FS) (dir name priv : bytes) (node : Certificate) : Prop :=
  fs_read s (crt_path dir name) = Ok (PEM node) ∧
  ∃ file, fs_read s (key_path dir name) = Ok file ∧ ParseX25519PrivateKey file = Ok priv.

(** The two output files of a name are different files. *)
Definition separate (dir name : bytes) : Prop := ¬ same_file (key_path dir name) (crt_path dir name).

Lemma printCertSummary_run c (t : Tool FS) : ∃ o, printCertSummary c t = (mkTool (tFiles t) o, Ok tt).
Proof.
  destruct t as [fs o]. unfold printCertSummary, Printf. gsimpl.
  destruct (Prefix_IsValid _), (0 <? length (cGroups c))%nat, (0 <? length (X25519PublicKey c))%nat;
    cbn; eexists; reflexivity.
Qed.

(** The end of [cmdCA] and [cmdSign]: both files are written, then the summary. *)
Lemma write_both dir name crt (mkey : go bytes) key msg msg' c (t : Tool FS) :
  writes_succeed → separate dir name → mkey = Ok key →
  ∃ s' o,
    (do! writeFile (crt_path dir name) crt mode_crt in
     let! keyPEM := glift mkey in
     do! writeFile (key_path dir name) keyPEM mode_key in
     do! Printf msg in do! Printf msg' in printCertSummary c) t = (mkTool s' o, Ok tt) ∧
    fs_read s' (crt_path dir name) = Ok crt ∧ fs_read s' (key_path dir name) = Ok key ∧
    (∀ q, ¬ same_file (crt_path dir name) q → ¬ same_file (key_path dir name) q →
       fs_read s' q = fs_read (tFiles t) q ∧ fs_mode s' q = fs_mode (tFiles t) q) ∧
    (fs_mode (tFiles t) (key_path dir name) = None → ¬ same_file (crt_path dir name) (key_path dir name) →
       ∃ m, fs_mode s' (key_path dir name) = Some m ∧ Z.land m 63 = 0).
Proof.
  intros Hw Hsep ->. destruct (Hw (crt_path dir name) crt mode_crt (tFiles t)) as [s1 H1].
  destruct (Hw (key_path dir name) key mode_key s1) as [s2 H2].
  erewrite (gbind_ok (writeFile _ _ _)); [| unfold writeFile; rewrite H1; reflexivity].
  erewrite gbind_ok by reflexivity.
  erewrite (gbind_ok (writeFile _ _ _)); [| unfold writeFile; cbn [tFiles]; rewrite H2; reflexivity].
  do 2 erewrite gbind_ok by reflexivity.
  match goal with |- context [printCertSummary c ?t0] => destruct (printCertSummary_run c t0) as [o ->] end.
  cbn [tFiles]. exists s2, o. split; [done |].
  pose proof (read_other (key_path dir name) key mode_key s1) as Hother. rewrite H2 in Hother. cbn [fst] in Hother.
  pose proof (read_other (crt_path dir name) crt mode_crt (tFiles t)) as Hother1. rewrite H1 in Hother1. cbn [fst] in Hother1.
  pose proof (mode_other (key_path dir name) key mode_key s1) as Hmo. rewrite H2 in Hmo. cbn [fst] in Hmo.
  pose proof (mode_other (crt_path dir name) crt mode_crt (tFiles t)) as Hmo1. rewrite H1 in Hmo1. cbn [fst] in Hmo1.
  split_and!.
  - rewrite Hother by done. eapply read_written; [exact H1 | apply same_file_refl].
  - eapply read_written; [exact H2 | apply same_file_refl].
  - intros q Hq1 Hq2. by rewrite Hother, Hother1, Hmo, Hmo1.
  - intros Hnone Hne. assert (Hs1 : fs_mode s1 (key_path dir name) = None).
    { by rewrite <- Hnone, Hmo1. }
    destruct (mode_created _ _ _ _ _ H2 Hs1) as [um ->]. eexists. split; [done |].
    rewrite <- Z.land_assoc, (Z.land_comm (Z.lnot um)), Z.land_assoc. by change (Z.land mode_key 63) with 0.
Qed.

(** Files other than the two outputs are as before. *)
Definition untouched (dir name : bytes) (s s' : FS) : Prop :=
  ∀ q, ¬ same_file (crt_path dir name) q → ¬ same_file (key_path dir name) q →
    fs_read s' q = fs_read s q ∧ fs_mode s' q = fs_mode s q.

(** The file has no permission bits for its group and for others. *)
Definition owner_only (s : FS) (path : bytes) : Prop := ∃ m, fs_mode s path = Some m ∧ Z.land m 63 = 0.

(** A key file that did not exist is created for its owner only. *)
Definition private_key_file (dir name : bytes) (s s' : FS) : Prop :=
  fs_mode s (key_path dir name) = None → ¬ same_file (crt_path dir name) (key_path dir name) →
  owner_only s' (key_path dir name).

Lemma main_ok e cmd m rest (t t' : Tool FS) :
  dispatch e cmd rest = Some m → m t = (t', Ok tt) → main e (lit "neth-cert" :: cmd :: rest) t = (t', Ok 0).
Proof. intros Hd Hm. unfold main. by rewrite Hd, Hm. Qed.

Lemma ca_run e seed name dur d dir (t : Tool FS) :
  writes_succeed → separate dir name → draws e seed name d → ParseDuration dur = Ok d →
  ∃ ca s' o, main e (ca_line name dur dir) t = (mkTool s' o, Ok 0) ∧
    authority ca seed name (teNow e) (teNow e + d) ∧ on_disk_ca s' dir name seed ca ∧
    untouched dir name (tFiles t) s' ∧ private_key_file dir name (tFiles t) s'.
Proof.
  intros Hw Hsep [Hk Hkl Hkb (ser & Hser & Hsb & Hsl) Hwr] Hdur.
  destruct (GenerateCA_run seed ser (teNow e) name d Hkl Hsb Hsl Hwr) as (ca & Hca & Hauth).
  destruct (Ed25519_file seed Hkl Hkb) as (file & Hfile & Hparse).
  match goal with |- context [main] =>
    destruct (write_both dir name (PEM ca) _ file (lit "CA certificate : " ++ crt_path dir name ++ newline)
      (lit "CA private key : " ++ key_path dir name ++ newline) ca t Hw Hsep Hfile) as (s' & o & Hrun & Hc & Hky & Hoth & Hmode) end.
  exists ca, s', o. split; [| split_and!; try done; [split; [done | by exists file]]].
  eapply main_ok; [reflexivity |]. unfold cmdCA. parse_flags. erewrite gbind_ok by reflexivity. cbv beta match.
  match goal with |- context [flag_string ?f (lit "name")] => change (flag_string f (lit "name")) with name;
    change (flag_duration f (lit "duration")) with d; change (flag_string f (lit "out-dir")) with dir end.
  rewrite bool_decide_eq_false_2 by apply Hwr. rewrite Hk, Hser, Hca. erewrite gbind_ok by reflexivity. exact Hrun.
Qed.

Lemma Parse_PEM_raw c : parseDER (raw c) = Ok c → Parse_cert (PEM c) = Ok c.
Proof. intros H. unfold Parse_cert, PEM. by rewrite pem_roundtrip, bool_decide_eq_true_2. Qed.

Lemma Public_of_seed seed : length seed = 32%nat → Public_of (NewKeyFromSeed seed) = Ok (ed25519_public seed).
Proof.
  intros H. unfold Public_of, NewKeyFromSeed. pose proof (ed25519_public_length seed) as Hp.
  rewrite decide_False by (rewrite length_app; lia). by rewrite drop_app_length', take_app_length' by done.
Qed.

Lemma group_list_ok groups : bytes_ok groups → Forall bytes_ok (group_list groups).
Proof.
  intros H. unfold group_list. destruct groups as [|g groups]; [constructor |].
  apply Forall_forall. intros x Hx%list_elem_of_filter. destruct Hx as [_ Hx].
  apply list_elem_of_In, in_map_iff in Hx as (y & <- & Hy). apply TrimSpace_Forall.
  pose proof (Split_Forall _ 44 _ H) as Hs. rewrite Forall_forall in Hs. apply Hs. by apply list_elem_of_In.
Qed.

Lemma ParsePrefix_vpn ip p : ParsePrefix ip = Ok p → vpn_prefix p.
Proof.
  intros H. split; [| by eapply ParsePrefix_valid]. pose proof (ParsePrefix_yields ip) as Hy. by rewrite H in Hy.
Qed.

(** A node's request: what [neth-cert sign] is asked for. *)
Record request := mkRequest { rName : bytes; rIP : bytes; rGroups : bytes; rDuration : bytes }.

(** The request can be read and the run draws what it needs. *)
Record signs (e : ToolEnv) (r : request) (caSeed nodeSeed rnd : bytes) (p : Prefix) (d : Z) : Prop := {
  signs_draws : draws e nodeSeed (rName r) d;
  signs_ip : ParsePrefix (rIP r) = Ok p;
  signs_groups : bytes_ok (rGroups r);
  signs_duration : ParseDuration (rDuration r) = Ok d;
  signs_key : teX25519 e = Ok rnd ∧ length rnd = 32%nat ∧ bytes_ok rnd;
  signs_fresh : ed25519_public nodeSeed ≠ ed25519_public caSeed;
}.

Definition sign_request (caDir caName : bytes) (r : request) (dir : bytes) : list bytes :=
  sign_line (crt_path caDir caName) (key_path caDir caName) (rName r) (rIP r) (rGroups r) (rDuration r) dir.

Lemma check_ca_key_ok ca seed name from until :
  authority ca seed name from until → check_ca_key ca (NewKeyFromSeed seed) = Ok tt.
Proof.
  intros H. unfold check_ca_key. rewrite Public_of_seed by apply H. cbn [go_bind].
  rewrite (authority_key _ _ _ _ _ H). by rewrite bool_decide_eq_true_2.
Qed.

Lemma sign_run e r caSeed nodeSeed rnd p d ca caName caFrom caUntil caDir dir (t : Tool FS) :
  writes_succeed → separate dir (rName r) → signs e r caSeed nodeSeed rnd p d →
  authority ca caSeed caName caFrom caUntil → on_disk_ca (tFiles t) caDir caName caSeed ca →
  ∃ node pub s' o, main e (sign_request caDir caName r dir) t = (mkTool s' o, Ok 0) ∧
    X25519 (clamp rnd) Basepoint = Ok pub ∧
    issued ca node (rName r) p (group_list (rGroups r)) pub (teNow e) (teNow e + d) ∧
    on_disk_node s' dir (rName r) (clamp rnd) node ∧
    untouched dir (rName r) (tFiles t) s' ∧ private_key_file dir (rName r) (tFiles t) s'.
Proof.
  intros Hw Hsep [[Hk Hkl Hkb (ser & Hser & Hsb & Hsl) Hwr] Hip Hg Hdur (Hx & Hxl & Hxb) Hfresh] Hauth
    (Hcrt & kf & Hkey & Hkp).
  destruct (clamp_ok rnd Hxb Hxl) as [Hcb Hcl]. destruct (X25519_base (clamp rnd) Hcl Hcb) as (pub & Hpub & Hpl & Hpb).
  destruct (Sign_run ca caSeed caName caFrom caUntil nodeSeed ser (teNow e) (rName r) p (group_list (rGroups r)) pub d
    Hauth Hkl Hfresh Hsb Hsl Hwr (ParsePrefix_vpn _ _ Hip) (group_list_ok _ Hg) Hpl Hpb) as (node & Hnode & Hiss).
  assert (Hfile : MarshalX25519PrivateKey (clamp rnd) = Ok (pem_encode pemTypeCurve25519Key (clamp rnd))).
  { unfold MarshalX25519PrivateKey. by rewrite bool_decide_eq_true_2. }
  destruct (write_both dir (rName r) (PEM node) _ _ (lit "Node certificate : " ++ crt_path dir (rName r) ++ newline)
    (lit "Node private key : " ++ key_path dir (rName r) ++ newline) node t Hw Hsep Hfile)
    as (s' & o & Hrun & Hc & Hky & Hoth & Hmode).
  exists node, pub, s', o. split; [| split_and!; try done].
  2:{ split; [done |]. eexists. split; [exact Hky |]. unfold ParseX25519PrivateKey.
      by rewrite pem_roundtrip, !bool_decide_eq_true_2. }
  eapply main_ok; [reflexivity |]. unfold cmdSign. parse_flags. erewrite gbind_ok by reflexivity. cbv beta match.
  match goal with |- context [flag_string ?f (lit "name")] =>
    change (flag_string f (lit "ca-crt")) with (crt_path caDir caName);
    change (flag_string f (lit "ca-key")) with (key_path caDir caName);
    change (flag_string f (lit "name")) with (rName r); change (flag_string f (lit "ip")) with (rIP r);
    change (flag_string f (lit "groups")) with (rGroups r);
    change (flag_duration f (lit "duration")) with d; change (flag_string f (lit "out-dir")) with dir end.
  rewrite !bool_decide_eq_false_2; [cbn [orb] | | apply Hwr | |].
  2:{ intros E. by rewrite E in Hip. }
  2-3: apply Join_nonempty; by destruct caName.
  rewrite Hip. erewrite gbind_ok by reflexivity.
  erewrite (gbind_ok (gwrap _ (ReadFile _))); [| unfold gwrap, ReadFile; rewrite Hcrt; reflexivity].
  rewrite (Parse_PEM_raw ca) by apply Hauth. erewrite gbind_ok by reflexivity.
  rewrite (authority_is_ca _ _ _ _ _ Hauth). cbn [negb].
  erewrite (gbind_ok (gwrap _ (ReadFile _))); [| unfold gwrap, ReadFile; rewrite Hkey; reflexivity].
  rewrite Hkp. erewrite gbind_ok by reflexivity. rewrite (check_ca_key_ok ca caSeed _ _ _ Hauth).
  erewrite gbind_ok by reflexivity. rewrite Hx. unfold GenerateX25519KeyPair. cbn [go_bind go_wrap]. rewrite Hpub.
  erewrite gbind_ok by reflexivity. cbv beta match. rewrite Hk, Hser, Hnode. erewrite gbind_ok by reflexivity. exact Hrun.
Qed.

(** ** Using the files *)

Lemma verify_run e ca node caSeed caName caFrom caUntil name p groups pub from until caPath path (t : Tool FS) :
  authority ca caSeed caName caFrom caUntil → issued ca node name p groups pub from until →
  caPath ≠ [] → path ≠ [] → fs_read (tFiles t) caPath = Ok (PEM ca) → fs_read (tFiles t) path = Ok (PEM node) →
  (valid_at (X509 node) (teNow e) → valid_at (X509 ca) (teNow e) →
     ∃ o, main e (verify_line caPath path) t = (mkTool (tFiles t) o, Ok 0)) ∧
  (¬ valid_at (X509 node) (teNow e) → (main e (verify_line caPath path) t).2 ≠ Ok 0).
Proof.
  intros Hauth Hiss Hc Hn Hrc Hrn.
  assert (Hrun : ∀ r, Verify node [ca] (teNow e) = r → main e (verify_line caPath path) t =
    match r with
    | Ok _ => (mkTool (tFiles t) (tStdout t ++ lit "OK: certificate is valid" ++ newline), Ok 0)
    | Fail _ => (t, Ok 1)
    | Panic => (t, Panic)
    end).
  { intros r Hr. unfold main, verify_line. cbn [dispatch]. unfold dispatch.
    rewrite !decide_False, decide_True by (done || by vm_compute). unfold cmdVerify.
    parse_flags. erewrite gbind_ok by reflexivity. cbv beta match.
    match goal with |- context [flag_string ?f (lit "cert")] =>
      change (flag_string f (lit "ca-crt")) with caPath; change (flag_string f (lit "cert")) with path end.
    rewrite !bool_decide_eq_false_2 by done. cbn [orb].
    erewrite (gbind_ok (gwrap _ (ReadFile _))); [| unfold gwrap, ReadFile; rewrite Hrc; reflexivity].
    rewrite (Parse_PEM_raw ca) by apply Hauth. erewrite gbind_ok by reflexivity.
    erewrite (gbind_ok (gwrap _ (ReadFile _))); [| unfold gwrap, ReadFile; rewrite Hrn; reflexivity].
    rewrite (Parse_PEM_raw node) by apply Hiss. erewrite gbind_ok by reflexivity.
    rewrite Hr. by destruct r as [[]| |]. }
  split.
  - intros H1 H2. eexists. rewrite (Hrun (Ok tt)); [done |]. by apply Hiss.
  - intros Hnv. rewrite (Hrun _ eq_refl). destruct (Verify _ _ _) as [[]| |] eqn:E; [| done ..].
    exfalso. apply Hnv. unfold Verify in E. rewrite (issued_not_ca _ _ _ _ _ _ _ _ Hiss) in E.
    destruct (x509_verify _ _ _) as [[]| |] eqn:Ev; [| done ..]. by eapply verify_valid.
Qed.

Lemma LoadPKI_run s caDir caName caSeed ca caFrom caUntil dir name priv node p groups pub from until peers now now' :
  authority ca caSeed caName caFrom caUntil → issued ca node name p groups pub from until →
  on_disk_ca s caDir caName caSeed ca → on_disk_node s dir name priv node → X25519 priv Basepoint = Ok pub →
  valid_at (X509 ca) now → valid_at (X509 ca) now' → valid_at (X509 node) now' →
  LoadPKI (fs_read s) (mkPKIConfig (crt_path caDir caName) (crt_path dir name) (key_path dir name) peers) now now' =
    Ok (mkPKI [ca] node priv).
Proof.
  intros Hauth Hiss [Hc _] [Hn (file & Hk & Hp)] Hx H1 H2 H3. unfold LoadPKI, loadAndParseCA, loadAndParseNodeCert, loadAndVerifyKey.
  cbn [CA CertPath Key]. rewrite Hc. cbn [go_bind go_wrap]. rewrite (Parse_PEM_raw ca) by apply Hauth.
  cbn [go_bind go_wrap]. rewrite (authority_verifies _ _ _ _ _ Hauth) by done. cbn [go_bind go_wrap].
  rewrite Hn. cbn [go_bind go_wrap]. rewrite (Parse_PEM_raw node) by apply Hiss. cbn [go_bind go_wrap].
  rewrite (issued_verifies _ _ _ _ _ _ _ _ Hiss) by done. cbn [go_bind go_wrap].
  rewrite Hk. cbn [go_bind go_wrap]. rewrite Hp. cbn [go_bind go_wrap]. rewrite Hx. cbn [go_bind go_wrap].
  by rewrite (issued_key _ _ _ _ _ _ _ _ Hiss), bool_decide_eq_true_2.
Qed.

(** ** Names *)

(** Different entries of the output directory are different files. *)
Definition no_links (dir : bytes) : Prop :=
  ∀ n1 n2, plain n1 → plain n2 → n1 ≠ n2 → ¬ same_file (filepath_Join [dir; n1]) (filepath_Join [dir; n2]).

Lemma suffix_neq (a b s s' : bytes) : length s = length s' → s ≠ s' → a ++ s ≠ b ++ s'.
Proof. intros Hl Hne E. apply Hne. apply app_inj_2 in E as [_ ?]; done. Qed.

Lemma names_separate dir name : no_links dir → slash ∉ name →
  separate dir name ∧ ¬ same_file (crt_path dir name) (key_path dir name).
Proof.
  intros Hd Hn. split; apply Hd; auto using plain_key, plain_crt; by apply suffix_neq.
Qed.

(** Signing for another name leaves a name's files alone. *)
Lemma untouched_name dir name name' s s' :
  no_links dir → slash ∉ name → slash ∉ name' → name ≠ name' → untouched dir name s s' →
  fs_read s' (crt_path dir name') = fs_read s (crt_path dir name') ∧
  fs_read s' (key_path dir name') = fs_read s (key_path dir name') ∧
  fs_mode s' (key_path dir name') = fs_mode s (key_path dir name').
Proof.
  intros Hd H1 H2 Hne Hu.
  assert (Hcc : name ++ lit ".crt" ≠ name' ++ lit ".crt") by (intros E; by apply Hne, (app_inv_tail (lit ".crt"))).
  assert (Hkk : name ++ lit ".key" ≠ name' ++ lit ".key") by (intros E; by apply Hne, (app_inv_tail (lit ".key"))).
  split; [| split]; apply Hu; apply Hd; auto using plain_crt, plain_key; by apply suffix_neq.
Qed.

(** ** A whole network *)

(** Running the tool several times, with the exit statuses. *)
Fixpoint run_all (runs : list (ToolEnv * list bytes)) : M (Tool FS) (list Z) :=
  match runs with
  | [] => gret []
  | (e, args) :: runs' =>
      let! status := main e args in
      let! statuses := run_all runs' in
      gret (status :: statuses)
  end.

(** A run of [neth-cert sign]: its request, what it draws, what the request reads as. *)
Record job := mkJob {
  jEnv : ToolEnv;
  jRequest : request;
  jSeed : bytes;
  jRnd : bytes;
  jPrefix : Prefix;
  jDuration : Z;
}.

Definition jName (j : job) : bytes := rName (jRequest j).

Record job_ok (caName caSeed : bytes) (j : job) : Prop := {
  job_name : (slash ∉ jName j) ∧ jName j ≠ caName;
  job_signs : signs (jEnv j) (jRequest j) caSeed (jSeed j) (jRnd j) (jPrefix j) (jDuration j);
}.

Definition sign_run_of (dir caName : bytes) (j : job) : ToolEnv * list bytes :=
  (jEnv j, sign_request dir caName (jRequest j) dir).

(** The node's certificate is issued and its files are in place. *)
Definition provisioned (s : FS) (dir : bytes) (ca : Certificate) (j : job) (node : Certificate) : Prop :=
  ∃ pub, X25519 (clamp (jRnd j)) Basepoint = Ok pub ∧
    issued ca node (jName j) (jPrefix j) (group_list (rGroups (jRequest j))) pub
      (teNow (jEnv j)) (teNow (jEnv j) + jDuration j) ∧
    on_disk_node s dir (jName j) (clamp (jRnd j)) node.

Lemma provisioned_kept dir ca j node name s s' :
  no_links dir → slash ∉ name → slash ∉ jName j → name ≠ jName j → untouched dir name s s' →
  provisioned s dir ca j node → provisioned s' dir ca j node.
Proof.
  intros Hd H1 H2 Hne Hu (pub & Hx & Hi & Hc & file & Hk & Hp). exists pub. split_and!; [done | done |].
  destruct (untouched_name _ _ _ _ _ Hd H1 H2 Hne Hu) as (E1 & E2 & _).
  split; [by rewrite E1 |]. exists file. by rewrite E2.
Qed.

Lemma jobs_run dir ca caSeed caName caFrom caUntil jobs : ∀ t : Tool FS,
  writes_succeed → no_links dir → slash ∉ caName → authority ca caSeed caName caFrom caUntil →
  on_disk_ca (tFiles t) dir caName caSeed ca → Forall (job_ok caName caSeed) jobs → NoDup (map jName jobs) →
  ∃ s o, run_all (map (sign_run_of dir caName) jobs) t = (mkTool s o, Ok (map (λ _, 0) jobs)) ∧
    on_disk_ca s dir caName caSeed ca ∧
    (∀ j, j ∈ jobs → ∃ node, provisioned s dir ca j node ∧
       (fs_mode (tFiles t) (key_path dir (jName j)) = None → owner_only s (key_path dir (jName j)))) ∧
    (∀ n, slash ∉ n → n ∉ map jName jobs → fs_mode s (key_path dir n) = fs_mode (tFiles t) (key_path dir n)) ∧
    (∀ j node, slash ∉ jName j → jName j ∉ map jName jobs → provisioned (tFiles t) dir ca j node →
       provisioned s dir ca j node).
Proof.
  induction jobs as [|j jobs IH]; intros t Hw Hd Hcn Hauth Hdisk Hjobs Hnd.
  { exists (tFiles t), (tStdout t). destruct t. split_and!; try done. by intros j ?%elem_of_nil. }
  inversion Hjobs as [|? ? [[Hjn Hjne] Hsigns] Hjobs']; subst. cbn [map] in Hnd. apply NoDup_cons in Hnd as [Hnin Hnd].
  destruct (sign_run (jEnv j) (jRequest j) caSeed (jSeed j) (jRnd j) (jPrefix j) (jDuration j) ca caName caFrom caUntil
    dir dir t Hw (proj1 (names_separate dir _ Hd Hjn)) Hsigns Hauth Hdisk)
    as (node & pub & s1 & o1 & Hrun & Hx & Hi & Hon & Hun & Hpriv).
  assert (Hdisk1 : on_disk_ca s1 dir caName caSeed ca).
  { destruct (untouched_name _ _ _ _ _ Hd Hjn Hcn Hjne Hun) as (E1 & E2 & _). destruct Hdisk as (Hc & file & Hk & Hp).
    split; [by rewrite E1 |]. exists file. by rewrite E2. }
  destruct (IH (mkTool s1 o1) Hw Hd Hcn Hauth Hdisk1 Hjobs' Hnd) as (s & o & Hrest & Hca & Hall & Hmodes & Hkeep).
  exists s, o. split; [| split; [done |]].
  { unfold sign_run_of. cbn [map run_all]. fold (sign_run_of dir caName). rewrite (gbind_ok _ _ _ _ _ Hrun), (gbind_ok _ _ _ _ _ Hrest). done. }
  split; [| split].
  - intros j' [-> | Hj']%elem_of_cons.
    + exists node. split; [apply Hkeep; [done | done |]; exists pub; done |].
      intros Hnone. destruct (Hpriv Hnone (proj2 (names_separate dir _ Hd Hjn))) as (m & Hm & Hz).
      exists m. by rewrite Hmodes.
    + destruct (Hall j' Hj') as (node' & Hp' & Hm'). exists node'. split; [done |]. intros Hnone. apply Hm'.
      rewrite Forall_forall in Hjobs'. destruct (Hjobs' j' Hj') as [[Hs' _] _].
      assert (jName j ≠ jName j') by (intros E; apply Hnin; rewrite E; apply list_elem_of_In, in_map, list_elem_of_In; done).
      destruct (untouched_name _ _ _ _ _ Hd Hjn Hs' ltac:(done) Hun) as (_ & _ & E). cbn [tFiles]. by rewrite E.
  - intros n Hs' Hn'. cbn [map] in Hn'. apply not_elem_of_cons in Hn' as [Hne' Hn'].
    destruct (untouched_name _ _ _ _ _ Hd Hjn Hs' (not_eq_sym Hne') Hun) as (_ & _ & E).
    rewrite Hmodes by done. cbn [tFiles]. by rewrite E.
  - intros j' node' Hs' Hn' Hp'. cbn [map] in Hn'. apply not_elem_of_cons in Hn' as [Hne' Hn'].
    apply Hkeep; [done | done |]. eapply provisioned_kept; [exact Hd | exact Hjn | done | done | exact Hun | done].
Qed.

Lemma network_run e dir caName caSeed dur d jobs (t : Tool FS) :
  writes_succeed → no_links dir → slash ∉ caName → draws e caSeed caName d → ParseDuration dur = Ok d →
  Forall (job_ok caName caSeed) jobs → NoDup (map jName jobs) →
  ∃ ca s o,
    run_all ((e, ca_line caName dur dir) :: map (sign_run_of dir caName) jobs) t =
      (mkTool s o, Ok (0 :: map (λ _, 0) jobs)) ∧
    authority ca caSeed caName (teNow e) (teNow e + d) ∧ on_disk_ca s dir caName caSeed ca ∧
    (fs_mode (tFiles t) (key_path dir caName) = None → owner_only s (key_path dir caName)) ∧
    ∀ j, j ∈ jobs → ∃ node, provisioned s dir ca j node ∧
      (fs_mode (tFiles t) (key_path dir (jName j)) = None → owner_only s (key_path dir (jName j))).
Proof.
  intros Hw Hd Hcn Hdraws Hdur Hjobs Hnd.
  destruct (ca_run e caSeed caName dur d dir t Hw (proj1 (names_separate dir _ Hd Hcn)) Hdraws Hdur)
    as (ca & s1 & o1 & Hrun & Hauth & Hdisk & Hun & Hpriv).
  destruct (jobs_run dir ca caSeed caName _ _ jobs (mkTool s1 o1) Hw Hd Hcn Hauth Hdisk Hjobs Hnd)
    as (s & o & Hrest & Hca & Hall & Hmodes & _).
  exists ca, s, o. split; [cbn [run_all]; by rewrite (gbind_ok _ _ _ _ _ Hrun), (gbind_ok _ _ _ _ _ Hrest) |].
  split; [done |]. split; [done |].
  assert (Hother : ∀ j, j ∈ jobs → caName ≠ jName j ∧ (slash ∉ jName j)).
  { intros j Hj. rewrite Forall_forall in Hjobs. destruct (Hjobs j Hj) as [[? Hne] _]. auto. }
  split.
  - intros Hnone. destruct (Hpriv Hnone (proj2 (names_separate dir _ Hd Hcn))) as (m & Hm & Hz). exists m. split; [| done].
    rewrite Hmodes; [done | done |]. intros Hin%list_elem_of_In%in_map_iff. destruct Hin as (j & Hj & Hin).
    destruct (Hother j) as [Hne _]; [by apply list_elem_of_In | by apply Hne].
  - intros j Hj. destruct (Hall j Hj) as (node & Hp & Hm). exists node. split; [done |]. intros Hnone. apply Hm.
    destruct (Hother j Hj) as [Hne Hs].
    destruct (untouched_name _ _ _ _ _ Hd Hcn Hs Hne Hun) as (_ & _ & E). cbn [tFiles]. by rewrite E.
Qed.

(** ** From files to sessions *)

(** The manager [NewInterface] makes from a loaded PKI. *)
Definition manager_of (pki : PKI) : Manager :=
  NewHandshakeManager (NodeCert pki) {| Private := Curve25519Key pki; Public := X25519PublicKey (NodeCert pki) |}
    (CACerts pki).

Lemma provisioned_cert_ok s dir ca j node : provisioned s dir ca j node → cert_ok node.
Proof.
  intros (pub & _ & Hi & _). split; [apply Parse_PEM_raw, Hi |].
  apply pem_encode_bytes; [by apply (bool_decide_unpack _); vm_compute | apply Hi].
Qed.

Lemma provisioned_keypair s dir ca j node :
  bytes_ok (jRnd j) → length (jRnd j) = 32%nat → provisioned s dir ca j node →
  is_keypair (localKey (manager_of (mkPKI [ca] node (clamp (jRnd j))))).
Proof.
  intros Hb Hl (pub & Hx & Hi & _). cbn. rewrite (issued_key _ _ _ _ _ _ _ _ Hi).
  apply X25519_keypair; [by apply clamp_ok | done].
Qed.

Lemma provisioned_trust s dir ca jA jB nodeA nodeB eB e1 :
  bytes_ok (jRnd jA) → length (jRnd jA) = 32%nat → bytes_ok (jRnd jB) → length (jRnd jB) = 32%nat →
  provisioned s dir ca jA nodeA → provisioned s dir ca jB nodeB →
  valid_at (X509 ca) (nowVerify eB) → valid_at (X509 ca) (nowVerify e1) →
  valid_at (X509 nodeA) (nowVerify eB) → valid_at (X509 nodeB) (nowVerify e1) →
  trust (manager_of (mkPKI [ca] nodeA (clamp (jRnd jA)))) (manager_of (mkPKI [ca] nodeB (clamp (jRnd jB))))
    nodeA nodeB eB e1.
Proof.
  intros HbA HlA HbB HlB HA HB H1 H2 H3 H4. split; try done.
  - by eapply provisioned_keypair.
  - by eapply provisioned_keypair.
  - by eapply provisioned_cert_ok.
  - by eapply provisioned_cert_ok.
  - destruct HA as (pub & _ & Hi & _). by apply Hi.
  - destruct HB as (pub & _ & Hi & _). by apply Hi.
Qed.

End Provision.

(** ** Properties *)

(** C11. Provisioning: [neth-cert ca] followed by [neth-cert sign] for any list of
    nodes with different names (not the CA's, without a path separator) exits with
    status 0 every time and leaves, for every node, a certificate with the
    requested name, address and groups that [neth-cert verify] accepts while it and
    the CA are valid and never afterwards, and files from which the daemon's
    [LoadPKI] loads that certificate, the CA and the private key.  Key files that
    did not exist are readable by their owner only. *)
Theorem provisioning {crypto : CryptoLib} {noise : NoiseLib} {certlib : CertLib} {issue : IssueLib}
    {FS : Type} {files : FileSystem FS} {cert_laws : CertLaws} {issue_laws : IssueLaws}
    {files_laws : FileSystemLaws FS} {dh_laws : DHLaws} e dir caName caSeed dur d jobs (t : Tool FS) :
  writes_succeed (FS := FS) → no_links (files := files) dir → (slash ∉ caName) →
  draws e caSeed caName d → ParseDuration dur = Ok d →
  Forall (job_ok caName caSeed) jobs → NoDup (map jName jobs) →
  ∃ ca t',
    run_all ((e, ca_line caName dur dir) :: map (sign_run_of dir caName) jobs) t = (t', Ok (0 :: map (λ _, 0) jobs)) ∧
    Name ca = caName ∧ IsCA ca = true ∧
    (fs_mode (tFiles t) (key_path dir caName) = None → owner_only (tFiles t') (key_path dir caName)) ∧
    ∀ j, j ∈ jobs → ∃ node,
      Name node = jName j ∧ cVpnIP node = jPrefix j ∧ cGroups node = group_list (rGroups (jRequest j)) ∧
      (∀ e', valid_at (X509 node) (teNow e') → valid_at (X509 ca) (teNow e') →
         (main e' (verify_line (crt_path dir caName) (crt_path dir (jName j))) t').2 = Ok 0) ∧
      (∀ e', ¬ valid_at (X509 node) (teNow e') →
         (main e' (verify_line (crt_path dir caName) (crt_path dir (jName j))) t').2 ≠ Ok 0) ∧
      (∀ peers now now', valid_at (X509 ca) now → valid_at (X509 ca) now' → valid_at (X509 node) now' →
         LoadPKI (fs_read (tFiles t'))
           (mkPKIConfig (crt_path dir caName) (crt_path dir (jName j)) (key_path dir (jName j)) peers) now now' =
         Ok (mkPKI [ca] node (clamp (jRnd j)))) ∧
      (fs_mode (tFiles t) (key_path dir (jName j)) = None → owner_only (tFiles t') (key_path dir (jName j))).
Proof.
  intros Hw Hd Hcn Hdraws Hdur Hjobs Hnd.
  destruct (network_run e dir caName caSeed dur d jobs t Hw Hd Hcn Hdraws Hdur Hjobs Hnd)
    as (ca & s & o & Hrun & Hauth & Hdisk & Hown & Hall).
  exists ca, (mkTool s o). split; [done |]. split; [apply Hauth |]. split; [apply Hauth |].
  split; [done |]. intros j Hj. destruct (Hall j Hj) as [node [(pub & Hx & Hi & Hon) Hmode]]. exists node.
  split; [apply Hi |]. split; [apply Hi |]. split; [apply Hi |].
  assert (Hne : ∀ n, crt_path dir n ≠ []) by (intros n; apply Join_nonempty; by destruct n).
  split; [| split; [| split; [| done]]].
  - intros e' H1 H2. destruct (proj1 (verify_run e' ca node caSeed _ _ _ _ _ _ _ _ _ _ _ (mkTool s o) Hauth Hi (Hne _) (Hne _)
      (proj1 Hdisk) (proj1 Hon)) H1 H2) as [o' ->]. done.
  - intros e' H1. by apply (proj2 (verify_run e' ca node caSeed _ _ _ _ _ _ _ _ _ _ _ (mkTool s o) Hauth Hi (Hne _) (Hne _)
      (proj1 Hdisk) (proj1 Hon))).
  - intros peers now now' H1 H2 H3. by eapply LoadPKI_run.
Qed.

(** Nothing keeps a node from having the CA's name: signing for it into the CA's
    directory replaces the CA's certificate and key, with exit status 0, and the CA
    cannot sign any more. *)
Theorem sign_overwrites_ca {crypto : CryptoLib} {noise : NoiseLib} {certlib : CertLib} {issue : IssueLib}
    {FS : Type} {files : FileSystem FS} {cert_laws : CertLaws} {issue_laws : IssueLaws}
    {files_laws : FileSystemLaws FS} {dh_laws : DHLaws} e r caSeed nodeSeed rnd p d ca caFrom caUntil dir (t : Tool FS) :
  writes_succeed (FS := FS) → separate (files := files) dir (rName r) → signs e r caSeed nodeSeed rnd p d →
  authority ca caSeed (rName r) caFrom caUntil → on_disk_ca (tFiles t) dir (rName r) caSeed ca →
  ∃ t' node, main e (sign_request dir (rName r) r dir) t = (t', Ok 0) ∧
    fs_read (tFiles t') (crt_path dir (rName r)) = Ok (PEM node) ∧ IsCA node = false ∧
    ∀ e' r' dir' p' d', rName r' ≠ [] → ParsePrefix (rIP r') = Ok p' → ParseDuration (rDuration r') = Ok d' →
      main e' (sign_request dir (rName r) r' dir') t' = (t', Ok 1).
Proof.
  intros Hw Hsep Hsigns Hauth Hdisk.
  destruct (sign_run e r caSeed nodeSeed rnd p d ca (rName r) caFrom caUntil dir dir t Hw Hsep Hsigns Hauth Hdisk)
    as (node & pub & s' & o & Hrun & _ & Hi & [Hcrt _] & _).
  exists (mkTool s' o), node. split; [done |]. split; [done |]. split; [apply Hi |].
  intros e' r' dir' p' d' Hname Hip Hdur. unfold main, sign_request, sign_line.
  match goal with |- context [dispatch e' (lit "sign") ?args] =>
    change (dispatch e' (lit "sign") args) with (Some (cmdSign (FS := FS) e' args)) end.
  enough (∃ err, cmdSign e' [lit "--ca-crt"; crt_path dir (rName r); lit "--ca-key"; key_path dir (rName r);
    lit "--name"; rName r'; lit "--ip"; rIP r'; lit "--groups"; rGroups r'; lit "--duration"; rDuration r';
    lit "--out-dir"; dir'] (mkTool s' o) = (mkTool s' o, Fail err)) as [err ->] by done.
  unfold cmdSign. parse_flags. erewrite gbind_ok by reflexivity. cbv beta match.
  match goal with |- context [flag_string ?f (lit "name")] =>
    change (flag_string f (lit "ca-crt")) with (crt_path dir (rName r));
    change (flag_string f (lit "ca-key")) with (key_path dir (rName r));
    change (flag_string f (lit "name")) with (rName r'); change (flag_string f (lit "ip")) with (rIP r') end.
  rewrite !bool_decide_eq_false_2; [cbn [orb] | | done | |].
  2:{ intros E. by rewrite E in Hip. }
  2-3: apply Join_nonempty; by destruct (rName r).
  rewrite Hip. erewrite gbind_ok by reflexivity.
  erewrite (gbind_ok (gwrap _ (ReadFile _))); [| unfold gwrap, ReadFile; cbn [tFiles]; rewrite Hcrt; reflexivity].
  rewrite (Parse_PEM_raw node) by apply Hi. erewrite gbind_ok by reflexivity.
  rewrite (issued_not_ca _ _ _ _ _ _ _ _ Hi). cbn [negb]. by eexists.
Qed.
