(* ===== verification/Tun.v ===== *)
(** * The TUN device: src/tun/tun.go

    The 40-byte [ifreq] and the sequence of system calls of [Open].  The kernel's
    answers are parameters; the state records which descriptors are open and the
    requests made. *)

From S2P Require Import Prelude Bytes Net GoText.

(** ** Linux constants *)

Definition IFNAMSIZ : nat := 16.
Definition AF_INET : Z := 2.
Definition IFF_TUN : Z := 1.
Definition IFF_NO_PI : Z := 4096.
Definition IFF_UP : Z := 1.

(** ** ifreq *)

Definition ifreq0 : bytes := replicate 40 0.

(** [copy(r[i:], src)] for a [src] that fits. *)
Definition copy_at (i : nat) (src r : bytes) : bytes := take i r ++ src ++ drop (i + length src) r.

(** [copy(r[:unix.IFNAMSIZ], name)]: at most 16 bytes. *)
Definition setName (name r : bytes) : bytes := copy_at 0 (take IFNAMSIZ name) r.

Definition getName (r : bytes) : bytes :=
  let b := take IFNAMSIZ r in
  match index_byte 0 b with Some i => take i b | None => b end.

Section Native.

(** Whether the machine is big-endian ([binary.NativeEndian]). *)
Context (big : bool).

Definition native (n : nat) (v : Z) : bytes := if big then be_bytes n v else le_bytes n v.
Definition native_uint (b : bytes) : Z := if big then be_uint b else le_uint b.

Definition setFlags (flags : Z) (r : bytes) : bytes := copy_at IFNAMSIZ (native 2 flags) r.
Definition getFlags (r : bytes) : Z := native_uint (slice IFNAMSIZ (IFNAMSIZ + 2) r).
Definition setMTU (mtu : Z) (r : bytes) : bytes := copy_at IFNAMSIZ (native 4 mtu) r.
Definition setSockaddrIn (ip r : bytes) : bytes :=
  copy_at (IFNAMSIZ + 4) ip (copy_at IFNAMSIZ (native 2 AF_INET) r).

(** [m := ^uint32(0) << (32 - bits)] and its bytes. *)
Definition prefixMask4 (bits : Z) : bytes := be_bytes 4 (u32 (Z.shiftl (Z.ones 32) (32 - bits))).

(** ** Open *)

Inductive Ioctl := TUNSETIFF | SIOCSIFADDR | SIOCSIFNETMASK | SIOCSIFMTU | SIOCGIFFLAGS | SIOCSIFFLAGS.

Record Os := mkOs {
  fdOpen : bool;
  sockOpen : bool;
  requests : list (Ioctl * bytes);
  written : list (bytes * bytes);
}.

(** The kernel: opening the clone device and the control socket, and an ioctl,
    which may write back the structure. *)
Context (openClone openSocket : option error) (kernel : Ioctl → bytes → error + bytes).

Definition open_fd : M Os unit := λ s,
  match openClone with
  | None => (mkOs true (sockOpen s) (requests s) (written s), Ok tt)
  | Some e => (s, Fail e)
  end.

Definition open_sock : M Os unit := λ s,
  match openSocket with
  | None => (mkOs (fdOpen s) true (requests s) (written s), Ok tt)
  | Some e => (s, Fail e)
  end.

Definition close_fd (s : Os) : Os := mkOs false (sockOpen s) (requests s) (written s).
Definition close_sock (s : Os) : Os := mkOs (fdOpen s) false (requests s) (written s).

Definition ioctlPtr (req : Ioctl) (arg : bytes) : M Os bytes := λ s,
  (mkOs (fdOpen s) (sockOpen s) (requests s ++ [(req, arg)]) (written s), of_sum (kernel req arg)).

(** [if err != nil { _ = unix.Close(fd); return fmt.Errorf(...) }] *)
Definition or_close_fd {A} (msg : string) (m : M Os A) : M Os A := λ s,
  match m s with
  | (s', Fail e) => (close_fd s', Fail (Wrapf msg e))
  | r => r
  end.

(** [defer func() { _ = unix.Close(sock) }()] *)
Definition defer_close_sock {A} (m : M Os A) : M Os A := λ s, let '(s', r) := m s in (close_sock s', r).

(** [_ = os.WriteFile(path, data, 0o644)] *)
Definition WriteFile (path data : bytes) : M Os unit := λ s,
  (mkOs (fdOpen s) (sockOpen s) (requests s) (written s ++ [(path, data)]), Ok tt).

Definition rpPath (dev : bytes) : bytes := lit "/proc/sys/net/ipv4/conf/" ++ dev ++ lit "/rp_filter".

(** The part after the control socket is open. *)
Definition configure (ip : bytes) (bits : Z) (devName : bytes) (mtu : Z) : M Os unit :=
  let ifr := setName devName ifreq0 in
  let! _ := or_close_fd "tun: SIOCSIFADDR" (ioctlPtr SIOCSIFADDR (setSockaddrIn ip ifr)) in
  let! _ := or_close_fd "tun: SIOCSIFNETMASK" (ioctlPtr SIOCSIFNETMASK (setSockaddrIn (prefixMask4 bits) ifr)) in
  let! _ := or_close_fd "tun: SIOCSIFMTU" (ioctlPtr SIOCSIFMTU (setMTU mtu ifr)) in
  let! flagsIfr := or_close_fd "tun: SIOCGIFFLAGS" (ioctlPtr SIOCGIFFLAGS ifr) in
  let! _ := or_close_fd "tun: SIOCSIFFLAGS"
              (ioctlPtr SIOCSIFFLAGS (setFlags (Z.lor (getFlags flagsIfr) IFF_UP) flagsIfr)) in
  WriteFile (rpPath devName) (lit "2").

(** The device's name is the result. *)
Definition Open (name cidr : bytes) (mtu : Z) : M Os bytes :=
  let! prefix := glift (go_wrap "tun: parse CIDR" (ParsePrefix cidr)) in
  if negb (Is4 (pIP prefix)) then gfail (Errorf "tun: only IPv4 supported")
  else
    do! gwrap "tun: open" open_fd in
    let tunIfr := setFlags (Z.lor IFF_TUN IFF_NO_PI) (setName name ifreq0) in
    let! tunIfr := or_close_fd "tun: TUNSETIFF" (ioctlPtr TUNSETIFF tunIfr) in
    let devName := getName tunIfr in
    do! or_close_fd "tun: control socket" open_sock in
    defer_close_sock (
      let! ip := glift (As4 (pIP prefix)) in
      do! configure ip (pBits prefix) devName mtu in
      gret devName).

End Native.

(** ** Lemmas on ifreq *)

Lemma length_copy_at i src r : (i + length src ≤ length r)%nat → length (copy_at i src r) = length r.
Proof. intros H. unfold copy_at. rewrite !length_app, length_take, length_drop. lia. Qed.

Lemma slice_copy_at i src r :
  (i + length src ≤ length r)%nat → slice i (i + length src) (copy_at i src r) = src.
Proof.
  intros H. unfold slice, copy_at. replace (i + length src - i)%nat with (length src) by lia.
  rewrite drop_app_length' by (rewrite length_take; lia). by rewrite take_app_length.
Qed.

Lemma native_roundtrip big n v : in_u (8 * Z.of_nat n) v → native_uint big (native big n v) = v.
Proof.
  intros H. unfold native_uint, native. destruct big; [by apply be_uint_be_bytes | by apply le_uint_le_bytes].
Qed.

Lemma length_native big n v : length (native big n v) = n.
Proof. destruct big; [apply length_be_bytes | apply length_le_bytes]. Qed.

Lemma getFlags_setFlags big f r :
  (IFNAMSIZ + 2 ≤ length r)%nat → in_u 16 f → getFlags big (setFlags big f r) = f.
Proof.
  intros Hl Hf. unfold getFlags, setFlags.
  pose proof (slice_copy_at IFNAMSIZ (native big 2 f) r) as Hs. rewrite length_native in Hs.
  rewrite Hs by done. by apply native_roundtrip.
Qed.

Lemma getFlags_range big r : bytes_ok r → (IFNAMSIZ + 2 ≤ length r)%nat → in_u 16 (getFlags big r).
Proof.
  intros Hok Hl. unfold getFlags, native_uint.
  assert (Hs : bytes_ok (slice IFNAMSIZ (IFNAMSIZ + 2) r)) by (unfold slice; by apply Forall_take, Forall_drop).
  assert (Hlen : length (slice IFNAMSIZ (IFNAMSIZ + 2) r) = 2%nat).
  { unfold slice. rewrite length_take, length_drop. lia. }
  destruct big.
  - pose proof (be_uint_bound _ 0 0 Hs ltac:(done) ltac:(lia)) as H. by rewrite Hlen in H.
  - pose proof (le_uint_bound _ Hs) as H. by rewrite Hlen in H.
Qed.

(** The mask sent to the kernel is the mask of the prefix, zero and full length
    included. *)
Lemma prefixMask4_mask bits : 0 ≤ bits ≤ 32 → be_uint (prefixMask4 bits) = mask 32 bits.
Proof.
  intros Hb. unfold prefixMask4. rewrite be_uint_be_bytes by (by apply wrap_in_u).
  apply Z.bits_inj'. intros i Hi. rewrite wrap_testbit, mask_testbit, Z.shiftl_spec by lia.
  destruct (Z.ltb_spec i 32), (Z.leb_spec (32 - bits) i); cbn; try done.
  - rewrite Z.testbit_ones_nonneg by lia. destruct (Z.ltb_spec (i - (32 - bits)) 32); lia || done.
  - by rewrite Z.testbit_neg_r by lia.
Qed.

(** An address is on the link, by that mask, exactly when the prefix contains it. *)
Lemma on_link a b bits :
  in_u 32 a → in_u 32 b → 0 ≤ bits ≤ 32 →
  Z.land b (be_uint (prefixMask4 bits)) = Z.land a (be_uint (prefixMask4 bits)) ↔
  Contains (mkPrefix (Addr4 a) bits) (Addr4 b) = true.
Proof.
  intros Ha Hb Hbits. rewrite prefixMask4_mask, Contains4_bits by done. split.
  - intros H i Hi. assert (Z.testbit (Z.land b (mask 32 bits)) i = Z.testbit (Z.land a (mask 32 bits)) i) as Ht by (by rewrite H).
    rewrite !Z.land_spec, mask_testbit in Ht by lia.
    destruct (Z.leb_spec (32 - bits) i), (Z.ltb_spec i 32); try lia. by rewrite !andb_true_r in Ht.
  - intros H. apply Z.bits_inj'. intros i Hi. rewrite !Z.land_spec, mask_testbit by lia.
    destruct (Z.leb_spec (32 - bits) i), (Z.ltb_spec i 32); cbn; rewrite ?andb_false_r; try done.
    by rewrite H by lia.
Qed.

(** ** Opening the device *)

Section OpenSpec.

Context (big : bool) (openClone openSocket : option error) (kernel : Ioctl → bytes → error + bytes).

(** A step that reports an error has closed the descriptor. *)
Definition closes {A} (P : Os → A → Prop) (x : Os * go A) : Prop :=
  match x with
  | (s', Ok a) => fdOpen s' = true ∧ P s' a
  | (s', Fail _) => fdOpen s' = false
  | (_, Panic) => False
  end.

Lemma closes_bind {A B} (P : Os → A → Prop) (Q : Os → B → Prop) (m : M Os A) (k : A → M Os B) s :
  closes P (m s) → (∀ s' a, fdOpen s' = true → P s' a → closes Q (k a s')) → closes Q (gbind m k s).
Proof.
  unfold gbind. intros Hm Hk. destruct (m s) as [s' [a|e|]]; cbn in *; [| done ..].
  destruct Hm. auto.
Qed.

(** The requests so far, after one more. *)
Lemma ioctl_closes msg req arg s :
  fdOpen s = true →
  closes (λ s' b, kernel req arg = inr b ∧ requests s' = requests s ++ [(req, arg)] ∧ written s' = written s)
    (or_close_fd msg (ioctlPtr kernel req arg) s).
Proof. intros H. unfold or_close_fd, ioctlPtr. by destruct (kernel req arg). Qed.

Lemma configure_closes ip bits dev mtu s :
  fdOpen s = true →
  closes (λ s' _, let ifr := setName dev ifreq0 in
      ∃ flagsIfr, kernel SIOCGIFFLAGS ifr = inr flagsIfr ∧
        requests s' = requests s ++ [(SIOCSIFADDR, setSockaddrIn big ip ifr);
          (SIOCSIFNETMASK, setSockaddrIn big (prefixMask4 bits) ifr); (SIOCSIFMTU, setMTU big mtu ifr); (SIOCGIFFLAGS, ifr);
          (SIOCSIFFLAGS, setFlags big (Z.lor (getFlags big flagsIfr) IFF_UP) flagsIfr)] ∧
        written s' = written s ++ [(rpPath dev, lit "2")])
    (configure big kernel ip bits dev mtu s).
Proof.
  intros H0. unfold configure. eapply closes_bind; [by apply ioctl_closes |]. intros s1 r1 H1 (_ & E1 & W1).
  eapply closes_bind; [by apply ioctl_closes |]. intros s2 r2 H2 (_ & E2 & W2).
  eapply closes_bind; [by apply ioctl_closes |]. intros s3 r3 H3 (_ & E3 & W3).
  eapply closes_bind; [by apply ioctl_closes |]. intros s4 r4 H4 (K4 & E4 & W4).
  eapply closes_bind; [by apply ioctl_closes |]. intros s5 r5 H5 (_ & E5 & W5).
  split; [done |]. exists r4. split; [done |]. cbn [requests written].
  rewrite E5, E4, E3, E2, E1, W5, W4, W3, W2, W1. split; [| done]. by rewrite <- !app_assoc.
Qed.

End OpenSpec.

(** ** The layout of struct ifreq *)

(** Sixteen bytes of name, filled up with zeros, and a union of 24 bytes; numbers in
    the byte order of the machine, addresses in network order. *)
Definition ifr_name (name : bytes) : bytes := take 16 (name ++ replicate 16 0).
Definition host_order (big : bool) (n : nat) (v : Z) : bytes := if big then be_bytes n v else le_bytes n v.

Definition ifr_plain (name : bytes) : bytes := ifr_name name ++ replicate 24 0.
Definition ifr_flags (big : bool) (name : bytes) (flags : Z) : bytes :=
  ifr_name name ++ host_order big 2 flags ++ replicate 22 0.
Definition ifr_mtu (big : bool) (name : bytes) (mtu : Z) : bytes :=
  ifr_name name ++ host_order big 4 mtu ++ replicate 20 0.

(** A sockaddr_in: AF_INET, port 0, the address. *)
Definition ifr_sockaddr (big : bool) (name : bytes) (a : Z) : bytes :=
  ifr_name name ++ (if big then [0; 2] else [2; 0]) ++ [0; 0] ++ be_bytes 4 a ++ replicate 16 0.

(** The name in a structure ends at the first zero byte. *)
Definition ifr_named (ifr dev : bytes) : Prop :=
  ∃ tl, take 16 ifr = dev ++ tl ∧ (0 ∉ dev) ∧ (tl = [] ∨ (∃ tl', tl = 0 :: tl')).

(** The netmask of a prefix length, as a number. *)
Definition netmask (bits : Z) : Z := 2 ^ 32 - 2 ^ (32 - bits).

Lemma length_ifr_name name : length (ifr_name name) = 16%nat.
Proof. unfold ifr_name. rewrite length_take, length_app, length_replicate. lia. Qed.

Lemma setName_layout name : setName name ifreq0 = ifr_plain name.
Proof.
  unfold setName, copy_at, ifr_plain, ifr_name, ifreq0, IFNAMSIZ. change (take 0 ?r) with (@nil Z). cbn [app].
  rewrite (take_app name), take_replicate, drop_replicate, length_take, <- app_assoc, <- replicate_add. do 2 f_equal. lia.
Qed.

(** Writing into the union. *)
Lemma copy_union name pre src n m :
  n = (16 + length pre)%nat → (length src ≤ m)%nat →
  copy_at n src (ifr_name name ++ pre ++ replicate m 0) = ifr_name name ++ pre ++ src ++ replicate (m - length src) 0.
Proof.
  intros -> Hl. unfold copy_at. rewrite !app_assoc. pose proof (length_ifr_name name).
  rewrite take_app_length' by (rewrite length_app; lia).
  rewrite drop_app_ge, drop_replicate by (rewrite length_app; lia). rewrite !length_app, <- !app_assoc. do 4 f_equal. lia.
Qed.

Lemma copy_union_start name src :
  (length src ≤ 24)%nat → copy_at 16 src (ifr_name name ++ replicate 24 0) = ifr_name name ++ src ++ replicate (24 - length src) 0.
Proof. exact (copy_union name [] src 16 24 eq_refl). Qed.

Lemma setFlags_layout big name f : setFlags big f (ifr_plain name) = ifr_flags big name f.
Proof.
  unfold setFlags, ifr_plain, IFNAMSIZ. rewrite (copy_union_start name (native big 2 f)) by (rewrite ?length_native; done || lia).
  by rewrite length_native.
Qed.

Lemma setMTU_layout big name mtu : setMTU big mtu (ifr_plain name) = ifr_mtu big name mtu.
Proof.
  unfold setMTU, ifr_plain, IFNAMSIZ. rewrite (copy_union_start name (native big 4 mtu)) by (rewrite ?length_native; done || lia).
  by rewrite length_native.
Qed.

Lemma setSockaddrIn_layout big name a : setSockaddrIn big (be_bytes 4 a) (ifr_plain name) = ifr_sockaddr big name a.
Proof.
  unfold setSockaddrIn, ifr_plain, IFNAMSIZ. rewrite (copy_union_start name (native big 2 AF_INET)) by (rewrite ?length_native; done || lia).
  rewrite length_native. cbn [app]. change (replicate (24 - 2) 0) with ([0; 0] ++ replicate 20 0).
  rewrite (app_assoc (native big 2 AF_INET)).
  rewrite (copy_union name (native big 2 AF_INET ++ [0; 0]) (be_bytes 4 a))
    by (rewrite ?length_app, ?length_native, ?length_be_bytes; done || lia).
  rewrite length_be_bytes. unfold ifr_sockaddr. rewrite <- !app_assoc. by destruct big.
Qed.

Lemma prefixMask4_netmask bits : 0 ≤ bits ≤ 32 → prefixMask4 bits = be_bytes 4 (netmask bits).
Proof.
  intros Hb. unfold prefixMask4, netmask. f_equal. unfold wrap. rewrite Z.shiftl_mul_pow2, Z.ones_equiv by lia.
  assert (Hp : 1 ≤ 2 ^ (32 - bits) ≤ 2 ^ 32) by (split; [| apply Z.pow_le_mono_r; lia]; pose proof (Z.pow_pos_nonneg 2 (32 - bits)); lia).
  set (k := 2 ^ (32 - bits)) in *. symmetry. apply (Z.mod_unique_pos _ _ (k - 1)); [lia |]. nia.
Qed.

Lemma index_byte_split c s :
  match index_byte c s with
  | Some i => (c ∉ take i s) ∧ ∃ tl, drop i s = c :: tl
  | None => c ∉ s
  end.
Proof.
  induction s as [|x s IH]; cbn [index_byte]; [apply not_elem_of_nil |].
  destruct (Z.eqb_spec x c) as [->|Hne]; [split; [apply not_elem_of_nil | by exists s] |].
  destruct (index_byte c s) as [i|]; cbn; rewrite not_elem_of_cons; [destruct IH as [H1 H2]; by split | by split].
Qed.

Lemma getName_named ifr : ifr_named ifr (getName ifr).
Proof.
  unfold getName, ifr_named, IFNAMSIZ. pose proof (index_byte_split 0 (take 16 ifr)) as H.
  destruct (index_byte 0 (take 16 ifr)) as [i|].
  - destruct H as [H1 [tl H2]]. exists (drop i (take 16 ifr)). rewrite take_drop. eauto.
  - exists []. rewrite app_nil_r. auto.
Qed.

Lemma le_bytes_le_uint b : bytes_ok b → le_bytes (length b) (le_uint b) = b.
Proof.
  induction 1 as [|x b Hx Hb IH]; [done |]. cbn [length le_bytes le_uint]. rewrite Z.lor_comm, lor_shiftl_byte by done.
  unfold wrap, in_u in *. rewrite Z.shiftr_div_pow2 by lia. change (2 ^ 8) with 256 in *. f_equal.
  - rewrite Z.add_comm, Z.mod_add by lia. by apply Z.mod_small.
  - rewrite Z.add_comm, Z.div_add, Z.div_small by lia. exact IH.
Qed.

Lemma getFlags_bytes big ifr :
  bytes_ok ifr → (18 ≤ length ifr)%nat → slice 16 18 ifr = host_order big 2 (getFlags big ifr).
Proof.
  intros Hok Hl. unfold getFlags, native_uint, host_order, IFNAMSIZ. cbn [Nat.add]. set (b := slice 16 18 ifr).
  assert (Hb : bytes_ok b) by (unfold b, slice; by apply Forall_take, Forall_drop).
  assert (Hlen : length b = 2%nat) by (unfold b, slice; rewrite length_take, length_drop; lia). rewrite <- Hlen.
  destruct big; symmetry; [by apply be_bytes_be_uint | by apply le_bytes_le_uint].
Qed.

Lemma prefixMask4_value bits : 0 ≤ bits ≤ 32 → be_uint (prefixMask4 bits) = netmask bits.
Proof.
  intros Hb. rewrite prefixMask4_netmask by done. apply be_uint_be_bytes. unfold netmask, in_u.
  pose proof (Z.pow_pos_nonneg 2 (32 - bits)). assert (2 ^ (32 - bits) ≤ 2 ^ 32) by (apply Z.pow_le_mono_r; lia). lia.
Qed.

Lemma setFlags_kept big f ifr :
  (18 ≤ length ifr)%nat → setFlags big f ifr = take 16 ifr ++ host_order big 2 f ++ drop 18 ifr.
Proof. intros _. unfold setFlags, copy_at. by rewrite length_native. Qed.

(** ** Properties *)

(** C36. Opening the TUN device, over any answers of a kernel that writes back
    structures of the same size: an error leaves neither the device nor the
    control socket open; success leaves the device open and the socket closed,
    and the kernel was given exactly these structures, byte by byte, in this order:
    the requested name with IFF_TUN and IFF_NO_PI; and, under the name the kernel
    chose, the address of the prefix, its netmask (under which an address is on the
    link exactly when the prefix contains it), the MTU, a query for the flags, and
    the answer of that query with IFF_UP added to its flags and nothing else changed.
    The file written afterwards is the device's rp_filter. *)
Theorem Open_spec big openClone openSocket kernel name cidr mtu :
  (∀ req arg b, kernel req arg = inr b → length b = 40%nat ∧ bytes_ok b) →
  match Open big openClone openSocket kernel name cidr mtu (mkOs false false [] []) with
  | (s', Ok dev) =>
      fdOpen s' = true ∧ sockOpen s' = false ∧
      ∃ a bits tunIfr flagsIfr flags,
        ParsePrefix cidr = Ok (mkPrefix (Addr4 a) bits) ∧
        kernel TUNSETIFF (ifr_flags big name 4097) = inr tunIfr ∧ ifr_named tunIfr dev ∧
        kernel SIOCGIFFLAGS (ifr_plain dev) = inr flagsIfr ∧
        in_u 16 flags ∧ slice 16 18 flagsIfr = host_order big 2 flags ∧
        requests s' =
          [(TUNSETIFF, ifr_flags big name 4097); (SIOCSIFADDR, ifr_sockaddr big dev a);
           (SIOCSIFNETMASK, ifr_sockaddr big dev (netmask bits)); (SIOCSIFMTU, ifr_mtu big dev mtu);
           (SIOCGIFFLAGS, ifr_plain dev);
           (SIOCSIFFLAGS, take 16 flagsIfr ++ host_order big 2 (Z.lor flags 1) ++ drop 18 flagsIfr)] ∧
        (∀ b, in_u 32 b → (Z.land b (netmask bits) = Z.land a (netmask bits) ↔
                           Contains (mkPrefix (Addr4 a) bits) (Addr4 b) = true)) ∧
        written s' = [(lit "/proc/sys/net/ipv4/conf/" ++ dev ++ lit "/rp_filter", lit "2")]
  | (s', Fail _) => fdOpen s' = false ∧ sockOpen s' = false
  | (_, Panic) => False
  end.
Proof.
  intros Hk. unfold Open. pose proof (ParsePrefix_yields cidr) as Hp. pose proof (ParsePrefix_valid cidr) as Hv.
  destruct (ParsePrefix cidr) as [[ip bits]|e|]; [| done | done].
  erewrite gbind_ok by reflexivity. cbn [pIP pBits]. destruct ip as [|a|a z]; [done | | done]. cbn [Is4 negb].
  destruct Hp as (Ha & Hb & _). specialize (Hv _ eq_refl). cbn in Ha, Hb, Hv.
  unfold gwrap, open_fd. destruct openClone as [e|]; [done |]. erewrite gbind_ok by reflexivity.
  rewrite setName_layout, setFlags_layout. change (Z.lor IFF_TUN IFF_NO_PI) with 4097.
  set (req0 := ifr_flags big name 4097). unfold or_close_fd at 1, ioctlPtr at 1. unfold gbind at 1.
  destruct (kernel TUNSETIFF req0) as [e|tunIfr] eqn:E0; [done |]. cbn [of_sum].
  unfold gbind at 1, or_close_fd at 1, open_sock. destruct openSocket as [e|]; [done |].
  unfold defer_close_sock. cbn [As4]. erewrite gbind_ok by reflexivity.
  set (s1 := mkOs _ _ _ _).
  pose proof (configure_closes big kernel (be_bytes 4 a) bits (getName tunIfr) mtu s1 eq_refl) as Hc.
  unfold gbind. destruct (configure _ _ _ _ _ _ s1) as [s2 [[]|e|]]; cbn [closes] in Hc; [| done | done].
  cbv zeta in Hc. rewrite setName_layout in Hc. destruct Hc as (Hfd & flagsIfr & Kf & Hreq & Hw). destruct (Hk _ _ _ Kf) as [Hl Hok].
  split; [done |]. split; [done |].
  exists a, bits, tunIfr, flagsIfr, (getFlags big flagsIfr). split_and!; [done | done | apply getName_named | done | | | | | done].
  - apply getFlags_range; [done | rewrite Hl; cbv; lia].
  - apply getFlags_bytes; [done | rewrite Hl; lia].
  - cbn. rewrite Hreq. rewrite prefixMask4_netmask, !setSockaddrIn_layout, setMTU_layout, setFlags_kept by (rewrite ?Hl; lia). done.
  - intros b Hb'. rewrite <- (prefixMask4_value bits) by lia. apply on_link; [done | done | lia].
Qed.

(** A kernel that accepts every request and leaves the structure as it is. *)
Lemma Open_spec_witness :
  let kernel := λ (_ : Ioctl) (b : bytes), if decide (length b = 40%nat ∧ bytes_ok b) then inr b else inl (Errorf "EINVAL") in
  (Open false None None kernel (lit "neth0") (lit "10.0.0.1/24") 1300 (mkOs false false [] [])).1.(fdOpen) = true.
Proof.
  intros kernel.
  assert (Hk : ∀ req arg b, kernel req arg = inr b → length b = 40%nat ∧ bytes_ok b).
  { intros req arg b. unfold kernel. case_decide as H; [| done]. by intros [= <-]. }
  pose proof (Open_spec false None None kernel (lit "neth0") (lit "10.0.0.1/24") 1300 Hk) as H.
  destruct (Open _ _ _ _ _ _ _ _) as [s' [dev|e|]] eqn:E; [apply H | | done].
  exfalso. vm_compute in E. discriminate.
Defined.
