(* ===== verification/Udp.v ===== *)
(** * The UDP socket: src/udp/conn.go

    [Listen] with the control callback that sets SO_REUSEPORT.  What
    [net.ListenConfig.ListenPacket] does around the callback, as the net package
    documents it, is written out over the system calls it makes: resolve the
    address, create a socket, run the callback, bind; a socket that is not
    returned is closed. *)

From S2P Require Import Prelude Net GoText GoFlag.

(** ** System calls *)

Inductive Syscall :=
| SysSocket (fd : Z)
| SysSetsockopt (fd level opt value : Z)
| SysBind (fd : Z) (addr : UDPAddr)
| SysClose (fd : Z).

(** The answers of the operating system. *)
Record UdpKernel := mkUdpKernel {
  (** resolving "host:port" for udp4 *)
  ukResolve : bytes → error + UDPAddr;
  ukSocket : error + Z;
  (** the error of [RawConn.Control] itself, which then does not call back *)
  ukControl : option error;
  ukSetsockopt : Z → Z → Z → Z → option error;
  (** binding, with the local address obtained *)
  ukBind : Z → UDPAddr → error + UDPAddr;
}.

(** [net.UDPConn]: its descriptor and local address. *)
Record Conn := mkConn { inner_fd : Z; inner_addr : UDPAddr }.

Section Udp.

Context (k : UdpKernel).

Abbreviation Calls := (list Syscall).
Definition syscall {A} (c : Syscall) (r : go A) : M Calls A := λ s, (s ++ [c], r).

Definition SOL_SOCKET : Z := 1.
Definition SO_REUSEPORT : Z := 15.

(** [c.Control(func(fd) { setErr = SetsockoptInt(...) })]: its own error first,
    then the one the callback left. *)
Definition setReusePort (fd : Z) : M Calls unit :=
  match ukControl k with
  | Some e => gfail e
  | None => syscall (SysSetsockopt fd SOL_SOCKET SO_REUSEPORT 1) (of_err (ukSetsockopt k fd SOL_SOCKET SO_REUSEPORT 1))
  end.

(** [lc.ListenPacket(ctx, "udp4", addr)] with [lc.Control = control]. *)
Definition ListenPacket (control : Z → M Calls unit) (addr : bytes) : M Calls Conn :=
  let! a := glift (of_sum (ukResolve k addr)) in
  let! fd := (match ukSocket k with inl e => gfail e | inr fd => syscall (SysSocket fd) (Ok fd) end) in
  λ s,
    match gbind (control fd) (λ _, syscall (SysBind fd a) (of_sum (ukBind k fd a))) s with
    | (s', Ok l) => (s', Ok (mkConn fd l))
    | (s', Fail e) => (s' ++ [SysClose fd], Fail e)
    | (s', Panic) => (s', Panic)
    end.

(** [fmt.Sprintf("%s:%d", host, port)] *)
Definition listen_addr (host : bytes) (port : Z) : bytes := host ++ [colon] ++ Itoa port.

Definition Listen (host : bytes) (port : Z) : M Calls Conn :=
  gwrap "udp: listen" (ListenPacket setReusePort (listen_addr host port)).

Definition LocalAddr (c : Conn) : UDPAddr := inner_addr c.

Definition Close (c : Conn) : M Calls unit := syscall (SysClose (inner_fd c)) (Ok tt).

End Udp.

(** The calls of [Listen], on every path. *)
Lemma Listen_calls k host port s :
  match Listen k host port s with
  | (s', Ok c) => ∃ a, ukResolve k (listen_addr host port) = inr a ∧ ukBind k (inner_fd c) a = inr (LocalAddr c) ∧
      ukSetsockopt k (inner_fd c) SOL_SOCKET SO_REUSEPORT 1 = None ∧
      s' = s ++ [SysSocket (inner_fd c); SysSetsockopt (inner_fd c) SOL_SOCKET SO_REUSEPORT 1; SysBind (inner_fd c) a]
  | (s', Fail _) => s' = s ∨ ∃ fd mid, s' = s ++ [SysSocket fd] ++ mid ++ [SysClose fd] ∧
      (mid = [] ∨ mid = [SysSetsockopt fd SOL_SOCKET SO_REUSEPORT 1] ∨
       ∃ a, mid = [SysSetsockopt fd SOL_SOCKET SO_REUSEPORT 1; SysBind fd a] ∧
         ukSetsockopt k fd SOL_SOCKET SO_REUSEPORT 1 = None)
  | (_, Panic) => False
  end.
Proof.
  unfold Listen, gwrap, ListenPacket.
  destruct (ukResolve k _) as [e|a] eqn:Er; [by left |]. erewrite gbind_ok by reflexivity.
  destruct (ukSocket k) as [e|fd] eqn:Es; [by left |]. erewrite gbind_ok by reflexivity.
  unfold setReusePort, gbind, syscall. destruct (ukControl k) as [e|]; cbn [go_wrap gfail].
  { right. exists fd, []. split; [by rewrite <- app_assoc | by left]. }
  destruct (ukSetsockopt k fd SOL_SOCKET SO_REUSEPORT 1) as [e|] eqn:Eo; cbn [of_err go_wrap].
  { right. exists fd, [SysSetsockopt fd SOL_SOCKET SO_REUSEPORT 1]. split; [by rewrite <- !app_assoc | auto]. }
  destruct (ukBind k fd a) as [e|l] eqn:Eb; cbn [of_sum go_wrap].
  - right. exists fd, [SysSetsockopt fd SOL_SOCKET SO_REUSEPORT 1; SysBind fd a]. split; [by rewrite <- !app_assoc |]. eauto.
  - exists a. split_and!; try done. by rewrite <- !app_assoc.
Qed.

(** ** Properties *)

(** [Listen] returns a socket only after SO_REUSEPORT was set on it and it was
    bound to the resolved "host:port", in that order; on every failure a socket
    that was created is closed, and nothing was bound unless the option was set. *)
Theorem Listen_spec k host port s :
  match Listen k host port s with
  | (s', Ok c) => ∃ a, ukResolve k (listen_addr host port) = inr a ∧ ukBind k (inner_fd c) a = inr (LocalAddr c) ∧
      ukSetsockopt k (inner_fd c) SOL_SOCKET SO_REUSEPORT 1 = None ∧
      s' = s ++ [SysSocket (inner_fd c); SysSetsockopt (inner_fd c) SOL_SOCKET SO_REUSEPORT 1; SysBind (inner_fd c) a]
  | (s', Fail _) => s' = s ∨ ∃ fd mid, s' = s ++ [SysSocket fd] ++ mid ++ [SysClose fd] ∧
      (mid = [] ∨ mid = [SysSetsockopt fd SOL_SOCKET SO_REUSEPORT 1] ∨
       ∃ a, mid = [SysSetsockopt fd SOL_SOCKET SO_REUSEPORT 1; SysBind fd a] ∧
         ukSetsockopt k fd SOL_SOCKET SO_REUSEPORT 1 = None)
  | (_, Panic) => False
  end.
Proof. apply Listen_calls. Qed.
