(* ===== verification/Interface.v ===== *)
(** * The daemon's data plane: src/interface.go

    [Interface] ties the parts together.  Its mutable state, next to that of the
    handshake manager, is a [Daemon]; the world of src/handshake_manager.go with a
    [Daemon] as the rest is the state the packet handlers run in.  Here a handler
    runs without interruption; [Threads] has the same handlers section by section. *)

From S2P Require Import Prelude Bytes Header Net Replay GoText Config Firewall Messages External Cert.
From S2P Require Import NoiseUtil HostMap Handshake HandshakeManager Punchy LightHouse Ipv4.

(** ** State *)

Section Interface.

Context {crypto : CryptoLib} {noise : NoiseLib} {proto : ProtoLib} {certlib : CertLib}.

Record Daemon := mkDaemon {
  ifHosts : gmap nat HostInfo;
  ifHostMap : HostMap;
  ifFw : Firewall;
  ifLighthouse : LightHouse;
  ifPunchy : option Punchy;
  ifPeerCerts : gmap Addr Certificate;
}.

Abbreviation W := (World Daemon).

Definition set_rest (d : Daemon) (w : W) : W := mkWorld (mgr w) (out w) d.

Definition get_daemon : M W Daemon := λ w, (w, Ok (rest w)).

(** Running a computation on the session store, or on the firewall. *)
Definition on_hosts {A} (m : M (gmap nat HostInfo) A) : M W A := λ w,
  let d := rest w in
  let '(s, r) := m (ifHosts d) in
  (set_rest (mkDaemon s (ifHostMap d) (ifFw d) (ifLighthouse d) (ifPunchy d) (ifPeerCerts d)) w, r).

Definition on_fw {A} (f : Firewall → Firewall * A) : M W A := λ w,
  let d := rest w in
  let '(fw, r) := f (ifFw d) in
  (set_rest (mkDaemon (ifHosts d) (ifHostMap d) fw (ifLighthouse d) (ifPunchy d) (ifPeerCerts d)) w, Ok r).

Definition set_hostmap (m : HostMap) : M W unit := λ w,
  let d := rest w in
  (set_rest (mkDaemon (ifHosts d) m (ifFw d) (ifLighthouse d) (ifPunchy d) (ifPeerCerts d)) w, Ok tt).

(** [&HostInfo{...}] *)
Definition alloc_host (h : HostInfo) : M W nat := λ w,
  let d := rest w in
  let l := fresh_loc (ifHosts d) in
  (set_rest (mkDaemon (<[l := h]> (ifHosts d)) (ifHostMap d) (ifFw d) (ifLighthouse d) (ifPunchy d)
               (ifPeerCerts d)) w, Ok l).

(** Dereferencing a session pointer. *)
Definition load_host (l : nat) : M W HostInfo := λ w,
  (w, match ifHosts (rest w) !! l with Some h => Ok h | None => Panic end).

(** [tunDev.Write] *)
Definition tunWrite (e : Env) (data : bytes) : M W unit := λ w,
  (mkWorld (mgr w) (out w ++ [TUNWrite data]) (rest w), of_err (tunResult e data)).

(** [AddPeerCert], and the same assignment inside [onHandshakeComplete]. *)
Definition AddPeerCert (ip : Addr) (c : Certificate) : M W unit := λ w,
  let d := rest w in
  (set_rest (mkDaemon (ifHosts d) (ifHostMap d) (ifFw d) (ifLighthouse d) (ifPunchy d)
               (<[ip := c]> (ifPeerCerts d))) w, Ok tt).

Definition getPeerCert (ip : Addr) (d : Daemon) : option Certificate := ifPeerCerts d !! ip.

Definition with_lighthouse (l : LightHouse) (w : W) : W :=
  let d := rest w in
  set_rest (mkDaemon (ifHosts d) (ifHostMap d) (ifFw d) l (ifPunchy d) (ifPeerCerts d)) w.

#[global] Instance world_lighthouse : LightHouseState W.
Proof.
  refine {| the_lh w := ifLighthouse (rest w); with_lh := with_lighthouse |}.
  - done.
  - by intros [? ? []].
  - done.
Defined.

(** ** Sending *)

Definition sendToRemote (e : Env) (l : nat) (plaintext : bytes) : M W unit :=
  let! counter := on_hosts (host_NextCounter l) in
  let! host := load_host l in
  let hdrBytes := Bytes (mkHeader Version TypeMessage 0 (RemoteIndex host) counter) in
  match Encrypt (SendCipher host) counter hdrBytes plaintext with
  | Ok ct => gignore (WriteTo e (hdrBytes ++ ct) (Remote host))
  | Fail _ => gret tt
  | Panic => gpanic
  end.

Definition lighthouseSendFn (e : Env) (data : bytes) (to : UDPAddr) : M W unit := gignore (WriteTo e data to).

(** The loop sends the packets queued during the handshake. *)
Definition onHandshakeComplete (e : Env) (h : HostInfo) (pending : list bytes) : M W unit :=
  let! l := alloc_host h in
  let! d := get_daemon in
  let! hm := glift (Add (ifHosts d) l (ifHostMap d)) in
  do! set_hostmap hm in
  do! (match hCert h with Some c => AddPeerCert (VpnIP h) c | None => gret tt end) in
  gfor pending (λ pkt, sendToRemote e l pkt).

(** ** Packets from the TUN device *)

(** Groups of a session's certificate; nil without one. *)
Definition host_groups (h : option HostInfo) : list bytes :=
  match h with
  | Some h => match hCert h with Some c => cGroups c | None => [] end
  | None => []
  end.

Definition lookup_host (o : option nat) : M W (option (nat * HostInfo)) :=
  match o with
  | None => gret None
  | Some l => let! h := load_host l in gret (Some (l, h))
  end.

Definition consumeInsidePacket (e : Env) (pkt : bytes) : M W unit :=
  let! dst := glift (dstIPFromIPv4 pkt) in
  match dst with
  | None => gret tt
  | Some dstIP =>
      let! d := get_daemon in
      let! host := lookup_host (GetByVpnIP dstIP (ifHostMap d)) in
      let dstGroups := host_groups (snd <$> host) in
      let! proto := glift (protoFromIPv4 pkt) in
      let! dstPort := glift (dstPortFromIPv4 pkt) in
      let! allowed := on_fw (AllowOutbound dstIP dstGroups dstPort proto (nowTrack e)) in
      if negb allowed then gret tt
      else
        match host with
        | Some (l, _) => sendToRemote e l pkt
        | None =>
            match getPeerCert dstIP d with
            | None => QueuePacket dstIP pkt
            | Some remoteCert =>
                match GetAddrs dstIP (ifLighthouse d) with
                | [] =>
                    do! QueryPeer (lighthouseSendFn e) dstIP in
                    QueuePacket dstIP pkt
                | addr :: _ => λ w,
                    match StartHandshake e dstIP addr remoteCert w with
                    | (w', Ok _) => QueuePacket dstIP pkt w'
                    | (w', Fail _) => (w', Ok tt)
                    | (w', Panic) => (w', Panic)
                    end
                end
            end
        end
  end.

(** ** Packets from the UDP socket *)

Definition handleMessage (e : Env) (pkt : bytes) (hdr : Header) (from : UDPAddr) : M W unit :=
  let! d := get_daemon in
  match GetByIndex (hRemoteIndex hdr) (ifHostMap d) with
  | None =>
      match ifPunchy d with
      | Some p => RespondToPunch (WriteTo e) p from
      | None => gret tt
      end
  | Some l =>
      let! replayed := on_hosts (host_CheckReplay l (hMessageCounter hdr)) in
      if (replayed : bool) then gret tt
      else
        let! host := load_host l in
        match Decrypt (RecvCipher host) (hMessageCounter hdr) (take HeaderLen pkt) (drop HeaderLen pkt) with
        | Fail _ => gret tt
        | Panic => gpanic
        | Ok plaintext =>
            let! src := glift (srcIPFromIPv4 plaintext) in
            match src with
            | None => gret tt
            | Some srcIP =>
                let srcGroups := host_groups (Some host) in
                let! inProto := glift (protoFromIPv4 plaintext) in
                let! dstPort := glift (dstPortFromIPv4 plaintext) in
                let! allowed := on_fw (AllowInbound srcIP srcGroups dstPort inProto (nowTrack e)) in
                if negb allowed then gret tt else gignore (tunWrite e plaintext)
            end
        end
  end.

Definition handleHandshake (e : Env) (pkt : bytes) (hdr : Header) (from : UDPAddr) : M W unit :=
  if hSubType hdr =? HandshakeInitiation then
    gignore (HandleStage0 (onHandshakeComplete e) e pkt from)
  else if hSubType hdr =? HandshakeResponse then
    gignore (HandleStage1 (onHandshakeComplete e) e pkt)
  else gret tt.

(** [ord] is the runtime's iteration order of the address store. *)
Definition handleLightHouse (ord : gmap Addr (list UDPAddr) → list (Addr * list UDPAddr))
    (e : Env) (pkt : bytes) (hdr : Header) (from : UDPAddr) : M W unit :=
  let! d := get_daemon in
  let! host := lookup_host (GetByIndex (hRemoteIndex hdr) (ifHostMap d)) in
  let sender := match host with
                | Some (_, h) => Some (VpnIP h)
                | None => VpnIPByAddr (ord (addrStore (ifLighthouse d))) from
                end in
  match sender with
  | None => gret tt
  | Some senderVPN =>
      match unmarshal_lighthouse (drop HeaderLen pkt) with
      | Ok msg => HandleMessage (lighthouseSendFn e) (WriteTo e) msg senderVPN
      | Fail _ => gret tt
      | Panic => gpanic
      end
  end.

Definition handleTest (e : Env) (from : UDPAddr) : M W unit :=
  gignore (WriteTo e (Bytes (mkHeader Version TypeTest 0 0 0)) from).

Definition handleCloseTunnel (hdr : Header) : M W unit :=
  let! d := get_daemon in
  let! host := lookup_host (GetByIndex (hRemoteIndex hdr) (ifHostMap d)) in
  match host with
  | None => gret tt
  | Some (_, h) =>
      let! hm := glift (Remove (ifHosts d) (VpnIP h) (ifHostMap d)) in
      set_hostmap hm
  end.

Definition consumeOutsidePacket (ord : gmap Addr (list UDPAddr) → list (Addr * list UDPAddr))
    (e : Env) (pkt : bytes) (from : UDPAddr) : M W unit :=
  if decide (length pkt < HeaderLen)%nat then gret tt
  else
    match Parse pkt with
    | Fail _ => gret tt
    | Panic => gpanic
    | Ok hdr =>
        if hType hdr =? TypeMessage then handleMessage e pkt hdr from
        else if hType hdr =? TypeHandshake then handleHandshake e pkt hdr from
        else if hType hdr =? TypeLightHouse then handleLightHouse ord e pkt hdr from
        else if hType hdr =? TypeTest then handleTest e from
        else if hType hdr =? TypeCloseTunnel then handleCloseTunnel hdr
        else gret tt
    end.

End Interface.

(** ** Effects of the primitives *)

Section Facts.

Context {crypto : CryptoLib} {noise : NoiseLib} {proto : ProtoLib} {certlib : CertLib}.

Definition with_hosts (s : gmap nat HostInfo) (w : World Daemon) : World Daemon :=
  let d := rest w in
  set_rest (mkDaemon s (ifHostMap d) (ifFw d) (ifLighthouse d) (ifPunchy d) (ifPeerCerts d)) w.

Definition with_fw (f : Firewall) (w : World Daemon) : World Daemon :=
  let d := rest w in
  set_rest (mkDaemon (ifHosts d) (ifHostMap d) f (ifLighthouse d) (ifPunchy d) (ifPeerCerts d)) w.

Definition emit (o : list Output) (w : World Daemon) : World Daemon := mkWorld (mgr w) (out w ++ o) (rest w).

(** The session at [l] with the packet counter set. *)
Definition put_host (l : nat) (h : HostInfo) (w : World Daemon) : World Daemon :=
  with_hosts (<[l := h]> (ifHosts (rest w))) w.

(** The datagram of a data packet. *)
Definition message_wire (h : HostInfo) (c : Z) (plaintext : bytes) : bytes :=
  let hdr := Bytes (mkHeader Version TypeMessage 0 (RemoteIndex h) c) in
  hdr ++ Seal (SendCipher h) (CounterNonce c) plaintext hdr.

Lemma sendToRemote_eq e l p w h :
  ifHosts (rest w) !! l = Some h →
  let c := u64 (Counter h + 1) in
  sendToRemote e l p w =
    (emit [UDPSend (message_wire h c p) (Remote h)] (put_host l (set_Counter c h) w), Ok tt).
Proof.
  intros Hl c. unfold sendToRemote.
  assert (Hn : on_hosts (host_NextCounter l) w = (put_host l (set_Counter c h) w, Ok c)).
  { unfold on_hosts, host_NextCounter. by rewrite Hl. }
  rewrite (gbind_ok _ _ _ _ _ Hn).
  assert (Hh : load_host l (put_host l (set_Counter c h) w) =
    (put_host l (set_Counter c h) w, Ok (set_Counter c h))).
  { unfold load_host. cbn. by rewrite lookup_insert_eq. }
  rewrite (gbind_ok _ _ _ _ _ Hh). unfold Encrypt, gignore, WriteTo.
  by destruct (udpResult _ _ _).
Qed.

(** The datagrams of a run of packets, with the counters they draw. *)
Fixpoint send_trace (h : HostInfo) (c : Z) (pkts : list bytes) : list Output :=
  match pkts with
  | [] => []
  | p :: pkts' => let c := u64 (c + 1) in UDPSend (message_wire h c p) (Remote h) :: send_trace h c pkts'
  end.

Lemma send_trace_set h c c' pkts : send_trace (set_Counter c' h) c pkts = send_trace h c pkts.
Proof. revert c. induction pkts as [|p pkts IH]; intros c; [done |]. cbn. by rewrite IH. Qed.

Lemma emit_nil w : emit [] w = w.
Proof. destruct w. unfold emit. cbn. by rewrite app_nil_r. Qed.

Lemma gfor_sendToRemote e l pkts : ∀ w h,
  ifHosts (rest w) !! l = Some h →
  ∃ h', same_identity h h' ∧ hWindow h' = hWindow h ∧
    gfor pkts (λ p, sendToRemote e l p) w = (emit (send_trace h (Counter h) pkts) (put_host l h' w), Ok tt).
Proof.
  induction pkts as [|p pkts IH]; intros w h Hl; cbn [gfor send_trace].
  - exists h. split_and!; [unfold same_identity; auto 10 | done |].
    rewrite emit_nil. unfold put_host, with_hosts. rewrite insert_id by done. by destruct w as [? ? []].
  - rewrite (gbind_ok _ _ _ _ _ (sendToRemote_eq e l p w h Hl)).
    set (c := u64 (Counter h + 1)).
    destruct (IH (emit [UDPSend (message_wire h c p) (Remote h)] (put_host l (set_Counter c h) w)) (set_Counter c h))
      as (h' & Hid & Hw & Hrun); [cbn; by rewrite lookup_insert_eq |].
    exists h'. split_and!; [exact Hid | done |]. rewrite Hrun, send_trace_set.
    unfold emit, put_host, with_hosts, set_rest. cbn. by rewrite insert_insert_eq, <- app_assoc.
Qed.

(** ** Invariant of the daemon state *)

(** The registry is consistent and every session's window represents the
    history of the counters it accepted. *)
Record Daemon_ok (d : Daemon) : Prop := {
  daemon_hostmap : HostMap_ok (ifHosts d) (ifHostMap d);
  daemon_windows l h : ifHosts d !! l = Some h → ∃ hist, represents hist (hWindow h);
}.

Lemma Daemon_ok_update d l h h' :
  Daemon_ok d → ifHosts d !! l = Some h → same_identity h h' → (∃ hist, represents hist (hWindow h')) →
  Daemon_ok (mkDaemon (<[l := h']> (ifHosts d)) (ifHostMap d) (ifFw d) (ifLighthouse d) (ifPunchy d) (ifPeerCerts d)).
Proof.
  intros [H1 H2] Hl Hid Hw. split; cbn.
  - eapply HostMap_ok_extends; [by eapply extends_update | done].
  - intros l0 h0 [[<- <-] | [_ ?]]%lookup_insert_Some; eauto.
Qed.

(** Where a completed handshake leaves the daemon before the queue is sent. *)
Definition session_added (h : HostInfo) (d : Daemon) : Daemon :=
  let l := fresh_loc (ifHosts d) in
  mkDaemon (<[l := h]> (ifHosts d))
    {| byVpnIP := <[VpnIP h := l]> (byVpnIP (ifHostMap d)); byIndex := <[Index h := l]> (byIndex (ifHostMap d)) |}
    (ifFw d) (ifLighthouse d) (ifPunchy d)
    (match hCert h with Some c => <[VpnIP h := c]> (ifPeerCerts d) | None => ifPeerCerts d end).

Lemma onHandshakeComplete_eq e h pkts w :
  ∃ h', same_identity h h' ∧ hWindow h' = hWindow h ∧
    onHandshakeComplete e h pkts w =
      (emit (send_trace h (Counter h) pkts)
         (put_host (fresh_loc (ifHosts (rest w))) h' (set_rest (session_added h (rest w)) w)), Ok tt).
Proof.
  unfold onHandshakeComplete. set (l := fresh_loc (ifHosts (rest w))).
  do 2 erewrite gbind_ok by reflexivity. fold l.
  assert (Ha : Add (<[l := h]> (ifHosts (rest w))) l (ifHostMap (rest w)) =
    Ok {| byVpnIP := <[VpnIP h := l]> (byVpnIP (ifHostMap (rest w)));
          byIndex := <[Index h := l]> (byIndex (ifHostMap (rest w))) |}).
  { unfold Add. by rewrite lookup_insert_eq. }
  cbn [rest set_rest ifHosts ifHostMap]. rewrite Ha. do 2 erewrite gbind_ok by reflexivity.
  assert (Hc : ∀ w0, (match hCert h with Some c => AddPeerCert (VpnIP h) c | None => gret tt end) w0 =
    (set_rest (mkDaemon (ifHosts (rest w0)) (ifHostMap (rest w0)) (ifFw (rest w0)) (ifLighthouse (rest w0))
      (ifPunchy (rest w0)) (match hCert h with Some c => <[VpnIP h := c]> (ifPeerCerts (rest w0))
                            | None => ifPeerCerts (rest w0) end)) w0, Ok tt)).
  { intros [? ? []]. by destruct (hCert h). }
  erewrite gbind_ok by apply Hc.
  match goal with |- context [gfor pkts _ ?w1] => destruct (gfor_sendToRemote e l pkts w1 h) as (h' & Hid & Hw & Hrun) end.
  { cbn. by rewrite lookup_insert_eq. }
  exists h'. split_and!; [done | done |]. exact Hrun.
Qed.

Lemma session_added_ok h d : Daemon_ok d → hWindow h = newWindow → Daemon_ok (session_added h d).
Proof.
  intros [H1 H2] Hw. pose proof (HostMap_ok_extends _ _ _ (extends_alloc (ifHosts d) h) H1) as H3.
  destruct (Add_ok _ (fresh_loc (ifHosts d)) h _ (lookup_insert_eq _ _ _) H3) as (m' & Ha & Hok & _).
  split; cbn.
  - unfold Add in Ha. rewrite lookup_insert_eq in Ha. by simplify_eq.
  - intros l0 h0 [[<- <-] | [_ ?]]%lookup_insert_Some; [| eauto]. rewrite Hw.
    exists []. apply newWindow_represents.
Qed.

(** The daemon discharges what the handshake manager asks of its callback. *)
#[global] Instance onHandshakeComplete_handler e : CompletionHandler Daemon_ok (onHandshakeComplete e).
Proof.
  split; intros h ps w; destruct (onHandshakeComplete_eq e h ps w) as (h' & Hid & Hw & ->); [done |].
  intros Hwin Hok. split; [| done]. cbn.
  apply (Daemon_ok_update (session_added h (rest w)) (fresh_loc (ifHosts (rest w))) h h').
  - by apply session_added_ok.
  - cbn. by rewrite lookup_insert_eq.
  - done.
  - rewrite Hw, Hwin. exists []. apply newWindow_represents.
Qed.

(** The daemon discharges what the lighthouse asks of its sends. *)
#[global] Instance lighthouse_sends e :
  Sends (lighthouseSendFn e) (WriteTo e) (λ d t w, emit [UDPSend d t] w).
Proof.
  split; try done; intros d t w; unfold lighthouseSendFn, gignore, WriteTo; by destruct (udpResult e d t).
Qed.

End Facts.

(** ** What the handlers may output *)

Section Outputs.

Context {crypto : CryptoLib} {noise : NoiseLib} {proto : ProtoLib} {certlib : CertLib}.

Definition is_udp (o : Output) : Prop := match o with UDPSend _ _ => True | TUNWrite _ => False end.

(** Only datagrams were output since [o]. *)
Definition udp_only (o : list Output) (w : World Daemon) : Prop :=
  ∃ new, out w = o ++ new ∧ Forall is_udp new.

Lemma udp_only_emit o new w : Forall is_udp new → udp_only o w → udp_only o (emit new w).
Proof.
  intros Hn (old & Ho & Hf). exists (old ++ new). cbn. rewrite Ho, app_assoc. split; [done |].
  by apply Forall_app.
Qed.

Lemma WriteTo_udp o e d t : keeps (udp_only o) (WriteTo e d t).
Proof. intros w Hw. apply (udp_only_emit o [UDPSend d t] w); [by repeat constructor | done]. Qed.

Lemma get_mgr_udp o : keeps (udp_only o) get_mgr.
Proof. by intros w. Qed.
Lemma set_mgr_udp o m : keeps (udp_only o) (set_mgr m).
Proof. by intros w. Qed.
Lemma get_daemon_udp o : keeps (udp_only o) get_daemon.
Proof. by intros w. Qed.
Lemma get_lh_udp o : keeps (udp_only o) get_lh.
Proof. by intros w. Qed.
Lemma set_lh_udp o l : keeps (udp_only o) (set_lh l).
Proof. by intros w. Qed.
Lemma set_hostmap_udp o m : keeps (udp_only o) (set_hostmap m).
Proof. by intros w. Qed.
Lemma load_host_udp o l : keeps (udp_only o) (load_host l).
Proof. by intros w. Qed.

Lemma send_trace_udp h c pkts : Forall is_udp (send_trace h c pkts).
Proof. revert c. induction pkts as [|p pkts IH]; intros c; cbn; constructor; [done | apply IH]. Qed.

Lemma onHandshakeComplete_udp o e h pkts : keeps (udp_only o) (onHandshakeComplete e h pkts).
Proof.
  intros w Hw. destruct (onHandshakeComplete_eq e h pkts w) as (h' & _ & _ & ->).
  apply udp_only_emit; [apply send_trace_udp | done].
Qed.

Lemma lighthouseSendFn_udp o e d t : keeps (udp_only o) (lighthouseSendFn e d t).
Proof. apply keeps_ignore, WriteTo_udp. Qed.

Hint Resolve WriteTo_udp get_mgr_udp set_mgr_udp get_daemon_udp get_lh_udp set_lh_udp set_hostmap_udp
  load_host_udp onHandshakeComplete_udp lighthouseSendFn_udp : neth.

Lemma send_udp o e msg ip : keeps (udp_only o) (send (lighthouseSendFn e) msg ip).
Proof. unfold send. keep_all. Qed.
Hint Resolve send_udp : neth.

Lemma HandleMessage_udp o e msg from : keeps (udp_only o) (HandleMessage (lighthouseSendFn e) (WriteTo e) msg from).
Proof.
  unfold HandleMessage, handleQuery, handleQueryReply, handleUpdate, handleWhoAmI, handleWhoAmIReply,
    handlePunch, Punch. keep_all.
Qed.

Lemma HandleStage0_udp o e pkt from : keeps (udp_only o) (HandleStage0 (onHandshakeComplete e) e pkt from).
Proof. unfold HandleStage0. keep_all. Qed.

Lemma HandleStage1_udp o e pkt : keeps (udp_only o) (HandleStage1 (onHandshakeComplete e) e pkt).
Proof. unfold HandleStage1. keep_all. Qed.

Hint Resolve HandleMessage_udp HandleStage0_udp HandleStage1_udp : neth.

Lemma handleHandshake_udp o e pkt hdr from : keeps (udp_only o) (handleHandshake e pkt hdr from).
Proof. unfold handleHandshake. keep_all. Qed.

Lemma lookup_host_udp o l : keeps (udp_only o) (lookup_host l).
Proof. unfold lookup_host. keep_all. Qed.
Hint Resolve lookup_host_udp : neth.

Lemma handleLightHouse_udp o ord e pkt hdr from : keeps (udp_only o) (handleLightHouse ord e pkt hdr from).
Proof. unfold handleLightHouse. keep_all. Qed.

Lemma handleTest_udp o e from : keeps (udp_only o) (handleTest e from).
Proof. unfold handleTest. keep_all. Qed.

Lemma handleCloseTunnel_udp o hdr : keeps (udp_only o) (handleCloseTunnel hdr).
Proof. unfold handleCloseTunnel. keep_all. Qed.

End Outputs.
