(* ===== verification/DataPlane.v ===== *)
(** * Properties of the data plane

    Theorems about the packet handlers of src/interface.go: what reaches the TUN
    device, replays, the path from one node's session to the other's, outbound
    packets, and the effects of unauthenticated packets. *)

From S2P Require Import Prelude Bytes Header Net Replay GoText Config Firewall Messages External Cert.
From S2P Require Import NoiseUtil HostMap Handshake HandshakeManager Punchy LightHouse Ipv4 Interface.

Section DataPlane.

Context {crypto : CryptoLib} {noise : NoiseLib} {proto : ProtoLib} {certlib : CertLib}.
Context (ord : gmap Addr (list UDPAddr) → list (Addr * list UDPAddr)).

(** ** Received headers *)

Lemma slice_ok i j buf : bytes_ok buf → bytes_ok (slice i j buf).
Proof. intros H. unfold slice. by apply Forall_take, Forall_drop. Qed.

Lemma Parse_counter pkt hdr : bytes_ok pkt → Parse pkt = Ok hdr → in_u 64 (hMessageCounter hdr).
Proof.
  intros Hok. unfold Parse. case_decide as Hlen; [done |].
  destruct (idx pkt 0); [cbn [go_bind] | done ..]. destruct (negb _); [done |].
  destruct (idx pkt 1); [cbn [go_bind] | done ..]. intros H. assert (Hc : hMessageCounter hdr = be_uint (slice 8 16 pkt)) by (by injection H as <-).
  rewrite Hc. pose proof (be_uint_bound (slice 8 16 pkt) 0 0 (slice_ok 8 16 pkt Hok) ltac:(done) ltac:(lia)) as Hb.
  assert (Hl : length (slice 8 16 pkt) = 8%nat).
  { unfold slice. rewrite length_take, length_drop. unfold HeaderLen in Hlen. lia. }
  by rewrite Hl in Hb.
Qed.

(** ** The replay check through the registry *)

Lemma CheckReplay_true_same c win win' : CheckReplay c win = (win', Ok true) → win' = win.
Proof.
  unfold CheckReplay. destruct (_ <? _); [done |]. destruct (_ <=? _); [by intros [= <-] |].
  destruct (window win !! _); [| done]. destruct (negb _); [by intros [= <-] | done].
Qed.

Lemma set_hWindow_id h : set_hWindow (hWindow h) h = h.
Proof. by destruct h. Qed.

Lemma put_host_id l h w : ifHosts (rest w) !! l = Some h → put_host l h w = w.
Proof. intros H. unfold put_host, with_hosts. rewrite insert_id by done. by destruct w as [? ? []]. Qed.

(** A fresh counter is recorded, any other leaves the world as it is. *)
Lemma check_fresh l c h hist w :
  ifHosts (rest w) !! l = Some h → represents hist (hWindow h) → in_u 64 c → fresh_counter hist c →
  ∃ win, represents (c :: hist) win ∧
    on_hosts (host_CheckReplay l c) w = (put_host l (set_hWindow win h) w, Ok false).
Proof.
  intros Hl Hr Hc Hf. destruct (CheckReplay_step hist (hWindow h) c Hr Hc) as (win & Hs & Hr').
  rewrite (bool_decide_eq_true_2 _ Hf) in Hs, Hr'. exists win. split; [done |].
  unfold on_hosts, host_CheckReplay. by rewrite Hl, Hs.
Qed.

Lemma check_replayed l c h hist w :
  ifHosts (rest w) !! l = Some h → represents hist (hWindow h) → in_u 64 c → ¬ fresh_counter hist c →
  on_hosts (host_CheckReplay l c) w = (w, Ok true).
Proof.
  intros Hl Hr Hc Hf. destruct (CheckReplay_step hist (hWindow h) c Hr Hc) as (win & Hs & _).
  rewrite (bool_decide_eq_false_2 _ Hf) in Hs. unfold on_hosts, host_CheckReplay. rewrite Hl, Hs.
  apply CheckReplay_true_same in Hs as ->. rewrite set_hWindow_id.
  f_equal. by apply put_host_id.
Qed.

(** The window alone decides freshness, whichever history it represents. *)
Lemma fresh_unique hist hist' win c :
  represents hist win → represents hist' win → in_u 64 c → fresh_counter hist c → fresh_counter hist' c.
Proof.
  intros H1 H2 Hc Hf. destruct (CheckReplay_step hist win c H1 Hc) as (w1 & E1 & _).
  destruct (CheckReplay_step hist' win c H2 Hc) as (w2 & E2 & _). rewrite E1 in E2.
  rewrite (bool_decide_eq_true_2 _ Hf) in E2. case_bool_decide; [done | by simplify_eq].
Qed.

(** ** handleMessage, branch by branch *)

(** The verdict of the firewall on a decrypted packet. *)
Definition inbound_verdict (e : Env) (h : HostInfo) (p : bytes) (fw fw' : Firewall) (b : bool) : Prop :=
  ∃ src proto port, srcIPFromIPv4 p = Ok (Some src) ∧ protoFromIPv4 p = Ok proto ∧
    dstPortFromIPv4 p = Ok port ∧
    AllowInbound src (host_groups (Some h)) port proto (nowTrack e) fw = (fw', b).

(** How the rest of the handler goes once the counter is recorded. *)
Inductive opened (e : Env) (h : HostInfo) (c : Z) (pkt : bytes) (w1 : World Daemon) : World Daemon → Prop :=
| opened_bad : Open (RecvCipher h) (CounterNonce c) (drop HeaderLen pkt) (take HeaderLen pkt) = None →
    opened e h c pkt w1 w1
| opened_not_ip p : Open (RecvCipher h) (CounterNonce c) (drop HeaderLen pkt) (take HeaderLen pkt) = Some p →
    srcIPFromIPv4 p = Ok None → opened e h c pkt w1 w1
| opened_blocked p fw' : Open (RecvCipher h) (CounterNonce c) (drop HeaderLen pkt) (take HeaderLen pkt) = Some p →
    inbound_verdict e h p (ifFw (rest w1)) fw' false → opened e h c pkt w1 (with_fw fw' w1)
| opened_delivered p fw' : Open (RecvCipher h) (CounterNonce c) (drop HeaderLen pkt) (take HeaderLen pkt) = Some p →
    inbound_verdict e h p (ifFw (rest w1)) fw' true → opened e h c pkt w1 (emit [TUNWrite p] (with_fw fw' w1)).

Inductive message_case (e : Env) (pkt : bytes) (hdr : Header) (from : UDPAddr) (w : World Daemon)
    : World Daemon → Prop :=
| case_unknown o : GetByIndex (hRemoteIndex hdr) (ifHostMap (rest w)) = None →
    (o = [] ∨ (o = [UDPSend [] from] ∧ ∃ p, ifPunchy (rest w) = Some p ∧ respond p = true)) →
    message_case e pkt hdr from w (emit o w)
| case_replay l h hist : GetByIndex (hRemoteIndex hdr) (ifHostMap (rest w)) = Some l →
    ifHosts (rest w) !! l = Some h → represents hist (hWindow h) →
    ¬ fresh_counter hist (hMessageCounter hdr) → message_case e pkt hdr from w w
| case_fresh l h hist win w' : GetByIndex (hRemoteIndex hdr) (ifHostMap (rest w)) = Some l →
    ifHosts (rest w) !! l = Some h → represents hist (hWindow h) →
    fresh_counter hist (hMessageCounter hdr) → represents (hMessageCounter hdr :: hist) win →
    opened e h (hMessageCounter hdr) pkt (put_host l (set_hWindow win h) w) w' →
    message_case e pkt hdr from w w'.

(** Decryption, filter and delivery. *)
Lemma handleMessage_opened e h c pkt (w1 : World Daemon) :
  ∃ w', opened e h c pkt w1 w' ∧
    (match Decrypt (RecvCipher h) c (take HeaderLen pkt) (drop HeaderLen pkt) with
     | Fail _ => gret tt
     | Panic => gpanic
     | Ok plaintext =>
         let! src := glift (srcIPFromIPv4 plaintext) in
         match src with
         | None => gret tt
         | Some srcIP =>
             let! inProto := glift (protoFromIPv4 plaintext) in
             let! dstPort := glift (dstPortFromIPv4 plaintext) in
             let! allowed := on_fw (AllowInbound srcIP (host_groups (Some h)) dstPort inProto (nowTrack e)) in
             if negb allowed then gret tt else gignore (tunWrite e plaintext)
         end
     end) w1 = (w', Ok tt).
Proof.
  unfold Decrypt. destruct (Open _ _ _ _) as [p|] eqn:Eo; cbn [of_option].
  2:{ exists w1. split; [by apply opened_bad | done]. }
  destruct (accessors_safe p) as (_ & Hs & Hp & Hd).
  destruct (srcIPFromIPv4 p) as [[src|]| |] eqn:Es; try done.
  2:{ exists w1. split; [by eapply opened_not_ip | done]. }
  erewrite gbind_ok by reflexivity.
  destruct (protoFromIPv4 p) as [proto0| |] eqn:Ep; try done. erewrite gbind_ok by reflexivity.
  destruct (dstPortFromIPv4 p) as [port| |] eqn:Ed; try done. erewrite gbind_ok by reflexivity.
  destruct (AllowInbound src (host_groups (Some h)) port proto0 (nowTrack e) (ifFw (rest w1))) as [fw' b] eqn:Ea.
  exists (if b then emit [TUNWrite p] (with_fw fw' w1) else with_fw fw' w1).
  assert (Hv : inbound_verdict e h p (ifFw (rest w1)) fw' b) by (exists src, proto0, port; auto).
  assert (Hf : on_fw (AllowInbound src (host_groups (Some h)) port proto0 (nowTrack e)) w1 = (with_fw fw' w1, Ok b)).
  { unfold on_fw. by rewrite Ea. }
  rewrite (gbind_ok _ _ _ _ _ Hf). destruct b; cbn [negb].
  - split; [by apply opened_delivered |]. unfold gignore, tunWrite. by destruct (tunResult e p).
  - split; [by eapply opened_blocked | done].
Qed.

Lemma handleMessage_cases e pkt hdr from w :
  Daemon_ok (rest w) → in_u 64 (hMessageCounter hdr) →
  ∃ w', message_case e pkt hdr from w w' ∧ handleMessage e pkt hdr from w = (w', Ok tt).
Proof.
  intros [Hm Hwin] Hc. unfold handleMessage. erewrite gbind_ok by reflexivity.
  destruct (GetByIndex _ _) as [l|] eqn:Hl.
  - destruct (byIndex_ok _ _ Hm _ _ Hl) as (h & Hh & _). destruct (Hwin _ _ Hh) as [hist Hr].
    destruct (decide (fresh_counter hist (hMessageCounter hdr))) as [Hf|Hf].
    + destruct (check_fresh l _ h hist w Hh Hr Hc Hf) as (win & Hr' & Hcheck).
      rewrite (gbind_ok _ _ _ _ _ Hcheck). set (w1 := put_host l (set_hWindow win h) w).
      assert (Hload : load_host l w1 = (w1, Ok (set_hWindow win h))).
      { unfold load_host. cbn. by rewrite lookup_insert_eq. }
      rewrite (gbind_ok _ _ _ _ _ Hload).
      destruct (handleMessage_opened e (set_hWindow win h) (hMessageCounter hdr) pkt w1) as (w' & Ho & Hrun).
      exists w'. split; [| exact Hrun]. eapply case_fresh; [done .. |].
      by destruct Ho; econstructor; eauto.
    + exists w. split; [by eapply case_replay |].
      by rewrite (gbind_ok _ _ _ _ _ (check_replayed l _ h hist w Hh Hr Hc Hf)).
  - destruct (ifPunchy (rest w)) as [p|] eqn:Ep.
    + unfold RespondToPunch. destruct (respond p) eqn:Er.
      * exists (emit [UDPSend [] from] w). split; [apply case_unknown; eauto |].
        unfold gignore, WriteTo. by destruct (udpResult _ _ _).
      * exists (emit [] w). split; [apply case_unknown; eauto |]. by rewrite emit_nil.
    + exists (emit [] w). split; [apply case_unknown; eauto |]. by rewrite emit_nil.
Qed.

(** Dispatch of a data packet. *)
Lemma consume_message e pkt hdr from :
  Parse pkt = Ok hdr → hType hdr = TypeMessage →
  consumeOutsidePacket ord e pkt from = handleMessage e pkt hdr from.
Proof.
  intros Hp Ht. unfold consumeOutsidePacket. rewrite decide_False by (apply Parse_length in Hp; lia).
  by rewrite Hp, Ht.
Qed.

End DataPlane.

(** ** Properties *)

(** C4. What reaches the TUN device: a received packet makes the daemon write to
    it at most once, and only when it is a data packet of a known session whose
    counter was not accepted before (nor lies behind the window), whose body is
    the AEAD encryption of the written packet under that session's key, that
    counter and its own header, and which the inbound firewall admits for the
    groups of the session's certificate. *)
Theorem inbound_delivery {crypto : CryptoLib} {noise : NoiseLib} {proto : ProtoLib} {certlib : CertLib}
    {crypto_laws : CryptoLaws} ord e pkt from w w' r new p :
  Daemon_ok (rest w) → bytes_ok pkt →
  consumeOutsidePacket ord e pkt from w = (w', r) → out w' = out w ++ new → TUNWrite p ∈ new →
  new = [TUNWrite p] ∧
  ∃ hdr l h hist fw', Parse pkt = Ok hdr ∧ hType hdr = TypeMessage ∧
    GetByIndex (hRemoteIndex hdr) (ifHostMap (rest w)) = Some l ∧ ifHosts (rest w) !! l = Some h ∧
    represents hist (hWindow h) ∧ fresh_counter hist (hMessageCounter hdr) ∧
    drop HeaderLen pkt = Seal (RecvCipher h) (CounterNonce (hMessageCounter hdr)) p (take HeaderLen pkt) ∧
    inbound_verdict e h p (ifFw (rest w)) fw' true.
Proof.
  intros Hok Hbytes Hrun Hnew Hin.
  assert (Hudp : udp_only (out w) w' → False).
  { intros (new' & Hn' & Hf). rewrite Hn' in Hnew. apply app_inv_head in Hnew as ->.
    rewrite Forall_forall in Hf. exact (Hf _ Hin). }
  assert (Hself : udp_only (out w) w) by (exists []; by rewrite app_nil_r).
  unfold consumeOutsidePacket in Hrun. case_decide as Hlen;
    [exfalso; apply Hudp; by injection Hrun as <- _ |].
  destruct (Parse pkt) as [hdr| |] eqn:Hp; [| exfalso; apply Hudp; by injection Hrun as <- _ ..].
  destruct (Z.eqb_spec (hType hdr) TypeMessage) as [Ht|_].
  2:{ exfalso. apply Hudp. revert Hself. change w' with (w', r).1. rewrite <- Hrun.
      destruct (_ =? _); [apply handleHandshake_udp |]. destruct (_ =? _); [apply handleLightHouse_udp |].
      destruct (_ =? _); [apply handleTest_udp |]. destruct (_ =? _); [apply handleCloseTunnel_udp |]. done. }
  destruct (handleMessage_cases e pkt hdr from w Hok (Parse_counter _ _ Hbytes Hp)) as (w1 & Hcase & Hw1).
  rewrite Hrun in Hw1. injection Hw1 as <- ->.
  destruct Hcase as [o _ Ho | | l h hist win w' Hl Hh Hr Hf _ Hop].
  - exfalso. apply Hudp. apply udp_only_emit; [| done].
    destruct Ho as [-> | [-> _]]; by repeat constructor.
  - by exfalso.
  - destruct Hop as [| | | q fw' Ho Hv]; try (by exfalso; apply Hudp).
    cbn in Hnew. apply app_inv_head in Hnew as <-. apply list_elem_of_singleton in Hin as [= ->].
    split; [done |]. exists hdr, l, h, hist, fw'. split_and!; try done. by apply Seal_Open.
Qed.

(** Replays: delivering the same datagram again, from any address, under any
    environment, has no effect whatever on the receiving node. *)
Theorem replay_has_no_effect {crypto : CryptoLib} {noise : NoiseLib} {proto : ProtoLib} {certlib : CertLib}
    ord e e' pkt hdr from from' w l :
  Daemon_ok (rest w) → bytes_ok pkt → Parse pkt = Ok hdr → hType hdr = TypeMessage →
  GetByIndex (hRemoteIndex hdr) (ifHostMap (rest w)) = Some l →
  let w1 := (consumeOutsidePacket ord e pkt from w).1 in
  consumeOutsidePacket ord e' pkt from' w1 = (w1, Ok tt).
Proof.
  intros Hok Hbytes Hp Ht Hl. rewrite !(consume_message ord _ pkt hdr) by done.
  pose proof (Parse_counter _ _ Hbytes Hp) as Hc.
  destruct (handleMessage_cases e pkt hdr from w Hok Hc) as (w1 & Hcase & ->). cbn [fst].
  assert (∃ h hist, GetByIndex (hRemoteIndex hdr) (ifHostMap (rest w1)) = Some l ∧
    ifHosts (rest w1) !! l = Some h ∧ represents hist (hWindow h) ∧ ¬ fresh_counter hist (hMessageCounter hdr))
    as (h & hist & Hl1 & Hh & Hr & Hf).
  { destruct Hcase as [o Hn _ | l' h hist Hl' Hh Hr Hf | l' h hist win w' Hl' Hh Hr Hf Hr' Hop];
      [congruence | simplify_eq; eauto 10 |]. simplify_eq.
    exists (set_hWindow win h), (hMessageCounter hdr :: hist).
    assert (Hnf : ¬ fresh_counter (hMessageCounter hdr :: hist) (hMessageCounter hdr)).
    { intros [Hn _]. apply Hn. by left. }
    destruct Hop; cbn; rewrite lookup_insert_eq; auto. }
  unfold handleMessage. erewrite gbind_ok by reflexivity. rewrite Hl1.
  by rewrite (gbind_ok _ _ _ _ _ (check_replayed l _ h hist w1 Hh Hr Hc Hf)).
Qed.

(** Building the datagram and reading it back. *)
Lemma message_wire_read {crypto : CryptoLib} h c p :
  in_u 32 (RemoteIndex h) → in_u 64 c →
  let hdr := mkHeader Version TypeMessage 0 (RemoteIndex h) c in
  Parse (message_wire h c p) = Ok hdr ∧ take HeaderLen (message_wire h c p) = Bytes hdr ∧
  drop HeaderLen (message_wire h c p) = Seal (SendCipher h) (CounterNonce c) p (Bytes hdr).
Proof.
  intros Hi Hc hdr. unfold message_wire. fold hdr. split_and!.
  - apply (Parse_Bytes hdr). unfold wire_ok, Header_ok, in_u, Version, TypeMessage in *. cbn. lia.
  - by rewrite take_app_length' by (by rewrite length_Bytes).
  - by rewrite drop_app_length' by (by rewrite length_Bytes).
Qed.

(** ** The receiving end of a session *)

Section Receiver.

Context {crypto : CryptoLib} {noise : NoiseLib} {proto : ProtoLib} {certlib : CertLib}.
Context {crypto_laws : CryptoLaws}.

(** The inbound filter on a decrypted packet: the tracking table afterwards and
    what is written to the TUN device. *)
Definition inbound_step (e : Env) (h : HostInfo) (p : bytes) (fw : Firewall) : Firewall * list Output :=
  match srcIPFromIPv4 p, protoFromIPv4 p, dstPortFromIPv4 p with
  | Ok (Some src), Ok pr, Ok port =>
      let '(fw', b) := AllowInbound src (host_groups (Some h)) port pr (nowTrack e) fw in
      (fw', if b then [TUNWrite p] else [])
  | _, _, _ => (fw, [])
  end.

Lemma admit_verdict e h p fw fw' b :
  inbound_verdict e h p fw fw' b → inbound_step e h p fw = (fw', if b then [TUNWrite p] else []).
Proof. intros (src & pr & port & H1 & H2 & H3 & H4). unfold inbound_step. by rewrite H1, H2, H3, H4. Qed.

Lemma with_fw_id w : with_fw (ifFw (rest w)) w = w.
Proof. by destruct w as [? ? []]. Qed.

(** A datagram sealed by the other end of the session at [l]: a counter that is
    not fresh has no effect, a fresh one is recorded and its packet filtered. *)
Lemma receive_message ord e hA hB l hist c p from w :
  Daemon_ok (rest w) → ifHosts (rest w) !! l = Some hB →
  GetByIndex (RemoteIndex hA) (ifHostMap (rest w)) = Some l → SendCipher hA = RecvCipher hB →
  in_u 32 (RemoteIndex hA) → in_u 64 c → represents hist (hWindow hB) →
  (¬ fresh_counter hist c → consumeOutsidePacket ord e (message_wire hA c p) from w = (w, Ok tt)) ∧
  (fresh_counter hist c → ∃ win, represents (c :: hist) win ∧
     consumeOutsidePacket ord e (message_wire hA c p) from w =
       (emit (inbound_step e hB p (ifFw (rest w))).2
          (with_fw (inbound_step e hB p (ifFw (rest w))).1 (put_host l (set_hWindow win hB) w)), Ok tt)).
Proof.
  intros Hok HB Hidx Hci Hri Hc Hrep. destruct (message_wire_read hA c p Hri Hc) as (Hp & Htake & Hdrop).
  rewrite (consume_message ord e _ _ from Hp) by done. unfold handleMessage.
  cbn [hRemoteIndex hMessageCounter]. split; intros Hf; erewrite gbind_ok by reflexivity; rewrite Hidx.
  - by rewrite (gbind_ok _ _ _ _ _ (check_replayed l c hB hist w HB Hrep Hc Hf)).
  - destruct (check_fresh l c hB hist w HB Hrep Hc Hf) as (win & Hrep' & Hcheck). exists win. split; [done |].
    rewrite (gbind_ok _ _ _ _ _ Hcheck). set (w1 := put_host l (set_hWindow win hB) w).
    assert (Hload : load_host l w1 = (w1, Ok (set_hWindow win hB))).
    { unfold load_host. cbn. by rewrite lookup_insert_eq. }
    rewrite (gbind_ok _ _ _ _ _ Hload). change (host_groups (Some (set_hWindow win hB))) with (host_groups (Some hB)).
    destruct (handleMessage_opened e hB c (message_wire hA c p) w1) as (w' & Hop & Hrun).
    cbn [RecvCipher set_hWindow]. rewrite Hrun. f_equal. clear Hrun Hload Hcheck.
    assert (Hopen : Open (RecvCipher hB) (CounterNonce c) (drop HeaderLen (message_wire hA c p))
      (take HeaderLen (message_wire hA c p)) = Some p) by (by rewrite Hdrop, Htake, Hci, Open_Seal).
    inversion Hop as [Hnone | q Hq Hni | q fw1 Hq Hv | q fw1 Hq Hv]; subst w'; [congruence | | |];
      assert (q = p) as -> by congruence.
    + unfold inbound_step. rewrite Hni. cbn [fst snd]. rewrite emit_nil. symmetry. exact (with_fw_id w1).
    + apply admit_verdict in Hv. change (ifFw (rest w1)) with (ifFw (rest w)) in Hv. rewrite Hv. symmetry. apply emit_nil.
    + apply admit_verdict in Hv. change (ifFw (rest w1)) with (ifFw (rest w)) in Hv. by rewrite Hv.
Qed.

End Receiver.

(** The tunnel carries packets: what one node sends on a session comes out
    of the TUN device of the node holding the paired session, unchanged and
    exactly once, provided the counter is fresh there and its inbound firewall
    admits the packet. *)
Theorem tunnel_end_to_end {crypto : CryptoLib} {noise : NoiseLib} {proto : ProtoLib} {certlib : CertLib}
    {crypto_laws : CryptoLaws} ord eA eB wA wB lA lB hA hB hist from p fw' :
  Daemon_ok (rest wB) →
  ifHosts (rest wA) !! lA = Some hA → ifHosts (rest wB) !! lB = Some hB →
  GetByIndex (RemoteIndex hA) (ifHostMap (rest wB)) = Some lB → SendCipher hA = RecvCipher hB →
  in_u 32 (RemoteIndex hA) → 0 ≤ Counter hA → Counter hA + 1 < 2 ^ 64 →
  represents hist (hWindow hB) → fresh_counter hist (Counter hA + 1) →
  inbound_verdict eB hB p (ifFw (rest wB)) fw' true →
  ∃ wire wA' wB',
    sendToRemote eA lA p wA = (wA', Ok tt) ∧ out wA' = out wA ++ [UDPSend wire (Remote hA)] ∧
    consumeOutsidePacket ord eB wire from wB = (wB', Ok tt) ∧ out wB' = out wB ++ [TUNWrite p].
Proof.
  intros Hok HA HB Hidx Hci Hri H0 Hmax Hrep Hfresh Hv. set (c := Counter hA + 1).
  assert (Hc : in_u 64 c) by (unfold in_u, c; lia).
  pose proof (sendToRemote_eq eA lA p wA hA HA) as Hsend. cbv zeta in Hsend. fold c in Hsend.
  rewrite (wrap_small 64 c Hc) in Hsend.
  destruct (proj2 (receive_message ord eB hA hB lB hist c p from wB Hok HB Hidx Hci Hri Hc Hrep) Hfresh) as (win & _ & Hrun).
  exists (message_wire hA c p). do 2 eexists. split; [exact Hsend |]. split; [done |]. split; [exact Hrun |].
  by rewrite (admit_verdict _ _ _ _ _ _ Hv).
Qed.

(** ** Unauthenticated packets *)

(** Data under an index nobody has. *)
Lemma unknown_index {crypto : CryptoLib} {noise : NoiseLib} {proto : ProtoLib} {certlib : CertLib} ord e pkt hdr from w :
  Parse pkt = Ok hdr → hType hdr = TypeMessage → GetByIndex (hRemoteIndex hdr) (ifHostMap (rest w)) = None →
  ∃ w', consumeOutsidePacket ord e pkt from w = (w', Ok tt) ∧ rest w' = rest w ∧
    (out w' = out w ∨ out w' = out w ++ [UDPSend [] from]).
Proof.
  intros Hp Ht Hi. unfold consumeOutsidePacket. rewrite decide_False by (apply Parse_length in Hp; lia).
  rewrite Hp, Ht. cbn [Z.eqb Pos.eqb TypeMessage]. unfold handleMessage. erewrite gbind_ok by reflexivity. rewrite Hi.
  destruct (ifPunchy (rest w)) as [p|]; [| by exists w; auto]. unfold RespondToPunch. destruct (respond p); [| by exists w; auto].
  unfold gignore, WriteTo. destruct (udpResult e [] from); cbn; eexists; split_and!; [done | done | by right | done | done | by right].
Qed.

(** C39. A tunnel can be closed by anyone who knows its index: a packet with the
    close type and the index of a session, whatever follows the header and whoever
    sent it, removes from the registry both entries of the session that the peer's
    address leads to, answers nothing and leaves every other entry.  If that is the
    session named (the usual case), data the peer sends under the index is ignored
    from then on, without reaching the TUN device; if the index is stale, left behind
    by an older session with the same peer, the newer session is the one removed and
    the stale index stays. *)
Theorem close_tunnel_unauthenticated {crypto : CryptoLib} {noise : NoiseLib} {proto : ProtoLib} {certlib : CertLib}
    ord e pkt hdr from w l h :
  Daemon_ok (rest w) → Parse pkt = Ok hdr → hType hdr = TypeCloseTunnel →
  GetByIndex (hRemoteIndex hdr) (ifHostMap (rest w)) = Some l → ifHosts (rest w) !! l = Some h →
  ∃ w', consumeOutsidePacket ord e pkt from w = (w', Ok tt) ∧ out w' = out w ∧ ifHosts (rest w') = ifHosts (rest w) ∧
    let m := ifHostMap (rest w) in
    let m' := ifHostMap (rest w') in
    GetByVpnIP (VpnIP h) m' = None ∧ (∀ ip, ip ≠ VpnIP h → GetByVpnIP ip m' = GetByVpnIP ip m) ∧
    (GetByVpnIP (VpnIP h) m = Some l →
       GetByIndex (hRemoteIndex hdr) m' = None ∧ (∀ i, i ≠ hRemoteIndex hdr → GetByIndex i m' = GetByIndex i m) ∧
       ∀ e2 d hdr2 from2, Parse d = Ok hdr2 → hType hdr2 = TypeMessage → hRemoteIndex hdr2 = hRemoteIndex hdr →
         ∃ w2, consumeOutsidePacket ord e2 d from2 w' = (w2, Ok tt) ∧ rest w2 = rest w' ∧
           (out w2 = out w' ∨ out w2 = out w' ++ [UDPSend [] from2])) ∧
    (∀ l0 h0, GetByVpnIP (VpnIP h) m = Some l0 → ifHosts (rest w) !! l0 = Some h0 → Index h0 ≠ hRemoteIndex hdr →
       GetByIndex (Index h0) m' = None ∧ GetByIndex (hRemoteIndex hdr) m' = Some l).
Proof.
  intros [Hm _] Hp Ht Hl Hh. unfold consumeOutsidePacket at 1.
  rewrite decide_False by (apply Parse_length in Hp; lia). rewrite Hp, Ht.
  unfold TypeCloseTunnel, TypeMessage, TypeHandshake, TypeLightHouse, TypeTest. cbn [Z.eqb Pos.eqb].
  unfold handleCloseTunnel.
  erewrite gbind_ok by reflexivity. rewrite Hl.
  assert (Hlk : lookup_host (Some l) w = (w, Ok (Some (l, h)))).
  { unfold lookup_host. erewrite gbind_ok; [reflexivity |]. unfold load_host. by rewrite Hh. }
  rewrite (gbind_ok _ _ _ _ _ Hlk). destruct (byIndex_ok _ _ Hm _ _ Hl) as (h1 & Hh1 & Hidx). rewrite Hh in Hh1. injection Hh1 as <-.
  destruct (Remove_entries _ (VpnIP h) _ Hm) as (m' & Hr & Hnone & Hothers & Hgone). rewrite Hr.
  erewrite gbind_ok by reflexivity. exists (set_hostmap m' w).1. cbv zeta.
  change (ifHostMap (rest (set_hostmap m' w).1)) with m'. split_and!; [done | done | done | exact Hnone | exact Hothers | |].
  - intros Hcur. destruct (Hgone _ _ Hcur Hh) as [Hn Hi]. rewrite Hidx in Hn, Hi. split_and!; [done | done |].
    intros e2 d hdr2 from2 Hp2 Ht2 Heq. apply (unknown_index _ _ _ hdr2); [done | done |].
    change (ifHostMap (rest (set_hostmap m' w).1)) with m'. by rewrite Heq.
  - intros l0 h0 Hcur Hh0 Hne. destruct (Hgone _ _ Hcur Hh0) as [Hn Hi]. split; [done |]. by rewrite Hi.
Qed.

(** C38. A forged packet moves the replay window: a data packet that names a
    session and carries a fresh counter, and does not decrypt, delivers nothing,
    yet afterwards every counter 4096 or more below the forged one is refused, so
    a genuine packet that would have been accepted before is dropped. *)
Theorem forged_packet_moves_window {crypto : CryptoLib} {noise : NoiseLib} {proto : ProtoLib} {certlib : CertLib}
    ord e e' forged hdr genuine hdr' from from' w l h hist :
  Daemon_ok (rest w) → bytes_ok forged → bytes_ok genuine →
  Parse forged = Ok hdr → hType hdr = TypeMessage → Parse genuine = Ok hdr' → hType hdr' = TypeMessage →
  hRemoteIndex hdr' = hRemoteIndex hdr →
  GetByIndex (hRemoteIndex hdr) (ifHostMap (rest w)) = Some l → ifHosts (rest w) !! l = Some h →
  represents hist (hWindow h) → fresh_counter hist (hMessageCounter hdr) →
  Decrypt (RecvCipher h) (hMessageCounter hdr) (take HeaderLen forged) (drop HeaderLen forged) =
    Fail (Errorf "noiseutil: decrypt") →
  hMessageCounter hdr' + replayWindowSize ≤ hMessageCounter hdr →
  ∃ w1, consumeOutsidePacket ord e forged from w = (w1, Ok tt) ∧ out w1 = out w ∧
    consumeOutsidePacket ord e' genuine from' w1 = (w1, Ok tt).
Proof.
  intros Hok Hb Hb' Hp Ht Hp' Ht' Hsame Hl Hh Hr Hf Hdec Hfar.
  pose proof (Parse_counter _ _ Hb Hp) as Hc. pose proof (Parse_counter _ _ Hb' Hp') as Hc'.
  rewrite (consume_message ord e forged hdr from), (consume_message ord e' genuine hdr' from') by done.
  destruct (check_fresh l _ h hist w Hh Hr Hc Hf) as (win & Hr1 & Hcheck).
  set (w1 := put_host l (set_hWindow win h) w). exists w1.
  assert (Hload : load_host l w1 = (w1, Ok (set_hWindow win h))).
  { unfold load_host. cbn. by rewrite lookup_insert_eq. }
  split.
  { unfold handleMessage. erewrite gbind_ok by reflexivity. rewrite Hl, (gbind_ok _ _ _ _ _ Hcheck).
    rewrite (gbind_ok _ _ _ _ _ Hload). cbn [RecvCipher set_hWindow]. by rewrite Hdec. }
  split; [done |]. unfold handleMessage. erewrite gbind_ok by reflexivity.
  change (ifHostMap (rest w1)) with (ifHostMap (rest w)). rewrite Hsame, Hl.
  rewrite (gbind_ok _ _ _ _ _ (check_replayed l _ (set_hWindow win h) (hMessageCounter hdr :: hist) w1
    ltac:(cbn; by rewrite lookup_insert_eq) Hr1 Hc' ltac:(intros [_ Hall]; inversion Hall; lia))). done.
Qed.

(** ** The daemon as a state machine *)

Section Machine.

Context {crypto : CryptoLib} {noise : NoiseLib} {proto : ProtoLib} {certlib : CertLib}.
Context (ord : gmap Addr (list UDPAddr) → list (Addr * list UDPAddr)).

Abbreviation ok := (World_ok Daemon_ok).

Lemma on_NextCounter_ok l : keeps ok (on_hosts (host_NextCounter l)).
Proof.
  intros w [Hm Hd]. unfold on_hosts, host_NextCounter.
  destruct (ifHosts (rest w) !! l) as [h|] eqn:E; (split; [done |]); cbn.
  - eapply Daemon_ok_update; [done | done | unfold same_identity; auto 10 |]. cbn. by eapply daemon_windows.
  - by destruct w as [? ? []].
Qed.

Lemma on_fw_ok {A} (f : Firewall → Firewall * A) : keeps ok (on_fw f).
Proof. intros w [Hm [H1 H2]]. unfold on_fw. destruct (f _). by split; [| split]. Qed.

Lemma get_daemon_ok : keeps ok get_daemon.
Proof. by intros w. Qed.
Lemma load_host_ok l : keeps ok (load_host l).
Proof. by intros w. Qed.
Lemma get_lh_ok : keeps ok get_lh.
Proof. by intros w. Qed.
Lemma set_lh_ok lh : keeps ok (set_lh lh).
Proof. intros w [Hm [H1 H2]]. by split; [| split]. Qed.
Lemma tunWrite_ok e p : keeps ok (tunWrite e p).
Proof. by intros w. Qed.
Lemma QueuePacket_world ip pkt : keeps ok (QueuePacket ip pkt).
Proof. apply QueuePacket_World_ok. Qed.

Hint Resolve on_NextCounter_ok get_daemon_ok load_host_ok get_lh_ok set_lh_ok tunWrite_ok QueuePacket_world : neth.
Hint Extern 1 (keeps _ (on_fw _)) => apply on_fw_ok : neth.
Hint Extern 1 (keeps _ (WriteTo _ _ _)) => apply WriteTo_ok : neth.

Lemma sendToRemote_ok e l p : keeps ok (sendToRemote e l p).
Proof. unfold sendToRemote. keep_all. Qed.

Lemma lighthouseSendFn_ok e d t : keeps ok (lighthouseSendFn e d t).
Proof. unfold lighthouseSendFn. keep_all. Qed.

Lemma lookup_host_ok o : keeps ok (lookup_host o).
Proof. unfold lookup_host. keep_all. Qed.

Hint Resolve sendToRemote_ok lighthouseSendFn_ok lookup_host_ok : neth.

Lemma send_ok_world e msg ip : keeps ok (send (lighthouseSendFn e) msg ip).
Proof. unfold send. keep_all. Qed.
Hint Resolve send_ok_world : neth.

Lemma HandleMessage_world e msg from : keeps ok (HandleMessage (lighthouseSendFn e) (WriteTo e) msg from).
Proof.
  unfold HandleMessage, handleQuery, handleQueryReply, handleUpdate, handleWhoAmI, handleWhoAmIReply,
    handlePunch, Punch. keep_all.
Qed.

Lemma QueryPeer_world e ip : keeps ok (QueryPeer (lighthouseSendFn e) ip).
Proof. unfold QueryPeer. keep_all. Qed.

Lemma Advertise_world e : keeps ok (Advertise (lighthouseSendFn e)).
Proof. unfold Advertise. keep_all. Qed.

Hint Resolve HandleMessage_world QueryPeer_world : neth.

Lemma consumeInsidePacket_ok e pkt : keeps ok (consumeInsidePacket e pkt).
Proof.
  unfold consumeInsidePacket. keep_all. intros w Hw.
  pose proof (StartHandshake_ok Daemon_ok e) as Hs.
  match goal with |- context [StartHandshake ?a ?b ?c ?d ?w0] =>
    specialize (Hs b c d w0 Hw); destruct (StartHandshake a b c d w0) as [w' [[]| |]] end; cbn in *; try done.
  by apply QueuePacket_world.
Qed.

Lemma handleMessage_world e pkt hdr from :
  in_u 64 (hMessageCounter hdr) → keeps ok (handleMessage e pkt hdr from).
Proof.
  intros Hc w [Hm Hd]. destruct (handleMessage_cases e pkt hdr from w Hd Hc) as (w' & Hcase & ->). cbn.
  destruct Hcase as [| | l h hist win w' Hl Hh Hr Hf Hr' Hop]; [done | done |].
  assert (Hd1 : Daemon_ok (rest (put_host l (set_hWindow win h) w))).
  { cbn. eapply Daemon_ok_update; [done | done | unfold same_identity; auto 10 |]. cbn. eauto. }
  destruct Hop; (split; [done |]); cbn; try done; destruct Hd1; by split.
Qed.

Lemma handleCloseTunnel_world hdr : keeps ok (handleCloseTunnel hdr).
Proof.
  intros w [Hm Hd]. unfold handleCloseTunnel. erewrite gbind_ok by reflexivity.
  unfold gbind. pose proof (lookup_host_ok (GetByIndex (hRemoteIndex hdr) (ifHostMap (rest w))) w (conj Hm Hd)) as Hw.
  unfold lookup_host, gbind, gret, load_host in *.
  destruct (GetByIndex _ _) as [l|]; [| done]. destruct (ifHosts (rest w) !! l) as [h|]; [| done]. cbn.
  destruct (Remove_ok _ (VpnIP h) _ (daemon_hostmap _ Hd)) as (m' & -> & Hok & _). cbn.
  split; [done |]. split; [done | apply Hd].
Qed.

Lemma consumeOutsidePacket_ok e pkt from : bytes_ok pkt → keeps ok (consumeOutsidePacket ord e pkt from).
Proof.
  intros Hb. unfold consumeOutsidePacket. case_decide; [apply keeps_ret |].
  destruct (Parse pkt) as [hdr| |] eqn:Hp; [| apply keeps_ret | apply keeps_panic].
  destruct (_ =? _); [apply handleMessage_world; by eapply Parse_counter |].
  destruct (_ =? _).
  { unfold handleHandshake. destruct (_ =? _); [apply keeps_ignore, HandleStage0_ok; apply _ |].
    destruct (_ =? _); [apply keeps_ignore, HandleStage1_ok; apply _ | apply keeps_ret]. }
  destruct (_ =? _); [unfold handleLightHouse; keep_all |].
  destruct (_ =? _); [unfold handleTest; keep_all |].
  destruct (_ =? _); [apply handleCloseTunnel_world | apply keeps_ret].
Qed.

(** The steps of [Run]'s goroutines, and of the embedding program. *)
Inductive daemon_step : World Daemon → World Daemon → Prop :=
| step_inside w e pkt : daemon_step w (consumeInsidePacket e pkt w).1
| step_outside w e pkt from : bytes_ok pkt → daemon_step w (consumeOutsidePacket ord e pkt from w).1
| step_handshakes w e order now :
    order ≡ₚ map_to_list (pending (mgr w)) → daemon_step w (retryPending e order now w).1
| step_advertise w e : daemon_step w (Advertise (lighthouseSendFn e) w).1
| step_expiry w now : daemon_step w (with_fw (expiry_tick now (ifFw (rest w))) w)
| step_cert w ip c : daemon_step w (AddPeerCert ip c w).1.

Lemma daemon_step_ok w w' : daemon_step w w' → ok w → ok w'.
Proof.
  destruct 1 as [w e pkt | w e pkt from Hb | w e order now Ho | w e | w now | w ip c]; intros Hw.
  - by apply consumeInsidePacket_ok.
  - by apply consumeOutsidePacket_ok.
  - destruct (retryPending_total e now order w (proj1 Hw) Ho) as (m' & -> & Hpost).
    split; [apply Hpost | apply Hw].
  - by apply Advertise_world.
  - destruct Hw as [Hm [H1 H2]]. by split; [| split].
  - destruct Hw as [Hm [H1 H2]]. by split; [| split].
Qed.

Lemma daemon_reachable_ok w w' : ok w → rtc daemon_step w w' → ok w'.
Proof. intros Hw H. induction H as [|w1 w2 w3 Hs _ IH]; [done |]. by apply IH, (daemon_step_ok w1). Qed.

End Machine.

(** The state [NewInterface] builds, before any packet. *)
Definition initial_daemon {crypto : CryptoLib} (fw : Firewall) (lh : LightHouse) (py : option Punchy)
    (certs : gmap Addr Certificate) : Daemon :=
  mkDaemon ∅ NewHostMap fw lh py certs.

Lemma initial_ok {crypto : CryptoLib} fw lh py certs : Daemon_ok (initial_daemon fw lh py certs).
Proof. split; cbn; [apply NewHostMap_ok |]. intros l h H. by rewrite lookup_empty in H. Qed.

Lemma Parse_safe pkt : Parse pkt ≠ Panic.
Proof.
  unfold Parse. case_decide as Hlen; [done |]. unfold HeaderLen in Hlen.
  destruct (idx_in pkt 0) as (b0 & -> & _); [lia |]. cbn [go_bind]. destruct (negb _); [done |].
  by destruct (idx_in pkt 1) as (b1 & -> & _); [lia |].
Qed.

(** In every state the running daemon can reach, by any interleaving of
    packets from the TUN device and the socket, retry ticks, advertisements,
    firewall expiry and added certificates, the handshake tables, the session
    registry and all replay windows are well-formed; data, test and close packets
    are handled without a panic, and a datagram that is no packet of this protocol
    has no effect. *)
Theorem daemon_reachable {crypto : CryptoLib} {noise : NoiseLib} {proto : ProtoLib} {certlib : CertLib}
    ord cert key pool fw lh py certs w :
  rtc (daemon_step ord)
    (mkWorld (NewHandshakeManager cert key pool) [] (initial_daemon fw lh py certs)) w →
  Manager_ok (mgr w) ∧ Daemon_ok (rest w) ∧
  (∀ e pkt from, bytes_ok pkt →
     match Parse pkt with
     | Ok hdr => hType hdr ∈ [TypeMessage; TypeTest; TypeCloseTunnel] →
                 (consumeOutsidePacket ord e pkt from w).2 = Ok tt
     | _ => consumeOutsidePacket ord e pkt from w = (w, Ok tt)
     end).
Proof.
  intros H. apply daemon_reachable_ok in H as [Hm Hd]; [| split; [apply New_ok | apply initial_ok]].
  split_and!; [done | done |]. intros e pkt from Hb. unfold consumeOutsidePacket.
  destruct (Parse pkt) as [hdr|err|] eqn:Hp; [| by case_decide | by apply Parse_safe in Hp].
  rewrite decide_False by (apply Parse_length in Hp; lia).
  rewrite !elem_of_cons, elem_of_nil. intros [Ht | [Ht | [Ht | []]]]; rewrite Ht;
    unfold TypeCloseTunnel, TypeMessage, TypeHandshake, TypeLightHouse, TypeTest; cbn [Z.eqb Pos.eqb].
  - by destruct (handleMessage_cases e pkt hdr from w Hd (Parse_counter _ _ Hb Hp)) as (w' & _ & ->).
  - unfold handleTest, gignore, WriteTo. by destruct (udpResult _ _ _).
  - unfold handleCloseTunnel. erewrite gbind_ok by reflexivity.
    destruct (GetByIndex _ _) as [l|] eqn:Hl; [| done].
    destruct (byIndex_ok _ _ (daemon_hostmap _ Hd) _ _ Hl) as (h & Hh & _).
    assert (Hlk : lookup_host (Some l) w = (w, Ok (Some (l, h)))).
    { unfold lookup_host. erewrite gbind_ok; [reflexivity |]. unfold load_host. by rewrite Hh. }
    rewrite (gbind_ok _ _ _ _ _ Hlk).
    by destruct (Remove_ok _ (VpnIP h) _ (daemon_hostmap _ Hd)) as (m' & -> & _).
Qed.

(** ** Outbound packets *)

Section Outbound.

Context {crypto : CryptoLib} {noise : NoiseLib} {proto : ProtoLib} {certlib : CertLib}.

(** The flow of a packet as the daemon reads it. *)
Definition flow_of (pkt : bytes) (dst : Addr) (pr port : Z) : Prop :=
  dstIPFromIPv4 pkt = Ok (Some dst) ∧ protoFromIPv4 pkt = Ok pr ∧ dstPortFromIPv4 pkt = Ok port.

Lemma lookup_host_eq (w : World Daemon) o :
  (∀ l, o = Some l → ∃ h, ifHosts (rest w) !! l = Some h) →
  lookup_host o w = (w, Ok (match o with
                            | Some l => match ifHosts (rest w) !! l with Some h => Some (l, h) | None => None end
                            | None => None end)).
Proof.
  intros H. unfold lookup_host. destruct o as [l|]; [| done]. destruct (H l eq_refl) as [h Hh].
  rewrite Hh. erewrite gbind_ok; [reflexivity |]. unfold load_host. by rewrite Hh.
Qed.

Lemma QueuePacket_out {X} ip pkt (w : World X) : out (QueuePacket ip pkt w).1 = out w.
Proof.
  unfold QueuePacket, get_mgr, set_mgr. gsimpl. destruct (pending (mgr w) !! ip) as [l|]; [| done].
  by destruct (phs (mgr w) !! l).
Qed.

(** What follows the firewall when there is no session. *)
Definition no_session_path (e : Env) (dstIP : Addr) (pkt : bytes) (d : Daemon) : M (World Daemon) unit :=
  match getPeerCert dstIP d with
  | None => QueuePacket dstIP pkt
  | Some remoteCert =>
      match GetAddrs dstIP (ifLighthouse d) with
      | [] => do! QueryPeer (lighthouseSendFn e) dstIP in QueuePacket dstIP pkt
      | addr :: _ => λ w,
          match StartHandshake e dstIP addr remoteCert w with
          | (w', Ok _) => QueuePacket dstIP pkt w'
          | (w', Fail _) => (w', Ok tt)
          | (w', Panic) => (w', Panic)
          end
      end
  end.

Lemma consumeInside_eq e pkt dst pr port w fw' b :
  Daemon_ok (rest w) → flow_of pkt dst pr port →
  let host := match GetByVpnIP dst (ifHostMap (rest w)) with
              | Some l => match ifHosts (rest w) !! l with Some h => Some (l, h) | None => None end
              | None => None end in
  AllowOutbound dst (host_groups (snd <$> host)) port pr (nowTrack e) (ifFw (rest w)) = (fw', b) →
  consumeInsidePacket e pkt w =
    if b then match host with
              | Some (l, _) => sendToRemote e l pkt (with_fw fw' w)
              | None => no_session_path e dst pkt (rest w) (with_fw fw' w)
              end
    else (with_fw fw' w, Ok tt).
Proof.
  intros [Hm _] (Hd & Hp & Hport) host Ha. unfold consumeInsidePacket. rewrite Hd.
  erewrite gbind_ok by reflexivity. cbv beta match. erewrite gbind_ok by reflexivity.
  erewrite gbind_ok; [| apply lookup_host_eq; intros l Hl; destruct (byVpnIP_ok _ _ Hm _ _ Hl) as (h & ? & _); eauto].
  fold host. rewrite Hp, Hport. do 2 erewrite gbind_ok by reflexivity.
  erewrite gbind_ok; [| unfold on_fw; rewrite Ha; reflexivity]. destruct b; [| done]. cbn [negb].
  by destruct host as [[l h]|].
Qed.

(** The part without a session sends the same whatever the packet holds. *)
Lemma no_session_out e dst pkt pkt' d w :
  out (no_session_path e dst pkt d w).1 = out (no_session_path e dst pkt' d w).1.
Proof.
  unfold no_session_path. destruct (getPeerCert dst d); [| by rewrite !QueuePacket_out].
  destruct (GetAddrs dst (ifLighthouse d)).
  - unfold gbind. destruct (QueryPeer _ _ w) as [w' [[]| |]]; [by rewrite !QueuePacket_out | done | done].
  - destruct (StartHandshake _ _ _ _ w) as [w' [[]| |]]; [by rewrite !QueuePacket_out | done | done].
Qed.

End Outbound.


(** C27. No plaintext leaves before a session exists: for two packets of the same
    flow, to a destination without a session, the daemon's output is the same,
    whatever the packets contain. *)
Theorem no_plaintext_without_session {crypto : CryptoLib} {noise : NoiseLib} {proto : ProtoLib} {certlib : CertLib}
    e pkt pkt' dst pr port w :
  Daemon_ok (rest w) → flow_of pkt dst pr port → flow_of pkt' dst pr port →
  GetByVpnIP dst (ifHostMap (rest w)) = None →
  out (consumeInsidePacket e pkt w).1 = out (consumeInsidePacket e pkt' w).1.
Proof.
  intros Hok Hf Hf' Hn.
  destruct (AllowOutbound dst [] port pr (nowTrack e) (ifFw (rest w))) as [fw' b] eqn:Ha.
  rewrite (consumeInside_eq e pkt dst pr port w fw' b), (consumeInside_eq e pkt' dst pr port w fw' b)
    by (rewrite ?Hn; done).
  rewrite Hn. destruct b; [| done]. apply no_session_out.
Qed.

(** A completed handshake opens the session: it is found under the peer's
    VPN address and under the local index, the peer's certificate is cached, and
    the packets queued during the handshake leave at once, in order, sealed with
    the counters 1, 2, 3 and so on. *)
Theorem session_established {crypto : CryptoLib} {noise : NoiseLib} {proto : ProtoLib} {certlib : CertLib}
    e h cert pkts w :
  Counter h = 0 → hCert h = Some cert → Z.of_nat (length pkts) < 2 ^ 64 →
  ∃ w' l h', onHandshakeComplete e h pkts w = (w', Ok tt) ∧
    GetByVpnIP (VpnIP h) (ifHostMap (rest w')) = Some l ∧ GetByIndex (Index h) (ifHostMap (rest w')) = Some l ∧
    ifHosts (rest w') !! l = Some h' ∧ same_identity h h' ∧ hWindow h' = hWindow h ∧
    getPeerCert (VpnIP h) (rest w') = Some cert ∧
    out w' = out w ++ imap (λ k p, UDPSend (message_wire h (Z.of_nat k + 1) p) (Remote h)) pkts.
Proof.
  intros Hc Hcert Hlen. destruct (onHandshakeComplete_eq e h pkts w) as (h' & Hid & Hw & Hrun).
  eexists. exists (fresh_loc (ifHosts (rest w))), h'. split; [exact Hrun |].
  unfold GetByVpnIP, GetByIndex, getPeerCert. cbn. rewrite Hcert, !lookup_insert_eq.
  split_and!; try done. f_equal. rewrite Hc.
  assert (Hgen : ∀ pkts c, 0 ≤ c → c + Z.of_nat (length pkts) < 2 ^ 64 →
    send_trace h c pkts = imap (λ k p, UDPSend (message_wire h (c + (Z.of_nat k + 1)) p) (Remote h)) pkts).
  { clear. induction pkts as [|p pkts IH]; intros c H0 Hl; [done |]. cbn [send_trace imap length] in *.
    rewrite wrap_small by (unfold in_u; lia). rewrite IH by lia. f_equal.
    apply imap_ext. intros k x _. cbn. do 2 f_equal. lia. }
  rewrite Hgen by lia. done.
Qed.
