(* ===== verification/Wire.v ===== *)
(** * The datagrams the daemon sends

    A type of datagrams (the forms of src/header and its users) and the proof that
    every datagram of the running daemon, resent handshakes included, has it. *)

From S2P Require Import Prelude Bytes Header Net Replay GoText Config Firewall Messages External Cert.
From S2P Require Import NoiseUtil HostMap Handshake HandshakeManager Punchy LightHouse Interface DataPlane.

Section Wire.

Context {crypto : CryptoLib} {noise : NoiseLib} {proto : ProtoLib} {certlib : CertLib}.
Context (ord : gmap Addr (list UDPAddr) → list (Addr * list UDPAddr)).

(** ** Forms *)

Inductive wire_form : bytes → Prop :=
| wire_punch : wire_form []
| wire_test : wire_form (Bytes (mkHeader Version TypeTest 0 0 0))
| wire_message i c a p :
    let hdr := Bytes (mkHeader Version TypeMessage 0 i c) in
    wire_form (hdr ++ Seal a (CounterNonce c) p hdr)
| wire_handshake sub i msg body :
    sub ∈ [HandshakeInitiation; HandshakeResponse] → marshal_handshake msg = Ok body →
    wire_form (Bytes (mkHeader Version TypeHandshake sub i 0) ++ body)
| wire_lighthouse msg body :
    marshal_lighthouse msg = Ok body → wire_form (Bytes (mkHeader Version TypeLightHouse 0 0 0) ++ body).

(** A datagram that is not a punch has a header of this version and a known type. *)
Lemma Parse_form t sub i c tl : in_u 4 t →
  ∃ hdr, Parse (Bytes (mkHeader Version t sub i c) ++ tl) = Ok hdr ∧ hType hdr = t.
Proof.
  intros Ht. rewrite Bytes_wire, Parse_wire. cbn [hVersion]. change (wrap 4 Version =? Version) with true.
  eexists. split; [done |]. unfold truncate. cbn. by rewrite wrap_small.
Qed.

Lemma wire_form_parses d : wire_form d → d ≠ [] →
  ∃ hdr, Parse d = Ok hdr ∧ hType hdr ∈ [TypeHandshake; TypeMessage; TypeLightHouse; TypeTest].
Proof.
  intros H Hne. assert (Hgo : ∀ t sub i c tl, t ∈ [TypeHandshake; TypeMessage; TypeLightHouse; TypeTest] → in_u 4 t →
    ∃ hdr, Parse (Bytes (mkHeader Version t sub i c) ++ tl) = Ok hdr ∧
      hType hdr ∈ [TypeHandshake; TypeMessage; TypeLightHouse; TypeTest]).
  { intros t sub i c tl Hin Ht. destruct (Parse_form t sub i c tl Ht) as (hdr & Hp & Hty). exists hdr. by rewrite Hty. }
  destruct H as [| | i c a p hdr | sub i msg body _ _ | msg body _]; [done | | | |].
  - rewrite <- (app_nil_r (Bytes _)). by apply Hgo; [apply (bool_decide_unpack _); vm_compute |].
  - by apply Hgo; [apply (bool_decide_unpack _); vm_compute |].
  - by apply Hgo; [apply (bool_decide_unpack _); vm_compute |].
  - by apply Hgo; [apply (bool_decide_unpack _); vm_compute |].
Qed.

(** ** Typed states *)

Definition typed_output (o : Output) : Prop :=
  match o with UDPSend d _ => wire_form d | TUNWrite _ => True end.

(** What was sent is typed, and so is what the retries will send. *)
Record typed (w : World Daemon) : Prop := {
  typed_out : Forall typed_output (out w);
  typed_pending l ph : phs (mgr w) !! l = Some ph → wire_form (phStage0 ph);
}.

Lemma typed_emit o w : Forall typed_output o → typed w → typed (emit o w).
Proof. intros Ho [H1 H2]. split; [by apply Forall_app | done]. Qed.

(** Changing one pending object without its packet, or none. *)
Lemma typed_tables w s p i :
  typed w → (∀ l ph, s !! l = Some ph → wire_form (phStage0 ph)) →
  typed (mkWorld (set_tables s p i (mgr w)) (out w) (rest w)).
Proof. intros [H1 H2] Hs. by split. Qed.

Lemma typed_update w l ph ph' :
  typed w → phs (mgr w) !! l = Some ph → phStage0 ph' = phStage0 ph →
  ∀ l0 ph0, <[l := ph']> (phs (mgr w)) !! l0 = Some ph0 → wire_form (phStage0 ph0).
Proof.
  intros [_ H2] Hl Hs l0 ph0 [[<- <-] | [_ ?]]%lookup_insert_Some; [rewrite Hs |]; eauto.
Qed.

Lemma WriteTo_typed e d t : wire_form d → keeps typed (WriteTo e d t).
Proof. intros Hd w Hw. apply (typed_emit [UDPSend d t] w); [by repeat constructor | done]. Qed.

Lemma get_mgr_typed : keeps typed get_mgr.
Proof. by intros w. Qed.
Lemma get_daemon_typed : keeps typed get_daemon.
Proof. by intros w. Qed.
Lemma load_host_typed l : keeps typed (load_host l).
Proof. by intros w. Qed.
Lemma get_lh_typed : keeps typed get_lh.
Proof. by intros w. Qed.
Lemma set_lh_typed l : keeps typed (set_lh l).
Proof. intros w [H1 H2]. by split. Qed.
Lemma set_hostmap_typed m : keeps typed (set_hostmap m).
Proof. intros w [H1 H2]. by split. Qed.
Lemma AddPeerCert_typed ip c : keeps typed (AddPeerCert ip c).
Proof. intros w [H1 H2]. by split. Qed.
Lemma tunWrite_typed e p : keeps typed (tunWrite e p).
Proof. intros w Hw. apply (typed_emit [TUNWrite p] w); [by repeat constructor | done]. Qed.
Lemma on_fw_typed {A} (f : Firewall → Firewall * A) : keeps typed (on_fw f).
Proof. intros w [H1 H2]. unfold on_fw. destruct (f _). by split. Qed.
Lemma on_hosts_typed {A} (m : M (gmap nat HostInfo) A) : keeps typed (on_hosts m).
Proof. intros w [H1 H2]. unfold on_hosts. destruct (m _). by split. Qed.
Lemma alloc_host_typed h : keeps typed (alloc_host h).
Proof. intros w [H1 H2]. by split. Qed.

Hint Resolve get_mgr_typed get_daemon_typed load_host_typed get_lh_typed set_lh_typed set_hostmap_typed
  AddPeerCert_typed tunWrite_typed alloc_host_typed wire_punch wire_test : neth.
Hint Extern 1 (keeps typed (on_fw _)) => apply on_fw_typed : neth.
Hint Extern 1 (keeps typed (on_hosts _)) => apply on_hosts_typed : neth.
Hint Extern 1 (keeps typed (WriteTo _ [] _)) => apply WriteTo_typed, wire_punch : neth.

(** ** The senders *)

Lemma sendToRemote_typed e l p : keeps typed (sendToRemote e l p).
Proof.
  unfold sendToRemote. apply keeps_bind; [auto with neth |]. intros c. apply keeps_bind; [auto with neth |]. intros host.
  unfold Encrypt. apply keeps_ignore, WriteTo_typed, wire_message.
Qed.
Hint Resolve sendToRemote_typed : neth.

Lemma send_typed e msg ip : keeps typed (send (lighthouseSendFn e) msg ip).
Proof.
  unfold send. apply keeps_bind; [auto with neth |]. intros lh. unfold marshalLightHousePacket.
  destruct (marshal_lighthouse msg) as [body| |] eqn:E; cbn [go_wrap go_bind]; [| auto with neth ..].
  apply keeps_for. intros a _. apply keeps_ignore, WriteTo_typed. by eapply wire_lighthouse.
Qed.
Hint Resolve send_typed : neth.

Lemma HandleMessage_typed e msg from : keeps typed (HandleMessage (lighthouseSendFn e) (WriteTo e) msg from).
Proof.
  unfold HandleMessage, handleQuery, handleQueryReply, handleUpdate, handleWhoAmI, handleWhoAmIReply,
    handlePunch, Punch. keep_all.
Qed.

Lemma QueryPeer_typed e ip : keeps typed (QueryPeer (lighthouseSendFn e) ip).
Proof. unfold QueryPeer. keep_all. Qed.

Lemma Advertise_typed e : keeps typed (Advertise (lighthouseSendFn e)).
Proof. unfold Advertise. keep_all. Qed.

Lemma onHandshakeComplete_typed e h pkts : keeps typed (onHandshakeComplete e h pkts).
Proof. unfold onHandshakeComplete. keep_all. Qed.

Hint Resolve HandleMessage_typed QueryPeer_typed Advertise_typed onHandshakeComplete_typed : neth.

(** ** The handshake manager *)

Lemma marshalHandshakePacket_form msg i sub pkt :
  sub ∈ [HandshakeInitiation; HandshakeResponse] → marshalHandshakePacket msg i sub = Ok pkt → wire_form pkt.
Proof.
  intros Hs. unfold marshalHandshakePacket. destruct (marshal_handshake msg) as [body| |] eqn:E; [| done ..].
  cbn [go_wrap go_bind]. intros H. assert (pkt = Bytes (mkHeader Version TypeHandshake sub i 0) ++ body) as -> by congruence.
  by eapply wire_handshake.
Qed.

Lemma QueuePacket_typed ip pkt : keeps typed (QueuePacket ip pkt : M (World Daemon) unit).
Proof.
  intros w Hw. unfold QueuePacket, get_mgr, set_mgr. gsimpl. destruct (pending (mgr w) !! ip) as [l|]; [| done].
  destruct (phs (mgr w) !! l) as [ph|] eqn:Hl; [| done]. apply typed_tables; [done |]. by eapply typed_update.
Qed.

Lemma retryOne_typed e now entry : keeps typed (retryOne e now entry : M (World Daemon) unit).
Proof.
  destruct entry as [ip l]. intros w Hw. unfold retryOne. rewrite (gbind_ok _ _ w w (mgr w)) by done.
  destruct (phs (mgr w) !! l) as [ph|] eqn:Hl; [| done]. destruct (_ <? _); [done |].
  destruct (_ <=? _); [apply typed_tables; [done | apply Hw] |].
  erewrite gbind_ok by reflexivity. apply keeps_ignore; [apply WriteTo_typed; by eapply typed_pending |].
  apply typed_tables; [done |]. by eapply typed_update.
Qed.

Lemma StartHandshake_typed e ip addr cert : keeps typed (StartHandshake e ip addr cert : M (World Daemon) unit).
Proof.
  intros w Hw. unfold StartHandshake. rewrite (gbind_ok _ _ w w (mgr w)) by done.
  destruct (pending (mgr w) !! ip); [done |]. unfold gbind at 1. unfold glift at 1.
  destruct (go_wrap _ (randomIndex e)) as [i| |]; [| done ..]. unfold gbind at 1. unfold glift at 1.
  destruct (go_wrap _ (NewInitiatorState _ _ _)) as [hs| |]; [| done ..].
  destruct (WriteMessage _ _ hs) as [hs' res]. unfold gbind at 1. unfold glift at 1.
  destruct (go_wrap _ res) as [[nm cs]| |]; [| done ..]. unfold gbind at 1. unfold glift at 1.
  destruct (buildHandshakePacket _ _ _ _ _) as [pkt| |] eqn:Hb; [| done ..].
  assert (Hform : wire_form pkt).
  { unfold buildHandshakePacket in Hb. destruct (BuildInitiatorMessage _ _ _ _) as [msg| |]; [| done ..].
    cbn [go_bind] in Hb. eapply marshalHandshakePacket_form; [| exact Hb]. by left. }
  erewrite gbind_ok by reflexivity. apply WriteTo_typed; [done |]. apply typed_tables; [done |].
  intros l ph [[<- <-] | [_ ?]]%lookup_insert_Some; [done | by eapply typed_pending].
Qed.

Lemma HandleStage0_typed e pkt from : keeps typed (HandleStage0 (onHandshakeComplete e) e pkt from).
Proof.
  unfold HandleStage0. apply keeps_bind; [auto with neth |]. intros m. case_decide; [auto with neth |].
  repeat first
    [ progress intros
    | by auto with neth
    | match goal with |- keeps _ (gbind (glift (marshalHandshakePacket ?a ?b ?c)) _) =>
        let E := fresh "Hpkt" in destruct (marshalHandshakePacket a b c) as [reply| |] eqn:E; [| by intros w Hw ..];
        apply (marshalHandshakePacket_form a b c reply) in E; [| by right; left]; apply keeps_lift_ok end
    | match goal with |- keeps _ (WriteTo _ _ _) => by apply WriteTo_typed end
    | apply keeps_bind | apply keeps_wrap | step_match ].
Qed.

Lemma HandleStage1_typed e pkt : keeps typed (HandleStage1 (onHandshakeComplete e) e pkt).
Proof.
  unfold HandleStage1. case_decide; [auto with neth |]. apply keeps_bind; [auto with neth |]. intros h w Hw.
  rewrite (gbind_ok _ _ w w (mgr w)) by done. destruct (indexMap (mgr w) !! _) as [l|]; [| done].
  destruct (phs (mgr w) !! l) as [ph|]; [| done]. erewrite gbind_ok by reflexivity.
  set (w1 := mkWorld _ _ _). assert (Hw1 : typed w1) by (apply typed_tables; [done | apply Hw]).
  clearbody w1. revert w1 Hw1. match goal with |- ∀ w1, _ → typed (fst (?c w1)) => change (keeps typed c) end. keep_all.
Qed.

Hint Resolve QueuePacket_typed StartHandshake_typed HandleStage0_typed HandleStage1_typed : neth.

(** ** The handlers *)

Lemma lookup_host_typed o : keeps typed (lookup_host o).
Proof. unfold lookup_host. keep_all. Qed.
Hint Resolve lookup_host_typed : neth.

Lemma consumeInsidePacket_typed e pkt : keeps typed (consumeInsidePacket e pkt).
Proof.
  unfold consumeInsidePacket. keep_all. intros w Hw.
  match goal with |- context [StartHandshake ?a ?b ?c ?d ?w0] =>
    pose proof (StartHandshake_typed a b c d w0 Hw); destruct (StartHandshake a b c d w0) as [w' [[]| |]] end;
    cbn in *; try done. by apply QueuePacket_typed.
Qed.

Lemma consumeOutsidePacket_typed e pkt from : keeps typed (consumeOutsidePacket ord e pkt from).
Proof.
  unfold consumeOutsidePacket, handleMessage, handleHandshake, handleLightHouse, handleTest, handleCloseTunnel,
    RespondToPunch. keep_all. apply WriteTo_typed, wire_test.
Qed.

Lemma daemon_step_typed w w' : daemon_step ord w w' → typed w → typed w'.
Proof.
  destruct 1 as [w e pkt | w e pkt from Hb | w e order now Ho | w e | w now | w ip c]; intros Hw.
  - by apply consumeInsidePacket_typed.
  - by apply consumeOutsidePacket_typed.
  - revert Hw. apply keeps_for. intros entry _. apply retryOne_typed.
  - by apply Advertise_typed.
  - destruct Hw. by split.
  - by apply AddPeerCert_typed.
Qed.

Lemma daemon_steps_typed w w' : rtc (daemon_step ord) w w' → typed w → typed w'.
Proof. induction 1 as [|w1 w2 w3 Hs _ IH]; intros Hw; [done |]. by eapply IH, daemon_step_typed. Qed.

End Wire.

(** ** Properties *)

(** C24. Every datagram the running daemon sends is well-typed: it is empty (a hole
    punch), the test reply, or the header of a handshake, data or lighthouse packet
    followed by an encoded handshake message, by the AEAD encryption of a packet
    under the header's counter with the header as additional data, or by an encoded
    lighthouse message; so the receiver's parser accepts the header of every
    datagram that is not a punch and finds a type it knows. *)
Theorem datagrams_typed {crypto : CryptoLib} {noise : NoiseLib} {proto : ProtoLib} {certlib : CertLib}
    ord cert key pool fw lh py certs w d a :
  rtc (daemon_step ord) (mkWorld (NewHandshakeManager cert key pool) [] (initial_daemon fw lh py certs)) w →
  UDPSend d a ∈ out w →
  wire_form d ∧
  (d ≠ [] → ∃ hdr, Parse d = Ok hdr ∧ hType hdr ∈ [TypeHandshake; TypeMessage; TypeLightHouse; TypeTest]).
Proof.
  intros H Hin. assert (Ht : typed w).
  { eapply daemon_steps_typed; [exact H |]. split; cbn; [constructor |]. intros l ph Hl. by rewrite lookup_empty in Hl. }
  destruct Ht as [Ho _]. rewrite Forall_forall in Ho. specialize (Ho _ Hin). split; [done |].
  by apply wire_form_parses.
Qed.
