(* ===== verification/EndToEnd.v ===== *)
(** * Two daemons on a network

    Compositions of the handlers of [Interface] on two nodes: a stream of datagrams
    arriving in any order with duplicates and losses, and the path of the first
    packet to a peer there is no session with yet, through the handshake to the
    peer's TUN device. *)

From S2P Require Import Prelude Bytes Header Net Replay GoText Config Firewall Messages External Cert.
From S2P Require Import NoiseUtil HostMap Handshake HandshakeManager Punchy LightHouse Ipv4 Session Interface DataPlane.

(** ** A stream of datagrams *)

(** A datagram of a session as it arrives. *)
Record arrival := mkArrival { aEnv : Env; aFrom : UDPAddr; aCounter : Z; aPacket : bytes }.

(** The arrivals a receiver with perfect memory takes: those whose counter it has
    not taken before and that are not more than a window behind the highest. *)
Fixpoint accepted (hist : list Z) (l : list arrival) : list arrival :=
  match l with
  | [] => []
  | a :: l' => if decide (fresh_counter hist (aCounter a)) then a :: accepted (aCounter a :: hist) l'
               else accepted hist l'
  end.

Lemma accepted_sublist hist l : sublist (accepted hist l) l.
Proof.
  revert hist. induction l as [|a l IH]; intros hist; cbn; [constructor |].
  case_decide; constructor; apply IH.
Qed.

Lemma accepted_fresh hist l : NoDup (map aCounter (accepted hist l)) ∧
  ∀ c, c ∈ map aCounter (accepted hist l) → c ∉ hist.
Proof.
  revert hist. induction l as [|a l IH]; intros hist; cbn; [split; [constructor | by intros c ?%elem_of_nil] |].
  case_decide as Hf; [| apply IH]. destruct (IH (aCounter a :: hist)) as [Hnd Hnew]. cbn. split.
  - constructor; [| done]. intros Hin. by apply Hnew in Hin; apply Hin; left.
  - intros c [-> | Hc]%elem_of_cons; [apply Hf |]. apply Hnew in Hc. by apply not_elem_of_cons in Hc as [_ ?].
Qed.

(** Distinct counters no more than a window apart are all taken, in any order. *)
Lemma accepted_all hist l :
  NoDup (map aCounter l) → (∀ a, a ∈ l → aCounter a ∉ hist) →
  (∀ a c, a ∈ l → c ∈ hist ++ map aCounter l → c - aCounter a < replayWindowSize) →
  accepted hist l = l.
Proof.
  revert hist. induction l as [|a l IH]; intros hist Hnd Hnew Hwin; [done |]. cbn in *.
  apply NoDup_cons in Hnd as [Hna Hnd]. rewrite decide_True.
  - f_equal. apply IH; [done | |].
    + intros b Hb. apply not_elem_of_cons. split; [| apply Hnew; by right].
      intros E. apply Hna. rewrite <- E. by apply list_elem_of_In, in_map, list_elem_of_In.
    + intros b c Hb Hc. apply Hwin; [by right |]. rewrite elem_of_app, elem_of_cons in Hc |- *.
      naive_solver.
  - split; [apply Hnew; by left |]. apply Forall_forall. intros c Hc. apply Hwin; [by left |].
    apply elem_of_app. by left.
Qed.

Section Stream.

Context {crypto : CryptoLib} {noise : NoiseLib} {proto : ProtoLib} {certlib : CertLib}.
Context {crypto_laws : CryptoLaws}.

(** The packets of a list of arrivals passing the inbound filter one by one. *)
Fixpoint filtered (h : HostInfo) (l : list arrival) (fw : Firewall) : Firewall * list Output :=
  match l with
  | [] => (fw, [])
  | a :: l' =>
      let '(fw1, o1) := inbound_step (aEnv a) h (aPacket a) fw in
      let '(fw2, o2) := filtered h l' fw1 in
      (fw2, o1 ++ o2)
  end.

Lemma admit_window e win h p fw : inbound_step e (set_hWindow win h) p fw = inbound_step e h p fw.
Proof. done. Qed.

Lemma filtered_window win h l fw : filtered (set_hWindow win h) l fw = filtered h l fw.
Proof.
  revert fw. induction l as [|a l IH]; intros fw; [done |]. cbn. rewrite admit_window.
  destruct (inbound_step _ _ _ _). by rewrite IH.
Qed.

(** Receiving the datagrams the other end sealed, in the order they arrive. *)
Definition receive_all ord (hA : HostInfo) (l : list arrival) : M (World Daemon) unit :=
  gfor l (λ a, consumeOutsidePacket ord (aEnv a) (message_wire hA (aCounter a) (aPacket a)) (aFrom a)).

Lemma received_ok l h win w fw o hist :
  Daemon_ok (rest w) → ifHosts (rest w) !! l = Some h → represents hist win →
  Daemon_ok (rest (emit o (with_fw fw (put_host l (set_hWindow win h) w)))).
Proof.
  intros Hok Hl Hr. destruct (Daemon_ok_update (rest w) l h (set_hWindow win h) Hok Hl) as [H1 H2]; [| by exists hist |].
  - unfold same_identity. auto 10.
  - by split.
Qed.

Lemma receive_all_run ord hA arrivals : ∀ hB l hist w,
  Daemon_ok (rest w) → ifHosts (rest w) !! l = Some hB →
  GetByIndex (RemoteIndex hA) (ifHostMap (rest w)) = Some l → SendCipher hA = RecvCipher hB →
  in_u 32 (RemoteIndex hA) → Forall (λ a, in_u 64 (aCounter a)) arrivals → represents hist (hWindow hB) →
  ∃ w' hB', receive_all ord hA arrivals w = (w', Ok tt) ∧
    out w' = out w ++ (filtered hB (accepted hist arrivals) (ifFw (rest w))).2 ∧
    ifFw (rest w') = (filtered hB (accepted hist arrivals) (ifFw (rest w))).1 ∧
    ifHosts (rest w') !! l = Some hB' ∧
    represents (rev (map aCounter (accepted hist arrivals)) ++ hist) (hWindow hB').
Proof.
  induction arrivals as [|a arrivals IH]; intros hB l hist w Hok HB Hidx Hci Hri Hc Hrep.
  { exists w, hB. cbn. rewrite app_nil_r. done. }
  apply Forall_cons in Hc as [Hc Hcs]. unfold receive_all. cbn [gfor accepted].
  destruct (receive_message ord (aEnv a) hA hB l hist (aCounter a) (aPacket a) (aFrom a) w Hok HB Hidx Hci Hri Hc Hrep)
    as [Hold Hnew].
  case_decide as Hf.
  - destruct (Hnew Hf) as (win & Hrep' & Hrun). rewrite (gbind_ok _ _ _ _ _ Hrun).
    match goal with |- context [(gfor _ _ ?w0) = _] => set (w1 := w0) end.
    destruct (IH (set_hWindow win hB) l (aCounter a :: hist) w1) as (w' & hB' & Hall & Ho & Hfw & Hl & Hr); try done.
    { by eapply received_ok. }
    { cbn. by rewrite lookup_insert_eq. }
    rewrite filtered_window in Ho, Hfw. exists w', hB'. split; [exact Hall |]. cbn [filtered].
    change (ifFw (rest w1)) with (inbound_step (aEnv a) hB (aPacket a) (ifFw (rest w))).1 in Ho, Hfw.
    change (out w1) with (out w ++ (inbound_step (aEnv a) hB (aPacket a) (ifFw (rest w))).2) in Ho.
    destruct (inbound_step _ _ _ _) as [fw1 o1]. cbn [fst snd] in Ho, Hfw.
    destruct (filtered hB (accepted (aCounter a :: hist) arrivals) fw1) as [fw2 o2]. cbn [fst snd] in *.
    split_and!; [by rewrite Ho, app_assoc | done | done |].
    cbn [map rev]. by rewrite <- app_assoc.
  - rewrite (gbind_ok _ _ _ _ _ (Hold Hf)). by apply IH.
Qed.

End Stream.

(** ** The first packet to a peer *)

Section FirstPacket.

Context {crypto : CryptoLib} {noise : NoiseLib} {proto : ProtoLib} {certlib : CertLib}.
Context (ord : gmap Addr (list UDPAddr) → list (Addr * list UDPAddr)).

(** Dispatch of the two handshake packets. *)
Lemma consume_initiation e pkt i c from w :
  Parse pkt = Ok (mkHeader Version TypeHandshake HandshakeInitiation i c) →
  consumeOutsidePacket ord e pkt from w = gignore (HandleStage0 (onHandshakeComplete e) e pkt from) w.
Proof.
  intros Hp. unfold consumeOutsidePacket. rewrite decide_False by (apply Parse_length in Hp; lia). by rewrite Hp.
Qed.

Lemma consume_response e pkt i c from w :
  Parse pkt = Ok (mkHeader Version TypeHandshake HandshakeResponse i c) →
  consumeOutsidePacket ord e pkt from w = gignore (HandleStage1 (onHandshakeComplete e) e pkt) w.
Proof.
  intros Hp. unfold consumeOutsidePacket. rewrite decide_False by (apply Parse_length in Hp; lia). by rewrite Hp.
Qed.

(** A session [h] that was not used yet, found under its index and its address. *)
Definition session_open (h : HostInfo) (w : World Daemon) : Prop :=
  ∃ l h', ifHosts (rest w) !! l = Some h' ∧ same_identity h h' ∧ hWindow h' = newWindow ∧
    GetByIndex (Index h) (ifHostMap (rest w)) = Some l ∧ GetByVpnIP (VpnIP h) (ifHostMap (rest w)) = Some l.

(** A completed handshake opens its session and sends what was queued. *)
Lemma session_opened e h pkts w :
  Daemon_ok (rest w) → new_session h →
  ∃ w', onHandshakeComplete e h pkts w = (w', Ok tt) ∧ Daemon_ok (rest w') ∧ mgr w' = mgr w ∧
    out w' = out w ++ send_trace h 0 pkts ∧ ifFw (rest w') = ifFw (rest w) ∧ session_open h w'.
Proof.
  intros Hok [Hc Hw]. destruct (onHandshakeComplete_eq e h pkts w) as (h' & Hid & Hw' & ->).
  eexists. split; [done |]. rewrite Hc. split_and!; try done.
  - apply (Daemon_ok_update (session_added h (rest w)) (fresh_loc (ifHosts (rest w))) h h').
    + by apply session_added_ok.
    + cbn. by rewrite lookup_insert_eq.
    + done.
    + rewrite Hw', Hw. exists []. apply newWindow_represents.
  - exists (fresh_loc (ifHosts (rest w))), h'. unfold GetByIndex, GetByVpnIP. cbn. rewrite !lookup_insert_eq. split_and!; congruence.
Qed.

Lemma QueueAll_one {X} ip pkt (w w' : World X) : QueueAll ip [pkt] w = (w', Ok tt) → QueuePacket ip pkt w = (w', Ok tt).
Proof.
  unfold QueueAll. cbn [gfor]. intros (s1 & [] & H & Heq)%gbind_inv. by injection Heq as <-.
Qed.

End FirstPacket.

(** The handshake a packet to a peer without a session starts: the initiation [d0],
    the answer [d1], and the packet sent on the new session. *)
Definition first_exchange (ord : gmap Addr (list UDPAddr) → list (Addr * list UDPAddr))
    {crypto : CryptoLib} {noise : NoiseLib} {proto : ProtoLib} {certlib : CertLib}
    (wA wB : World Daemon) (certA certB : Certificate) (eA0 eB0 eA1 : Env) (i j : Z) (pkt : bytes) (dst : Addr)
    (addr from addr' : UDPAddr) : Prop :=
  ∃ d0 d1 hA hB wA1 wB1 wA2,
    consumeInsidePacket eA0 pkt wA = (wA1, Ok tt) ∧ out wA1 = out wA ++ [UDPSend d0 addr] ∧
    consumeOutsidePacket ord eB0 d0 from wB = (wB1, Ok tt) ∧ out wB1 = out wB ++ [UDPSend d1 from] ∧
    consumeOutsidePacket ord eA1 d1 addr' wA1 = (wA2, Ok tt) ∧
    out wA2 = out wA1 ++ [UDPSend (message_wire hA 1 pkt) addr] ∧
    (Daemon_ok (rest wA2) ∧ session_open hA wA2) ∧
    (Daemon_ok (rest wB1) ∧ mgr wB1 = mgr wB ∧ ifFw (rest wB1) = ifFw (rest wB) ∧ session_open hB wB1) ∧
    paired hA hB ∧ VpnIP hA = dst ∧ VpnIP hB = pIP (cVpnIP certA) ∧ hCert hB = Some certA ∧ Remote hB = from ∧
    Index hA = i ∧ Index hB = j ∧
    Parse d1 = Ok (mkHeader Version TypeHandshake HandshakeResponse i 0) ∧ indexMap (mgr wA2) !! i = None.

Lemma first_exchange_run {crypto : CryptoLib} {noise : NoiseLib} {proto : ProtoLib} {certlib : CertLib}
    {crypto_laws : CryptoLaws} {noise_laws : NoiseLaws} {proto_laws : ProtoLaws} ord
    (wA wB : World Daemon) certA certB eA0 eB0 eA1 i j pkt dst pr port addr more from addr' fwA :
  Daemon_ok (rest wA) → Daemon_ok (rest wB) → trust (mgr wA) (mgr wB) certA certB eB0 eA1 → flow_of pkt dst pr port →
  GetByVpnIP dst (ifHostMap (rest wA)) = None → pending (mgr wA) !! dst = None →
  getPeerCert dst (rest wA) = Some certB → GetAddrs dst (ifLighthouse (rest wA)) = addr :: more →
  AllowOutbound dst [] port pr (nowTrack eA0) (ifFw (rest wA)) = (fwA, true) →
  draws_index eA0 i → draws_index eB0 j →
  (∀ d t, udpResult eA0 d t = None) → (∀ d t, udpResult eB0 d t = None) →
  first_exchange ord wA wB certA certB eA0 eB0 eA1 i j pkt dst addr from addr'.
Proof.
  intros HokA HokB Htrust Hflow Hnone Hpend Hcert Haddr Hout Hi Hj HuA HuB.
  destruct (exchange (onHandshakeComplete eA1) (onHandshakeComplete eB0) (with_fw fwA wA) wB certA certB eA0 eB0 eA1 i j
    dst addr from [pkt] Htrust Hpend Hi Hj HuA HuB)
    as (d0 & d1 & hA & hB & wA1 & wA2 & wA3 & Hstart & Ho1 & Hp0 & Hs0 & Hp1 & Hq & Hs1 & _ & Ho3 & Hr3 &
        Hpair & HipA & HipB & _ & HcB & HremA & HremB & HidxA & HidxB & HnewA & HnewB & Hgone).
  apply QueueAll_one in Hq. pose proof (QueuePacket_out dst pkt wA1) as Hoq. rewrite Hq in Hoq. cbn in Hoq.
  assert (HokA3 : Daemon_ok (rest wA3)) by (rewrite Hr3; by destruct HokA).
  destruct (session_opened eA1 hA [pkt] wA3 HokA3 HnewA) as (wA4 & Ha4 & HokA4 & Hm4 & Hoa4 & _ & HopA).
  destruct (session_opened eB0 hB [] (after_send d1 from wB) HokB HnewB) as (wB1 & Hb1 & HokB1 & Hmb1 & Hob1 & Hfw1 & HopB).
  exists d0, d1, hA, hB, wA2, wB1, wA4. split.
  { rewrite (consumeInside_eq eA0 pkt dst pr port wA fwA true) by (rewrite ?Hnone; done). rewrite Hnone.
    unfold no_session_path. by rewrite Hcert, Haddr, Hstart. }
  split; [by rewrite Hoq |].
  split; [rewrite (consume_initiation ord _ _ _ _ _ _ Hp0); unfold gignore; by rewrite Hs0, Hb1 |].
  split; [by rewrite Hob1; cbn; rewrite app_nil_r |].
  split.
  { rewrite (consume_response ord _ _ _ _ _ _ Hp1). unfold gignore. rewrite Hs1, lastn_small by (cbn; unfold maxPendingPackets; lia).
    by rewrite Ha4. }
  split; [rewrite Hoa4, Ho3, Hoq; cbn [send_trace]; by rewrite HremA |].
  split_and!; try done; [by rewrite Hm4].
Qed.

Lemma first_packet_run {crypto : CryptoLib} {noise : NoiseLib} {proto : ProtoLib} {certlib : CertLib}
    {crypto_laws : CryptoLaws} {noise_laws : NoiseLaws} {proto_laws : ProtoLaws} ord
    (wA wB : World Daemon) certA certB eA0 eB0 eA1 eB1 i j pkt dst src pr port addr more from addr' from' fwA fwB :
  Daemon_ok (rest wA) → Daemon_ok (rest wB) → trust (mgr wA) (mgr wB) certA certB eB0 eA1 →
  flow_of pkt dst pr port → srcIPFromIPv4 pkt = Ok (Some src) →
  GetByVpnIP dst (ifHostMap (rest wA)) = None → pending (mgr wA) !! dst = None →
  getPeerCert dst (rest wA) = Some certB → GetAddrs dst (ifLighthouse (rest wA)) = addr :: more →
  AllowOutbound dst [] port pr (nowTrack eA0) (ifFw (rest wA)) = (fwA, true) →
  AllowInbound src (cGroups certA) port pr (nowTrack eB1) (ifFw (rest wB)) = (fwB, true) →
  draws_index eA0 i → draws_index eB0 j →
  (∀ d t, udpResult eA0 d t = None) → (∀ d t, udpResult eB0 d t = None) →
  ∃ d0 d1 d2 wA1 wB1 wA2 wB2,
    consumeInsidePacket eA0 pkt wA = (wA1, Ok tt) ∧ out wA1 = out wA ++ [UDPSend d0 addr] ∧
    consumeOutsidePacket ord eB0 d0 from wB = (wB1, Ok tt) ∧ out wB1 = out wB ++ [UDPSend d1 from] ∧
    consumeOutsidePacket ord eA1 d1 addr' wA1 = (wA2, Ok tt) ∧ out wA2 = out wA1 ++ [UDPSend d2 addr] ∧
    consumeOutsidePacket ord eB1 d2 from' wB1 = (wB2, Ok tt) ∧ out wB2 = out wB1 ++ [TUNWrite pkt].
Proof.
  intros HokA HokB Htrust Hflow Hsrc Hnone Hpend Hcert Haddr Hout Hin Hi Hj HuA HuB.
  pose proof (proj2 (draws_index_spec _ _ Hj)) as Hj32.
  destruct (first_exchange_run ord wA wB certA certB eA0 eB0 eA1 i j pkt dst pr port addr more from addr' fwA
    HokA HokB Htrust Hflow Hnone Hpend Hcert Haddr Hout Hi Hj HuA HuB)
    as (d0 & d1 & hA & hB & wA1 & wB1 & wA2 & HA1 & HoA1 & HB1 & HoB1 & HA2 & HoA2 & _ & (HokB1 & _ & Hfw1 & HopB) &
        (Hc1 & _ & Hri & _) & _ & _ & HcB & _ & _ & HidxB & _).
  destruct HopB as (l & hB' & Hl1 & (_ & _ & _ & _ & _ & Hrecv & Hcrt) & Hw1 & Hix1 & _).
  destruct (proj2 (receive_message ord eB1 hA hB' _ [] 1 pkt from' wB1 HokB1 Hl1 ltac:(by rewrite Hri)
    ltac:(congruence) ltac:(by rewrite Hri, HidxB) ltac:(done) ltac:(rewrite Hw1; apply newWindow_represents))
    ltac:(split; [apply not_elem_of_nil | constructor])) as (win & _ & Hrecv1).
  exists d0, d1, (message_wire hA 1 pkt), wA1, wB1, wA2. eexists. split_and!; try done.
  rewrite Hfw1. destruct Hflow as (_ & Hpr & Hport).
  rewrite (admit_verdict eB1 hB' pkt _ fwB true); [done |].
  exists src, pr, port. unfold host_groups. rewrite Hcrt, HcB. done.
Qed.

(** ** Properties *)

(** C5. The receiving end of a session refines a receiver with perfect memory:
    for any sequence of the session's datagrams, in any order, with any losses and
    duplicates, what reaches the TUN device is exactly what the inbound filter
    passes of the arrivals that a receiver remembering every counter accepts.  None
    is accepted twice, and if the counters are distinct, new and within 4096 of
    each other all are accepted, in whatever order they arrive. *)
Theorem session_stream {crypto : CryptoLib} {noise : NoiseLib} {proto : ProtoLib} {certlib : CertLib}
    {crypto_laws : CryptoLaws} ord hA hB l hist w arrivals :
  Daemon_ok (rest w) → ifHosts (rest w) !! l = Some hB →
  GetByIndex (RemoteIndex hA) (ifHostMap (rest w)) = Some l → SendCipher hA = RecvCipher hB →
  in_u 32 (RemoteIndex hA) → Forall (λ a, in_u 64 (aCounter a)) arrivals → represents hist (hWindow hB) →
  ∃ w', receive_all ord hA arrivals w = (w', Ok tt) ∧
    out w' = out w ++ (filtered hB (accepted hist arrivals) (ifFw (rest w))).2 ∧
    sublist (accepted hist arrivals) arrivals ∧ NoDup (map aCounter (accepted hist arrivals)) ∧
    (NoDup (map aCounter arrivals) → (∀ a, a ∈ arrivals → aCounter a ∉ hist) →
     (∀ a c, a ∈ arrivals → c ∈ hist ++ map aCounter arrivals → c - aCounter a < replayWindowSize) →
     accepted hist arrivals = arrivals).
Proof.
  intros Hok HB Hidx Hci Hri Hc Hrep.
  destruct (receive_all_run ord hA arrivals hB l hist w Hok HB Hidx Hci Hri Hc Hrep) as (w' & hB' & Hrun & Ho & _).
  exists w'. split; [done |]. split; [done |]. split; [apply accepted_sublist |].
  split; [apply accepted_fresh | apply accepted_all].
Qed.

(** C10. The first packet to a peer arrives: when a node reads a packet for a peer
    it has a certificate and an address of, but no session with, three datagrams
    later, carried between the two nodes, the packet comes out of the peer's TUN
    device unchanged, provided the nodes trust each other's certificates, the
    sender's outbound and the receiver's inbound filter admit the packet, and the
    sends of the handshake succeed.  Each datagram is the only output of the node
    that sends it. *)
Theorem first_packet_delivered {crypto : CryptoLib} {noise : NoiseLib} {proto : ProtoLib} {certlib : CertLib}
    {crypto_laws : CryptoLaws} {noise_laws : NoiseLaws} {proto_laws : ProtoLaws} ord
    (wA wB : World Daemon) certA certB eA0 eB0 eA1 eB1 i j pkt dst src pr port addr more from addr' from' fwA fwB :
  Daemon_ok (rest wA) → Daemon_ok (rest wB) → trust (mgr wA) (mgr wB) certA certB eB0 eA1 →
  flow_of pkt dst pr port → srcIPFromIPv4 pkt = Ok (Some src) →
  GetByVpnIP dst (ifHostMap (rest wA)) = None → pending (mgr wA) !! dst = None →
  getPeerCert dst (rest wA) = Some certB → GetAddrs dst (ifLighthouse (rest wA)) = addr :: more →
  AllowOutbound dst [] port pr (nowTrack eA0) (ifFw (rest wA)) = (fwA, true) →
  AllowInbound src (cGroups certA) port pr (nowTrack eB1) (ifFw (rest wB)) = (fwB, true) →
  draws_index eA0 i → draws_index eB0 j →
  (∀ d t, udpResult eA0 d t = None) → (∀ d t, udpResult eB0 d t = None) →
  ∃ d0 d1 d2 wA1 wB1 wA2 wB2,
    consumeInsidePacket eA0 pkt wA = (wA1, Ok tt) ∧ out wA1 = out wA ++ [UDPSend d0 addr] ∧
    consumeOutsidePacket ord eB0 d0 from wB = (wB1, Ok tt) ∧ out wB1 = out wB ++ [UDPSend d1 from] ∧
    consumeOutsidePacket ord eA1 d1 addr' wA1 = (wA2, Ok tt) ∧ out wA2 = out wA1 ++ [UDPSend d2 addr] ∧
    consumeOutsidePacket ord eB1 d2 from' wB1 = (wB2, Ok tt) ∧ out wB2 = out wB1 ++ [TUNWrite pkt].
Proof. apply first_packet_run. Qed.
