(* ===== verification/Startup.v ===== *)
(** * Wiring the daemon: NewInterface and its helpers in src/interface.go

    Building the firewall, the lighthouse and the peer certificate cache from the
    configuration, and the order in which [NewInterface] acquires the socket and
    the TUN device and releases them when a later step fails.  The operating
    system's side is a set of parameters: files and directories, the listening
    socket, the TUN device, the host's interfaces and the resolver. *)

From S2P Require Import Prelude Bytes Header Net Replay GoText GoPath Config Firewall Messages External Cert.
From S2P Require Import NoiseUtil HostMap Handshake HandshakeManager Punchy LightHouse Pki Interface.

(** ** The firewall from the configuration *)

(** One of the two loops of [buildFirewall]. *)
Fixpoint parse_rules (what : string) (rules : list FirewallRule) : go (list Rule) :=
  match rules with
  | [] => Ok []
  | r :: rules' =>
      try! rule := go_wrap what (ParseRule r) in
      try! rest := parse_rules what rules' in
      Ok (rule :: rest)
  end.

Definition buildFirewall (cfg : FirewallConfig) : go Firewall :=
  try! ins := parse_rules "inbound rule" (Inbound cfg) in
  try! outs := parse_rules "outbound rule" (Outbound cfg) in
  Ok (New ins outs).

(** ** The node's own addresses *)

(** What [net.Interfaces] reports of an interface: its flags and, per address,
    the IP of an [*net.IPNet] ([None] for another kind of address). *)
Record NetIf := mkNetIf { nifLoopback : bool; nifUp : bool; nifAddrs : list (option bytes) }.

Definition localUDPAddrs (ifaces : go (list NetIf)) (port : Z) : list UDPAddr :=
  match ifaces with
  | Ok ifs =>
      concat (map (λ i,
        if nifLoopback i || negb (nifUp i) then []
        else omap (λ a, match a with
                        | None => None
                        | Some ip => match To4 ip with
                                     | Some ip4 => Some (mkUDPAddr ip4 port [])
                                     | None => None
                                     end
                        end) (nifAddrs i)) ifs)
  | _ => []
  end.

Section Startup.

Context {crypto : CryptoLib} {noise : NoiseLib} {proto : ProtoLib} {certlib : CertLib}.

(** [os.ReadFile] and [os.ReadDir] (whether an entry is a directory, and its
    name). *)
Context (ReadFile : bytes → go bytes) (ReadDir : bytes → go (list (bool * bytes))).
(** [udp.Listen] with the port of the local address it got (modelled in [Udp]), and
    [tun.Open] (modelled in [Tun]). *)
Context (Listen : bytes → Z → go Z) (TunOpen : bytes → bytes → Z → go unit).
Context (Interfaces : go (list NetIf)) (ResolveUDPAddr : bytes → go UDPAddr).
(** the iteration order of the static host map *)
Context (ord : gmap bytes (list bytes) → list (bytes * list bytes)).

(** ** The lighthouse from the configuration *)

Fixpoint parse_hosts (hosts : list bytes) : go (list Addr) :=
  match hosts with
  | [] => Ok []
  | host :: hosts' =>
      try! ip := go_wrap "lighthouse host" (ParseAddr host) in
      try! rest := parse_hosts hosts' in
      Ok (ip :: rest)
  end.

Fixpoint add_addrs (vpnIP : Addr) (addrStrs : list bytes) (lh : LightHouse) : go LightHouse :=
  match addrStrs with
  | [] => Ok lh
  | s :: addrStrs' =>
      try! a := go_wrap "static_host_map addr" (ResolveUDPAddr s) in
      add_addrs vpnIP addrStrs' (AddStaticEntry vpnIP a lh)
  end.

Fixpoint add_static (entries : list (bytes * list bytes)) (lh : LightHouse) : go LightHouse :=
  match entries with
  | [] => Ok lh
  | (vpnIPStr, addrStrs) :: entries' =>
      try! vpnIP := go_wrap "static_host_map key" (ParseAddr vpnIPStr) in
      try! lh := add_addrs vpnIP addrStrs lh in
      add_static entries' lh
  end.

Definition buildLightHouse (cfg : Config) (localPort : Z) : go LightHouse :=
  try! lhIPs := parse_hosts (Hosts (cLighthouse cfg)) in
  let lh := NewLightHouse (AmLighthouse (cLighthouse cfg)) lhIPs (localUDPAddrs Interfaces localPort) in
  add_static (ord (cStaticHostMap cfg)) lh.

(** ** Peer certificates *)

Fixpoint load_entries (dir : bytes) (entries : list (bool * bytes)) (certs : gmap Addr Certificate)
    : go (gmap Addr Certificate) :=
  match entries with
  | [] => Ok certs
  | (isDir, name) :: entries' =>
      if isDir || negb (HasSuffix name (lit ".crt")) then load_entries dir entries' certs
      else
        try! data := ReadFile (filepath_Join [dir; name]) in
        match Parse_cert data with
        | Ok c => load_entries dir entries' (<[pIP (cVpnIP c) := c]> certs)
        | Fail _ => load_entries dir entries' certs
        | Panic => Panic
        end
  end.

Definition loadPeerCerts (dir : bytes) (certs : gmap Addr Certificate) : go (gmap Addr Certificate) :=
  try! entries := ReadDir dir in load_entries dir entries certs.

(** ** NewInterface *)

(** The resources a process holds open. *)
Inductive Resource := RConn | RTun.

Record Resources := mkResources { connOpen : bool; tunOpen : bool }.

Definition open_conn (host : bytes) (port : Z) : M Resources Z := λ s,
  match Listen host port with
  | Ok p => (mkResources true (tunOpen s), Ok p)
  | Fail e => (s, Fail e)
  | Panic => (s, Panic)
  end.

Definition open_tun (dev cidr : bytes) (mtu : Z) : M Resources unit := λ s,
  match TunOpen dev cidr mtu with
  | Ok _ => (mkResources (connOpen s) true, Ok tt)
  | Fail e => (s, Fail e)
  | Panic => (s, Panic)
  end.

Definition close (r : Resource) : M Resources unit := λ s,
  (match r with RConn => mkResources false (tunOpen s) | RTun => mkResources (connOpen s) false end, Ok tt).

(** [if err != nil { cleanup; return fmt.Errorf(msg, err) }] *)
Definition or_close {A} (cleanup : M Resources unit) (msg : string) (m : M Resources A) : M Resources A := λ s,
  match m s with
  | (s', Fail e) => let '(s', _) := cleanup s' in (s', Fail (Wrapf msg e))
  | r => r
  end.

Definition NewInterface (cfg : Config) (nowCA nowNode : Z) : M Resources (World Daemon) :=
  let! pki := glift (LoadPKI ReadFile (cPKI cfg) nowCA nowNode) in
  let! fw := glift (go_wrap "interface: firewall" (buildFirewall (cFirewall cfg))) in
  let! localPort := gwrap "interface: udp" (open_conn (Host (cListen cfg)) (Port (cListen cfg))) in
  do! or_close (close RConn) "interface: tun"
        (open_tun (Dev (cTUN cfg)) (Prefix_String (cVpnIP (NodeCert pki))) (MTU (cTUN cfg))) in
  let! lh := or_close (do! close RConn in close RTun) "interface: lighthouse"
               (glift (buildLightHouse cfg localPort)) in
  let '(punchy, lh) :=
    if cPunch (cPunchy cfg) || cRespond (cPunchy cfg) then
      let p := NewPunchy (cPunch (cPunchy cfg)) (cRespond (cPunchy cfg)) in (Some p, SetPunchy p lh)
    else (None, lh) in
  let staticKey := {| Private := Curve25519Key pki; Public := X25519PublicKey (NodeCert pki) |} in
  let m := NewHandshakeManager (NodeCert pki) staticKey (CACerts pki) in
  let! certs :=
    (if is_empty (PeersDir (cPKI cfg)) then gret ∅
     else or_close (do! close RConn in close RTun) "interface: peer certs"
            (glift (loadPeerCerts (PeersDir (cPKI cfg)) ∅))) in
  gret (mkWorld m [] (mkDaemon ∅ NewHostMap fw lh punchy certs)).

End Startup.

(** ** Lemmas *)

Lemma parse_rules_inv what rules l :
  parse_rules what rules = Ok l → Forall2 (λ r t, ParseRule r = Ok t) rules l.
Proof.
  revert l. induction rules as [|r rules IH]; intros l; cbn [parse_rules]; [by intros [= <-] |].
  destruct (ParseRule r) as [t| |] eqn:E; [cbn [go_wrap go_bind] | done ..].
  destruct (parse_rules what rules) as [ts| |]; [cbn [go_bind] | done ..]. intros [= <-]. auto.
Qed.

Lemma buildFirewall_inv cfg fw :
  buildFirewall cfg = Ok fw →
  Forall2 (λ r t, ParseRule r = Ok t) (Inbound cfg) (inbound fw) ∧
  Forall2 (λ r t, ParseRule r = Ok t) (Outbound cfg) (outbound fw) ∧ ct fw = ∅.
Proof.
  unfold buildFirewall. destruct (parse_rules _ (Inbound cfg)) as [ins| |] eqn:E1; [cbn [go_bind] | done ..].
  destruct (parse_rules _ (Outbound cfg)) as [outs| |] eqn:E2; [cbn [go_bind] | done ..]. intros [= <-].
  cbn. eauto using parse_rules_inv.
Qed.

(** The cache is keyed by the address in the certificate. *)
Definition certs_ok (certs : gmap Addr Certificate) : Prop :=
  ∀ ip c, certs !! ip = Some c → pIP (cVpnIP c) = ip.

Lemma load_entries_ok {crypto : CryptoLib} {certlib : CertLib} ReadFile dir entries certs certs' :
  load_entries ReadFile dir entries certs = Ok certs' → certs_ok certs → certs_ok certs'.
Proof.
  revert certs. induction entries as [|[isDir name] entries IH]; intros certs; cbn [load_entries].
  { by intros [= <-]. }
  destruct (_ || _); [apply IH |]. destruct (ReadFile _) as [data| |]; [cbn [go_bind] | done ..].
  destruct (Parse_cert data) as [c| |]; [| apply IH | done]. intros H Hok. apply (IH _ H).
  intros ip c' [[<- <-] | [_ ?]]%lookup_insert_Some; [done | by apply Hok].
Qed.

Section NewInterface.

Context {crypto : CryptoLib} {noise : NoiseLib} {certlib : CertLib}.

(** What a step of the construction guarantees: a value with [P] leaves the
    resources at [s1], an error leaves none open. *)
Definition step_ok {A} (P : A → Prop) (s1 : Resources) (x : Resources * go A) : Prop :=
  match x with
  | (s', Ok a) => s' = s1 ∧ P a
  | (s', Fail _) => s' = mkResources false false
  | (_, Panic) => True
  end.

Lemma step_bind {A B} (P : A → Prop) (Q : B → Prop) s0 s1 s2 (m : M Resources A) (k : A → M Resources B) :
  step_ok P s1 (m s0) → (∀ a, P a → step_ok Q s2 (k a s1)) → step_ok Q s2 (gbind m k s0).
Proof.
  unfold gbind. intros Hm Hk. destruct (m s0) as [s' [a|err|]]; cbn in *; [| done ..].
  destruct Hm as [-> Ha]. auto.
Qed.

Lemma step_lift {A} (P : A → Prop) (x : go A) :
  (∀ a, x = Ok a → P a) → step_ok P (mkResources false false) (glift x (mkResources false false)).
Proof. intros H. by destruct x; cbn; auto. Qed.

(** A pure step while both are open. *)
Lemma step_or_close {A} (P : A → Prop) msg (x : go A) :
  (∀ a, x = Ok a → P a) →
  step_ok P (mkResources true true)
    (or_close (do! close RConn in close RTun) msg (glift x) (mkResources true true)).
Proof. intros H. by destruct x; cbn; auto. Qed.

(** What the constructed daemon is. *)
Definition wired (cfg : Config) (w : World Daemon) : Prop :=
  Manager_ok (mgr w) ∧ Daemon_ok (rest w) ∧
  pending (mgr w) = ∅ ∧ ifHostMap (rest w) = NewHostMap ∧
  X25519 (Private (localKey (mgr w))) Basepoint = Ok (Public (localKey (mgr w))) ∧
  Public (localKey (mgr w)) = X25519PublicKey (localCert (mgr w)) ∧
  Forall2 (λ r t, ParseRule r = Ok t) (Inbound (cFirewall cfg)) (inbound (ifFw (rest w))) ∧
  Forall2 (λ r t, ParseRule r = Ok t) (Outbound (cFirewall cfg)) (outbound (ifFw (rest w))) ∧
  certs_ok (ifPeerCerts (rest w)).

Lemma NewInterface_wired ReadFile ReadDir Listen TunOpen Interfaces ResolveUDPAddr ord cfg nowCA nowNode :
  step_ok (wired cfg) (mkResources true true)
    (NewInterface ReadFile ReadDir Listen TunOpen Interfaces ResolveUDPAddr ord cfg nowCA nowNode (mkResources false false)).
Proof.
  unfold NewInterface. set (s00 := mkResources false false). set (s11 := mkResources true true).
  eapply step_bind; [apply (step_lift (λ pki, X25519 (Curve25519Key pki) Basepoint = Ok (X25519PublicKey (NodeCert pki)))) |].
  { intros pki Hpki. destruct (LoadPKI_inv _ _ _ _ _ Hpki) as (ca & _ & _ & _ & _ & _ & _ & Hx & _). exact Hx. }
  intros pki Hpki. eapply step_bind; [apply (step_lift (λ fw,
    Forall2 (λ r t, ParseRule r = Ok t) (Inbound (cFirewall cfg)) (inbound fw) ∧
    Forall2 (λ r t, ParseRule r = Ok t) (Outbound (cFirewall cfg)) (outbound fw))) |].
  { intros fw Hfw. destruct (buildFirewall _) as [fw0| |] eqn:E; [| done ..]. injection Hfw as ->.
    apply buildFirewall_inv in E. naive_solver. }
  intros fw [Hin Hout]. eapply (step_bind (λ _, True) _ _ (mkResources true false)).
  { unfold gwrap, open_conn. by destruct (Listen _ _). }
  intros port _. eapply (step_bind (λ _, True) _ _ s11).
  { unfold or_close, open_tun. by destruct (TunOpen _ _ _). }
  intros _ _. eapply (step_bind (λ _, True)); [by apply step_or_close |]. intros lh _.
  match goal with |- context [match ?x with (_, _) => _ end] => destruct x as [py lh'] end.
  eapply (step_bind certs_ok _ _ s11).
  { destruct (is_empty _); [split; [done | by intros ip c H] |]. apply step_or_close.
    intros certs Hc. unfold loadPeerCerts in Hc. destruct (ReadDir _); [cbn [go_bind] in Hc | done ..].
    eapply load_entries_ok; [exact Hc |]. by intros ip c H. }
  intros certs Hcerts. split; [done |]. cbn. split_and!; done.
Qed.

End NewInterface.

(** ** Properties *)

(** Starting up: [NewInterface] either returns an error and has released the
    socket and the TUN device it had opened, or returns with both open and a
    daemon whose handshake tables and session registry are empty and well-formed,
    whose Noise key pair is the private key of the node certificate's public key,
    whose firewall holds the parsed configured rules in order, and whose
    certificate cache is keyed by the addresses inside the certificates. *)
Theorem NewInterface_spec {crypto : CryptoLib} {noise : NoiseLib} {certlib : CertLib}
    ReadFile ReadDir Listen TunOpen Interfaces ResolveUDPAddr ord cfg nowCA nowNode :
  match NewInterface ReadFile ReadDir Listen TunOpen Interfaces ResolveUDPAddr ord cfg nowCA nowNode
          (mkResources false false) with
  | (s', Ok w) =>
      s' = mkResources true true ∧ Manager_ok (mgr w) ∧ Daemon_ok (rest w) ∧
      pending (mgr w) = ∅ ∧ ifHostMap (rest w) = NewHostMap ∧
      X25519 (Private (localKey (mgr w))) Basepoint = Ok (Public (localKey (mgr w))) ∧
      Public (localKey (mgr w)) = X25519PublicKey (localCert (mgr w)) ∧
      Forall2 (λ r t, ParseRule r = Ok t) (Inbound (cFirewall cfg)) (inbound (ifFw (rest w))) ∧
      Forall2 (λ r t, ParseRule r = Ok t) (Outbound (cFirewall cfg)) (outbound (ifFw (rest w))) ∧
      certs_ok (ifPeerCerts (rest w))
  | (s', Fail _) => s' = mkResources false false
  | (_, Panic) => True
  end.
Proof.
  pose proof (NewInterface_wired ReadFile ReadDir Listen TunOpen Interfaces ResolveUDPAddr ord cfg nowCA nowNode) as H.
  by destruct (NewInterface _ _ _ _ _ _ _ _ _ _ _) as [s' [w| |]].
Qed.
