(* ===== verification/Loops.v ===== *)
(** * The running daemon: Interface.Run and its read loops in src/interface.go

    [Run] starts five goroutines and waits for its context to be cancelled.  Each
    goroutine is a loop whose rounds are atomic actions on the shared state (one
    packet, one tick), in some interleaving of the five ([Threads] splits the rounds at
    their critical sections).  What
    the reads return and which ticks arrive before the cancellation are arguments. *)

From S2P Require Import Prelude Bytes Header Net Replay GoText GoFlag Config Firewall Messages External Cert.
From S2P Require Import NoiseUtil HostMap Handshake HandshakeManager Punchy LightHouse Ipv4 Interface DataPlane Startup.

Definition tunReadBufSize : nat := Z.to_nat 65535.
Definition udpReadBufSize : nat := Z.to_nat 65535.

(** ** The interval of the advertisements *)

(** [time.Duration(cfg.Lighthouse.Interval) * time.Second], in 64 bits, and the
    default when it is not positive. *)
Definition lighthouse_interval (cfg : Config) : Z :=
  let interval := int64 (Interval (cLighthouse cfg) * 10 ^ 9) in
  if interval <=? 0 then 60 * 10 ^ 9 else interval.

(** Whatever is configured, and also when the product overflows, the ticker gets a
    positive interval, with which [time.NewTicker] does not panic. *)
Lemma lighthouse_interval_positive cfg : 0 < lighthouse_interval cfg < 2 ^ 63.
Proof.
  unfold lighthouse_interval. pose proof (int64_range (Interval (cLighthouse cfg) * 10 ^ 9)) as H.
  destruct (Z.leb_spec (int64 (Interval (cLighthouse cfg) * 10 ^ 9)) 0); lia.
Qed.

(** ** The read loops *)

(** A call of [Read] or [ReadFrom]: the data, of which at most the buffer's size
    is returned, or an error, with whether the context is cancelled by then. *)
Inductive ReadResult (A : Type) :=
| ReadData (a : A)
| ReadError (cancelled : bool).
Arguments ReadData {A} _.
Arguments ReadError {A} _.

Section Loops.

Context {crypto : CryptoLib} {noise : NoiseLib} {proto : ProtoLib} {certlib : CertLib}.
(** the iteration orders of the address store and of the pending handshakes *)
Context (ord : gmap Addr (list UDPAddr) → list (Addr * list UDPAddr)).
Context (pord : gmap Addr nat → list (Addr * nat)).

(** The list ends when the select at the top of the loop finds the context
    cancelled. *)
Fixpoint readFromTUN (reads : list (Env * ReadResult bytes)) : M (World Daemon) unit :=
  match reads with
  | [] => gret tt
  | (e, ReadError cancelled) :: reads' => if cancelled then gret tt else readFromTUN reads'
  | (e, ReadData data) :: reads' =>
      do! consumeInsidePacket e (take tunReadBufSize data) in readFromTUN reads'
  end.

Fixpoint readFromUDP (reads : list (Env * ReadResult (bytes * UDPAddr))) : M (World Daemon) unit :=
  match reads with
  | [] => gret tt
  | (e, ReadError cancelled) :: reads' => if cancelled then gret tt else readFromUDP reads'
  | (e, ReadData (data, from)) :: reads' =>
      do! consumeOutsidePacket ord e (take udpReadBufSize data) from in readFromUDP reads'
  end.

(** ** Actions *)

Inductive action :=
| ActInside (e : Env) (pkt : bytes)
| ActOutside (e : Env) (pkt : bytes) (from : UDPAddr)
| ActRetry (e : Env) (now : Z)
| ActAdvertise (e : Env)
| ActExpire (now : Z).

Definition exec (a : action) : M (World Daemon) unit :=
  match a with
  | ActInside e pkt => consumeInsidePacket e pkt
  | ActOutside e pkt from => consumeOutsidePacket ord e pkt from
  | ActRetry e now => let! m := get_mgr in retryPending e (pord (pending m)) now
  | ActAdvertise e => Advertise (lighthouseSendFn e)
  | ActExpire now => λ w, (with_fw (expiry_tick now (ifFw (rest w))) w, Ok tt)
  end.

Fixpoint tun_actions (reads : list (Env * ReadResult bytes)) : list action :=
  match reads with
  | [] => []
  | (e, ReadError cancelled) :: reads' => if cancelled then [] else tun_actions reads'
  | (e, ReadData data) :: reads' => ActInside e (take tunReadBufSize data) :: tun_actions reads'
  end.

Fixpoint udp_actions (reads : list (Env * ReadResult (bytes * UDPAddr))) : list action :=
  match reads with
  | [] => []
  | (e, ReadError cancelled) :: reads' => if cancelled then [] else udp_actions reads'
  | (e, ReadData (data, from)) :: reads' => ActOutside e (take udpReadBufSize data) from :: udp_actions reads'
  end.

(** The five goroutines of [Run]; the lighthouse advertises once before its first
    tick. *)
Definition goroutines (ticks : list (Env * Z)) (eAdv : Env) (advs : list Env) (expiries : list Z)
    (tunReads : list (Env * ReadResult bytes)) (udpReads : list (Env * ReadResult (bytes * UDPAddr)))
    : list (list action) :=
  [map (λ '(e, now), ActRetry e now) ticks;
   ActAdvertise eAdv :: map ActAdvertise advs;
   map ActExpire expiries;
   tun_actions tunReads;
   udp_actions udpReads].

(** An execution takes the next action of some goroutine until none is left. *)
Inductive interleaves : list (list action) → list action → Prop :=
| il_done gs : Forall (λ g, g = []) gs → interleaves gs []
| il_step gs1 a g gs2 tr : interleaves (gs1 ++ g :: gs2) tr → interleaves (gs1 ++ (a :: g) :: gs2) (a :: tr).

(** [Run]: the goroutines until the context is cancelled, then both devices are
    closed.  A round still under way at that moment is an action whose later sends
    fail, which [Env] decides. *)
Definition Run_interface (tr : list action) : M (World Daemon * Resources) unit := λ '(w, res),
  match gfor tr exec w with
  | (w', Ok _) =>
      let '(res, _) := close RTun res in
      let '(res, _) := close RConn res in
      ((w', res), Ok tt)
  | (w', Fail err) => ((w', res), Fail err)
  | (w', Panic) => ((w', res), Panic)
  end.

(** ** A goroutine's actions in sequence are its function *)

Lemma readFromTUN_actions reads w : readFromTUN reads w = gfor (tun_actions reads) exec w.
Proof.
  revert w. induction reads as [|[e [data|c]] reads IH]; intros w; [done | |].
  - cbn [readFromTUN tun_actions gfor exec]. unfold gbind.
    destruct (consumeInsidePacket _ _ w) as [w' [[]| |]]; [apply IH | done | done].
  - cbn. destruct c; [done | apply IH].
Qed.

Lemma readFromUDP_actions reads w : readFromUDP reads w = gfor (udp_actions reads) exec w.
Proof.
  revert w. induction reads as [|[e [[data from]|c]] reads IH]; intros w; [done | |].
  - cbn [readFromUDP udp_actions gfor exec]. unfold gbind.
    destruct (consumeOutsidePacket _ _ _ _ w) as [w' [[]| |]]; [apply IH | done | done].
  - cbn. destruct c; [done | apply IH].
Qed.

Lemma Run_actions ticks w : Run pord ticks w = gfor (map (λ '(e, now), ActRetry e now) ticks) exec w.
Proof.
  rewrite gfor_map. apply gfor_ext. by intros [e now] w0.
Qed.

Lemma RunExpiry_actions expiries w :
  gfor (map ActExpire expiries) exec w = (with_fw (RunExpiry expiries (ifFw (rest w))) w, Ok tt).
Proof.
  revert w. induction expiries as [|now expiries IH]; intros w; [by destruct w as [? ? []] |].
  cbn [map gfor exec]. erewrite gbind_ok by reflexivity. by rewrite IH.
Qed.

Lemma RunLightHouse_actions e advs w :
  RunLightHouse (lighthouseSendFn e) advs w = gfor (ActAdvertise e :: map (λ _, ActAdvertise e) (seq 0 advs)) exec w.
Proof.
  unfold RunLightHouse. cbn [gfor exec]. unfold gbind.
  destruct (Advertise _ w) as [w' [[]| |]]; [by rewrite gfor_map | done | done].
Qed.

(** ** The actions have no error results *)

Lemma nf_accessor {A} (x : go A) : is_ok x = true → never_fails (glift x : M (World Daemon) A).
Proof. intros H. apply nf_lift. by destruct x. Qed.

Lemma nf_on_hosts {A} (m : M (gmap nat HostInfo) A) : never_fails m → never_fails (on_hosts m).
Proof. intros H w e. unfold on_hosts. specialize (H (ifHosts (rest w)) e). by destruct (m _). Qed.

Lemma nf_NextCounter l : never_fails (host_NextCounter l).
Proof. intros s e. unfold host_NextCounter. by destruct (s !! l). Qed.

Lemma nf_CheckReplay l c : never_fails (host_CheckReplay l c).
Proof.
  intros s e. unfold host_CheckReplay. destruct (s !! l) as [h|]; [| done].
  unfold CheckReplay. repeat step_match; cbn; congruence.
Qed.

Lemma nf_get_daemon : never_fails (get_daemon : M (World Daemon) Daemon).
Proof. done. Qed.
Lemma nf_load_host l : never_fails (load_host l).
Proof. intros w e. unfold load_host. by destruct (ifHosts (rest w) !! l). Qed.
Lemma nf_on_fw {A} (f : Firewall → Firewall * A) : never_fails (on_fw f).
Proof. intros w e. unfold on_fw. by destruct (f _). Qed.
Lemma nf_set_hostmap m : never_fails (set_hostmap m).
Proof. done. Qed.
Lemma nf_get_mgr : never_fails (get_mgr : M (World Daemon) Manager).
Proof. done. Qed.
Lemma nf_set_mgr m : never_fails (set_mgr m : M (World Daemon) unit).
Proof. done. Qed.
Lemma nf_get_lh : never_fails (get_lh : M (World Daemon) LightHouse).
Proof. done. Qed.
Lemma nf_set_lh l : never_fails (set_lh l : M (World Daemon) unit).
Proof. done. Qed.
Lemma nf_Remove s ip m : never_fails (glift (Remove s ip m) : M (World Daemon) HostMap).
Proof. apply nf_lift. intros e. unfold Remove. by repeat step_match. Qed.

Hint Resolve nf_NextCounter nf_CheckReplay nf_get_daemon nf_load_host nf_set_hostmap nf_get_mgr nf_set_mgr nf_get_lh
  nf_set_lh nf_Remove : neth.
Hint Extern 1 (never_fails (on_hosts _)) => apply nf_on_hosts : neth.
Hint Extern 1 (never_fails (on_fw _)) => apply nf_on_fw : neth.
Hint Extern 1 (never_fails (glift (_ ?pkt))) => apply nf_accessor; by apply (accessors_safe pkt) : neth.

Lemma nf_lighthouseSendFn e d t : never_fails (lighthouseSendFn e d t).
Proof. apply nf_ignore. Qed.
Hint Resolve nf_lighthouseSendFn : neth.

Lemma nf_send e msg ip : never_fails (send (lighthouseSendFn e) msg ip).
Proof. unfold send. never_fails_all. Qed.
Hint Resolve nf_send : neth.

Lemma nf_lookup_host o : never_fails (lookup_host o).
Proof. unfold lookup_host. never_fails_all. Qed.
Lemma nf_sendToRemote e l p : never_fails (sendToRemote e l p).
Proof. unfold sendToRemote. never_fails_all. Qed.
Lemma nf_QueuePacket ip pkt : never_fails (QueuePacket ip pkt : M (World Daemon) unit).
Proof. unfold QueuePacket. never_fails_all. Qed.
Lemma nf_QueryPeer e ip : never_fails (QueryPeer (lighthouseSendFn e) ip).
Proof. unfold QueryPeer. never_fails_all. Qed.
Hint Resolve nf_lookup_host nf_sendToRemote nf_QueuePacket nf_QueryPeer : neth.

Lemma nf_consumeInside e pkt : never_fails (consumeInsidePacket e pkt).
Proof.
  unfold consumeInsidePacket. never_fails_all. intros w err.
  destruct (StartHandshake _ _ _ _ w) as [w' [[]| |]]; [apply nf_QueuePacket | done | done].
Qed.

Lemma nf_HandleMessage e msg from : never_fails (HandleMessage (lighthouseSendFn e) (WriteTo e) msg from).
Proof.
  unfold HandleMessage, handleQuery, handleQueryReply, handleUpdate, handleWhoAmI, handleWhoAmIReply,
    handlePunch, Punch. never_fails_all.
Qed.
Hint Resolve nf_HandleMessage : neth.

Lemma nf_consumeOutside e pkt from : never_fails (consumeOutsidePacket ord e pkt from).
Proof.
  unfold consumeOutsidePacket, handleMessage, handleHandshake, handleLightHouse, handleTest, handleCloseTunnel,
    RespondToPunch. never_fails_all.
Qed.

Lemma exec_never_fails a : never_fails (exec a).
Proof.
  destruct a as [e pkt | e pkt from | e now | e | now]; cbn [exec].
  - apply nf_consumeInside.
  - apply nf_consumeOutside.
  - apply nf_bind; [done |]. intros m. unfold retryPending. apply nf_for. intros [ip l]. unfold retryOne. never_fails_all.
  - unfold Advertise. never_fails_all.
  - done.
Qed.

(** ** Actions are steps of the daemon *)

Context (Hpord : ∀ m, pord m ≡ₚ map_to_list m).

(** The datagrams are byte strings. *)
Definition action_ok (a : action) : Prop :=
  match a with ActOutside _ pkt _ => bytes_ok pkt | _ => True end.

Lemma exec_step a w : action_ok a → daemon_step ord w (exec a w).1.
Proof.
  destruct a as [e pkt | e pkt from | e now | e | now]; intros Ha; cbn [exec].
  - apply step_inside.
  - by apply step_outside.
  - apply (step_handshakes ord w e (pord (pending (mgr w))) now), Hpord.
  - apply step_advertise.
  - apply step_expiry.
Qed.

Lemma gfor_steps tr w : Forall action_ok tr → rtc (daemon_step ord) w (gfor tr exec w).1.
Proof.
  intros H. revert w. induction H as [|a tr Ha _ IH]; intros w; [apply rtc_refl |]. cbn [gfor].
  pose proof (exec_step a w Ha) as Hs. unfold gbind. destruct (exec a w) as [w' [[]| |]]; cbn in Hs |- *.
  - eapply rtc_l; [exact Hs | apply IH].
  - eapply rtc_l; [exact Hs | apply rtc_refl].
  - eapply rtc_l; [exact Hs | apply rtc_refl].
Qed.

Lemma Run_interface_cases tr w res :
  Forall action_ok tr → ∃ w' res' r, Run_interface tr (w, res) = ((w', res'), r) ∧
    rtc (daemon_step ord) w w' ∧ (r = Ok tt ∧ res' = mkResources false false ∨ r = Panic ∧ res' = res).
Proof.
  intros H. pose proof (gfor_steps tr w H) as Hsteps. unfold Run_interface.
  pose proof (nf_for tr _ exec_never_fails w) as Hnf.
  destruct (gfor tr exec w) as [w' [[]|err|]]; cbn in *; [| by destruct (Hnf err) |]; do 3 eexists; eauto.
Qed.

Lemma interleaves_Forall (P : action → Prop) gs tr : interleaves gs tr → Forall (Forall P) gs → Forall P tr.
Proof.
  induction 1 as [gs Hgs | gs1 a g gs2 tr _ IH]; intros H; [constructor |].
  apply Forall_app in H as [H1 H2]. apply Forall_cons in H2 as [H2 H3]. apply Forall_cons in H2 as [Ha Hg].
  constructor; [done |]. apply IH, Forall_app. split; [done |]. by constructor.
Qed.

(** What the socket delivers is bytes. *)
Definition reads_ok (reads : list (Env * ReadResult (bytes * UDPAddr))) : Prop :=
  Forall (λ r, match r.2 with ReadData (data, _) => bytes_ok data | ReadError _ => True end) reads.

Lemma goroutines_ok ticks eAdv advs expiries tunReads udpReads :
  reads_ok udpReads → Forall (Forall action_ok) (goroutines ticks eAdv advs expiries tunReads udpReads).
Proof.
  intros H. unfold goroutines. repeat constructor.
  - apply Forall_fmap, Forall_forall. by intros [e now] _.
  - apply Forall_fmap, Forall_forall. by intros e _.
  - apply Forall_fmap, Forall_forall. by intros now _.
  - induction tunReads as [|[e [data|[]]] reads IH]; cbn [tun_actions]; [constructor | by constructor | constructor | done].
  - induction H as [|[e [[data from]|[]]] reads Hr _ IH]; cbn [udp_actions]; [constructor | | constructor | done].
    constructor; [by apply Forall_take | done].
Qed.

End Loops.

(** ** Properties *)

(** The running program is the state machine of the packet handlers: whatever
    the five goroutines of [Run] receive and however they are interleaved, every
    execution from a well-formed state takes steps of [daemon_step], so it ends in
    a state with well-formed tables and windows; unless a handler panics, [Run]
    returns when the context is cancelled, with the TUN device and the socket
    closed.  Each goroutine alone is its
    modelled function. *)
Theorem Run_interface_spec {crypto : CryptoLib} {noise : NoiseLib} {proto : ProtoLib} {certlib : CertLib}
    ord pord ticks eAdv advs expiries tunReads udpReads tr w res :
  (∀ m, pord m ≡ₚ map_to_list m) → reads_ok udpReads → World_ok Daemon_ok w →
  interleaves (goroutines ticks eAdv advs expiries tunReads udpReads) tr →
  let '((w', res'), r) := Run_interface ord pord tr (w, res) in
  rtc (daemon_step ord) w w' ∧ World_ok Daemon_ok w' ∧
  (r = Ok tt ∧ res' = mkResources false false ∨ r = Panic ∧ res' = res) ∧
  (∀ reads w0, readFromUDP ord reads w0 = gfor (udp_actions reads) (exec ord pord) w0) ∧
  (∀ reads w0, readFromTUN reads w0 = gfor (tun_actions reads) (exec ord pord) w0).
Proof.
  intros Hpord Hreads Hok Hil.
  destruct (Run_interface_cases ord pord Hpord tr w res
    (interleaves_Forall _ _ _ Hil (goroutines_ok ticks eAdv advs expiries tunReads udpReads Hreads)))
    as (w' & res' & r & -> & Hsteps & Hr).
  split_and!; try done; [by eapply daemon_reachable_ok | |]; intros; (apply readFromUDP_actions || apply readFromTUN_actions).
Qed.
