(* ===== verification/Nethd.v ===== *)
(** * The daemon's command: src/cmd/nethd/main.go

    Flags, configuration, logger, construction and run of the interface, with the
    exit status.  Standard error is left out. *)

From S2P Require Import Prelude Bytes Header Net Replay GoText GoFlag Config Firewall Messages External Cert.
From S2P Require Import NoiseUtil HostMap Handshake HandshakeManager Punchy LightHouse Pki Interface DataPlane Startup Loops.

Definition version : bytes := lit "0.1.0".

(** ** The logger *)

Inductive LogLevel := LevelDebug | LevelInfo | LevelWarn | LevelError.

(** [slog.New] over a JSON or a text handler on standard error. *)
Record Logger := mkLogger { lgLevel : LogLevel; lgJSON : bool }.

Definition buildLogger (level format : bytes) : Logger :=
  let lvl :=
    if decide (level = lit "debug") then LevelDebug
    else if decide (level = lit "warn") then LevelWarn
    else if decide (level = lit "error") then LevelError
    else LevelInfo in
  mkLogger lvl (bool_decide (format = lit "json")).

(** ** run *)

(** What the process holds: open devices, standard output, the default logger
    and, once it exists, the interface's state. *)
Record Process {crypto : CryptoLib} {noise : NoiseLib} := mkProcess {
  pResources : Resources;
  pStdout : bytes;
  pLogger : option Logger;
  pWorld : option (World Daemon);
}.

Arguments mkProcess {crypto noise} _ _ _ _.
Arguments pResources {crypto noise} _.
Arguments pStdout {crypto noise} _.
Arguments pLogger {crypto noise} _.
Arguments pWorld {crypto noise} _.

Definition nethd_flags : Flags :=
  <[lit "config" := FString (lit "/etc/neth/config.yaml")]> (<[lit "version" := FBool false]> ∅).

Section Nethd.

Context {crypto : CryptoLib} {noise : NoiseLib} {proto : ProtoLib} {certlib : CertLib}.
Context (ReadFile : bytes → go bytes) (Unmarshal : bytes → go Config).
Context (ReadDir : bytes → go (list (bool * bytes))) (Listen : bytes → Z → go Z) (TunOpen : bytes → bytes → Z → go unit).
Context (Interfaces : go (list NetIf)) (ResolveUDPAddr : bytes → go UDPAddr).
Context (ord : gmap bytes (list bytes) → list (bytes * list bytes)).
Context (aord : gmap Addr (list UDPAddr) → list (Addr * list UDPAddr)) (pord : gmap Addr nat → list (Addr * nat)).
(** what the goroutines of [Run] do until a signal cancels the context *)
Context (schedule : Config → list action).

Definition run (args : list bytes) (nowCA nowNode : Z) : M Process Z := λ p,
  match FlagSet_Parse nethd_flags (drop 1 args) with
  | Fail _ => (p, Ok 2)
  | Panic => (p, Panic)
  | Ok (fs, _) =>
      if flag_bool fs (lit "version") then
        (mkProcess (pResources p) (pStdout p ++ lit "nethd " ++ version ++ [10]) (pLogger p) (pWorld p), Ok 0)
      else
        match Load ReadFile Unmarshal (flag_string fs (lit "config")) with
        | Fail _ => (p, Ok 1)
        | Panic => (p, Panic)
        | Ok cfg =>
            let logger := buildLogger (Level (cLogging cfg)) (Format (cLogging cfg)) in
            match NewInterface ReadFile ReadDir Listen TunOpen Interfaces ResolveUDPAddr ord cfg nowCA nowNode
                    (pResources p) with
            | (res, Fail _) => (mkProcess res (pStdout p) (Some logger) (pWorld p), Ok 1)
            | (res, Panic) => (mkProcess res (pStdout p) (Some logger) (pWorld p), Panic)
            | (res, Ok w) =>
                match Run_interface aord pord (schedule cfg) (w, res) with
                | ((w', res'), Ok _) => (mkProcess res' (pStdout p) (Some logger) (Some w'), Ok 0)
                | ((w', res'), Fail err) => (mkProcess res' (pStdout p) (Some logger) (Some w'), Fail err)
                | ((w', res'), Panic) => (mkProcess res' (pStdout p) (Some logger) (Some w'), Panic)
                end
            end
        end
  end.

End Nethd.

(** ** Properties *)

(** C34. The exit status of nethd: 2 exactly when its flags cannot be parsed, with
    nothing done; 0 after printing the version; 1 when the configuration does not
    load or the interface cannot be built; and 0 after a run of the interface with
    the configured logger.  Whenever it returns, neither the socket nor the TUN
    device is left open, and the state the run ended in is well-formed. *)
Theorem nethd_exit {crypto : CryptoLib} {noise : NoiseLib} {proto : ProtoLib} {certlib : CertLib}
    ReadFile Unmarshal ReadDir Listen TunOpen Interfaces ResolveUDPAddr ord aord pord schedule args nowCA nowNode p :
  (∀ m, pord m ≡ₚ map_to_list m) → (∀ cfg, Forall action_ok (schedule cfg)) →
  pResources p = mkResources false false →
  let new cfg := NewInterface ReadFile ReadDir Listen TunOpen Interfaces ResolveUDPAddr ord cfg nowCA nowNode
                   (mkResources false false) in
  match run ReadFile Unmarshal ReadDir Listen TunOpen Interfaces ResolveUDPAddr ord aord pord schedule args nowCA nowNode p with
  | (p', Ok code) =>
      pResources p' = mkResources false false ∧
      match FlagSet_Parse nethd_flags (drop 1 args) with
      | Ok (fs, _) =>
          if flag_bool fs (lit "version") then code = 0 ∧ pStdout p' = pStdout p ++ lit "nethd 0.1.0" ++ [10]
          else match Load ReadFile Unmarshal (flag_string fs (lit "config")) with
          | Ok cfg =>
              pLogger p' = Some (buildLogger (Level (cLogging cfg)) (Format (cLogging cfg))) ∧
              match new cfg with
              | (_, Ok w) => code = 0 ∧ ∃ w', pWorld p' = Some w' ∧ rtc (daemon_step aord) w w' ∧ World_ok Daemon_ok w'
              | (_, _) => code = 1
              end
          | _ => code = 1 ∧ p' = p
          end
      | _ => code = 2 ∧ p' = p
      end
  | (_, Fail _) => False
  | (_, Panic) => True
  end.
Proof.
  intros Hpord Hsched Hres new. unfold run. destruct (FlagSet_Parse _ _) as [[fs rest']| |]; [| done | done].
  destruct (flag_bool fs (lit "version")); [cbn; by rewrite Hres |].
  destruct (Load _ _ _) as [cfg| |]; [| done | done]. rewrite Hres. fold (new cfg).
  pose proof (NewInterface_wired ReadFile ReadDir Listen TunOpen Interfaces ResolveUDPAddr ord cfg nowCA nowNode) as Hnew.
  fold (new cfg) in Hnew. destruct (new cfg) as [res [w| |]]; cbn in Hnew; [| done | done].
  destruct Hnew as [-> (Hm & Hd & _)].
  destruct (Run_interface_cases aord pord Hpord (schedule cfg) w (mkResources true true) (Hsched cfg))
    as (w' & res' & r & -> & Hsteps & [[-> ->] | [-> ->]]); [| done].
  cbn. split_and!; try done. exists w'. split_and!; try done. eapply daemon_reachable_ok; [| exact Hsteps]. by split.
Qed.
