(* ===== verification/System.v ===== *)
(** * From an empty directory to a delivered packet

    The whole chain of src/: certificates issued with neth-cert, loaded by two
    daemons that [NewInterface] wires, which then carry a first packet from one TUN
    device to the other. *)

From S2P Require Import Prelude Bytes Header Net Replay GoText GoPath GoFlag Config Firewall Messages External Cert Authority.
From S2P Require Import CertTool NoiseUtil HostMap Handshake HandshakeManager Punchy LightHouse Ipv4 Session Pki Provision.
From S2P Require Import Interface DataPlane EndToEnd Startup.

Section System.

Context {crypto : CryptoLib} {noise : NoiseLib} {proto : ProtoLib} {certlib : CertLib}.

(** What a constructed interface holds: the manager of the loaded PKI, nothing
    sent, and no session. *)
Lemma NewInterface_inv ReadFile ReadDir Listen TunOpen Interfaces ResolveUDPAddr ord cfg nowCA nowNode s s' w :
  NewInterface ReadFile ReadDir Listen TunOpen Interfaces ResolveUDPAddr ord cfg nowCA nowNode s = (s', Ok w) →
  ∃ pki fw lh py certs, LoadPKI ReadFile (cPKI cfg) nowCA nowNode = Ok pki ∧ buildFirewall (cFirewall cfg) = Ok fw ∧
    w = mkWorld (manager_of pki) [] (initial_daemon fw lh py certs).
Proof.
  unfold NewInterface. intros (s1 & pki & H1 & H)%gbind_inv. apply gbind_inv in H as (s2 & fw & H2 & H).
  apply gbind_inv in H as (s3 & port & _ & H). apply gbind_inv in H as (s4 & [] & _ & H).
  apply gbind_inv in H as (s5 & lh & _ & H).
  match type of H with context [match ?x with (_, _) => _ end] => destruct x as [py lh'] end.
  apply gbind_inv in H as (s6 & certs & _ & H).
  exists pki, fw, lh', py, certs. unfold glift in H1, H2. unfold gret in H.
  split; [congruence |]. split; [| unfold initial_daemon, manager_of; congruence].
  destruct (buildFirewall _) as [fw'| |]; cbn in H2; congruence.
Qed.

(** The certificate in a file. *)
Definition loads {FS : Type} {files : FileSystem FS} (s : FS) (path : bytes) (c : Certificate) : Prop :=
  (try! data := fs_read s path in Parse_cert data) = Ok c.

End System.

(** ** Properties *)

(** C1. A network from scratch: after [neth-cert ca] and [neth-cert sign] for two
    nodes, two daemons started from the files these runs left (at times when the
    certificates are valid) carry the first packet: when node A reads from its TUN
    device a packet for B, whose certificate and address it has, and both filters
    admit the packet, it comes out of B's TUN device, unchanged, after one datagram
    to B, one back and one to B. *)
Theorem network_from_scratch {crypto : CryptoLib} {noise : NoiseLib} {proto : ProtoLib} {certlib : CertLib} {issue : IssueLib}
    {FS : Type} {files : FileSystem FS} {crypto_laws : CryptoLaws} {noise_laws : NoiseLaws} {proto_laws : ProtoLaws}
    {cert_laws : CertLaws} {issue_laws : IssueLaws} {files_laws : FileSystemLaws FS} {dh_laws : DHLaws}
    e dir caName caSeed dur d jA jB (t : Tool FS) :
  writes_succeed (FS := FS) → no_links (files := files) dir → (slash ∉ caName) →
  draws e caSeed caName d → ParseDuration dur = Ok d →
  job_ok caName caSeed jA → job_ok caName caSeed jB → jName jA ≠ jName jB →
  ∃ ca nodeA nodeB t',
    run_all [(e, ca_line caName dur dir); sign_run_of dir caName jA; sign_run_of dir caName jB] t = (t', Ok [0; 0; 0]) ∧
    loads (tFiles t') (crt_path dir caName) ca ∧ loads (tFiles t') (crt_path dir (jName jA)) nodeA ∧
    loads (tFiles t') (crt_path dir (jName jB)) nodeB ∧
    cVpnIP nodeA = jPrefix jA ∧ cVpnIP nodeB = jPrefix jB ∧
    ∀ cfgA cfgB dirsA dirsB lisA lisB tunA tunB ifsA ifsB resA resB ordA ordB nA nA' nB nB' openA openB
      (wA wB : World Daemon) ord eA0 eB0 eA1 eB1 i j pkt dst src pr port addr more from addr' from' fwA fwB,
    let pki_of j peers := mkPKIConfig (crt_path dir caName) (crt_path dir (jName j)) (key_path dir (jName j)) peers in
    cPKI cfgA = pki_of jA (PeersDir (cPKI cfgA)) → cPKI cfgB = pki_of jB (PeersDir (cPKI cfgB)) →
    Forall (valid_at (X509 ca)) [nA; nA'; nB; nB'; nowVerify eB0; nowVerify eA1] →
    Forall (valid_at (X509 nodeA)) [nA'; nowVerify eB0] → Forall (valid_at (X509 nodeB)) [nB'; nowVerify eA1] →
    NewInterface (fs_read (tFiles t')) dirsA lisA tunA ifsA resA ordA cfgA nA nA' (mkResources false false) = (openA, Ok wA) →
    NewInterface (fs_read (tFiles t')) dirsB lisB tunB ifsB resB ordB cfgB nB nB' (mkResources false false) = (openB, Ok wB) →
    flow_of pkt dst pr port → srcIPFromIPv4 pkt = Ok (Some src) →
    getPeerCert dst (rest wA) = Some nodeB → GetAddrs dst (ifLighthouse (rest wA)) = addr :: more →
    AllowOutbound dst [] port pr (nowTrack eA0) (ifFw (rest wA)) = (fwA, true) →
    AllowInbound src (cGroups nodeA) port pr (nowTrack eB1) (ifFw (rest wB)) = (fwB, true) →
    draws_index eA0 i → draws_index eB0 j →
    (∀ d t, udpResult eA0 d t = None) → (∀ d t, udpResult eB0 d t = None) →
    ∃ d0 d1 d2 wA1 wB1 wA2 wB2,
      consumeInsidePacket eA0 pkt wA = (wA1, Ok tt) ∧ out wA1 = [UDPSend d0 addr] ∧
      consumeOutsidePacket ord eB0 d0 from wB = (wB1, Ok tt) ∧ out wB1 = [UDPSend d1 from] ∧
      consumeOutsidePacket ord eA1 d1 addr' wA1 = (wA2, Ok tt) ∧ out wA2 = [UDPSend d0 addr; UDPSend d2 addr] ∧
      consumeOutsidePacket ord eB1 d2 from' wB1 = (wB2, Ok tt) ∧ out wB2 = [UDPSend d1 from; TUNWrite pkt].
Proof.
  intros Hw Hd Hcn Hdraws Hdur HjA HjB Hne.
  assert (Hnd : NoDup (map jName [jA; jB])).
  { cbn. apply NoDup_cons. split; [by rewrite list_elem_of_singleton |]. apply NoDup_singleton. }
  destruct (network_run e dir caName caSeed dur d [jA; jB] t Hw Hd Hcn Hdraws Hdur
    (Forall_cons_2 _ _ _ HjA (Forall_cons_2 _ _ _ HjB (Forall_nil_2 _))) Hnd) as (ca & s & o & Hrun & Hauth & Hdisk & _ & Hall).
  destruct (Hall jA) as (nodeA & HpA & _); [by left |]. destruct (Hall jB) as (nodeB & HpB & _); [by right; left |].
  exists ca, nodeA, nodeB, (mkTool s o). split; [exact Hrun |].
  assert (HvA : cVpnIP nodeA = jPrefix jA) by (destruct HpA as (? & _ & Hi & _); apply Hi).
  assert (HvB : cVpnIP nodeB = jPrefix jB) by (destruct HpB as (? & _ & Hi & _); apply Hi).
  assert (Hloads : ∀ path c, fs_read s path = Ok (PEM c) → parseDER (raw c) = Ok c → loads s path c).
  { intros path c Hr Hc. unfold loads. rewrite Hr. by apply Parse_PEM_raw. }
  split; [apply Hloads; [apply Hdisk | apply Hauth] |].
  split; [destruct HpA as (? & _ & Hi & Ho); apply Hloads; [apply Ho | apply Hi] |].
  split; [destruct HpB as (? & _ & Hi & Ho); apply Hloads; [apply Ho | apply Hi] |].
  split; [done |]. split; [done |]. intros until 2. intros Hca HA HB HnewA HnewB Hflow Hsrc Hcert Haddr Hout Hin Hi Hj HuA HuB.
  repeat (apply Forall_cons in Hca as [? Hca]). repeat (apply Forall_cons in HA as [? HA]).
  repeat (apply Forall_cons in HB as [? HB]).
  assert (Hload : ∀ jj node cfg n n', job_ok caName caSeed jj → provisioned s dir ca jj node →
    cPKI cfg = pki_of jj (PeersDir (cPKI cfg)) → valid_at (X509 ca) n → valid_at (X509 ca) n' → valid_at (X509 node) n' →
    LoadPKI (fs_read s) (cPKI cfg) n n' = Ok (mkPKI [ca] node (clamp (jRnd jj)))).
  { intros jj node cfg n n' _ (pub & Hx & Hiss & Hon) -> Hn1 Hn2 Hn3. by eapply LoadPKI_run. }
  apply NewInterface_inv in HnewA as (pkiA & fA & lA & pA & cA & HlA & _ & ->).
  apply NewInterface_inv in HnewB as (pkiB & fB & lB & pB & cB & HlB & _ & ->). cbn [tFiles] in HlA, HlB.
  rewrite (Hload jA nodeA cfgA) in HlA by done. rewrite (Hload jB nodeB cfgB) in HlB by done.
  injection HlA as <-. injection HlB as <-.
  destruct (signs_key _ _ _ _ _ _ _ (job_signs _ _ _ HjA)) as (_ & HlenA & HbA).
  destruct (signs_key _ _ _ _ _ _ _ (job_signs _ _ _ HjB)) as (_ & HlenB & HbB).
  destruct (first_packet_run ord (mkWorld (manager_of (mkPKI [ca] nodeA (clamp (jRnd jA)))) [] (initial_daemon fA lA pA cA))
    (mkWorld (manager_of (mkPKI [ca] nodeB (clamp (jRnd jB)))) [] (initial_daemon fB lB pB cB))
    nodeA nodeB eA0 eB0 eA1 eB1 i j pkt dst src pr port addr more from addr' from' fwA fwB)
    as (d0 & d1 & d2 & wA1 & wB1 & wA2 & wB2 & R1 & O1 & R2 & O2 & R3 & O3 & R4 & O4); try done; try apply initial_ok.
  - by eapply provisioned_trust.
  - exists d0, d1, d2, wA1, wB1, wA2, wB2. cbn in O1, O2. rewrite O1 in O3. rewrite O2 in O4. done.
Qed.
