(* ===== verification/Goroutine.v ===== *)
(** * Goroutines

    The state monad of [Prelude] runs a handler in one go.  Between two of its
    locked sections, though, the handlers of other goroutines run.  Here a
    goroutine is a tree of atomic sections (what a mutex protects, an atomic
    operation, one system call, one read of a field that never changes); a pool of
    goroutines takes the next section of any of them; and a rely-guarantee
    judgement, sound for pools, says what a goroutine does whatever the others do.
    Sections may carry ghost events, collected in a trace together with the
    position of the goroutine, so that properties of whole executions can be
    stated. *)

From S2P Require Import Prelude.

(** ** Goroutines as trees of atomic sections *)

Inductive thread (S E A : Type) : Type :=
| Done (r : go A)
| Act (X : Type) (m : M S X) (ev : go X → list E) (k : go X → thread S E A).
Arguments Done {S E A} _.
Arguments Act {S E A} X _ _ _.

Section Thread.

Context {S E : Type}.

Abbreviation thread := (thread S E).

(** What follows when [t] ends, however it ends. *)
Fixpoint tcatch {A B} (t : thread A) (k : go A → thread B) : thread B :=
  match t with
  | Done r => k r
  | Act X m ev c => Act X m ev (λ r, tcatch (c r) k)
  end.

Definition tbind {A B} (t : thread A) (k : A → thread B) : thread B :=
  tcatch t (λ r, match r with Ok a => k a | Fail e => Done (Fail e) | Panic => Done Panic end).

Definition tret {A} (a : A) : thread A := Done (Ok a).
Definition tfail {A} (e : error) : thread A := Done (Fail e).
Definition tpanic {A} : thread A := Done Panic.
Definition tlift {A} (x : go A) : thread A := Done x.

(** One atomic section, without and with events for its value. *)
Definition atomic {A} (m : M S A) : thread A := Act A m (λ _, []) Done.
Definition atomic_ev {A} (m : M S A) (ev : A → list E) : thread A :=
  Act A m (λ r, match r with Ok a => ev a | _ => [] end) Done.

(** An error that is logged and dropped, and one that is wrapped. *)
Definition tignore {A} (t : thread A) : thread unit :=
  tcatch t (λ r, match r with Panic => Done Panic | _ => tret tt end).
Definition twrap {A} (msg : string) (t : thread A) : thread A := tcatch t (λ r, Done (go_wrap msg r)).

Fixpoint tfor {A} (l : list A) (body : A → thread unit) : thread unit :=
  match l with
  | [] => tret tt
  | x :: l' => tbind (body x) (λ _, tfor l' body)
  end.

(** ** Uninterrupted execution *)

Fixpoint run_thread {A} (t : thread A) : M S A := λ s,
  match t with
  | Done r => (s, r)
  | Act X m _ k => let '(s', r) := m s in run_thread (k r) s'
  end.

Lemma run_catch {A B} (t : thread A) (k : go A → thread B) s :
  run_thread (tcatch t k) s = let '(s', r) := run_thread t s in run_thread (k r) s'.
Proof.
  revert s. induction t as [r | X m ev c IH]; intros s; [done |]. cbn.
  destruct (m s) as [s' r]. apply IH.
Qed.

Lemma run_bind {A B} (t : thread A) (k : A → thread B) s :
  run_thread (tbind t k) s = gbind (run_thread t) (λ a, run_thread (k a)) s.
Proof.
  unfold tbind, gbind. rewrite run_catch. by destruct (run_thread t s) as [s' [a|e|]].
Qed.

Lemma run_atomic {A} (m : M S A) s : run_thread (atomic m) s = m s.
Proof. cbn. by destruct (m s). Qed.

Lemma run_atomic_ev {A} (m : M S A) ev s : run_thread (atomic_ev m ev) s = m s.
Proof. cbn. by destruct (m s). Qed.

Lemma run_ignore {A} (t : thread A) s : run_thread (tignore t) s = gignore (run_thread t) s.
Proof. unfold tignore, gignore. rewrite run_catch. by destruct (run_thread t s) as [s' [a|e|]]. Qed.

Lemma run_wrap {A} msg (t : thread A) s : run_thread (twrap msg t) s = gwrap msg (run_thread t) s.
Proof. unfold twrap, gwrap. rewrite run_catch. by destruct (run_thread t s). Qed.

Lemma run_for {A} (l : list A) (body : A → thread unit) s :
  run_thread (tfor l body) s = gfor l (λ x, run_thread (body x)) s.
Proof.
  revert s. induction l as [|x l IH]; intros s; [done |]. cbn [tfor gfor]. rewrite run_bind. unfold gbind.
  destruct (run_thread (body x) s) as [s' [[]|e|]]; [apply IH | done | done].
Qed.

(** ** Pools *)

Abbreviation trace := (list (nat * E)).

Record Pool := mkPool { threads : list (thread unit); shared : S; history : trace }.

(** The next section of the goroutine at position [i]. *)
Inductive pool_step : Pool → Pool → Prop :=
| pool_act i X m ev k p :
    threads p !! i = Some (Act X m ev k) →
    pool_step p (mkPool (<[i := k (m (shared p)).2]> (threads p)) (m (shared p)).1
                   (history p ++ map (i,.) (ev (m (shared p)).2))).

(** A schedule: which goroutine goes next; one that has ended is skipped. *)
Definition pool_next (i : nat) (p : Pool) : Pool :=
  match threads p !! i with
  | Some (Act X m ev k) =>
      mkPool (<[i := k (m (shared p)).2]> (threads p)) (m (shared p)).1
        (history p ++ map (i,.) (ev (m (shared p)).2))
  | _ => p
  end.

Definition run_schedule (l : list nat) (p : Pool) : Pool := fold_left (λ p i, pool_next i p) l p.

Lemma run_schedule_steps l p : rtc pool_step p (run_schedule l p).
Proof.
  revert p. induction l as [|i l IH]; intros p; [apply rtc_refl |]. cbn.
  unfold pool_next at 2. destruct (threads p !! i) as [[r | X m ev k]|] eqn:Ei; [apply IH | | apply IH].
  eapply rtc_l; [by apply pool_act | apply IH].
Qed.

Lemma steps_length p p' : rtc pool_step p p' → length (threads p') = length (threads p).
Proof.
  induction 1 as [|p1 p2 p3 Hs _ IH]; [done |]. rewrite IH. destruct Hs. cbn. apply length_insert.
Qed.

(** ** One goroutine for a while *)

Inductive thread_step {A} : thread A * S → thread A * S → Prop :=
| step_act X m ev k s : thread_step (Act X m ev k, s) (k (m s).2, (m s).1).

Lemma steps_catch {A B} (t t' : thread A) (k : go A → thread B) s s' :
  rtc thread_step (t, s) (t', s') → rtc thread_step (tcatch t k, s) (tcatch t' k, s').
Proof.
  intros H. remember (t, s) as c eqn:Ec. remember (t', s') as c' eqn:Ec'. revert t s Ec.
  induction H as [c | c1 c2 c3 Hs _ IH]; intros t s ->; simplify_eq; [apply rtc_refl |].
  inversion Hs; subst. eapply rtc_l; [apply step_act |]. by apply IH.
Qed.

(** It can run to its end. *)
Lemma steps_run {A} (t : thread A) s s' r : run_thread t s = (s', r) → rtc thread_step (t, s) (Done r, s').
Proof.
  revert s. induction t as [r0 | X m ev c IH]; intros s H; cbn in H; [simplify_eq; apply rtc_refl |].
  eapply rtc_l; [apply step_act |]. destruct (m s) as [s1 r1]. by apply IH.
Qed.

(** The first part of a sequence runs to its end. *)
Lemma steps_bind {A B} (t : thread A) (k : A → thread B) s s' a :
  run_thread t s = (s', Ok a) → rtc thread_step (tbind t k, s) (k a, s').
Proof. intros H. exact (steps_catch t (Done (Ok a)) _ s s' (steps_run t s s' (Ok a) H)). Qed.

(** What one goroutine does alone is an execution of the pool. *)
Lemma pool_thread i t t' s s' ts tr :
  ts !! i = Some t → rtc thread_step (t, s) (t', s') →
  ∃ tr', rtc pool_step (mkPool ts s tr) (mkPool (<[i := t']> ts) s' tr').
Proof.
  intros Hi H. remember (t, s) as c eqn:Ec. remember (t', s') as c' eqn:Ec'. revert t s ts tr Ec Hi.
  induction H as [c | c1 c2 c3 Hs _ IH]; intros t s ts tr -> Hi.
  { simplify_eq. exists tr. rewrite list_insert_id by done. apply rtc_refl. }
  inversion Hs; subst. assert (Hl : (i < length ts)%nat) by (by eapply lookup_lt_Some).
  destruct (IH eq_refl (k (m s).2) (m s).1 (<[i := k (m s).2]> ts) (tr ++ map (i,.) (ev (m s).2)) eq_refl) as (tr' & Hrun).
  { by apply list_lookup_insert_eq. }
  exists tr'. rewrite list_insert_insert_eq in Hrun. eapply rtc_l; [| exact Hrun].
  exact (pool_act i X m ev k (mkPool ts s tr) Hi).
Qed.

(** ** Rely and guarantee *)

(** An invariant of shared state and history, and a relation that every section
    respects, on which goroutines may rely. *)
Context (I : S → trace → Prop) (mono : S → S → Prop) `{!PreOrder mono}.

(** What the others may do: nothing that breaks [mono], and no event under [i]. *)
Record rely (i : nat) (s : S) (tr : trace) (s' : S) (tr' : trace) : Prop := {
  rely_mono : mono s s';
  rely_trace : ∃ new, tr' = tr ++ new ∧ Forall (λ x, x.1 ≠ i) new;
}.

Lemma rely_refl i s tr : rely i s tr s tr.
Proof. split; [done | exists []; by rewrite app_nil_r]. Qed.

Lemma rely_trans i s1 t1 s2 t2 s3 t3 : rely i s1 t1 s2 t2 → rely i s2 t2 s3 t3 → rely i s1 t1 s3 t3.
Proof.
  intros [H1 (n1 & -> & F1)] [H2 (n2 & -> & F2)]. split; [by etransitivity |].
  exists (n1 ++ n2). rewrite app_assoc. split; [done | by apply Forall_app].
Qed.

(** [safe i t Q s tr]: from [s] and [tr] on, whatever the others do, every section
    of [t] keeps the invariant and [mono], and at the end [Q] holds. *)
Fixpoint safe {A} (i : nat) (t : thread A) (Q : go A → S → trace → Prop) (s : S) (tr : trace) : Prop :=
  match t with
  | Done r => Q r s tr
  | Act X m ev k => ∀ s1 tr1, rely i s tr s1 tr1 → I s1 tr1 →
      let tr2 := tr1 ++ map (i,.) (ev (m s1).2) in
      I (m s1).1 tr2 ∧ mono s1 (m s1).1 ∧ safe i (k (m s1).2) Q (m s1).1 tr2
  end.

Lemma safe_catch {A B} i (t : thread A) (k : go A → thread B) Q Q' s tr :
  safe i t Q s tr → (∀ r s' tr', Q r s' tr' → safe i (k r) Q' s' tr') → safe i (tcatch t k) Q' s tr.
Proof.
  intros H Hk. revert s tr H. induction t as [r | X m ev c IH]; intros s tr H; [by apply Hk |].
  intros s1 tr1 Hr HI. destruct (H s1 tr1 Hr HI) as (H1 & H2 & H3). auto.
Qed.

Lemma safe_weaken {A} i (t : thread A) (Q Q' : go A → S → trace → Prop) s tr :
  safe i t Q s tr → (∀ r s' tr', Q r s' tr' → Q' r s' tr') → safe i t Q' s tr.
Proof.
  intros H HQ. revert s tr H. induction t as [r | X m ev c IH]; intros s tr H; [by apply HQ |].
  intros s1 tr1 Hr HI. destruct (H s1 tr1 Hr HI) as (H1 & H2 & H3). auto.
Qed.

(** What goroutine [i] may remember while others run. *)
Definition stable (i : nat) (P : S → trace → Prop) : Prop :=
  ∀ s tr s' tr', P s tr → rely i s tr s' tr' → P s' tr'.

(** Time passes before the goroutine goes on. *)
Lemma safe_rely {A} i (t : thread A) (Q : go A → S → trace → Prop) s tr s' tr' :
  (∀ r, stable i (Q r)) → safe i t Q s tr → rely i s tr s' tr' → safe i t Q s' tr'.
Proof.
  intros HQ H Hr. destruct t as [r | X m ev c]; [by eapply HQ |]. intros s1 tr1 Hr1. apply H. by eapply rely_trans.
Qed.

(** ** Soundness *)

(** The goroutine at position [i] will end with [Q i]. *)
Definition pool_safe_with (Q : nat → go unit → S → trace → Prop) (p : Pool) : Prop :=
  I (shared p) (history p) ∧
  ∀ i t, threads p !! i = Some t → safe i t (Q i) (shared p) (history p).

Lemma pool_step_safe Q p p' :
  (∀ i r, stable i (Q i r)) → pool_step p p' → pool_safe_with Q p → pool_safe_with Q p'.
Proof.
  intros HQ [i X m ev k [ts s tr] Hi] [HI Hts]. cbn in *.
  destruct (Hts _ _ Hi s tr (rely_refl i s tr) HI) as (HI' & Hm & Hk). split; [done |]. cbn.
  intros j t [(<- & <- & _) | [Hne Hj]]%list_lookup_insert_Some; [exact Hk |].
  eapply safe_rely; [apply HQ | by apply Hts |]. split; [done |]. eexists. split; [done |].
  apply Forall_fmap, Forall_forall. intros x _. cbn. congruence.
Qed.

Lemma pool_safe_steps Q p p' :
  (∀ i r, stable i (Q i r)) → rtc pool_step p p' → pool_safe_with Q p → pool_safe_with Q p'.
Proof. intros HQ. induction 1 as [|p1 p2 p3 Hs _ IH]; intros H; [done |]. by apply IH, (pool_step_safe Q p1). Qed.

(** A goroutine that has ended returned, without an error or a panic. *)
Definition returned {A} (r : go A) : Prop := ∃ a, r = Ok a.

Definition pool_safe (p : Pool) : Prop := pool_safe_with (λ _ r _ _, returned r) p.

(** ** Triples *)

(** [Q] of the value; an error only where [F] allows one; no panic. *)
Definition post {A} (F : Prop) (Q : A → S → trace → Prop) (r : go A) (s : S) (tr : trace) : Prop :=
  match r with Ok a => Q a s tr | Fail _ => F | Panic => False end.

Definition triple {A} (F : Prop) (i : nat) (P : S → trace → Prop) (t : thread A) (Q : A → S → trace → Prop) : Prop :=
  ∀ s tr, P s tr → safe i t (post F Q) s tr.

Lemma triple_pre {F} {A} i (P P' : S → trace → Prop) (t : thread A) Q :
  triple F i P t Q → (∀ s tr, P' s tr → P s tr) → triple F i P' t Q.
Proof. intros H Hp s tr HP. by apply H, Hp. Qed.

Lemma triple_post {F} {A} i P (t : thread A) (Q Q' : A → S → trace → Prop) :
  triple F i P t Q → (∀ a s tr, Q a s tr → Q' a s tr) → triple F i P t Q'.
Proof. intros H Hq s tr HP. eapply safe_weaken; [by apply H |]. intros [a|e|] s' tr'; cbn; auto. Qed.

(** A fact that does not mention the state. *)
Lemma triple_pure {F} {A} i (φ : Prop) P (t : thread A) Q :
  (φ → triple F i P t Q) → triple F i (λ s tr, φ ∧ P s tr) t Q.
Proof. intros H s tr [Hf HP]. by apply H. Qed.

Lemma triple_act {F} {A X} i P (m : M S X) ev (k : go X → thread A) R Q :
  stable i P →
  (∀ s tr, I s tr → P s tr →
     let tr' := tr ++ map (i,.) (ev (m s).2) in
     I (m s).1 tr' ∧ mono s (m s).1 ∧ R (m s).2 (m s).1 tr') →
  (∀ r, triple F i (R r) (k r) Q) → triple F i P (Act X m ev k) Q.
Proof.
  intros Hs Hm Hk s tr HP s1 tr1 Hr HI. destruct (Hm s1 tr1 HI (Hs _ _ _ _ HP Hr)) as (H1 & H2 & H3).
  split_and!; [done | done |]. by apply Hk.
Qed.

Lemma triple_atomic_ev {F} {A} i P (m : M S A) ev Q :
  stable i P →
  (∀ s tr, I s tr → P s tr → ∃ s' a, m s = (s', Ok a) ∧ mono s s' ∧
     I s' (tr ++ map (i,.) (ev a)) ∧ Q a s' (tr ++ map (i,.) (ev a))) →
  triple F i P (atomic_ev m ev) Q.
Proof.
  intros Hs Hm. eapply (triple_act i P m _ _ (post F Q)); [done | | by intros r s tr].
  intros s tr HI HP. destruct (Hm s tr HI HP) as (s' & a & -> & H1 & H2 & H3). auto.
Qed.

Lemma triple_atomic {F} {A} i P (m : M S A) Q :
  stable i P →
  (∀ s tr, I s tr → P s tr → mono s (m s).1 ∧ I (m s).1 tr ∧ post F Q (m s).2 (m s).1 tr) →
  triple F i P (atomic m) Q.
Proof.
  intros Hs Hm. eapply (triple_act i P m _ _ (post F Q)); [done | | by intros r s tr].
  intros s tr HI HP. cbn. rewrite app_nil_r. destruct (Hm s tr HI HP) as (H1 & H2 & H3). auto.
Qed.

Lemma triple_ret {F} {A} i (P : S → trace → Prop) (a : A) (Q : A → S → trace → Prop) :
  (∀ s tr, P s tr → Q a s tr) → triple F i P (tret a) Q.
Proof. intros H s tr HP. by apply H. Qed.

Lemma triple_fail {F : Prop} {A} i P e (Q : A → S → trace → Prop) : F → triple F i P (tfail e) Q.
Proof. by intros HF s tr _. Qed.

(** Errors may be allowed. *)
Lemma triple_errors {F} {A} i P (t : thread A) Q : triple False i P t Q → triple F i P t Q.
Proof. intros H s tr HP. eapply safe_weaken; [by apply H |]. by intros [a|e|] s' tr'. Qed.

Lemma triple_bind {F} {A B} i P (t : thread A) (k : A → thread B) R Q :
  triple F i P t R → (∀ a, triple F i (R a) (k a) Q) → triple F i P (tbind t k) Q.
Proof.
  intros Ht Hk s tr HP. eapply safe_catch; [by apply Ht |]. intros [a|e|] s' tr' H; cbn in *; [by apply Hk | done | done].
Qed.

(** A result known in advance. *)
Lemma triple_bind_lift {F} {A B} i (P : S → trace → Prop) (x : go A) (k : A → thread B) Q :
  x ≠ Panic → (∀ e, x = Fail e → F) → (∀ a, x = Ok a → triple F i P (k a) Q) → triple F i P (tbind (tlift x) k) Q.
Proof. intros Hx Hf H. destruct x as [a|e|]; [by apply H | intros s tr _; by eapply Hf | done]. Qed.

Lemma triple_catch {F} {A B} i P (t : thread A) (k : go A → thread B) R Q :
  triple True i P t R → (∀ a, triple F i (R a) (k (Ok a)) Q) → (∀ e, triple F i (λ _ _, True) (k (Fail e)) Q) →
  triple F i P (tcatch t k) Q.
Proof.
  intros Ht H1 H2 s tr HP. eapply safe_catch; [by apply Ht |].
  intros [a|e|] s' tr' H; [by apply H1 | by apply H2 | done].
Qed.

Lemma triple_ignore {F} {A} i P (t : thread A) R :
  triple True i P t R → triple F i P (tignore t) (λ _ _ _, True).
Proof. intros H. eapply triple_catch; [exact H | |]; intros; by apply triple_ret. Qed.

Lemma triple_wrap {F} {A} i P msg (t : thread A) Q : triple F i P t Q → triple F i P (twrap msg t) Q.
Proof. intros H s tr HP. eapply safe_catch; [by apply H |]. by intros [a|e|]. Qed.

Lemma triple_for {F} {A} i P (l : list A) (body : A → thread unit) :
  (∀ x, x ∈ l → triple F i P (body x) (λ _, P)) → triple F i P (tfor l body) (λ _, P).
Proof.
  induction l as [|x l IH]; intros H; cbn [tfor]; [by apply triple_ret |].
  eapply triple_bind; [apply H; by left |]. intros []. apply IH. intros y Hy. apply H. by right.
Qed.

Lemma pool_safe_init ts s :
  I s [] → (∀ i t, t ∈ ts → triple False i (λ _ _, True) t (λ _ _ _, True)) → pool_safe (mkPool ts s []).
Proof.
  intros HI H. split; [done |]. intros i t Ht. cbn in *. eapply safe_weaken; [apply (H i); [by eapply list_elem_of_lookup_2 | done] |].
  intros [a|e|] s' tr'; [by exists a | done | done].
Qed.

End Thread.

Notation "'let@' x := c 'in' k" := (tbind c (λ x, k))
  (at level 10, x pattern, c at level 200, k at level 200,
   format "'[v' 'let@'  x  :=  c  'in' '/' k ']'") : go_scope.
Notation "'do@' c 'in' k" := (tbind c (λ _ : unit, k))
  (at level 10, c at level 200, k at level 200,
   format "'[v' 'do@'  c  'in' '/' k ']'") : go_scope.
