(* ===== verification/Mutex.v ===== *)
(** * Mutexes

    In [Goroutine] a critical section is one step.  Here the calls of [Lock] and
    [Unlock] (of a [sync.Mutex] or a [sync.RWMutex], which also has [RLock] and
    [RUnlock]) are steps of their own: a goroutine that asks for a mutex somebody
    holds waits, and one that forgets to release it blocks the others for ever.  A
    goroutine that takes one mutex at a time and releases it on every path keeps a
    pool free of deadlocks; and what a pool with mutexes does, the pool without
    them can do. *)

From S2P Require Import Prelude Goroutine.
From stdpp Require Import gmultiset.

Inductive lock_op (Mu : Type) : Type :=
| Lock (m : Mu)
| Unlock (m : Mu)
| RLock (m : Mu)
| RUnlock (m : Mu).
Arguments Lock {Mu} _.
Arguments Unlock {Mu} _.
Arguments RLock {Mu} _.
Arguments RUnlock {Mu} _.

(** Goroutines with calls on mutexes between their atomic actions. *)
Inductive lthread (S E Mu A : Type) : Type :=
| LDone (r : go A)
| LOp (o : lock_op Mu) (k : lthread S E Mu A)
| LAct (X : Type) (m : M S X) (ev : go X → list E) (k : go X → lthread S E Mu A).
Arguments LDone {S E Mu A} _.
Arguments LOp {S E Mu A} _ _.
Arguments LAct {S E Mu A} X _ _ _.

(** Who holds a mutex: one writer, or readers (with their number of [RLock]s). *)
Record rwmutex := mkRW { writer : option nat; readers : gmultiset nat }.
Definition free_mutex : rwmutex := mkRW None ∅.

Section Mutex.

Context {S E Mu : Type} `{!EqDecision Mu}.

Abbreviation lthread := (lthread S E Mu).
Abbreviation trace := (list (nat * E)).

Fixpoint lcatch {A B} (t : lthread A) (k : go A → lthread B) : lthread B :=
  match t with
  | LDone r => k r
  | LOp o c => LOp o (lcatch c k)
  | LAct X m ev c => LAct X m ev (λ r, lcatch (c r) k)
  end.

Definition lbind {A B} (t : lthread A) (k : A → lthread B) : lthread B :=
  lcatch t (λ r, match r with Ok a => k a | Fail e => LDone (Fail e) | Panic => LDone Panic end).

Definition lret {A} (a : A) : lthread A := LDone (Ok a).
Definition lfail {A} (e : error) : lthread A := LDone (Fail e).
Definition lpanic {A} : lthread A := LDone Panic.
Definition llift {A} (x : go A) : lthread A := LDone x.

Definition latomic {A} (m : M S A) : lthread A := LAct A m (λ _, []) LDone.
Definition latomic_ev {A} (m : M S A) (ev : A → list E) : lthread A :=
  LAct A m (λ r, match r with Ok a => ev a | _ => [] end) LDone.

Definition lignore {A} (t : lthread A) : lthread unit :=
  lcatch t (λ r, match r with Panic => LDone Panic | _ => lret tt end).
Definition lwrap {A} (msg : string) (t : lthread A) : lthread A := lcatch t (λ r, LDone (go_wrap msg r)).

Fixpoint lfor {A} (l : list A) (body : A → lthread unit) : lthread unit :=
  match l with
  | [] => lret tt
  | x :: l' => lbind (body x) (λ _, lfor l' body)
  end.

(** [mu.Lock(); defer mu.Unlock()] around the rest of a function: the mutex is
    released however the function ends. *)
Definition deferred (lk ul : lock_op Mu) {A} (t : lthread A) : lthread A :=
  LOp lk (lcatch t (λ r, LOp ul (LDone r))).

(** [mu.Lock(); ...; mu.Unlock()]: a panic in between does not release it. *)
Definition between (lk ul : lock_op Mu) {A} (t : lthread A) : lthread A :=
  LOp lk (lcatch t (λ r, match r with Panic => LDone Panic | _ => LOp ul (LDone r) end)).

(** ** Pools *)

Record LPool := mkLPool {
  lthreads : list (lthread unit); lshared : S; lhistory : trace; locks : Mu → rwmutex }.

Definition set_lock (m : Mu) (x : rwmutex) (L : Mu → rwmutex) : Mu → rwmutex :=
  λ m', if decide (m' = m) then x else L m'.

(** What a call of goroutine [i] does, [None] if it has to wait (for [Lock] and
    [RLock]) or is a fatal error (for [Unlock] and [RUnlock]). *)
Definition call (i : nat) (o : lock_op Mu) (L : Mu → rwmutex) : option (Mu → rwmutex) :=
  match o with
  | Lock m => if decide (writer (L m) = None ∧ readers (L m) = ∅) then Some (set_lock m (mkRW (Some i) ∅) L) else None
  | Unlock m => if decide (writer (L m) = Some i) then Some (set_lock m (mkRW None (readers (L m))) L) else None
  | RLock m => if decide (writer (L m) = None) then Some (set_lock m (mkRW None (readers (L m) ⊎ {[+ i +]})) L) else None
  | RUnlock m =>
      if decide (i ∈ readers (L m)) then Some (set_lock m (mkRW (writer (L m)) (readers (L m) ∖ {[+ i +]})) L) else None
  end.

(** The next step of the goroutine at position [i]. *)
Inductive lpool_step (i : nat) : LPool → LPool → Prop :=
| lstep_act X m ev k p :
    lthreads p !! i = Some (LAct X m ev k) →
    lpool_step i p (mkLPool (<[i := k (m (lshared p)).2]> (lthreads p)) (m (lshared p)).1
                      (lhistory p ++ map (i,.) (ev (m (lshared p)).2)) (locks p))
| lstep_op o k p L :
    lthreads p !! i = Some (LOp o k) → call i o (locks p) = Some L →
    lpool_step i p (mkLPool (<[i := k]> (lthreads p)) (lshared p) (lhistory p) L).

(** A schedule: which goroutine goes next; one that has ended or has to wait is skipped. *)
Definition lpool_next (i : nat) (p : LPool) : LPool :=
  match lthreads p !! i with
  | Some (LAct X m ev k) =>
      mkLPool (<[i := k (m (lshared p)).2]> (lthreads p)) (m (lshared p)).1
        (lhistory p ++ map (i,.) (ev (m (lshared p)).2)) (locks p)
  | Some (LOp o k) =>
      match call i o (locks p) with
      | Some L => mkLPool (<[i := k]> (lthreads p)) (lshared p) (lhistory p) L
      | None => p
      end
  | _ => p
  end.

Definition run_lschedule (l : list nat) (p : LPool) : LPool := fold_left (λ p i, lpool_next i p) l p.

Definition lstep (p p' : LPool) : Prop := ∃ i, lpool_step i p p'.

Lemma run_lschedule_steps l p : rtc lstep p (run_lschedule l p).
Proof.
  revert p. induction l as [|i l IH]; intros p; [apply rtc_refl |]. cbn. unfold lpool_next at 2.
  destruct (lthreads p !! i) as [[r | o k | X m ev k]|] eqn:Ei; [apply IH | | | apply IH].
  - destruct (call i o (locks p)) as [L|] eqn:Ec; [| apply IH]. eapply rtc_l; [exists i; by eapply lstep_op | apply IH].
  - eapply rtc_l; [exists i; by eapply lstep_act | apply IH].
Qed.

(** A [sync.RWMutex] lets no new reader in while a writer waits: goroutine [i] would
    overtake a waiting writer. *)
Definition overtakes (p : LPool) (i : nat) : Prop :=
  ∃ m k j k', lthreads p !! i = Some (LOp (RLock m) k) ∧ lthreads p !! j = Some (LOp (Lock m) k').

Definition ended {A} (t : lthread A) : Prop := ∃ r, t = LDone r.
Definition all_ended (p : LPool) : Prop := Forall ended (lthreads p).

(** ** One mutex at a time *)

(** What a mutex guards is the same in two states. *)
Context (guarded : Mu → S → S → Prop) {guarded_refl : ∀ m, Reflexive (guarded m)}.

(** The goroutine holds [h] (a mutex, [true] for writing) and from there on takes a
    mutex only with empty hands, releases what it holds, does not return with
    a mutex in its hands, and changes only what it holds the mutex of. *)
Fixpoint disciplined {A} (h : option (Mu * bool)) (t : lthread A) : Prop :=
  match t with
  | LDone r => match r with Panic => True | _ => h = None end
  | LOp (Lock m) k => h = None ∧ disciplined (Some (m, true)) k
  | LOp (RLock m) k => h = None ∧ disciplined (Some (m, false)) k
  | LOp (Unlock m) k => h = Some (m, true) ∧ disciplined None k
  | LOp (RUnlock m) k => h = Some (m, false) ∧ disciplined None k
  | LAct X act ev k =>
      (∀ m s, h ≠ Some (m, true) → guarded m s (act s).1) ∧ ∀ r, disciplined h (k r)
  end.

Lemma disciplined_catch {A B} h (t : lthread A) (k : go A → lthread B) :
  disciplined h t → (∀ r, r ≠ Panic → disciplined None (k r)) → (∀ h', disciplined h' (k Panic)) →
  disciplined h (lcatch t k).
Proof.
  intros Ht Hk Hp. revert h Ht. induction t as [r | o c IH | X m ev c IH]; intros h Ht; cbn in *.
  - destruct r as [a|e|]; [subst h; by apply Hk | subst h; by apply Hk | apply Hp].
  - destruct o; destruct Ht as [? Ht]; auto.
  - destruct Ht as [? Ht]. auto.
Qed.

Lemma disciplined_lift {A} (x : go A) : disciplined None (llift x).
Proof. by destruct x. Qed.

(** ** The locks agree with what the goroutines hold *)

Record mutex_ok (hs : list (option (Mu * bool))) (m : Mu) (x : rwmutex) : Prop := {
  mu_writer i : writer x = Some i ↔ hs !! i = Some (Some (m, true));
  mu_readers i : multiplicity i (readers x) = if decide (hs !! i = Some (Some (m, false))) then 1%nat else 0%nat;
}.

Record agree (hs : list (option (Mu * bool))) (p : LPool) : Prop := {
  ag_length : length hs = length (lthreads p);
  ag_threads i t h : lthreads p !! i = Some t → hs !! i = Some h → disciplined h t;
  ag_locks m : mutex_ok hs m (locks p m);
}.

Lemma agree_held hs p i t : agree hs p → lthreads p !! i = Some t → ∃ h, hs !! i = Some h ∧ disciplined h t.
Proof.
  intros Ha Hi. destruct (lookup_lt_is_Some_2 hs i) as [h Hh]; [rewrite (ag_length _ _ Ha); by eapply lookup_lt_Some |].
  exists h. split; [done | by eapply ag_threads].
Qed.

(** What goroutine [i] holds after a call. *)
Definition holds_after (o : lock_op Mu) : option (Mu * bool) :=
  match o with Lock m => Some (m, true) | RLock m => Some (m, false) | _ => None end.

Definition same_mutex (o : lock_op Mu) (m : Mu) : Prop :=
  match o with Lock m' | Unlock m' | RLock m' | RUnlock m' => m' = m end.

#[local] Instance same_mutex_dec o m : Decision (same_mutex o m).
Proof. destruct o; cbn; apply _. Defined.

Definition holds_before (o : lock_op Mu) : option (Mu * bool) :=
  match o with Unlock m => Some (m, true) | RUnlock m => Some (m, false) | _ => None end.

Lemma disciplined_op {A} h o (k : lthread A) :
  disciplined h (LOp o k) ↔ h = holds_before o ∧ disciplined (holds_after o) k.
Proof. by destruct o. Qed.

(** The other mutexes are as they were. *)
Lemma mutex_ok_other hs i o m x :
  hs !! i = Some (holds_before o) → ¬ same_mutex o m → mutex_ok hs m x → mutex_ok (<[i := holds_after o]> hs) m x.
Proof.
  intros Hi Hne [H1 H2]. assert (Hlt : (i < length hs)%nat) by (by eapply lookup_lt_Some).
  assert (Heq : ∀ j b, <[i := holds_after o]> hs !! j = Some (Some (m, b)) ↔ hs !! j = Some (Some (m, b))).
  { intros j b. destruct (decide (j = i)) as [->|Hj]; [| by rewrite list_lookup_insert_ne].
    rewrite list_lookup_insert_eq, Hi by done. destruct o; cbn in *; split; intros [= ?]; simplify_eq; by destruct Hne. }
  split; intros j; [by rewrite Heq |]. rewrite H2. apply decide_ext. by rewrite Heq.
Qed.

(** The mutex of the call. *)
Lemma mutex_ok_call hs i o m L L' :
  hs !! i = Some (holds_before o) → same_mutex o m → call i o L = Some L' → mutex_ok hs m (L m) →
  mutex_ok (<[i := holds_after o]> hs) m (L' m).
Proof.
  intros Hi Hsame Hc [H1 H2]. assert (Hlt : (i < length hs)%nat) by (by eapply lookup_lt_Some).
  destruct o as [m0|m0|m0|m0]; cbn in Hsame, Hc, Hi |- *; subst m0; case_decide as Hdec; try done; injection Hc as <-;
    unfold set_lock; rewrite decide_True by done; split; intros j; cbn [writer readers];
    specialize (H1 j); specialize (H2 j);
    (destruct (decide (j = i)) as [->|Hj]; [rewrite list_lookup_insert_eq by done; rewrite Hi in H1, H2 | rewrite list_lookup_insert_ne by done]);
    try match type of Hdec with _ ∧ _ => destruct Hdec as [Hdec Hr]; rewrite Hr in H2 end;
    rewrite ?multiplicity_disj_union, ?multiplicity_difference, ?multiplicity_empty in *; repeat case_decide;
    first [naive_solver | rewrite multiplicity_singleton_eq; lia | rewrite multiplicity_singleton_ne by done; lia].
Qed.

Lemma agree_act hs p i X act ev k s tr :
  agree hs p → lthreads p !! i = Some (LAct X act ev k) →
  ∀ r, agree hs (mkLPool (<[i := k r]> (lthreads p)) s tr (locks p)).
Proof.
  intros [H1 H2 H3] Hi r. split; cbn; [by rewrite length_insert | | done].
  intros j t h [(<- & <- & _) | [_ Hj]]%list_lookup_insert_Some Hh; [| by eapply H2].
  by apply (H2 _ _ _ Hi Hh).
Qed.

Lemma agree_call hs p i o k L :
  agree hs p → lthreads p !! i = Some (LOp o k) → call i o (locks p) = Some L →
  agree (<[i := holds_after o]> hs) (mkLPool (<[i := k]> (lthreads p)) (lshared p) (lhistory p) L).
Proof.
  intros Ha Hi Hc. destruct (agree_held _ _ _ _ Ha Hi) as (h & Hh & [-> Hk]%disciplined_op).
  destruct Ha as [H1 H2 H3]. split; cbn; [by rewrite !length_insert | |].
  - intros j t h' [(<- & <- & _) | [Hne Hj]]%list_lookup_insert_Some Hh'.
    + rewrite list_lookup_insert_eq in Hh' by (by eapply lookup_lt_Some). by simplify_eq.
    + rewrite list_lookup_insert_ne in Hh' by done. by eapply H2.
  - intros m. destruct (decide (same_mutex o m)) as [Hs|Hs]; [by eapply mutex_ok_call |].
    assert (L m = locks p m) as ->; [| by apply mutex_ok_other].
    destruct o; cbn in Hc, Hs; case_decide; try done; injection Hc as <-; unfold set_lock; by rewrite decide_False by congruence.
Qed.

(** ** Progress *)

(** What a pool of disciplined goroutines keeps. *)
Definition orderly (p : LPool) : Prop := ∃ hs, agree hs p.

Lemma orderly_step i p p' : lpool_step i p p' → orderly p → orderly p'.
Proof.
  intros [X m ev k p0 Hi | o k p0 L Hi Hc] [hs Ha]; [exists hs; by eapply agree_act |].
  exists (<[i := holds_after o]> hs). by apply agree_call.
Qed.

Lemma orderly_steps p p' : rtc lstep p p' → orderly p → orderly p'.
Proof. induction 1 as [|p1 p2 p3 [i Hs] _ IH]; intros H; [done |]. by apply IH, (orderly_step i p1). Qed.

Lemma orderly_init ts s : Forall (disciplined None) ts → orderly (mkLPool ts s [] (λ _, free_mutex)).
Proof.
  intros H. exists (replicate (length ts) None). split; cbn; [apply length_replicate | |].
  - intros i t h Hi [-> _]%lookup_replicate. rewrite Forall_lookup in H. by eapply H.
  - intros m. split; cbn; intros i.
    + split; [done |]. by intros [? _]%lookup_replicate.
    + rewrite multiplicity_empty, decide_False; [done |]. by intros [? _]%lookup_replicate.
Qed.

(** A release is always possible. *)
Lemma release_possible hs p i o k m b :
  agree hs p → lthreads p !! i = Some (LOp o k) → holds_before o = Some (m, b) → is_Some (call i o (locks p)).
Proof.
  intros Ha Hi Hb. destruct (agree_held _ _ _ _ Ha Hi) as (h & Hh & [-> _]%disciplined_op).
  destruct o as [m0|m0|m0|m0]; cbn in *; simplify_eq.
  - rewrite decide_True; [done |]. by apply (ag_locks _ _ Ha).
  - rewrite decide_True; [done |]. pose proof (mu_readers _ _ _ (ag_locks _ _ Ha m) i) as Hm.
    rewrite decide_True in Hm by done. apply elem_of_multiplicity. lia.
Qed.

(** With empty hands all around, every mutex is free. *)
Lemma all_free hs p m : agree hs p → Forall (λ h, h = None) hs → writer (locks p m) = None ∧ readers (locks p m) = ∅.
Proof.
  intros Ha Hf. rewrite Forall_lookup in Hf. destruct (ag_locks _ _ Ha m) as [H1 H2]. split.
  - apply eq_None_not_Some. intros [i Hi]. apply H1 in Hi. by apply Hf in Hi.
  - apply gmultiset_eq. intros i. rewrite H2, multiplicity_empty, decide_False; [done |]. intros Hi. by apply Hf in Hi.
Qed.

Definition waits_for (m : Mu) {A} (t : lthread A) : bool :=
  match t with LOp (Lock m') _ => bool_decide (m' = m) | _ => false end.

Lemma list_search {X} (f : X → bool) (l : list X) : Forall (λ x, f x = true) l ∨ ∃ i x, l !! i = Some x ∧ f x = false.
Proof.
  induction l as [|x l IH]; [by left |]. destruct (f x) eqn:Hx; [| right; by exists 0%nat, x].
  destruct IH as [H | (i & y & Hi & Hy)]; [left; by constructor | right; by exists (Datatypes.S i), y].
Qed.

(** Some goroutine can go on, without overtaking a waiting writer. *)
Lemma orderly_progress p :
  orderly p → (∀ i r, lthreads p !! i = Some (LDone r) → r ≠ Panic) →
  all_ended p ∨ ∃ i p', lpool_step i p p' ∧ ¬ overtakes p i.
Proof.
  intros [hs Ha] Hret. destruct (decide (Forall (λ h, h = None) hs)) as [Hf|Hf].
  - (* no mutex is held *)
    destruct (list_search (λ t : lthread unit, match t with LDone _ => true | _ => false end) (lthreads p)) as [H | (i & t & Hi & Ht)].
    { left. apply Forall_lookup. intros i t Hi. pose proof (Forall_lookup_1 _ _ _ _ H Hi). destruct t; [by eexists | done | done]. }
    right. destruct t as [r | o k | X m ev k]; [done | |].
    2:{ exists i. eexists. split; [by eapply lstep_act |]. intros (m0 & k0 & j & k' & H & _). by simplify_eq. }
    destruct (agree_held _ _ _ _ Ha Hi) as (h & Hh & [-> _]%disciplined_op).
    pose proof (Forall_lookup_1 _ _ _ _ Hf Hh) as Hnone.
    assert (Hlock : ∀ j m k', lthreads p !! j = Some (LOp (Lock m) k') → ∃ i p', lpool_step i p p' ∧ ¬ overtakes p i).
    { intros j m k' Hj. exists j. eexists. split.
      - eapply (lstep_op j (Lock m) k' p); [done |]. cbn. by rewrite decide_True by by apply (all_free hs).
      - intros (m0 & k0 & j' & k1 & H & _). by simplify_eq. }
    destruct o as [m|m|m|m]; cbn in Hnone; try done; [by eapply Hlock |].
    destruct (list_search (λ t : lthread unit, negb (waits_for m t)) (lthreads p)) as [H | (j & t & Hj & Hw)].
    + exists i. eexists. split.
      * eapply (lstep_op i (RLock m) k p); [done |]. cbn. by rewrite decide_True by by apply (all_free hs).
      * intros (m0 & k0 & j & k1 & Hi' & Hj). simplify_eq. pose proof (Forall_lookup_1 _ _ _ _ H Hj) as Hw.
        cbn in Hw. by rewrite bool_decide_eq_true_2 in Hw.
    + destruct t as [r|[m0|m0|m0|m0] k0|]; cbn in Hw; try done. by eapply Hlock.
  - (* somebody holds one *)
    apply not_Forall_Exists in Hf; [| apply _]. apply Exists_exists in Hf as (h & Hin & Hne).
    apply list_elem_of_In, list_elem_of_lookup in Hin as [i Hh]. destruct h as [[m b]|]; [| by destruct Hne].
    destruct (lookup_lt_is_Some_2 (lthreads p) i) as [t Hi]; [rewrite <- (ag_length _ _ Ha); by eapply lookup_lt_Some |].
    pose proof (ag_threads _ _ Ha _ _ _ Hi Hh) as Hd. right. exists i. destruct t as [r | o k | X m0 ev k].
    + exfalso. specialize (Hret _ _ Hi). by destruct r.
    + apply disciplined_op in Hd as [Hb _]. destruct (release_possible _ _ _ _ _ m b Ha Hi) as [L HL]; [done |].
      eexists. split; [by eapply lstep_op |]. intros (m0 & k0 & j & k1 & H & _). by simplify_eq.
    + eexists. split; [by eapply lstep_act |]. intros (m1 & k0 & j & k1 & H & _). by simplify_eq.
Qed.

(** ** Guarded state *)

(** A step changes only what the goroutine that takes it holds the mutex of. *)
Lemma guarded_step i p p' m :
  orderly p → lpool_step i p p' → guarded m (lshared p) (lshared p') ∨ writer (locks p m) = Some i.
Proof.
  intros Ho Hs. destruct Hs as [X act ev k p Hi | o k p L Hi Hc]; cbn; [| left; apply guarded_refl].
  destruct Ho as [hs Ha].
  destruct (agree_held _ _ _ _ Ha Hi) as (h & Hh & Hg & _).
  destruct (decide (h = Some (m, true))) as [->|Hne]; [right | left; by apply Hg].
  by apply (ag_locks _ _ Ha).
Qed.

(** ** Termination *)

Definition lcontinues (t t' : lthread unit) : Prop :=
  match t with
  | LDone _ => False
  | LOp _ k => t' = k
  | LAct X act ev k => ∃ x, t' = k x
  end.

Definition lfurther (ts' ts : list (lthread unit)) : Prop :=
  ∃ i t t', ts !! i = Some t ∧ lcontinues t t' ∧ ts' = <[i := t']> ts.

Lemma lfurther_wf ts : Acc lfurther ts.
Proof.
  induction ts as [|t ts IH]; [constructor; by intros ts' (i & t & t' & H & _) |].
  revert ts IH. induction t as [r | o k IHk | X act ev k IHk]; intros ts IH; induction IH as [ts Hacc IHacc];
    constructor; intros ts' (i & t & t' & Hi & Hc & ->); (destruct i as [|i]; cbn in Hi |- *;
    [injection Hi as <- | apply IHacc; by exists i, t, t']).
  - done.
  - rewrite Hc. apply IHk. by constructor.
  - destruct Hc as [x ->]. apply IHk. by constructor.
Qed.

Lemma lpool_terminates p : Acc (flip lstep) p.
Proof.
  destruct p as [ts s tr L]. revert s tr L. induction (lfurther_wf ts) as [ts _ IH]. intros s tr L.
  constructor. intros p' [i Hs]. inversion Hs as [X act ev k p Hi | o k p L' Hi Hc]; subst; apply IH; cbn in Hi.
  - exists i, (LAct X act ev k), (k (act s).2). split_and!; [done | by eexists | done].
  - by exists i, (LOp o k), k.
Qed.

(** The steps a [sync.RWMutex] takes. *)
Definition polite_step (p p' : LPool) : Prop := ∃ i, lpool_step i p p' ∧ ¬ overtakes p i.

Lemma polite_steps p p' : rtc polite_step p p' → rtc lstep p p'.
Proof. induction 1 as [|p1 p2 p3 (i & Hs & _) _ IH]; [apply rtc_refl |]. eapply rtc_l; [by exists i | done]. Qed.

(** Nobody panics from here on. *)
Definition calm (p : LPool) : Prop := ∀ p' i r, rtc lstep p p' → lthreads p' !! i = Some (LDone r) → r ≠ Panic.

Lemma calm_step p p' : lstep p p' → calm p → calm p'.
Proof. intros Hs Hc q i r Hq. apply Hc. by eapply rtc_l. Qed.

Lemma orderly_finishes p : orderly p → calm p → ∃ p', rtc polite_step p p' ∧ all_ended p'.
Proof.
  induction (lpool_terminates p) as [p _ IH]. intros Ho Hc.
  destruct (orderly_progress p Ho) as [H | (i & p1 & H1 & H2)].
  - intros i r. apply Hc. apply rtc_refl.
  - exists p. split; [apply rtc_refl | done].
  - destruct (IH p1) as (p2 & Hp2 & Hf); [by exists i | by eapply orderly_step | eapply calm_step; [by exists i | done] |].
    exists p2. split; [| done]. eapply rtc_l; [by exists i | done].
Qed.

(** At the end nobody holds anything. *)
Lemma ended_free p m : orderly p → calm p → all_ended p → locks p m = free_mutex.
Proof.
  intros [hs Ha] Hc He. destruct (all_free hs p m Ha) as [H1 H2].
  - apply Forall_lookup. intros i h Hh.
    destruct (lookup_lt_is_Some_2 (lthreads p) i) as [t Hi]; [rewrite <- (ag_length _ _ Ha); by eapply lookup_lt_Some |].
    pose proof (ag_threads _ _ Ha _ _ _ Hi Hh) as Hd. destruct (Forall_lookup_1 _ _ _ _ He Hi) as [r ->].
    assert (r ≠ Panic) by (by eapply Hc, Hi; apply rtc_refl). by destruct r.
  - destruct (locks p m). cbn in *. by subst.
Qed.

(** ** The same goroutines without mutexes *)

(** [t] is [lt] without its calls of [Lock] and [Unlock]. *)
Fixpoint erases {A} (lt : lthread A) (t : thread S E A) : Prop :=
  match lt with
  | LDone r => t = Done r
  | LOp _ k => erases k t
  | LAct X act ev k => ∃ k', t = Act X act ev k' ∧ ∀ r, erases (k r) (k' r)
  end.

Lemma erases_catch {A B} (lt : lthread A) t (lk : go A → lthread B) k :
  erases lt t → (∀ r, erases (lk r) (k r)) → erases (lcatch lt lk) (tcatch t k).
Proof.
  intros H Hk. revert t H. induction lt as [r | o c IH | X act ev c IH]; intros t H; cbn in *.
  - subst t. apply Hk.
  - by apply IH.
  - destruct H as (k' & -> & Hk'). cbn. eexists. split; [done |]. intros r. by apply IH.
Qed.

(** The pools are in step. *)
Record simulates (p : LPool) (q : Pool) : Prop := {
  sim_threads : Forall2 erases (lthreads p) (threads q);
  sim_shared : lshared p = shared q;
  sim_history : lhistory p = history q;
}.

Lemma simulates_step i p p' q : lpool_step i p p' → simulates p q → ∃ q', rtc pool_step q q' ∧ simulates p' q'.
Proof.
  intros Hs [H1 H2 H3]. destruct Hs as [X act ev k p Hi | o k p L Hi Hc].
  - destruct (Forall2_lookup_l _ _ _ _ _ H1 Hi) as (t & Ht & k' & -> & Hk). eexists. split.
    { apply rtc_once. by apply (pool_act i X act ev k'). }
    rewrite <- H2, <- H3. split; cbn; [| done | done]. by apply Forall2_insert.
  - destruct (Forall2_lookup_l _ _ _ _ _ H1 Hi) as (t & Ht & Hk). exists q. split; [apply rtc_refl |].
    split; cbn; [| done | done]. rewrite <- (list_insert_id (threads q) i t Ht). by apply Forall2_insert.
Qed.

Lemma simulates_steps p p' q : rtc lstep p p' → simulates p q → ∃ q', rtc pool_step q q' ∧ simulates p' q'.
Proof.
  intros H. revert q. induction H as [p|p1 p2 p3 [i Hs] _ IH]; intros q Hq; [exists q; by split; [apply rtc_refl |] |].
  destruct (simulates_step i p1 p2 q Hs Hq) as (q2 & H2 & Hq2). destruct (IH q2 Hq2) as (q3 & H3 & Hq3).
  exists q3. split; [by etrans | done].
Qed.

(** ** Both at once, by the structure of the code *)

Record locked_as {A} (lt : lthread A) (t : thread S E A) : Prop := {
  imp_disciplined : disciplined None lt;
  imp_erases : erases lt t;
}.

Lemma locked_as_lift {A} (x : go A) : locked_as (llift x) (tlift x).
Proof. split; [apply disciplined_lift | done]. Qed.

Lemma locked_as_catch {A B} (lt : lthread A) t (lk : go A → lthread B) k :
  locked_as lt t → (∀ r, r ≠ Panic → locked_as (lk r) (k r)) → lk Panic = lpanic → k Panic = tpanic →
  locked_as (lcatch lt lk) (tcatch t k).
Proof.
  intros [H1 H2] Hk Hlp Hp. split.
  - apply disciplined_catch; [done | intros r Hr; by apply Hk | by rewrite Hlp].
  - apply erases_catch; [done |]. intros [a|e|]; [by apply Hk | by apply Hk |]. by rewrite Hlp, Hp.
Qed.

Lemma locked_as_bind {A B} (lt : lthread A) t (lk : A → lthread B) k :
  locked_as lt t → (∀ a, locked_as (lk a) (k a)) → locked_as (lbind lt lk) (tbind t k).
Proof. intros H Hk. apply locked_as_catch; [done | | done | done]. intros [a|e|] ?; [apply Hk | by split | done]. Qed.

Lemma locked_as_ignore {A} (lt : lthread A) t : locked_as lt t → locked_as (lignore lt) (tignore t).
Proof. intros H. apply locked_as_catch; [done | | done | done]. intros [a|e|] ?; by split. Qed.

Lemma locked_as_wrap {A} msg (lt : lthread A) t : locked_as lt t → locked_as (lwrap msg lt) (twrap msg t).
Proof. intros H. apply locked_as_catch; [done | | done | done]. intros [a|e|] ?; by split. Qed.

Lemma locked_as_for {A} (l : list A) lbody body :
  (∀ x, locked_as (lbody x) (body x)) → locked_as (lfor l lbody) (tfor l body).
Proof. intros H. induction l as [|x l IH]; [by split |]. by apply locked_as_bind. Qed.

(** An action on what no mutex guards. *)
Lemma locked_as_free {X A} (act : M S X) ev (lk : go X → lthread A) k :
  (∀ m s, guarded m s (act s).1) → (∀ r, locked_as (lk r) (k r)) → locked_as (LAct X act ev lk) (Act X act ev k).
Proof. intros Hg Hk. split; cbn; [split; [auto | apply Hk] | eexists; split; [done | apply Hk]]. Qed.

(** A critical section, with a deferred release and without. *)
Lemma locked_as_deferred {X} mu (act : M S X) ev :
  (∀ m s, m ≠ mu → guarded m s (act s).1) →
  locked_as (deferred (Lock mu) (Unlock mu) (LAct X act ev LDone)) (Act X act ev Done).
Proof.
  intros Hg. split; cbn; [| by eexists]. split; [done |]. split; [| by intros []]. intros m s Hne. apply Hg. congruence.
Qed.

Lemma locked_as_between {X} mu (act : M S X) ev :
  (∀ m s, m ≠ mu → guarded m s (act s).1) →
  locked_as (between (Lock mu) (Unlock mu) (LAct X act ev LDone)) (Act X act ev Done).
Proof.
  intros Hg. split; cbn; [| eexists; split; [done | by intros []]].
  split; [done |]. split; [| by intros []]. intros m s Hne. apply Hg. congruence.
Qed.

(** The same for reading. *)
Lemma locked_as_rdeferred {X} mu (act : M S X) ev :
  (∀ m s, guarded m s (act s).1) →
  locked_as (deferred (RLock mu) (RUnlock mu) (LAct X act ev LDone)) (Act X act ev Done).
Proof. intros Hg. split; cbn; [| by eexists]. split; [done |]. split; [auto | by intros []]. Qed.

Lemma locked_as_rbetween {X} mu (act : M S X) ev :
  (∀ m s, guarded m s (act s).1) →
  locked_as (between (RLock mu) (RUnlock mu) (LAct X act ev LDone)) (Act X act ev Done).
Proof.
  intros Hg. split; cbn; [| eexists; split; [done | by intros []]]. split; [done |]. split; [auto | by intros []].
Qed.

End Mutex.

Notation "'let#' x := c 'in' k" := (lbind c (λ x, k))
  (at level 10, x pattern, c at level 200, k at level 200,
   format "'[v' 'let#'  x  :=  c  'in' '/' k ']'") : go_scope.
Notation "'do#' c 'in' k" := (lbind c (λ _ : unit, k))
  (at level 10, c at level 200, k at level 200,
   format "'[v' 'do#'  c  'in' '/' k ']'") : go_scope.
