(* ===== verification/Threads.v ===== *)
(** * The handlers at the granularity of locks

    The handlers of src/interface.go, src/handshake_manager.go, src/lighthouse.go
    and src/firewall once more, now as trees of atomic sections: one section per
    critical section of a mutex ([hostmap.mu], [handshakeMgr.mu], [lighthouse.mu],
    [conntrack.mu], [windowMu], [peerCertsMu]), per atomic operation, per system
    call and per dereference of a shared object; between two of them any other
    goroutine may run.  Executed without interruption they are the handlers of the
    other files.  Sections of interest carry events:
    - [Sealed l c p]: session [l] drew counter [c] to seal packet [p];
    - [Accepted l c]: the window of session [l] accepted counter [c];
    - [Delivered l c p]: [p], received under [c] on [l], goes to the TUN device;
    - [Claimed l ph]: a handshake response took the pending object at [l]. *)

From S2P Require Import Prelude Bytes Header Net Replay GoText Config Firewall Messages External Cert.
From S2P Require Import NoiseUtil HostMap Handshake HandshakeManager Punchy LightHouse Ipv4 Interface DataPlane.
From S2P Require Import Startup Loops Goroutine.

Section Threads.

Context {crypto : CryptoLib} {noise : NoiseLib} {proto : ProtoLib} {certlib : CertLib}.

Inductive event :=
| Sealed (l : nat) (c : Z) (p : bytes)
| Accepted (l : nat) (c : Z)
| Delivered (l : nat) (c : Z) (p : bytes)
| Claimed (l : nat) (ph : pendingHandshake).

Abbreviation T := (thread (World Daemon) event).

(** ** Sections *)

(** A locked read of the daemon's state. *)
Definition view {A} (f : Daemon → A) : T A := atomic (λ w, (w, Ok (f (rest w)))).

(** A session pointer that may be nil, and the fields behind it. *)
Definition lookup_host_go (o : option nat) : T (option (nat * HostInfo)) :=
  match o with
  | None => tret None
  | Some l => let@ h := atomic (load_host l) in tret (Some (l, h))
  end.

Definition WriteTo_go (e : Env) (data : bytes) (to : UDPAddr) : T unit := atomic (WriteTo e data to).

(** ** The firewall: [IsEstablished] and [Track] each lock the table *)

Fixpoint scan_rules_go (rules : list Rule) (ip : Addr) (groups : list bytes) (port proto now : Z) : T bool :=
  match rules with
  | [] => tret false
  | r :: rules' =>
      if matches r ip groups port proto then
        do@ atomic (on_fw (λ f, (mkFirewall (inbound f) (outbound f)
                                   (Track now (flow_key ip port proto) (ct f)), tt))) in
        tret true
      else scan_rules_go rules' ip groups port proto now
  end.

(** [AllowInbound] and [AllowOutbound], which differ in the rules they read. *)
Definition Allow_go (rules : Firewall → list Rule) (ip : Addr) (groups : list bytes) (port proto now : Z) : T bool :=
  let@ established := view (λ d, IsEstablished (flow_key ip port proto) (ct (ifFw d))) in
  if (established : bool) then tret true
  else let@ rs := view (λ d, rules (ifFw d)) in scan_rules_go rs ip groups port proto now.

(** ** Sending *)

Definition sendToRemote_go (e : Env) (l : nat) (plaintext : bytes) : T unit :=
  let@ counter := atomic_ev (on_hosts (host_NextCounter l)) (λ c, [Sealed l c plaintext]) in
  let@ host := atomic (load_host l) in
  let hdrBytes := Bytes (mkHeader Version TypeMessage 0 (RemoteIndex host) counter) in
  match Encrypt (SendCipher host) counter hdrBytes plaintext with
  | Ok ct => tignore (WriteTo_go e (hdrBytes ++ ct) (Remote host))
  | Fail _ => tret tt
  | Panic => tpanic
  end.

(** [hostmap.Add] is one critical section; the object is new. *)
Definition onHandshakeComplete_go (e : Env) (h : HostInfo) (pending : list bytes) : T unit :=
  let@ l := atomic (alloc_host h) in
  do@ atomic (let! d := get_daemon in let! hm := glift (Add (ifHosts d) l (ifHostMap d)) in set_hostmap hm) in
  do@ (match hCert h with Some c => atomic (AddPeerCert (VpnIP h) c) | None => tret tt end) in
  tfor pending (λ pkt, sendToRemote_go e l pkt).

(** ** The lighthouse *)

Definition send_go (e : Env) (msg : LightHouseMessage) (toVpnIP : Addr) : T unit :=
  let@ physAddrs := view (λ d, stored (ifLighthouse d) toVpnIP) in
  match marshalLightHousePacket msg with
  | Ok wire => tfor physAddrs (λ a, tignore (WriteTo_go e wire a))
  | Fail _ => tret tt
  | Panic => tpanic
  end.

Definition Punch_go (e : Env) (p : Punchy) (remotes : list UDPAddr) : T unit :=
  if punch p then tfor remotes (λ a, tignore (WriteTo_go e [] a)) else tret tt.

Definition RespondToPunch_go (e : Env) (p : Punchy) (from : UDPAddr) : T unit :=
  if respond p then tignore (WriteTo_go e [] from) else tret tt.

Definition handleQuery_go (e : Env) (q : HostQuery) (replyTo : Addr) : T unit :=
  match ParseAddr (qVpnIp q) with
  | Ok queried =>
      let@ addrs := view (λ d, stored (ifLighthouse d) queried) in
      send_go e {| lhBody := Some (LH_QueryReply {| rVpnIp := qVpnIp q;
                     rAddrs := udpAddrsToIpPorts addrs |}) |} replyTo
  | Fail _ => tret tt
  | Panic => tpanic
  end.

(** The assignment under [lh.mu]. *)
Definition store_addrs (ip : Addr) (addrs : list UDPAddr) : M (World Daemon) unit :=
  let! lh := get_lh in set_lh (set_addrStore (<[ip := addrs]> (addrStore lh)) lh).

Definition handleQueryReply_go (r : HostQueryReply) : T unit :=
  match ParseAddr (rVpnIp r) with
  | Ok vpnIP => atomic (store_addrs vpnIP (ipPortsToUDPAddrs (rAddrs r)))
  | Fail _ => tret tt
  | Panic => tpanic
  end.

Definition handleUpdate_go (u : HostUpdateNotification) (from : Addr) : T unit :=
  let@ am := view (λ d, amLighthouse (ifLighthouse d)) in
  if negb am then tret tt else atomic (store_addrs from (ipPortsToUDPAddrs (uAddrs u))).

Definition handleWhoAmI_go (e : Env) (from : Addr) : T unit :=
  let@ addrs := view (λ d, stored (ifLighthouse d) from) in
  let ipPort := match addrs with [] => None | a :: _ => Some (udpAddrToIpPort a) end in
  send_go e {| lhBody := Some (LH_WhoAmIReply {| wAddr := ipPort |}) |} from.

Definition handleWhoAmIReply_go (r : WhoAmIReply) : T unit :=
  match wAddr r with
  | None => tret tt
  | Some p =>
      match ipPortToUDPAddr p with
      | Ok addr => atomic (let! lh := get_lh in set_lh (set_myAddrs (addr :: myAddrs lh) lh))
      | Fail _ => tret tt
      | Panic => tpanic
      end
  end.

Definition handlePunch_go (e : Env) (p : HostPunchNotification) : T unit :=
  let@ py := view (λ d, lhPunchy (ifLighthouse d)) in
  match py with
  | None => tret tt
  | Some py => Punch_go e py (ipPortsToUDPAddrs (pAddrs p))
  end.

Definition HandleMessage_go (e : Env) (msg : LightHouseMessage) (from : Addr) : T unit :=
  match GetQuery msg with Some q => handleQuery_go e q from | None =>
  match GetQueryReply msg with Some r => handleQueryReply_go r | None =>
  match GetUpdate msg with Some u => handleUpdate_go u from | None =>
  match GetWhoAmI msg with Some _ => handleWhoAmI_go e from | None =>
  match GetWhoAmIReply msg with Some r => handleWhoAmIReply_go r | None =>
  match GetPunch msg with Some p => handlePunch_go e p | None => tret tt
  end end end end end end.

(** [lh.lighthouses] is never assigned after construction. *)
Definition QueryPeer_go (e : Env) (vpnIP : Addr) : T unit :=
  let@ lhs := view (λ d, lighthouses (ifLighthouse d)) in
  tfor lhs (λ lhIP, send_go e {| lhBody := Some (LH_Query {| qVpnIp := Addr_String vpnIP |}) |} lhIP).

Definition Advertise_go (e : Env) : T unit :=
  let@ addrs := view (λ d, myAddrs (ifLighthouse d)) in
  let@ lhs := view (λ d, lighthouses (ifLighthouse d)) in
  tfor lhs (λ lhIP, send_go e {| lhBody := Some (LH_Update {| uAddrs := udpAddrsToIpPorts addrs |}) |} lhIP).

(** ** Packets from the TUN device *)

(** [StartHandshake] and [QueuePacket] hold the manager's mutex throughout, socket
    write included. *)
Definition consumeInsidePacket_go (e : Env) (pkt : bytes) : T unit :=
  let@ dst := tlift (dstIPFromIPv4 pkt) in
  match dst with
  | None => tret tt
  | Some dstIP =>
      let@ l := view (λ d, GetByVpnIP dstIP (ifHostMap d)) in
      let@ host := lookup_host_go l in
      let dstGroups := host_groups (snd <$> host) in
      let@ proto := tlift (protoFromIPv4 pkt) in
      let@ dstPort := tlift (dstPortFromIPv4 pkt) in
      let@ allowed := Allow_go outbound dstIP dstGroups dstPort proto (nowTrack e) in
      if negb allowed then tret tt
      else
        match host with
        | Some (l, _) => sendToRemote_go e l pkt
        | None =>
            let@ remoteCert := view (getPeerCert dstIP) in
            match remoteCert with
            | None => atomic (QueuePacket dstIP pkt)
            | Some remoteCert =>
                let@ remoteAddrs := view (λ d, GetAddrs dstIP (ifLighthouse d)) in
                match remoteAddrs with
                | [] =>
                    do@ QueryPeer_go e dstIP in
                    atomic (QueuePacket dstIP pkt)
                | addr :: _ =>
                    tcatch (atomic (StartHandshake e dstIP addr remoteCert)) (λ r,
                      match r with
                      | Ok _ => atomic (QueuePacket dstIP pkt)
                      | Fail _ => tret tt
                      | Panic => tpanic
                      end)
                end
            end
        end
  end.

(** ** Packets from the UDP socket *)

Definition handleMessage_go (e : Env) (pkt : bytes) (hdr : Header) (from : UDPAddr) : T unit :=
  let@ host := view (λ d, GetByIndex (hRemoteIndex hdr) (ifHostMap d)) in
  match host with
  | None =>
      let@ py := view ifPunchy in
      match py with
      | Some p => RespondToPunch_go e p from
      | None => tret tt
      end
  | Some l =>
      let c := hMessageCounter hdr in
      let@ replayed := atomic_ev (on_hosts (host_CheckReplay l c))
                         (λ replayed, if (replayed : bool) then [] else [Accepted l c]) in
      if (replayed : bool) then tret tt
      else
        let@ host := atomic (load_host l) in
        match Decrypt (RecvCipher host) c (take HeaderLen pkt) (drop HeaderLen pkt) with
        | Fail _ => tret tt
        | Panic => tpanic
        | Ok plaintext =>
            let@ src := tlift (srcIPFromIPv4 plaintext) in
            match src with
            | None => tret tt
            | Some srcIP =>
                let srcGroups := host_groups (Some host) in
                let@ inProto := tlift (protoFromIPv4 plaintext) in
                let@ dstPort := tlift (dstPortFromIPv4 plaintext) in
                let@ allowed := Allow_go inbound srcIP srcGroups dstPort inProto (nowTrack e) in
                if negb allowed then tret tt
                else Act unit (tunWrite e plaintext) (λ _, [Delivered l c plaintext])
                       (λ r, match r with Panic => Done Panic | _ => tret tt end)
            end
        end
  end.

(** No lock is held: the fields of the manager it reads never change. *)
Definition HandleStage0_go (e : Env) (pkt : bytes) (from : UDPAddr) : T unit :=
  let@ m := atomic get_mgr in
  if decide (length pkt < HeaderLen)%nat then tfail (Errorf "handshake: stage0 packet too short")
  else
    let@ _ := tlift (go_wrap "handshake: parse header" (Parse pkt)) in
    let@ (msg, details, senderCert) :=
      tlift (authenticate e m "handshake: parse sender cert" (drop HeaderLen pkt)) in
    let psk := DerivePreSharedKey (localCert m) senderCert in
    let@ respHS := tlift (NewResponderState (localKey m) psk) in
    let '(respHS, res) := ReadMessage (mNoisePayload msg) respHS in
    let@ _ := tlift (go_wrap "handshake: noise read stage-0" res) in
    let@ localIndex := tlift (randomIndex e) in
    let '(respHS, res) := WriteMessage (entropy e) [] respHS in
    let@ (noiseReply, cs) := tlift (go_wrap "handshake: noise write stage-1" res) in
    let@ respMsg := tlift (BuildResponderMessage (localCert m) noiseReply
                      (dInitiatorIndex details) localIndex (nowBuild e)) in
    let@ respBytes := tlift (marshalHandshakePacket respMsg (dInitiatorIndex details) HandshakeResponse) in
    do@ twrap "handshake: send stage-1" (WriteTo_go e respBytes from) in
    let@ (sendCipher, recvCipher) := tlift (ciphersFromStates cs false) in
    onHandshakeComplete_go e
      {| VpnIP := pIP (cVpnIP senderCert); Remote := from; Index := localIndex;
         RemoteIndex := dInitiatorIndex details; SendCipher := sendCipher;
         RecvCipher := recvCipher; Counter := 0; hCert := Some senderCert;
         hWindow := newWindow |} [].

(** The critical section of [HandleStage1]: the object named by the index leaves
    both maps. *)
Definition claim (idx : Z) : M (World Daemon) (option (nat * pendingHandshake)) :=
  let! m := get_mgr in
  match indexMap m !! idx with
  | None => gret None
  | Some l =>
      match phs m !! l with
      | None => gpanic
      | Some ph =>
          do! set_mgr (set_tables (phs m) (delete (phRemoteVpnIP ph) (pending m)) (delete idx (indexMap m)) m) in
          gret (Some (l, ph))
      end
  end.

(** Dereferencing a pending object. *)
Definition load_ph (l : nat) : M (World Daemon) pendingHandshake := λ w,
  (w, match phs (mgr w) !! l with Some ph => Ok ph | None => Panic end).

(** After the critical section the object's fields are read without the lock.
    [ReadMessage] advances the Noise state in place; nothing reads it again. *)
Definition HandleStage1_go (e : Env) (pkt : bytes) : T unit :=
  if decide (length pkt < HeaderLen)%nat then tfail (Errorf "handshake: stage1 packet too short")
  else
    let@ h := tlift (go_wrap "handshake: parse header" (Parse pkt)) in
    let@ found := atomic_ev (claim (hRemoteIndex h))
                    (λ o, match o with Some (l, ph) => [Claimed l ph] | None => [] end) in
    match found with
    | None => tfail (Errorf "handshake: unknown RemoteIndex")
    | Some (l, _) =>
        let@ m := atomic get_mgr in
        let@ (msg, details, responderCert) :=
          tlift (authenticate e m "handshake: parse responder cert" (drop HeaderLen pkt)) in
        let@ ph := atomic (load_ph l) in
        let '(_, res) := ReadMessage (mNoisePayload msg) (phState ph) in
        let@ (_, cs) := tlift (go_wrap "handshake: noise read stage-1" res) in
        let@ (sendCipher, recvCipher) := tlift (ciphersFromStates cs true) in
        let@ ph := atomic (load_ph l) in
        onHandshakeComplete_go e
          {| VpnIP := phRemoteVpnIP ph; Remote := phRemoteAddr ph;
             Index := phLocalIndex ph; RemoteIndex := dResponderIndex details;
             SendCipher := sendCipher; RecvCipher := recvCipher; Counter := 0;
             hCert := Some responderCert; hWindow := newWindow |} (phPackets ph)
    end.

Definition handleHandshake_go (e : Env) (pkt : bytes) (hdr : Header) (from : UDPAddr) : T unit :=
  if hSubType hdr =? HandshakeInitiation then tignore (HandleStage0_go e pkt from)
  else if hSubType hdr =? HandshakeResponse then tignore (HandleStage1_go e pkt)
  else tret tt.

(** Iteration orders of the address store and of the pending handshakes. *)
Context (ord : gmap Addr (list UDPAddr) → list (Addr * list UDPAddr)).
Context (pord : gmap Addr nat → list (Addr * nat)).

Definition handleLightHouse_go (e : Env) (pkt : bytes) (hdr : Header) (from : UDPAddr) : T unit :=
  let@ l := view (λ d, GetByIndex (hRemoteIndex hdr) (ifHostMap d)) in
  let@ host := lookup_host_go l in
  let@ sender := (match host with
                  | Some (_, h) => tret (Some (VpnIP h))
                  | None => view (λ d, VpnIPByAddr (ord (addrStore (ifLighthouse d))) from)
                  end) in
  match sender with
  | None => tret tt
  | Some senderVPN =>
      match unmarshal_lighthouse (drop HeaderLen pkt) with
      | Ok msg => HandleMessage_go e msg senderVPN
      | Fail _ => tret tt
      | Panic => tpanic
      end
  end.

Definition handleTest_go (e : Env) (from : UDPAddr) : T unit :=
  tignore (WriteTo_go e (Bytes (mkHeader Version TypeTest 0 0 0)) from).

(** The lookup and [Remove] lock the registry separately. *)
Definition handleCloseTunnel_go (hdr : Header) : T unit :=
  let@ l := view (λ d, GetByIndex (hRemoteIndex hdr) (ifHostMap d)) in
  let@ host := lookup_host_go l in
  match host with
  | None => tret tt
  | Some (_, h) =>
      atomic (let! d := get_daemon in
              let! hm := glift (Remove (ifHosts d) (VpnIP h) (ifHostMap d)) in set_hostmap hm)
  end.

Definition consumeOutsidePacket_go (e : Env) (pkt : bytes) (from : UDPAddr) : T unit :=
  if decide (length pkt < HeaderLen)%nat then tret tt
  else
    match Parse pkt with
    | Fail _ => tret tt
    | Panic => tpanic
    | Ok hdr =>
        if hType hdr =? TypeMessage then handleMessage_go e pkt hdr from
        else if hType hdr =? TypeHandshake then handleHandshake_go e pkt hdr from
        else if hType hdr =? TypeLightHouse then handleLightHouse_go e pkt hdr from
        else if hType hdr =? TypeTest then handleTest_go e from
        else if hType hdr =? TypeCloseTunnel then handleCloseTunnel_go hdr
        else tret tt
    end.

(** ** The goroutines of [Run] *)

(** [retryPending] and [Expire] hold their mutex throughout. *)
Definition exec_go (a : action) : T unit :=
  match a with
  | ActInside e pkt => consumeInsidePacket_go e pkt
  | ActOutside e pkt from => consumeOutsidePacket_go e pkt from
  | ActRetry e now => atomic (let! m := get_mgr in retryPending e (pord (pending m)) now)
  | ActAdvertise e => Advertise_go e
  | ActExpire now => atomic (λ w, (with_fw (expiry_tick now (ifFw (rest w))) w, Ok tt))
  end.

(** One goroutine per list of actions. *)
Definition Run_go (gs : list (list action)) (w : World Daemon) : Pool (S := World Daemon) (E := event) :=
  mkPool (map (λ g, tfor g exec_go) gs) w [].

End Threads.

(** ** Without interruption *)

Section Uninterrupted.

Context {crypto : CryptoLib} {noise : NoiseLib} {proto : ProtoLib} {certlib : CertLib}.

(** Both sides run the same, section by section. *)
Lemma gbind_ext {S A B} (m m' : M S A) (k k' : A → M S B) s :
  m s = m' s → (∀ a s', m' s = (s', Ok a) → k a s' = k' a s') → gbind m k s = gbind m' k' s.
Proof. intros Hm Hk. unfold gbind. rewrite Hm. destruct (m' s) as [s' [a|e|]]; auto. Qed.

Lemma run_view {A B} (f : Daemon → A) (k : A → thread (World Daemon) event B) w :
  run_thread (tbind (view f) k) w = run_thread (k (f (rest w))) w.
Proof. done. Qed.

Lemma run_lookup o w : run_thread (lookup_host_go o) w = lookup_host o w.
Proof. destruct o as [l|]; [| done]. cbn [lookup_host_go lookup_host]. rewrite run_bind. apply gbind_ext; [apply run_atomic | done]. Qed.

Lemma run_write e d a w : run_thread (WriteTo_go e d a) w = WriteTo e d a w.
Proof. apply run_atomic. Qed.

Lemma run_write_ignored e d a w : run_thread (tignore (WriteTo_go e d a)) w = gignore (WriteTo e d a) w.
Proof. rewrite run_ignore. unfold gignore. by rewrite run_write. Qed.

Lemma run_scan rules ip groups port pr now w :
  run_thread (scan_rules_go rules ip groups port pr now) w =
    on_fw (λ f, let '(t, b) := scan_rules rules ip groups port pr now (ct f) in (mkFirewall (inbound f) (outbound f) t, b)) w.
Proof.
  unfold on_fw. rewrite scan_rules_spec. induction rules as [|r rules IH]; cbn [scan_rules_go existsb].
  - destruct w as [? ? [? ? []]]. done.
  - destruct (matches r ip groups port pr); [done | apply IH].
Qed.

Lemma run_inbound ip groups port pr now w :
  run_thread (Allow_go inbound ip groups port pr now) w = on_fw (AllowInbound ip groups port pr now) w.
Proof.
  unfold Allow_go. rewrite run_view. unfold AllowInbound, on_fw. destruct (IsEstablished _ _) eqn:He.
  - by destruct w as [? ? []].
  - rewrite run_view, run_scan. unfold on_fw. by destruct (scan_rules _ _ _ _ _ _ _).
Qed.

Lemma run_outbound ip groups port pr now w :
  run_thread (Allow_go outbound ip groups port pr now) w = on_fw (AllowOutbound ip groups port pr now) w.
Proof.
  unfold Allow_go. rewrite run_view. unfold AllowOutbound, on_fw. destruct (IsEstablished _ _) eqn:He.
  - by destruct w as [? ? []].
  - rewrite run_view, run_scan. unfold on_fw. by destruct (scan_rules _ _ _ _ _ _ _).
Qed.

Lemma run_sendToRemote e l p w : run_thread (sendToRemote_go e l p) w = sendToRemote e l p w.
Proof.
  unfold sendToRemote_go, sendToRemote. rewrite run_bind. apply gbind_ext; [apply run_atomic_ev | intros c w1 _].
  rewrite run_bind. apply gbind_ext; [apply run_atomic | intros h w2 _]. apply run_write_ignored.
Qed.

Lemma gbind_assoc {S A B C} (m : M S A) (f : A → M S B) (k : B → M S C) s :
  gbind (gbind m f) k s = gbind m (λ a, gbind (f a) k) s.
Proof. unfold gbind. by destruct (m s) as [s' [a|e|]]. Qed.

Lemma run_onHandshakeComplete e h pkts w :
  run_thread (onHandshakeComplete_go e h pkts) w = onHandshakeComplete e h pkts w.
Proof.
  unfold onHandshakeComplete_go, onHandshakeComplete. rewrite run_bind.
  apply gbind_ext; [apply run_atomic | intros l w1 _]. rewrite run_bind.
  etrans; [apply (gbind_ext _ (gbind get_daemon (λ d, gbind (glift (Add (ifHosts d) l (ifHostMap d))) set_hostmap)));
    [apply run_atomic | reflexivity] |].
  rewrite gbind_assoc. apply gbind_ext; [done | intros d w2 _]. rewrite gbind_assoc.
  apply gbind_ext; [done | intros hm w3 _]. apply gbind_ext; [done | intros [] w4 _]. rewrite run_bind.
  apply gbind_ext; [destruct (hCert h); [apply run_atomic | done] | intros [] w5 _]. rewrite run_for.
  apply gfor_ext. intros. apply run_sendToRemote.
Qed.

(** *** The lighthouse *)

Lemma run_send e msg ip w : run_thread (send_go e msg ip) w = send (lighthouseSendFn e) msg ip w.
Proof.
  unfold send_go, send. rewrite run_view. unfold gbind. cbn. destruct (marshalLightHousePacket msg) as [wire| |]; [| done ..].
  rewrite run_for. apply gfor_ext. intros. apply run_write_ignored.
Qed.

Lemma run_HandleMessage e msg from w :
  run_thread (HandleMessage_go e msg from) w = HandleMessage (lighthouseSendFn e) (WriteTo e) msg from w.
Proof.
  unfold HandleMessage_go, HandleMessage.
  destruct (GetQuery msg) as [q|].
  { unfold handleQuery_go, handleQuery. destruct (ParseAddr _); [| done ..]. rewrite run_view. apply run_send. }
  destruct (GetQueryReply msg) as [r|].
  { unfold handleQueryReply_go, handleQueryReply. destruct (ParseAddr _); done. }
  destruct (GetUpdate msg) as [u|].
  { unfold handleUpdate_go, handleUpdate. rewrite run_view. unfold gbind. cbn. by destruct (amLighthouse _). }
  destruct (GetWhoAmI msg) as [x|].
  { unfold handleWhoAmI_go, handleWhoAmI. rewrite run_view. apply run_send. }
  destruct (GetWhoAmIReply msg) as [r|].
  { unfold handleWhoAmIReply_go, handleWhoAmIReply. destruct (wAddr r) as [p|]; [| done]. by destruct (ipPortToUDPAddr p). }
  destruct (GetPunch msg) as [p|]; [| done].
  unfold handlePunch_go, handlePunch. rewrite run_view. unfold gbind. cbn. destruct (lhPunchy _) as [py|]; [| done].
  unfold Punch_go, Punch. destruct (punch py); [| done]. rewrite run_for. apply gfor_ext. intros. apply run_write_ignored.
Qed.

Lemma run_QueryPeer e ip w : run_thread (QueryPeer_go e ip) w = QueryPeer (lighthouseSendFn e) ip w.
Proof.
  unfold QueryPeer_go, QueryPeer. rewrite run_view. unfold gbind. cbn [get_lh the_lh world_lighthouse].
  rewrite run_for. apply gfor_ext. intros. apply run_send.
Qed.

Lemma run_Advertise e w : run_thread (Advertise_go e) w = Advertise (lighthouseSendFn e) w.
Proof.
  unfold Advertise_go, Advertise. rewrite !run_view. unfold gbind. cbn [get_lh the_lh world_lighthouse].
  rewrite run_for. apply gfor_ext. intros. apply run_send.
Qed.

(** *** The packet handlers *)

Lemma on_fw_rest {A} (f : Firewall → Firewall * A) w w' a :
  on_fw f w = (w', Ok a) → w' = with_fw (ifFw (rest w')) w.
Proof. unfold on_fw. destruct (f _). by intros [= <- _]. Qed.

Lemma lookup_host_same o w w' r : lookup_host o w = (w', r) → w' = w.
Proof. unfold lookup_host. destruct o as [l|]; unfold gbind, load_host; [destruct (ifHosts (rest w) !! l) |]; by intros [= <-]. Qed.

Lemma run_consumeInsidePacket e pkt w : run_thread (consumeInsidePacket_go e pkt) w = consumeInsidePacket e pkt w.
Proof.
  unfold consumeInsidePacket_go, consumeInsidePacket. rewrite run_bind. apply gbind_ext; [done | intros [dst|] w1 _; [| done]].
  rewrite run_view. unfold get_daemon. unfold gbind at 1. rewrite run_bind.
  apply gbind_ext; [apply run_lookup | intros host w2 ->%lookup_host_same]. rewrite run_bind.
  apply gbind_ext; [done | intros pr w2 [= <- _]]. rewrite run_bind.
  apply gbind_ext; [done | intros port w2 [= <- _]]. rewrite run_bind.
  apply gbind_ext; [apply run_outbound | intros ok w2 Hw2]. destruct (negb ok); [done |].
  destruct host as [[l h]|]; [apply run_sendToRemote |]. rewrite run_view. apply on_fw_rest in Hw2 as ->.
  change (getPeerCert dst (rest (with_fw (ifFw (rest w2)) w1))) with (getPeerCert dst (rest w1)).
  destruct (getPeerCert dst (rest w1)) as [cert|]; [| apply run_atomic]. rewrite run_view.
  change (GetAddrs dst (ifLighthouse (rest (with_fw (ifFw (rest w2)) w1)))) with (GetAddrs dst (ifLighthouse (rest w1))).
  destruct (GetAddrs dst (ifLighthouse (rest w1))) as [|addr addrs].
  - rewrite run_bind. apply gbind_ext; [apply run_QueryPeer | intros [] w3 _]. apply run_atomic.
  - rewrite run_catch, run_atomic. destruct (StartHandshake _ _ _ _ _) as [w3 [[]| |]]; [apply run_atomic | done | done].
Qed.

Lemma run_handleMessage e pkt hdr from w :
  run_thread (handleMessage_go e pkt hdr from) w = handleMessage e pkt hdr from w.
Proof.
  unfold handleMessage_go, handleMessage. rewrite run_view. unfold get_daemon. unfold gbind at 1.
  destruct (GetByIndex _ _) as [l|].
  2:{ rewrite run_view. destruct (ifPunchy (rest w)) as [p|]; [| done]. unfold RespondToPunch_go, RespondToPunch.
      destruct (respond p); [apply run_write_ignored | done]. }
  rewrite run_bind. apply gbind_ext; [apply run_atomic_ev | intros [] w1 _; [done |]].
  rewrite run_bind. apply gbind_ext; [apply run_atomic | intros h w2 _].
  destruct (Decrypt _ _ _ _) as [p| |]; [| done ..].
  rewrite run_bind. apply gbind_ext; [done | intros [src|] w3 _; [| done]].
  rewrite run_bind. apply gbind_ext; [done | intros pr w4 _].
  rewrite run_bind. apply gbind_ext; [done | intros port w5 _].
  rewrite run_bind. apply gbind_ext; [apply run_inbound | intros ok w6 _]. destruct (negb ok); [done |].
  cbn [run_thread]. unfold gignore. destruct (tunWrite _ _ _) as [w7 [[]| |]]; done.
Qed.

Lemma run_HandleStage0 e pkt from w :
  run_thread (HandleStage0_go e pkt from) w = HandleStage0 (onHandshakeComplete e) e pkt from w.
Proof.
  unfold HandleStage0_go, HandleStage0. rewrite run_bind. apply gbind_ext; [apply run_atomic | intros m w1 _].
  case_decide; [done |]. rewrite run_bind. apply gbind_ext; [done | intros h w2 _].
  rewrite run_bind. apply gbind_ext; [done | intros [[msg details] cert] w3 _].
  rewrite run_bind. apply gbind_ext; [done | intros hs w4 _]. destruct (ReadMessage _ hs) as [hs1 res].
  rewrite run_bind. apply gbind_ext; [done | intros _ w5 _].
  rewrite run_bind. apply gbind_ext; [done | intros i w6 _]. destruct (WriteMessage _ _ hs1) as [hs2 res'].
  rewrite run_bind. apply gbind_ext; [done | intros [reply cs] w7 _].
  rewrite run_bind. apply gbind_ext; [done | intros rm w8 _].
  rewrite run_bind. apply gbind_ext; [done | intros rb w9 _].
  rewrite run_bind. apply gbind_ext; [rewrite run_wrap; unfold gwrap; by rewrite run_write | intros [] w10 _].
  rewrite run_bind. apply gbind_ext; [done | intros [sc rc] w11 _]. apply run_onHandshakeComplete.
Qed.

Lemma run_get_mgr {B} (k : Manager → thread (World Daemon) event B) w :
  run_thread (tbind (atomic get_mgr) k) w = run_thread (k (mgr w)) w.
Proof. done. Qed.

Lemma run_HandleStage1 e pkt w :
  run_thread (HandleStage1_go e pkt) w = HandleStage1 (onHandshakeComplete e) e pkt w.
Proof.
  unfold HandleStage1_go, HandleStage1. case_decide; [done |].
  rewrite run_bind. apply gbind_ext; [done | intros h w1 _]. rewrite run_bind.
  rewrite (gbind_ok get_mgr _ w1 w1 (mgr w1)) by done.
  unfold gbind at 1. rewrite run_atomic_ev. unfold claim. rewrite (gbind_ok get_mgr _ w1 w1 (mgr w1)) by done.
  destruct (indexMap (mgr w1) !! _) as [l|]; [| done]. destruct (phs (mgr w1) !! l) as [ph|] eqn:Hl; [| done].
  do 2 erewrite gbind_ok by reflexivity. cbn [gret]. set (w2 := mkWorld _ _ _).
  assert (Hload : ∀ {B} (k : pendingHandshake → thread (World Daemon) event B),
    run_thread (tbind (atomic (load_ph l)) k) w2 = run_thread (k ph) w2).
  { intros B k. rewrite run_bind. unfold gbind. rewrite run_atomic. unfold load_ph. cbn. by rewrite Hl. }
  rewrite run_get_mgr.
  rewrite run_bind. apply gbind_ext; [done |]. intros [[msg details] cert] w3 [= <- _]. rewrite Hload.
  destruct (ReadMessage _ (phState ph)) as [hs res].
  rewrite run_bind. apply gbind_ext; [done | intros [x cs] w3 [= <- _]].
  rewrite run_bind. apply gbind_ext; [done | intros [sc rc] w3 [= <- _]]. rewrite Hload. apply run_onHandshakeComplete.
Qed.

Lemma run_handleHandshake e pkt hdr from w :
  run_thread (handleHandshake_go e pkt hdr from) w = handleHandshake e pkt hdr from w.
Proof.
  unfold handleHandshake_go, handleHandshake. destruct (_ =? _); [| destruct (_ =? _); [| done]];
    rewrite run_ignore; unfold gignore; by rewrite ?run_HandleStage0, ?run_HandleStage1.
Qed.

Context (ord : gmap Addr (list UDPAddr) → list (Addr * list UDPAddr)).
Context (pord : gmap Addr nat → list (Addr * nat)).

Lemma run_handleLightHouse e pkt hdr from w :
  run_thread (handleLightHouse_go ord e pkt hdr from) w = handleLightHouse ord e pkt hdr from w.
Proof.
  unfold handleLightHouse_go, handleLightHouse. rewrite run_view. unfold get_daemon. unfold gbind at 1.
  rewrite run_bind. apply gbind_ext; [apply run_lookup | intros host w1 ->%lookup_host_same].
  assert (Hgo : ∀ s, run_thread (match s with
    | Some senderVPN => match unmarshal_lighthouse (drop HeaderLen pkt) with
       | Ok msg => HandleMessage_go e msg senderVPN | Fail _ => tret tt | Panic => tpanic end
    | None => tret tt end) w = match s with
    | Some senderVPN => match unmarshal_lighthouse (drop HeaderLen pkt) with
       | Ok msg => HandleMessage (lighthouseSendFn e) (WriteTo e) msg senderVPN | Fail _ => gret tt | Panic => gpanic end
    | None => gret tt end w).
  { intros [s|]; [| done]. destruct (unmarshal_lighthouse _); [apply run_HandleMessage | done | done]. }
  destruct host as [[l h]|]; [exact (Hgo (Some (VpnIP h))) |].
  rewrite run_view. exact (Hgo (VpnIPByAddr (ord (addrStore (ifLighthouse (rest w)))) from)).
Qed.

Lemma run_handleCloseTunnel hdr w : run_thread (handleCloseTunnel_go hdr) w = handleCloseTunnel hdr w.
Proof.
  unfold handleCloseTunnel_go, handleCloseTunnel. rewrite run_view.
  rewrite (gbind_ok get_daemon _ w w (rest w)) by done.
  rewrite run_bind. apply gbind_ext; [apply run_lookup | intros host w1 ->%lookup_host_same].
  destruct host as [[l h]|]; [| done]. rewrite run_atomic. by rewrite (gbind_ok get_daemon _ w w (rest w)).
Qed.

Lemma run_consumeOutsidePacket e pkt from w :
  run_thread (consumeOutsidePacket_go ord e pkt from) w = consumeOutsidePacket ord e pkt from w.
Proof.
  unfold consumeOutsidePacket_go, consumeOutsidePacket. case_decide; [done |].
  destruct (Parse pkt) as [hdr| |]; [| done ..].
  destruct (_ =? _); [apply run_handleMessage |]. destruct (_ =? _); [apply run_handleHandshake |].
  destruct (_ =? _); [apply run_handleLightHouse |]. destruct (_ =? _); [apply run_write_ignored |].
  destruct (_ =? _); [apply run_handleCloseTunnel | done].
Qed.

Lemma run_exec a w : run_thread (exec_go ord pord a) w = exec ord pord a w.
Proof.
  destruct a as [e pkt | e pkt from | e now | e | now]; cbn [exec_go exec].
  - apply run_consumeInsidePacket.
  - apply run_consumeOutsidePacket.
  - apply run_atomic.
  - apply run_Advertise.
  - done.
Qed.

Lemma goroutine_run acts w : run_thread (tfor acts (exec_go ord pord)) w = gfor acts (exec ord pord) w.
Proof. rewrite run_for. apply gfor_ext. intros a w1. apply run_exec. Qed.

End Uninterrupted.
