(* ===== verification/Concurrent.v ===== *)
(** * The daemon's goroutines together: invariant

    The invariant of the shared state and of the history of events under any
    interleaving of the goroutines of src/interface.go at the granularity of their
    locks ([Threads]), one record per component, and its preservation by every
    kind of atomic section. *)

From S2P Require Import Prelude Bytes Header Net Replay GoText Config Firewall Messages External Cert.
From S2P Require Import NoiseUtil HostMap Handshake HandshakeManager Punchy LightHouse Ipv4 Interface DataPlane.
From S2P Require Import Wire Startup Loops Goroutine Threads.

(** ** What the libraries promise about returning *)

Section Awaiting.

Context {noise : NoiseLib}.

(** An initiator that has written its first message. *)
Definition awaiting (hs : HandshakeState) : Prop :=
  ∃ key peer psk ent hs0 m, NewHandshakeState (initiatorConfig key peer psk) = Ok hs0 ∧
    WriteMessage ent [] hs0 = (hs, Ok m).

(** A value or an error, and cipher states with the last message. *)
Definition finishes (r : go (bytes * option (CipherState * CipherState))) : Prop :=
  match r with Ok (_, cs) => is_Some cs | Fail _ => True | Panic => False end.

End Awaiting.

(** Decoders, the certificate verifier, X25519 and the cipher report what is wrong as
    errors; so do the messages of a two-message Noise pattern when they are called
    in order, and the second message ends the handshake. *)
Class LibReturns `{CryptoLib} `{NoiseLib} `{ProtoLib} `{CertLib} : Prop := {
  ret_marshal_handshake m : marshal_handshake m ≠ Panic;
  ret_unmarshal_handshake b : unmarshal_handshake b ≠ Panic;
  ret_marshal_details d : marshal_details d ≠ Panic;
  ret_unmarshal_details b : unmarshal_details b ≠ Panic;
  ret_marshal_lighthouse m : marshal_lighthouse m ≠ Panic;
  ret_unmarshal_lighthouse b : unmarshal_lighthouse b ≠ Panic;
  ret_ParseCertificate b : ParseCertificate b ≠ Panic;
  ret_x509_verify x roots now : x509_verify x roots now ≠ Panic;
  ret_asn1_vpnip b : asn1_unmarshal_vpnip b ≠ Panic;
  ret_asn1_raws b : asn1_unmarshal_raws b ≠ Panic;
  ret_asn1_octets b : asn1_unmarshal_octets b ≠ Panic;
  ret_NewAESGCM k : NewAESGCM k ≠ Panic;
  ret_X25519 k u : X25519 k u ≠ Panic;
  ret_NewHandshakeState cfg : NewHandshakeState cfg ≠ Panic;
  ret_initiator_first key peer psk hs ent :
    NewHandshakeState (initiatorConfig key peer psk) = Ok hs → (WriteMessage ent [] hs).2 ≠ Panic;
  ret_initiator_last hs m : awaiting hs → finishes (ReadMessage m hs).2;
  ret_responder_first key psk hs m :
    NewHandshakeState (responderConfig key psk) = Ok hs → (ReadMessage m hs).2 ≠ Panic;
  ret_responder_last key psk hs m x ent :
    NewHandshakeState (responderConfig key psk) = Ok hs → (ReadMessage m hs).2 = Ok x →
    finishes (WriteMessage ent [] (ReadMessage m hs).1).2;
}.

Section Concurrent.

Context {crypto : CryptoLib} {noise : NoiseLib} {proto : ProtoLib} {certlib : CertLib}.

Abbreviation trace := (list (nat * event)).

(** ** The history, by session *)

Definition sealed (l : nat) (tr : trace) : list Z :=
  omap (λ x, match x.2 with Sealed l' c _ => if decide (l' = l) then Some c else None | _ => None end) tr.

Definition accepted (l : nat) (tr : trace) : list Z :=
  omap (λ x, match x.2 with Accepted l' c => if decide (l' = l) then Some c else None | _ => None end) tr.

(** Deliveries: session and counter, and the packets. *)
Definition delivered (tr : trace) : list (nat * Z) :=
  omap (λ x, match x.2 with Delivered l c _ => Some (l, c) | _ => None end) tr.

Definition delivered_packets (tr : trace) : list bytes :=
  omap (λ x, match x.2 with Delivered _ _ p => Some p | _ => None end) tr.

Definition claims (tr : trace) : list nat :=
  omap (λ x, match x.2 with Claimed l _ => Some l | _ => None end) tr.

Definition tun_writes (o : list Output) : list bytes :=
  omap (λ x, match x with TUNWrite p => Some p | UDPSend _ _ => None end) o.

Lemma sealed_spec l c tr : c ∈ sealed l tr ↔ ∃ i p, (i, Sealed l c p) ∈ tr.
Proof.
  unfold sealed. rewrite list_elem_of_omap. split.
  - intros ([i [l' c' p| | |]] & Hin & Hx); cbn in Hx; try done. case_decide; [| done]. simplify_eq. eauto.
  - intros (i & p & Hin). exists (i, Sealed l c p). split; [done |]. cbn. by rewrite decide_True.
Qed.

Lemma accepted_spec l c tr : c ∈ accepted l tr ↔ ∃ i, (i, Accepted l c) ∈ tr.
Proof.
  unfold accepted. rewrite list_elem_of_omap. split.
  - intros ([i [|l' c'| |]] & Hin & Hx); cbn in Hx; try done. case_decide; [| done]. simplify_eq. eauto.
  - intros (i & Hin). exists (i, Accepted l c). split; [done |]. cbn. by rewrite decide_True.
Qed.

Lemma delivered_spec l c tr : (l, c) ∈ delivered tr ↔ ∃ i p, (i, Delivered l c p) ∈ tr.
Proof.
  unfold delivered. rewrite list_elem_of_omap. split.
  - intros ([i [| |l' c' p|]] & Hin & Hx); cbn in Hx; try done. simplify_eq. eauto.
  - intros (i & p & Hin). by exists (i, Delivered l c p).
Qed.

Lemma claims_spec l tr : l ∈ claims tr ↔ ∃ i ph, (i, Claimed l ph) ∈ tr.
Proof.
  unfold claims. rewrite list_elem_of_omap. split.
  - intros ([i [| | |l' ph]] & Hin & Hx); cbn in Hx; try done. simplify_eq. eauto.
  - intros (i & ph & Hin). by exists (i, Claimed l ph).
Qed.

(** ** The sessions *)

(** What a session has drawn and accepted is what its counter and its window
    say; a location without a session has no history. *)
Record sessions (s : gmap nat HostInfo) (m : HostMap) (tr : trace) : Prop := {
  ses_map : HostMap_ok s m;
  ses_counter l h : s !! l = Some h →
    sealed l tr = map u64 (seqZ 1 (Z.of_nat (length (sealed l tr)))) ∧
    Counter h = u64 (Z.of_nat (length (sealed l tr)));
  ses_window l h : s !! l = Some h → represents (rev (accepted l tr)) (hWindow h);
  ses_accepted l : NoDup (accepted l tr);
  ses_free l : s !! l = None → sealed l tr = [] ∧ accepted l tr = [];
}.

(** Events of other components do not touch the sessions. *)
Definition about_session (ev : event) : bool :=
  match ev with Sealed _ _ _ | Accepted _ _ => true | _ => false end.

Lemma sealed_other l tr i ev : about_session ev = false → sealed l (tr ++ [(i, ev)]) = sealed l tr.
Proof. intros H. unfold sealed. rewrite omap_app. destruct ev; try done; by rewrite app_nil_r. Qed.

Lemma accepted_other l tr i ev : about_session ev = false → accepted l (tr ++ [(i, ev)]) = accepted l tr.
Proof. intros H. unfold accepted. rewrite omap_app. destruct ev; try done; by rewrite app_nil_r. Qed.

Lemma sessions_other s m tr i ev : about_session ev = false → sessions s m tr → sessions s m (tr ++ [(i, ev)]).
Proof.
  intros Hev [H1 H2 H3 H4 H5]. split; [done | | | |].
  - intros l h Hl. rewrite sealed_other by done. eauto.
  - intros l h Hl. rewrite accepted_other by done. eauto.
  - intros l. by rewrite accepted_other.
  - intros l Hl. rewrite sealed_other, accepted_other by done. auto.
Qed.

Lemma sessions_hostmap s m m' tr : HostMap_ok s m' → sessions s m tr → sessions s m' tr.
Proof. intros Hm [H1 H2 H3 H4 H5]. by split. Qed.

Lemma sessions_alloc s m tr h :
  Counter h = 0 → hWindow h = newWindow → sessions s m tr → sessions (<[fresh_loc s := h]> s) m tr.
Proof.
  intros Hc Hw [H1 H2 H3 H4 H5]. destruct (H5 _ (fresh_loc_None s)) as [Hs Ha]. split; [| | | done |].
  - eapply HostMap_ok_extends; [apply extends_alloc | done].
  - intros l h' [[<- <-] | [_ Hl]]%lookup_insert_Some; [by rewrite Hs, Hc | eauto].
  - intros l h' [[<- <-] | [_ Hl]]%lookup_insert_Some; [| eauto]. rewrite Ha, Hw. apply newWindow_represents.
  - intros l [Hl _]%lookup_insert_None. auto.
Qed.

Lemma sealed_add l l' c p tr i :
  sealed l (tr ++ [(i, Sealed l' c p)]) = sealed l tr ++ if decide (l' = l) then [c] else [].
Proof. unfold sealed. rewrite omap_app. cbn. by case_decide. Qed.

Lemma accepted_sealed l l' c p tr i : accepted l (tr ++ [(i, Sealed l' c p)]) = accepted l tr.
Proof. unfold accepted. rewrite omap_app. cbn. apply app_nil_r. Qed.

Lemma accepted_add l l' c tr i :
  accepted l (tr ++ [(i, Accepted l' c)]) = accepted l tr ++ if decide (l' = l) then [c] else [].
Proof. unfold accepted. rewrite omap_app. cbn. by case_decide. Qed.

Lemma sealed_accepted l l' c tr i : sealed l (tr ++ [(i, Accepted l' c)]) = sealed l tr.
Proof. unfold sealed. rewrite omap_app. cbn. apply app_nil_r. Qed.

Lemma u64_succ n : u64 (u64 n + 1) = u64 (n + 1).
Proof. unfold wrap. by rewrite Zplus_mod_idemp_l. Qed.

Lemma sessions_seal s m tr i l h p :
  s !! l = Some h → sessions s m tr →
  sessions (<[l := set_Counter (u64 (Counter h + 1)) h]> s) m (tr ++ [(i, Sealed l (u64 (Counter h + 1)) p)]).
Proof.
  intros Hl [H1 H2 H3 H4 H5]. split.
  - eapply HostMap_ok_extends; [| done]. eapply extends_update; [done |]. unfold same_identity. auto 10.
  - intros l' h' Hl'. rewrite sealed_add, length_app. case_decide as Heq.
    + subst l'. rewrite lookup_insert_eq in Hl'. simplify_eq. destruct (H2 _ _ Hl) as [Hs Hc]. cbn [length Counter set_Counter].
      rewrite Nat2Z.inj_add, seqZ_app, map_app by lia. rewrite <- Hs, Hc, u64_succ. split; [| done].
      f_equal. unfold seqZ. change (Z.to_nat (Z.of_nat 1)) with 1%nat. cbn. by rewrite Z.add_comm.
    + rewrite lookup_insert_ne in Hl' by done. cbn. rewrite app_nil_r, Nat.add_0_r. eauto.
  - intros l' h'. rewrite accepted_sealed. intros [[<- <-] | [_ Hl']]%lookup_insert_Some; [cbn |]; eauto.
  - intros l'. by rewrite accepted_sealed.
  - intros l' [Hl' Hne]%lookup_insert_None. rewrite accepted_sealed, sealed_add, decide_False, app_nil_r by done. auto.
Qed.

Lemma sessions_accept s m tr i l h c win :
  s !! l = Some h → fresh_counter (rev (accepted l tr)) c → represents (c :: rev (accepted l tr)) win →
  sessions s m tr → sessions (<[l := set_hWindow win h]> s) m (tr ++ [(i, Accepted l c)]).
Proof.
  intros Hl [Hc _] Hr [H1 H2 H3 H4 H5]. rewrite list_elem_of_In, <- in_rev, <- list_elem_of_In in Hc. split.
  - eapply HostMap_ok_extends; [| done]. eapply extends_update; [done |]. unfold same_identity. auto 10.
  - intros l' h'. rewrite sealed_accepted. intros [[<- <-] | [_ Hl']]%lookup_insert_Some; [cbn |]; eauto.
  - intros l' h' Hl'. rewrite accepted_add. case_decide as Heq.
    + subst l'. rewrite lookup_insert_eq in Hl'. simplify_eq. by rewrite rev_app_distr.
    + rewrite lookup_insert_ne in Hl' by done. rewrite app_nil_r. eauto.
  - intros l'. rewrite accepted_add. case_decide as Heq; [| by rewrite app_nil_r]. subst l'.
    apply NoDup_app. split_and!; [done | | apply NoDup_singleton]. by intros x Hx ->%list_elem_of_singleton.
  - intros l' [Hl' Hne]%lookup_insert_None. rewrite sealed_accepted, accepted_add, decide_False, app_nil_r by done. auto.
Qed.

(** ** Packets and datagrams *)

Context (ins outs : list Rule).
(** the packets the TUN device yields, and the datagrams the socket yields *)
Context (given arrived : bytes → Prop).

(** A packet whose flow some configured rule admits. *)
Definition admitted (addr : bytes → go (option Addr)) (p : bytes) : Prop :=
  ∃ ip pr port, addr p = Ok (Some ip) ∧ protoFromIPv4 p = Ok pr ∧ dstPortFromIPv4 p = Ok port ∧
    justified ins outs (flow_key ip port pr).

(** A packet of the device that may leave. *)
Definition outgoing (p : bytes) : Prop := given p ∧ admitted dstIPFromIPv4 p.

(** A datagram of a form the daemon sends that carries no packet. *)
Definition control (d : bytes) : Prop := wire_form d ∧ ∀ hdr, Parse d = Ok hdr → hType hdr ≠ TypeMessage.

Lemma control_header t sub i c tl :
  in_u 4 t → t ≠ TypeMessage → wire_form (Bytes (mkHeader Version t sub i c) ++ tl) →
  control (Bytes (mkHeader Version t sub i c) ++ tl).
Proof.
  intros Ht Hne Hw. split; [done |]. intros hdr Hp. destruct (Parse_form t sub i c tl Ht) as (hdr' & Hp' & Hty). congruence.
Qed.

Lemma control_punch : control [].
Proof. split; [constructor | done]. Qed.

Lemma control_test : control (Bytes (mkHeader Version TypeTest 0 0 0)).
Proof.
  rewrite <- (app_nil_r (Bytes _)). apply control_header; [by unfold in_u, TypeTest; lia | done |].
  rewrite app_nil_r. constructor.
Qed.

Lemma control_handshake msg i sub pkt :
  sub ∈ [HandshakeInitiation; HandshakeResponse] → marshalHandshakePacket msg i sub = Ok pkt → control pkt.
Proof.
  intros Hs Hm. pose proof (marshalHandshakePacket_form msg i sub pkt Hs Hm) as Hf.
  unfold marshalHandshakePacket in Hm. destruct (marshal_handshake msg) as [body| |]; [| done ..].
  cbn [go_wrap go_bind] in Hm. assert (pkt = Bytes (mkHeader Version TypeHandshake sub i 0) ++ body) as -> by congruence.
  by apply control_header; [unfold in_u, TypeHandshake; lia | |].
Qed.

Lemma control_lighthouse msg wire : marshalLightHousePacket msg = Ok wire → control wire.
Proof.
  unfold marshalLightHousePacket. destruct (marshal_lighthouse msg) as [body| |] eqn:Hm; [| done ..].
  cbn [go_wrap go_bind]. intros H. assert (wire = Bytes (mkHeader Version TypeLightHouse 0 0 0) ++ body) as -> by congruence.
  by apply control_header; [unfold in_u, TypeLightHouse; lia | | by eapply wire_lighthouse].
Qed.

(** ** The pending handshakes *)

Record pending_ok (ph : pendingHandshake) : Prop := {
  pok_state : awaiting (phState ph);
  pok_stage0 : control (phStage0 ph);
  pok_packets : Forall outgoing (phPackets ph);
}.

(** An object a response has claimed is the claimer's alone: it is in neither map
    and nobody changes it. *)
Record handshakes (m : Manager) (tr : trace) : Prop := {
  hs_pending l ph : phs m !! l = Some ph → pending_ok ph;
  hs_claimed i l ph : (i, Claimed l ph) ∈ tr →
    phs m !! l = Some ph ∧ (∀ ip, pending m !! ip ≠ Some l) ∧ (∀ j, indexMap m !! j ≠ Some l);
  hs_once : NoDup (claims tr);
}.

Lemma handshakes_other m tr i ev :
  (∀ l ph, ev ≠ Claimed l ph) → handshakes m tr → handshakes m (tr ++ [(i, ev)]).
Proof.
  intros Hev [H1 H2 H3]. split; [done | |].
  - intros j l ph [Hin | [= -> <-]%list_elem_of_singleton]%elem_of_app; [eauto | by destruct (Hev l ph)].
  - unfold claims. rewrite omap_app. destruct ev; cbn; rewrite ?app_nil_r; try done. by destruct (Hev l ph).
Qed.

(** Changing an object that is still in the map. *)
Lemma handshakes_update m tr ip l ph' :
  pending m !! ip = Some l → pending_ok ph' → handshakes m tr →
  handshakes (set_tables (<[l := ph']> (phs m)) (pending m) (indexMap m) m) tr.
Proof.
  intros Hp Hph [H1 H2 H3]. split; [| | done]; cbn.
  - intros l0 ph0 [[<- <-] | [_ ?]]%lookup_insert_Some; eauto.
  - intros i l0 ph0 Hin. destruct (H2 _ _ _ Hin) as (Hl & Hnp & Hni). split_and!; [| done | done].
    rewrite lookup_insert_ne; [done |]. intros ->. by apply (Hnp ip).
Qed.

(** Dropping entries of the maps. *)
Lemma handshakes_delete m tr ip j :
  handshakes m tr → handshakes (set_tables (phs m) (delete ip (pending m)) (delete j (indexMap m)) m) tr.
Proof.
  intros [H1 H2 H3]. split; [done | | done]. cbn. intros i l ph Hin. destruct (H2 _ _ _ Hin) as (Hl & Hnp & Hni).
  split_and!; [done | |]; intros k [_ Hk]%lookup_delete_Some; naive_solver.
Qed.

Lemma handshakes_start m tr ph :
  pending_ok ph → handshakes m tr →
  let l := fresh_ploc (phs m) in
  handshakes (set_tables (<[l := ph]> (phs m)) (<[phRemoteVpnIP ph := l]> (pending m))
    (<[phLocalIndex ph := l]> (indexMap m)) m) tr.
Proof.
  intros Hph [H1 H2 H3] l. split; [| | done]; cbn.
  - intros l0 ph0 [[<- <-] | [_ ?]]%lookup_insert_Some; eauto.
  - intros i l0 ph0 Hin. destruct (H2 _ _ _ Hin) as (Hl & Hnp & Hni).
    assert (Hne : l ≠ l0) by (intros <-; unfold l in Hl; by rewrite fresh_ploc_None in Hl).
    rewrite lookup_insert_ne by done. split_and!; [done | |];
      intros k [[_ ?] | [_ Hk]]%lookup_insert_Some; naive_solver.
Qed.

Lemma handshakes_claim m tr i l ph idx :
  Manager_ok m → indexMap m !! idx = Some l → phs m !! l = Some ph → handshakes m tr →
  handshakes (set_tables (phs m) (delete (phRemoteVpnIP ph) (pending m)) (delete idx (indexMap m)) m)
    (tr ++ [(i, Claimed l ph)]).
Proof.
  intros Hok Hi Hl H. destruct (handshakes_delete m tr (phRemoteVpnIP ph) idx H) as [H1 H2 H3].
  destruct (index_live _ Hok _ _ Hi) as (ph' & Hl' & Hidx & Hp). simplify_eq. split; [done | |].
  - intros j l0 ph0 [Hin | [= -> -> ->]%list_elem_of_singleton]%elem_of_app; [eauto |]. cbn. split_and!; [done | |].
    + intros ip [Hne Hip]%lookup_delete_Some. destruct (pending_live _ Hok _ _ Hip) as (ph1 & ? & ?). by simplify_eq.
    + intros k [Hne Hk]%lookup_delete_Some. destruct (index_live _ Hok _ _ Hk) as (ph1 & ? & ? & _). by simplify_eq.
  - unfold claims. rewrite omap_app. apply NoDup_app. split_and!; [done | | apply NoDup_singleton].
    intros x Hx ->%list_elem_of_singleton. apply claims_spec in Hx as (j & ph0 & Hin).
    destruct (hs_claimed _ _ H _ _ _ Hin) as (_ & _ & Hni). by apply (Hni (phLocalIndex ph)).
Qed.

(** ** What left the daemon *)

(** [p] is what a datagram that arrived for session [l] with counter [c] decrypts
    to. *)
Definition received (s : gmap nat HostInfo) (l : nat) (c : Z) (p : bytes) : Prop :=
  ∃ h pkt hdr, s !! l = Some h ∧ arrived pkt ∧ Parse pkt = Ok hdr ∧ hType hdr = TypeMessage ∧ hMessageCounter hdr = c ∧
    Open (RecvCipher h) (CounterNonce c) (drop HeaderLen pkt) (take HeaderLen pkt) = Some p.

Record outputs (o : list Output) (s : gmap nat HostInfo) (tr : trace) : Prop := {
  out_tun : tun_writes o = delivered_packets tr;
  out_udp d a : UDPSend d a ∈ o → control d ∨
    ∃ i l h c p, (i, Sealed l c p) ∈ tr ∧ s !! l = Some h ∧ d = message_wire h c p ∧ a = Remote h;
  out_sealed i l c p : (i, Sealed l c p) ∈ tr → outgoing p;
  out_delivered i l c p : (i, Delivered l c p) ∈ tr →
    (i, Accepted l c) ∈ tr ∧ received s l c p ∧ admitted srcIPFromIPv4 p;
  out_once : NoDup (delivered tr);
}.

Lemma outputs_extends o s s' tr : extends s s' → outputs o s tr → outputs o s' tr.
Proof.
  intros He [H1 H2 H3 H4 H5]. split; [done | | done | | done].
  - intros d a Hin. destruct (H2 _ _ Hin) as [? | (i & l & h & c & p & Hs & Hl & -> & ->)]; [by left |]. right.
    destruct (He _ _ Hl) as (h' & Hl' & Hid). exists i, l, h', c, p. split_and!; [done | done | |].
    + destruct Hid as (_ & _ & _ & Hri & Hsc & _). unfold message_wire. by rewrite Hri, Hsc.
    + symmetry. apply Hid.
  - intros i l c p Hin. destruct (H4 _ _ _ _ Hin) as (Ha & (h & pkt & hdr & Hl & Hrest) & Hadm).
    split_and!; [done | | done]. destruct (He _ _ Hl) as (h' & Hl' & Hid). exists h', pkt, hdr.
    destruct Hid as (_ & _ & _ & _ & _ & -> & _). done.
Qed.

(** Events that are neither a seal nor a delivery. *)
Lemma outputs_other o s tr i ev :
  (∀ l c p, ev ≠ Delivered l c p) → (∀ l c p, ev = Sealed l c p → outgoing p) →
  outputs o s tr → outputs o s (tr ++ [(i, ev)]).
Proof.
  intros Hd Hs [H1 H2 H3 H4 H5]. split.
  - rewrite H1. unfold delivered_packets. rewrite omap_app. destruct ev; cbn; rewrite ?app_nil_r; try done.
    by destruct (Hd l c p).
  - intros d a Hin. destruct (H2 _ _ Hin) as [? | (j & l & h & c & p & Hin' & Hrest)]; [by left |]. right.
    exists j, l, h, c, p. split; [by apply elem_of_app; left | done].
  - intros j l c p [Hin | [= -> <-]%list_elem_of_singleton]%elem_of_app; eauto.
  - intros j l c p [Hin | [= -> <-]%list_elem_of_singleton]%elem_of_app; [| by destruct (Hd l c p)].
    destruct (H4 _ _ _ _ Hin) as (Ha & Hrest). split; [by apply elem_of_app; left | done].
  - unfold delivered. rewrite omap_app. destruct ev; cbn; rewrite ?app_nil_r; try done. by destruct (Hd l c p).
Qed.

Lemma outputs_send o s tr d a :
  control d ∨ (∃ i l h c p, (i, Sealed l c p) ∈ tr ∧ s !! l = Some h ∧ d = message_wire h c p ∧ a = Remote h) →
  outputs o s tr → outputs (o ++ [UDPSend d a]) s tr.
Proof.
  intros Hd [H1 H2 H3 H4 H5]. split; [| | done | done | done].
  - unfold tun_writes. rewrite omap_app. cbn. by rewrite app_nil_r.
  - intros d' a' [Hin | [= -> ->]%list_elem_of_singleton]%elem_of_app; eauto.
Qed.

(** An acceptance has one author. *)
Lemma accepted_unique l c tr i j :
  NoDup (accepted l tr) → (i, Accepted l c) ∈ tr → (j, Accepted l c) ∈ tr → i = j.
Proof.
  induction tr as [|[k ev] tr IH]; [by intros _ ?%elem_of_nil |].
  intros Hnd. assert (Hnd' : NoDup (accepted l tr)).
  { unfold accepted in Hnd. cbn in Hnd. destruct ev; try done. case_decide; [by apply NoDup_cons in Hnd as [_ ?] | done]. }
  assert (Hdup : ∀ x, ev = Accepted l c → (x, Accepted l c) ∈ tr → False).
  { intros x -> Hx. unfold accepted in Hnd. cbn in Hnd. rewrite decide_True in Hnd by done.
    apply NoDup_cons in Hnd as [Hn _]. apply Hn. apply accepted_spec. eauto. }
  intros [[= <- <-] | Hi]%elem_of_cons [[= Hj] | Hj']%elem_of_cons; [done | | |]; [| | by apply IH].
  - by destruct (Hdup j).
  - by destruct (Hdup i).
Qed.

(** The right to deliver: accepted by this goroutine and not used yet. *)
Definition ticket (i l : nat) (c : Z) (tr : trace) : Prop :=
  (i, Accepted l c) ∈ tr ∧ ∀ p, (i, Delivered l c p) ∉ tr.

Lemma outputs_deliver o s m tr i l c p :
  sessions s m tr → ticket i l c tr → received s l c p → admitted srcIPFromIPv4 p → outputs o s tr →
  outputs (o ++ [TUNWrite p]) s (tr ++ [(i, Delivered l c p)]).
Proof.
  intros Hs [Hacc Hnew] Hrec Hadm [H1 H2 H3 H4 H5]. split.
  - unfold tun_writes, delivered_packets. rewrite !omap_app. cbn. f_equal. exact H1.
  - intros d a [Hin | Hin%list_elem_of_singleton]%elem_of_app; [| done].
    destruct (H2 _ _ Hin) as [? | (j & l' & h & c' & p' & Hin' & Hrest)]; [by left |]. right.
    exists j, l', h, c', p'. split; [by apply elem_of_app; left | done].
  - intros j l' c' p' [Hin | Hin%list_elem_of_singleton]%elem_of_app; [eauto | done].
  - intros j l' c' p' [Hin | [= -> -> -> ->]%list_elem_of_singleton]%elem_of_app.
    + destruct (H4 _ _ _ _ Hin) as (Ha & Hrest). split; [by apply elem_of_app; left | done].
    + split_and!; [by apply elem_of_app; left | done | done].
  - unfold delivered. rewrite omap_app. apply NoDup_app. split_and!; [done | | apply NoDup_singleton].
    intros x Hx ->%list_elem_of_singleton. apply delivered_spec in Hx as (j & p' & Hin).
    destruct (H4 _ _ _ _ Hin) as (Ha & _).
    assert (i = j) as <- by (eapply accepted_unique; [apply (ses_accepted _ _ _ Hs) | done | done]).
    by apply (Hnew p').
Qed.

(** ** The invariant *)

Record Inv (w : World Daemon) (tr : trace) : Prop := {
  inv_sessions : sessions (ifHosts (rest w)) (ifHostMap (rest w)) tr;
  inv_mgr : Manager_ok (mgr w);
  inv_handshakes : handshakes (mgr w) tr;
  inv_outputs : outputs (out w) (ifHosts (rest w)) tr;
  inv_fw : fw_inv ins outs (ifFw (rest w));
}.

(** What every section leaves in place: sessions keep their identity. *)
Definition mono (w w' : World Daemon) : Prop := extends (ifHosts (rest w)) (ifHosts (rest w')).

#[global] Instance mono_preorder : PreOrder mono.
Proof. unfold mono. split; [by intros w | intros w1 w2 w3 H1 H2; by etransitivity]. Qed.

(** *** Sections without an event *)

Lemma Inv_send w tr d a : control d → Inv w tr → Inv (emit [UDPSend d a] w) tr.
Proof. intros Hd [H1 H2 H3 H4 H5]. split; [done | done | done | | done]. apply outputs_send; auto. Qed.

Lemma Inv_send_message w tr i l h c p :
  (i, Sealed l c p) ∈ tr → ifHosts (rest w) !! l = Some h → Inv w tr →
  Inv (emit [UDPSend (message_wire h c p) (Remote h)] w) tr.
Proof. intros Hs Hl [H1 H2 H3 H4 H5]. split; [done | done | done | | done]. apply outputs_send; [right; eauto 10 | done]. Qed.

Lemma Inv_fw w tr f : fw_inv ins outs f → Inv w tr → Inv (with_fw f w) tr.
Proof. intros Hf [H1 H2 H3 H4 H5]. by split. Qed.

(** The rest of the daemon's state. *)
Lemma Inv_rest w tr d :
  ifHosts d = ifHosts (rest w) → ifHostMap d = ifHostMap (rest w) → ifFw d = ifFw (rest w) →
  Inv w tr → Inv (set_rest d w) tr.
Proof. intros E1 E2 E3 [H1 H2 H3 H4 H5]. split; cbn; rewrite ?E1, ?E2, ?E3; done. Qed.

Lemma Inv_hostmap w tr m' : HostMap_ok (ifHosts (rest w)) m' → Inv w tr → Inv (set_hostmap m' w).1 tr.
Proof. intros Hm [H1 H2 H3 H4 H5]. split; [| done ..]. by eapply sessions_hostmap. Qed.

Lemma Inv_alloc w tr h : Counter h = 0 → hWindow h = newWindow → Inv w tr → Inv (alloc_host h w).1 tr.
Proof.
  intros Hc Hw [H1 H2 H3 H4 H5]. split; [by apply sessions_alloc | done | done | | done].
  eapply outputs_extends; [apply extends_alloc | done].
Qed.

Lemma Inv_tables w tr s p i :
  let m' := set_tables s p i (mgr w) in
  Manager_ok m' → handshakes m' tr → Inv w tr → Inv (mkWorld m' (out w) (rest w)) tr.
Proof. intros m' Hm Hh [H1 H2 H3 H4 H5]. by split. Qed.

(** *** Sections with an event *)

Lemma Inv_seal w tr i l h p :
  ifHosts (rest w) !! l = Some h → outgoing p → Inv w tr →
  let c := u64 (Counter h + 1) in
  Inv (put_host l (set_Counter c h) w) (tr ++ [(i, Sealed l c p)]).
Proof.
  intros Hl Hp [H1 H2 H3 H4 H5] c. split; [by apply sessions_seal | done | by apply handshakes_other | | done].
  eapply outputs_extends; [eapply extends_update; [done |]; unfold same_identity; auto 10 |].
  apply outputs_other; [done | | done]. intros l' c' p' [= _ _ <-]. done.
Qed.

Lemma Inv_accept w tr i l h c win :
  ifHosts (rest w) !! l = Some h → fresh_counter (rev (accepted l tr)) c →
  represents (c :: rev (accepted l tr)) win → Inv w tr →
  Inv (put_host l (set_hWindow win h) w) (tr ++ [(i, Accepted l c)]).
Proof.
  intros Hl Hf Hr [H1 H2 H3 H4 H5]. split; [by apply sessions_accept | done | by apply handshakes_other | | done].
  eapply outputs_extends; [eapply extends_update; [done |]; unfold same_identity; auto 10 |].
  by apply outputs_other.
Qed.

Lemma Inv_deliver w tr i l c p :
  ticket i l c tr → received (ifHosts (rest w)) l c p → admitted srcIPFromIPv4 p → Inv w tr →
  Inv (emit [TUNWrite p] w) (tr ++ [(i, Delivered l c p)]).
Proof.
  intros Ht Hrec Hadm [H1 H2 H3 H4 H5].
  split; [by apply sessions_other | done | by apply handshakes_other | by eapply outputs_deliver | done].
Qed.

Lemma Inv_claim w tr i l ph idx :
  indexMap (mgr w) !! idx = Some l → phs (mgr w) !! l = Some ph → Inv w tr →
  Inv (mkWorld (set_tables (phs (mgr w)) (delete (phRemoteVpnIP ph) (pending (mgr w)))
         (delete idx (indexMap (mgr w))) (mgr w)) (out w) (rest w)) (tr ++ [(i, Claimed l ph)]).
Proof.
  intros Hi Hl [H1 H2 H3 H4 H5]. split; [by apply sessions_other | | by apply handshakes_claim | by apply outputs_other | done].
  destruct (index_live _ H2 _ _ Hi) as (ph' & Hl' & <- & Hp). simplify_eq. by eapply Manager_ok_delete.
Qed.

(** *** The critical sections of the handshake manager *)

Lemma QueuePacket_inv w tr ip pkt :
  outgoing pkt → Inv w tr →
  ∃ m', QueuePacket ip pkt w = (mkWorld m' (out w) (rest w), Ok tt) ∧ Inv (mkWorld m' (out w) (rest w)) tr.
Proof.
  intros Hadm H. unfold QueuePacket. rewrite (gbind_ok get_mgr _ w w (mgr w)) by done.
  destruct (pending (mgr w) !! ip) as [l|] eqn:Hp; [| exists (mgr w); by destruct w].
  destruct (pending_live _ (inv_mgr _ _ H) _ _ Hp) as (ph & Hl & Hip). rewrite Hl.
  pose proof (hs_pending _ _ (inv_handshakes _ _ H) _ _ Hl) as [Ha Hs Hq].
  destruct (ph_bounds _ (inv_mgr _ _ H) _ _ Hl) as [Hatt Hlen].
  eexists. split; [done |]. apply Inv_tables; [| | done].
  - eapply Manager_ok_update; [apply (inv_mgr _ _ H) | done | done | done | done |]. cbn.
    unfold maxPendingPackets in *. case_decide; rewrite length_app, ?length_drop; cbn; lia.
  - eapply handshakes_update; [done | | apply (inv_handshakes _ _ H)]. split; cbn; [done | done |].
    apply Forall_app. split; [| by apply Forall_singleton]. case_decide; [by apply Forall_drop | done].
Qed.

Lemma BuildInitiatorMessage_returns {returns : LibReturns} cert payload i now : BuildInitiatorMessage cert payload i now ≠ Panic.
Proof.
  unfold BuildInitiatorMessage. destruct (marshal_details _) eqn:Hd; cbn; [done | done |]. by apply ret_marshal_details in Hd.
Qed.

Lemma BuildResponderMessage_returns {returns : LibReturns} cert payload i j now :
  BuildResponderMessage cert payload i j now ≠ Panic.
Proof.
  unfold BuildResponderMessage. destruct (marshal_details _) eqn:Hd; cbn; [done | done |]. by apply ret_marshal_details in Hd.
Qed.

Lemma marshalHandshakePacket_returns {returns : LibReturns} msg i sub : marshalHandshakePacket msg i sub ≠ Panic.
Proof.
  unfold marshalHandshakePacket. destruct (marshal_handshake msg) eqn:Hm; cbn; [done | done |].
  by apply ret_marshal_handshake in Hm.
Qed.

(** [StartHandshake] changes nothing, or adds one pending object and sends its
    first message. *)
Lemma StartHandshake_cases {returns : LibReturns} (w : World Daemon) e ip addr cert :
  (∃ r, StartHandshake e ip addr cert w = (w, r) ∧ r ≠ Panic) ∨
  ∃ ph, pending (mgr w) !! ip = None ∧ phRemoteVpnIP ph = ip ∧ phAttempts ph = 1 ∧ phPackets ph = [] ∧
    pending_ok ph ∧
    let l := fresh_ploc (phs (mgr w)) in
    let m' := set_tables (<[l := ph]> (phs (mgr w))) (<[ip := l]> (pending (mgr w)))
                (<[phLocalIndex ph := l]> (indexMap (mgr w))) (mgr w) in
    StartHandshake e ip addr cert w =
      (emit [UDPSend (phStage0 ph) addr] (mkWorld m' (out w) (rest w)), of_err (udpResult e (phStage0 ph) addr)).
Proof.
  unfold StartHandshake. rewrite (gbind_ok get_mgr _ w w (mgr w)) by done.
  destruct (pending (mgr w) !! ip) eqn:Hnew; [left; by eexists |].
  unfold randomIndex. destruct (randBytes e) as [err|b]; [left; by eexists |].
  cbn [of_sum go_bind go_wrap]. erewrite gbind_ok by reflexivity. unfold NewInitiatorState.
  destruct (NewHandshakeState _) as [hs| |] eqn:Hhs; [| left; by eexists | by apply ret_NewHandshakeState in Hhs].
  cbn [go_wrap]. erewrite gbind_ok by reflexivity.
  pose proof (ret_initiator_first _ _ _ hs (entropy e) Hhs) as Hsafe.
  destruct (WriteMessage (entropy e) [] hs) as [hs' [[nm cs]| |]] eqn:Hwrite; [| left; by eexists | done].
  cbn [go_wrap]. erewrite gbind_ok by reflexivity. cbv beta iota.
  destruct (buildHandshakePacket _ _ _ _ _) as [wire| |] eqn:Hb; [| left; by eexists |]; unfold buildHandshakePacket in Hb;
    destruct (BuildInitiatorMessage _ _ _ _) as [msg| |] eqn:Hbuild; try done.
  2:{ by apply marshalHandshakePacket_returns in Hb. } 2:{ by apply BuildInitiatorMessage_returns in Hbuild. }
  erewrite gbind_ok by reflexivity. right.
  exists (mkPending hs' (le_uint b) ip addr [] 1 (nowRetry e + retryBase) wire). split_and!; try done. split; cbn.
  - do 6 eexists. eauto.
  - eapply control_handshake; [| exact Hb]. by left.
  - constructor.
Qed.

Lemma StartHandshake_inv {returns : LibReturns} w tr e ip addr cert :
  Inv w tr → Inv (StartHandshake e ip addr cert w).1 tr ∧ (StartHandshake e ip addr cert w).2 ≠ Panic ∧
    rest (StartHandshake e ip addr cert w).1 = rest w.
Proof.
  intros H. destruct (StartHandshake_cases w e ip addr cert) as [(r & -> & Hr) | (ph & Hnew & Hip & Ha & Hq & Hok & Heq)]; [done |].
  cbv zeta in Heq. rewrite Heq. split_and!; [| by destruct (udpResult _ _ _) | done].
  apply Inv_send; [apply Hok |]. apply Inv_tables; [| | done]; rewrite <- Hip.
  - apply Manager_ok_add; [apply (inv_mgr _ _ H) | by rewrite Hip | rewrite Ha; unfold maxHandshakeAttempts; lia | rewrite Hq; cbn; lia].
  - apply handshakes_start; [done | apply (inv_handshakes _ _ H)].
Qed.

(** A retry tick, entry by entry. *)
Lemma retryPending_inv w tr e order now :
  order ≡ₚ map_to_list (pending (mgr w)) → Inv w tr →
  Inv (retryPending e order now w).1 tr ∧ (retryPending e order now w).2 = Ok tt ∧
    rest (retryPending e order now w).1 = rest w.
Proof.
  intros Ho H. destruct (retryPending_total e now order w (inv_mgr _ _ H) Ho) as (m' & Hrun & Hpost).
  assert (Hin : ∀ ip l, (ip, l) ∈ order → pending (mgr w) !! ip = Some l).
  { intros ip l Hil. by apply (proj2 (iteration_order _ _ Ho)). }
  assert (Hk : keeps (λ w', handshakes (mgr w') tr ∧ outputs (out w') (ifHosts (rest w')) tr) (retryPending e order now)).
  { apply keeps_for. intros [ip l] Hil w' [Hh Hout]. unfold retryOne. rewrite (gbind_ok get_mgr _ w' w' (mgr w')) by done.
    destruct (phs (mgr w') !! l) as [ph|] eqn:Hl; [| done]. destruct (_ <? _); [done |].
    destruct (hs_pending _ _ Hh _ _ Hl) as [P1 P2 P3].
    destruct (_ <=? _); [split; [by apply handshakes_delete | done] |]. erewrite gbind_ok by reflexivity.
    unfold gignore, WriteTo. destruct (udpResult _ _ _); cbn; (split; [| apply outputs_send; [by left | done]]);
      (split; [| | apply Hh]; cbn).
    all: try (intros l0 ph0 [[<- <-] | [_ ?]]%lookup_insert_Some; [by split | by eapply hs_pending]).
    all: intros i l0 ph0 Hcl; destruct (hs_claimed _ _ Hh _ _ _ Hcl) as (Hl0 & Hrest); split; [| done];
      rewrite lookup_insert_ne; [done |]; intros ->;
      destruct (hs_claimed _ _ (inv_handshakes _ _ H) _ _ _ Hcl) as (_ & Hnp & _); by apply (Hnp ip), Hin. }
  destruct (Hk w (conj (inv_handshakes _ _ H) (inv_outputs _ _ H))) as [Hh Hout]. rewrite Hrun in *. cbn in *.
  split_and!; [| done | done]. split; [apply H | apply Hpost | done | done | apply H].
Qed.

End Concurrent.
