(* ===== verification/Guarantee.v ===== *)
(** * Every goroutine keeps the invariant

    A triple for every handler of [Threads]: whatever the other goroutines do
    between its sections, it keeps the invariant of [Concurrent] and does not
    panic; and what follows for whole executions. *)

From S2P Require Import Prelude Bytes Header Net Replay GoText Config Firewall Messages External Cert.
From S2P Require Import NoiseUtil HostMap Handshake HandshakeManager Punchy LightHouse Ipv4 Interface DataPlane.
From S2P Require Import Wire Startup Loops Goroutine Threads Concurrent.

Section Guarantee.

Context {crypto : CryptoLib} {noise : NoiseLib} {proto : ProtoLib} {certlib : CertLib}.
Context {returns : LibReturns}.
Context (ins outs : list Rule) (given arrived : bytes → Prop).

Abbreviation trace := (list (nat * event)).
Abbreviation T := (thread (World Daemon) event).
Abbreviation Inv := (Inv ins outs given arrived).
Abbreviation stable := (stable (S := World Daemon) (E := event) mono).
Abbreviation triple := (triple (S := World Daemon) (E := event) Inv mono).
Abbreviation anything := (λ (_ : World Daemon) (_ : trace), True).

(** ** Facts that only grow *)

Definition fact (P : World Daemon → trace → Prop) : Prop :=
  ∀ w tr w' new, P w tr → mono w w' → P w' (tr ++ new).

Lemma fact_stable i P : fact P → stable i P.
Proof. intros H w tr w' tr' HP [Hm (new & -> & _)]. by eapply H. Qed.

Lemma fact_and P Q : fact P → fact Q → fact (λ w tr, P w tr ∧ Q w tr).
Proof. intros HP HQ w tr w' new [H1 H2] Hm. split; [by eapply HP | by eapply HQ]. Qed.

Lemma fact_pure (φ : Prop) : fact (λ _ _, φ).
Proof. by intros w tr w' new. Qed.

Lemma fact_event (x : nat * event) : fact (λ _ tr, x ∈ tr).
Proof. intros w tr w' new Hx _. apply elem_of_app. by left. Qed.

(** The session at [l] exists; it is the one [h] describes. *)
Definition alive (l : nat) (w : World Daemon) (tr : trace) : Prop := is_Some (ifHosts (rest w) !! l).

Definition known (l : nat) (h : HostInfo) (w : World Daemon) (tr : trace) : Prop :=
  ∃ h', ifHosts (rest w) !! l = Some h' ∧ same_identity h h'.

Lemma fact_alive l : fact (alive l).
Proof. intros w tr w' new [h Hl] Hm. destruct (Hm l h Hl) as (h' & Hl' & _). by exists h'. Qed.

Lemma same_identity_trans h1 h2 h3 : same_identity h1 h2 → same_identity h2 h3 → same_identity h1 h3.
Proof. unfold same_identity. intuition congruence. Qed.

Lemma same_identity_refl h : same_identity h h.
Proof. unfold same_identity. auto 10. Qed.

Lemma fact_known l h : fact (known l h).
Proof.
  intros w tr w' new (h' & Hl & Hid) Hm. destruct (Hm l h' Hl) as (h2 & Hl2 & Hid2).
  exists h2. split; [done | by eapply same_identity_trans].
Qed.

Hint Resolve fact_stable fact_and fact_pure fact_event fact_alive fact_known : neth.

(** ** Sections under a fact *)

Lemma mono_hosts w w' : ifHosts (rest w') = ifHosts (rest w) → mono w w'.
Proof. unfold mono. by intros ->. Qed.

Lemma section_ok {F : Prop} {A} i P (m : M (World Daemon) A) Q :
  fact P →
  (∀ w tr, Inv w tr → P w tr → mono w (m w).1 ∧ Inv (m w).1 tr ∧ post F Q (m w).2 (m w).1 tr) →
  triple F i P (atomic m) (λ a w tr, P w tr ∧ Q a w tr).
Proof.
  intros HP Hm. apply triple_atomic; [auto with neth |]. intros w tr HI Hw.
  destruct (Hm w tr HI Hw) as (H1 & H2 & H3). split_and!; [done | done |].
  pose proof (HP w tr (m w).1 [] Hw H1) as HP'. rewrite app_nil_r in HP'. by destruct (m w).2.
Qed.

Lemma view_ok {F : Prop} {A} i (P : World Daemon → trace → Prop) (f : Daemon → A) (Q : A → World Daemon → trace → Prop) :
  stable i P → (∀ w tr, Inv w tr → P w tr → Q (f (rest w)) w tr) →
  triple F i P (view f) (λ a w tr, P w tr ∧ Q a w tr).
Proof.
  intros HP Hq. apply triple_atomic; [done |]. intros w tr HI Hw. cbn. split_and!; [by apply mono_hosts | done | done | by apply Hq].
Qed.

(** A read whose value nothing is known of. *)
Lemma read_ok {A B} i P (f : Daemon → A) (k : A → T B) Q :
  stable i P → (∀ a, triple False i P (k a) Q) → triple False i P (tbind (view f) k) Q.
Proof.
  intros HP Hk. eapply triple_bind; [apply (view_ok i P f (λ _, anything)); done |].
  intros a. eapply triple_pre; [apply Hk |]. by intros w tr [? _].
Qed.

Lemma ignored_ok {A} i P (m : M (World Daemon) A) :
  fact P →
  (∀ w tr, Inv w tr → P w tr → mono w (m w).1 ∧ Inv (m w).1 tr ∧ (m w).2 ≠ Panic) →
  triple False i P (tignore (atomic m)) (λ _, P).
Proof.
  intros HP Hm. eapply (triple_act _ _ i P m _ _ (λ r w tr, r ≠ Panic ∧ P w tr)); [auto with neth | |].
  - intros w tr HI Hw. destruct (Hm w tr HI Hw) as (H1 & H2 & H3). cbn. rewrite app_nil_r. split_and!; [done | done | done |].
    pose proof (HP w tr (m w).1 [] Hw H1) as HP'. by rewrite app_nil_r in HP'.
  - intros [a|e|]; [| | by intros w tr [? _]]; apply triple_ret; by intros w tr [_ ?].
Qed.

(** ** Sending *)

Lemma write_ok i P e d a : fact P → control d → triple False i P (tignore (WriteTo_go e d a)) (λ _, P).
Proof.
  intros HP Hd. apply ignored_ok; [done |]. intros w tr HI Hw. split_and!; [by apply mono_hosts | by apply (Inv_send ins outs given arrived w) |].
  unfold WriteTo. cbn. by destruct (udpResult e d a).
Qed.

Lemma writes_ok i P e d l : fact P → control d → triple False i P (tfor l (λ a, tignore (WriteTo_go e d a))) (λ _, P).
Proof. intros. apply triple_for. intros a _. by apply write_ok. Qed.

Lemma stable_and i P Q : stable i P → stable i Q → stable i (λ w tr, P w tr ∧ Q w tr).
Proof. intros HP HQ w tr w' tr' [H1 H2] Hr. split; [by eapply HP | by eapply HQ]. Qed.
Hint Resolve stable_and : neth.

Lemma load_host_go_ok i P l :
  stable i P → triple False i (λ w tr, P w tr ∧ alive l w tr) (atomic (load_host l)) (λ h w tr, P w tr ∧ known l h w tr).
Proof.
  intros HP. apply triple_atomic; [auto with neth |]. intros w tr HI [Hw [h Hl]]. unfold load_host. rewrite Hl. cbn.
  split_and!; [by apply mono_hosts | done | done |]. exists h. split; [done | apply same_identity_refl].
Qed.

Lemma message_wire_same h h' c p : same_identity h h' → message_wire h c p = message_wire h' c p ∧ Remote h = Remote h'.
Proof. intros (_ & HR & _ & Hri & Hsc & _). unfold message_wire. by rewrite HR, Hri, Hsc. Qed.

Lemma sendToRemote_go_ok i e l p :
  outgoing ins outs given p → triple False i (alive l) (sendToRemote_go e l p) (λ _, alive l).
Proof.
  intros Hp. unfold sendToRemote_go. eapply (triple_bind _ _ _ _ _ _ (λ c w tr, (i, Sealed l c p) ∈ tr ∧ alive l w tr)).
  - apply triple_atomic_ev; [auto with neth |]. intros w tr HI [h Hl].
    exists (put_host l (set_Counter (u64 (Counter h + 1)) h) w), (u64 (Counter h + 1)).
    split_and!.
    + unfold on_hosts, host_NextCounter. by rewrite Hl.
    + eapply extends_update; [done |]. unfold same_identity. auto 10.
    + by apply Inv_seal.
    + apply elem_of_app. right. by left.
    + unfold alive. cbn. rewrite lookup_insert_eq. eauto.
  - intros c. eapply triple_bind; [apply (load_host_go_ok i (λ _ tr, (i, Sealed l c p) ∈ tr)); auto with neth |].
    intros h. unfold Encrypt. eapply triple_pre; [eapply triple_post;
      [apply (ignored_ok i (λ w tr, (i, Sealed l c p) ∈ tr ∧ known l h w tr)); [auto with neth |] |] | done].
    + intros w tr HI [Hs (h' & Hl & Hid)]. destruct (message_wire_same h h' c p Hid) as [Hw Hr]. split_and!; [by apply mono_hosts | |].
      * change (Inv (emit [UDPSend (message_wire h c p) (Remote h)] w) tr). rewrite Hw, Hr. by eapply Inv_send_message.
      * unfold WriteTo. cbn. by destruct (udpResult _ _ _).
    + intros _ w tr [_ (h' & Hl & _)]. by exists h'.
Qed.

Lemma onHandshakeComplete_go_ok i e h pkts :
  Counter h = 0 → hWindow h = newWindow → Forall (outgoing ins outs given) pkts →
  triple False i anything (onHandshakeComplete_go e h pkts) (λ _, anything).
Proof.
  intros Hc Hw Hp. unfold onHandshakeComplete_go.
  eapply (triple_bind _ _ _ _ _ _ (λ l w tr, alive l w tr)).
  { eapply triple_post; [apply (section_ok i anything (alloc_host h) (λ l, alive l)); [auto with neth |] | by intros l w tr [_ ?]].
    intros w tr HI _. split_and!; [apply extends_alloc | by apply (Inv_alloc ins outs given arrived w) |].
    unfold alive. cbn. rewrite lookup_insert_eq. eauto. }
  intros l. eapply (triple_bind _ _ _ _ _ _ (λ _ w tr, alive l w tr)).
  { eapply triple_post; [apply (section_ok i (alive l) _ (λ _, anything)); [auto with neth |] | by intros x w tr [? _]].
    intros w tr HI [h' Hl]. erewrite gbind_ok by reflexivity.
    destruct (Add_ok _ l h' _ Hl (ses_map _ _ _ (inv_sessions _ _ _ _ _ _ HI))) as (m' & -> & Hm & _).
    erewrite gbind_ok by reflexivity. split_and!; [by apply mono_hosts | by apply Inv_hostmap | done]. }
  intros []. eapply (triple_bind _ _ _ _ _ _ (λ _ w tr, alive l w tr)).
  { destruct (hCert h) as [c|]; [| by apply triple_ret].
    eapply triple_post; [apply (section_ok i (alive l) _ (λ _, anything)); [auto with neth |] | by intros x w tr [? _]].
    intros w tr HI Hl. split_and!; [by apply mono_hosts | by apply Inv_rest | done]. }
  intros []. eapply triple_post; [apply triple_for | by intros]. intros p Hin. rewrite Forall_forall in Hp.
  by apply sendToRemote_go_ok, Hp.
Qed.

(** ** The firewall *)

(** What is known of other components survives a change of the table. *)
Definition off_table (P : World Daemon → trace → Prop) : Prop := ∀ w tr f, P w tr → P (with_fw f w) tr.

Lemma fact_off_table P : fact P → off_table P.
Proof. intros HP w tr f Hw. rewrite <- (app_nil_r tr). eapply HP; [done | by apply mono_hosts]. Qed.

Lemma track_inv f r rules ip groups port pr now :
  r ∈ rules → rules ⊆ ins ++ outs → matches r ip groups port pr = true → fw_inv ins outs f →
  justified ins outs (flow_key ip port pr) ∧
  fw_inv ins outs (mkFirewall (inbound f) (outbound f) (Track now (flow_key ip port pr) (ct f))).
Proof.
  intros Hr Hsub Hm Hf. assert (Hex : existsb (λ r, matches r ip groups port pr) rules = true).
  { apply existsb_exists. exists r. by rewrite <- list_elem_of_In. }
  pose proof (fw_inv_track ins outs rules ip groups port pr now f Hf Hsub) as Hi. rewrite scan_rules_spec, Hex in Hi.
  split; [| done]. apply existsb_rules in Hex as (r' & Hr' & Hadm). exists r', groups. split; [by apply Hsub | done].
Qed.

Lemma scan_go_ok i P rules ip groups port pr now :
  stable i P → off_table P → rules ⊆ ins ++ outs →
  triple False i P (scan_rules_go rules ip groups port pr now)
    (λ b w tr, P w tr ∧ (b = true → justified ins outs (flow_key ip port pr))).
Proof.
  intros HP Hoff. induction rules as [|r rules IH]; intros Hsub; cbn [scan_rules_go]; [by apply triple_ret |].
  destruct (matches r ip groups port pr) eqn:Hm; [| apply IH; set_solver].
  eapply (triple_bind _ _ _ _ _ _ (λ _ w tr, justified ins outs (flow_key ip port pr) ∧ P w tr)).
  - apply triple_atomic; [done |]. intros w tr HI Hw. cbn.
    destruct (track_inv (ifFw (rest w)) r (r :: rules) ip groups port pr now) as [Hj Hf];
      [by left | done | done | apply HI |].
    split_and!; [by apply mono_hosts | by apply (Inv_fw ins outs given arrived w) | done |]. by apply Hoff.
  - intros _. apply triple_ret. by intros w tr [? ?].
Qed.

Lemma Allow_go_ok i P rules ip groups port pr now :
  stable i P → off_table P → (∀ f, fw_inv ins outs f → rules f ⊆ ins ++ outs) →
  triple False i P (Allow_go rules ip groups port pr now)
    (λ b w tr, P w tr ∧ (b = true → justified ins outs (flow_key ip port pr))).
Proof.
  intros HP Hoff Hrules. unfold Allow_go.
  eapply triple_bind; [apply (view_ok i P _ (λ b _ _, b = true → justified ins outs (flow_key ip port pr)));
    [done |]; intros w tr HI _; apply established_justified, HI |].
  intros [].
  - apply triple_ret. intros w tr [Hw Hj]. split; [done | auto].
  - eapply triple_bind; [eapply triple_pre; [apply (view_ok i P _ (λ rs _ _, rs ⊆ ins ++ outs)); [done |] | by intros w tr [? _]] |].
    { intros w tr HI _. apply Hrules, HI. }
    intros rs. eapply triple_pre; [apply (triple_pure _ _ i (rs ⊆ ins ++ outs)); intros Hsub; by apply scan_go_ok |].
    by intros w tr [? ?].
Qed.

Lemma inbound_sub f : fw_inv ins outs f → inbound f ⊆ ins ++ outs.
Proof. intros (-> & _ & _). set_solver. Qed.

Lemma outbound_sub f : fw_inv ins outs f → outbound f ⊆ ins ++ outs.
Proof. intros (_ & -> & _). set_solver. Qed.

(** ** The lighthouse *)

(** Whatever it meets, it returns. *)
Abbreviation harmless i t := (triple False i anything t (λ _, anything)).

(** It may return an error. *)
Abbreviation fallible i t := (triple True i anything t (λ _, anything)).

Lemma harmless_ret i : harmless i (tret tt).
Proof. by apply triple_ret. Qed.

Lemma harmless_read {A} i (f : Daemon → A) (k : A → T unit) :
  (∀ a, harmless i (k a)) → harmless i (tbind (view f) k).
Proof. intros Hk. apply read_ok; [auto with neth | done]. Qed.

Lemma harmless_section i (m : M (World Daemon) unit) :
  (∀ w tr, Inv w tr → mono w (m w).1 ∧ Inv (m w).1 tr ∧ (m w).2 = Ok tt) → harmless i (atomic m).
Proof.
  intros H. eapply triple_post; [apply (section_ok i anything m (λ _, anything)); [auto with neth |] | done].
  intros w tr HI _. destruct (H w tr HI) as (H1 & H2 & ->). done.
Qed.

Lemma fallible_section i (m : M (World Daemon) unit) :
  (∀ w tr, Inv w tr → mono w (m w).1 ∧ Inv (m w).1 tr ∧ (m w).2 ≠ Panic) → fallible i (atomic m).
Proof.
  intros H. eapply triple_post; [apply (section_ok i anything m (λ _, anything)); [auto with neth |] | done].
  intros w tr HI _. destruct (H w tr HI) as (H1 & H2 & H3). split_and!; [done | done |]. by destruct (m w).2.
Qed.

Lemma send_go_ok i e msg ip : harmless i (send_go e msg ip).
Proof.
  apply harmless_read. intros addrs. destruct (marshalLightHousePacket msg) as [wire| |] eqn:Hm.
  - apply writes_ok; [auto with neth | by eapply control_lighthouse].
  - apply harmless_ret.
  - unfold marshalLightHousePacket in Hm. destruct (marshal_lighthouse msg) eqn:Hml; cbn in Hm; try done.
    by apply ret_marshal_lighthouse in Hml.
Qed.

Lemma store_addrs_ok i ip addrs : harmless i (atomic (store_addrs ip addrs)).
Proof. apply harmless_section. intros w tr HI. split_and!; [by apply mono_hosts | by apply Inv_rest | done]. Qed.

Hint Resolve harmless_ret send_go_ok store_addrs_ok : neth.

Lemma HandleMessage_go_ok i e msg from : harmless i (HandleMessage_go e msg from).
Proof.
  unfold HandleMessage_go.
  destruct (GetQuery msg) as [q|].
  { unfold handleQuery_go. destruct (ParseAddr _) eqn:Hp; [| auto with neth | by apply ParseAddr_safe in Hp].
    apply harmless_read. auto with neth. }
  destruct (GetQueryReply msg) as [r|].
  { unfold handleQueryReply_go. destruct (ParseAddr _) eqn:Hp; [auto with neth | auto with neth | by apply ParseAddr_safe in Hp]. }
  destruct (GetUpdate msg) as [u|]; [apply harmless_read; intros []; cbn [negb]; auto with neth |].
  destruct (GetWhoAmI msg) as [x|]; [apply harmless_read; auto with neth |].
  destruct (GetWhoAmIReply msg) as [r|].
  { unfold handleWhoAmIReply_go. destruct (wAddr r) as [p|]; [| auto with neth]. unfold ipPortToUDPAddr.
    destruct (ParseIP _) as [ip|]; [| auto with neth]. apply harmless_section. intros w tr HI.
    split_and!; [by apply mono_hosts | by apply Inv_rest | done]. }
  destruct (GetPunch msg) as [p|]; [| auto with neth]. apply harmless_read. intros [py|]; [| auto with neth].
  unfold Punch_go. destruct (punch py); [| auto with neth]. apply writes_ok; [auto with neth | apply control_punch].
Qed.

Lemma QueryPeer_go_ok i e ip : harmless i (QueryPeer_go e ip).
Proof. apply harmless_read. intros lhs. apply triple_for. auto with neth. Qed.

Lemma Advertise_go_ok i e : harmless i (Advertise_go e).
Proof. do 2 (apply harmless_read; intros ?). apply triple_for. auto with neth. Qed.

(** ** Packets from the TUN device *)

Lemma lookup_go_ok i P o :
  fact P → triple False i (λ w tr, P w tr ∧ ∀ l, o = Some l → alive l w tr) (lookup_host_go o)
    (λ r w tr, P w tr ∧ ∀ l h, r = Some (l, h) → known l h w tr).
Proof.
  intros HP. destruct o as [l|]; cbn [lookup_host_go]; [| by apply triple_ret; intros w tr [? _]].
  eapply triple_bind; [eapply triple_pre; [apply (load_host_go_ok i P); auto with neth | intros w tr [? Ha]; split; [done | by apply Ha]] |].
  intros h. apply triple_ret. intros w tr [Hw Hk]. split; [done |]. by intros l' h' [= <- <-].
Qed.

(** A lookup in the registry finds a live session. *)
Lemma by_vpnip_alive w tr ip l : Inv w tr → GetByVpnIP ip (ifHostMap (rest w)) = Some l → alive l w tr.
Proof.
  intros HI Hl. destruct (byVpnIP_ok _ _ (ses_map _ _ _ (inv_sessions _ _ _ _ _ _ HI)) _ _ Hl) as (h & ? & _). by exists h.
Qed.

Lemma by_index_alive w tr i l : Inv w tr → GetByIndex i (ifHostMap (rest w)) = Some l → alive l w tr.
Proof.
  intros HI Hl. destruct (byIndex_ok _ _ (ses_map _ _ _ (inv_sessions _ _ _ _ _ _ HI)) _ _ Hl) as (h & ? & _). by exists h.
Qed.

Lemma queue_ok i ip pkt : outgoing ins outs given pkt → harmless i (atomic (QueuePacket ip pkt)).
Proof.
  intros Hp. apply harmless_section. intros w tr HI. destruct (QueuePacket_inv ins outs given arrived w tr ip pkt Hp HI) as (m' & -> & Hi).
  split_and!; [by apply mono_hosts | done | done].
Qed.

Lemma consumeInsidePacket_go_ok i e pkt : given pkt → harmless i (consumeInsidePacket_go e pkt).
Proof.
  intros Hgiven.   unfold consumeInsidePacket_go. destruct (accessors_safe pkt) as (Hd & _ & Hpr & Hport).
  apply triple_bind_lift; [by destruct (dstIPFromIPv4 pkt) | by destruct (dstIPFromIPv4 pkt) |]. intros [dst|] Hdst; [| auto with neth].
  eapply triple_bind; [apply (view_ok i anything _ (λ o w tr, ∀ l, o = Some l → alive l w tr)); [auto with neth |] |].
  { intros w tr HI _ l Hl. by eapply by_vpnip_alive. }
  intros o. eapply triple_bind; [by apply lookup_go_ok |]. intros host.
  apply triple_bind_lift; [by destruct (protoFromIPv4 pkt) | by destruct (protoFromIPv4 pkt) |]. intros pr Hpr'.
  apply triple_bind_lift; [by destruct (dstPortFromIPv4 pkt) | by destruct (dstPortFromIPv4 pkt) |]. intros port Hport'.
  set (P := λ w tr, ∀ l h, host = Some (l, h) → alive l w tr).
  assert (HP : fact P). { intros w tr w' new H Hm l h Heq. eapply fact_alive; [by eapply H | done]. }
  eapply triple_bind; [eapply triple_pre; [apply (Allow_go_ok i P outbound); [auto with neth | by apply fact_off_table | apply outbound_sub] |] |].
  { intros w tr [_ Hk] l h Heq. destruct (Hk _ _ Heq) as (h' & Hl & _). by exists h'. }
  intros b. eapply triple_pre; [apply (triple_pure _ _ i (b = true → justified ins outs (flow_key dst port pr)) P) |
    by intros w tr [? ?]]. intros Hj.
  destruct b; cbn [negb]; [| by apply triple_ret]. specialize (Hj eq_refl).
  assert (Hadm : outgoing ins outs given pkt) by (split; [done |]; exists dst, pr, port; auto).
  destruct host as [[l h]|].
  { eapply triple_post; [eapply triple_pre; [by apply (sendToRemote_go_ok i e l) |] | done].
    intros w tr Hw. by eapply Hw. }
  apply triple_pre with anything; [| done].
  apply harmless_read. intros [cert|]; [| by apply queue_ok]. apply harmless_read. intros [|addr addrs].
  - eapply triple_bind; [apply QueryPeer_go_ok |]. intros []. by apply queue_ok.
  - eapply (triple_catch _ _ _ _ _ _ (λ _, anything)); [| intros []; by apply queue_ok | intros; apply harmless_ret].
    apply fallible_section. intros w tr HI.
    destruct (StartHandshake_inv ins outs given arrived w tr e dst addr cert HI) as (H1 & H2 & H3).
    split_and!; [by apply mono_hosts; rewrite H3 | done | done].
Qed.

(** ** Packets from the UDP socket *)

Lemma ticket_stable i l c : stable i (λ _ tr, ticket i l c tr).
Proof.
  intros w tr w' tr' [Ha Hn] [_ (new & -> & Hnew)]. split; [by apply elem_of_app; left |].
  intros p [Hin | Hin]%elem_of_app; [by apply (Hn p) |]. rewrite Forall_forall in Hnew. by apply (Hnew _ Hin).
Qed.

(** The window decides, and a goroutine whose counter it accepts may deliver. *)
Lemma check_ok i l c :
  in_u 64 c →
  triple False i (alive l) (atomic_ev (on_hosts (host_CheckReplay l c)) (λ replayed, if (replayed : bool) then [] else [Accepted l c]))
    (λ b w tr, b = false → ticket i l c tr ∧ alive l w tr).
Proof.
  intros Hc. apply triple_atomic_ev; [auto with neth |]. intros w tr HI [h Hl].
  pose proof (ses_window _ _ _ (inv_sessions _ _ _ _ _ _ HI) _ _ Hl) as Hr.
  destruct (decide (fresh_counter (rev (accepted l tr)) c)) as [Hf|Hf].
  - destruct (check_fresh l c h _ w Hl Hr Hc Hf) as (win & Hr' & Hrun). exists (put_host l (set_hWindow win h) w), false.
    split_and!; [done | | by apply Inv_accept |].
    { eapply extends_update; [done |]. unfold same_identity. auto 10. }
    intros _. split; [| unfold alive; cbn; rewrite lookup_insert_eq; eauto].
    split; [apply elem_of_app; right; by left |]. intros p [Hin | Hin%list_elem_of_singleton]%elem_of_app; [| done].
    destruct (out_delivered _ _ _ _ _ _ _ (inv_outputs _ _ _ _ _ _ HI) _ _ _ _ Hin) as (Ha & _).
    destruct Hf as [Hn _]. apply Hn. rewrite list_elem_of_In, <- in_rev, <- list_elem_of_In. apply accepted_spec. eauto.
  - exists w, true. split_and!; [by eapply check_replayed | by apply mono_hosts | by rewrite app_nil_r | done].
Qed.

(** From the decrypted packet to the device. *)
Lemma deliver_ok i e l c h pkt hdr p src pr port :
  arrived pkt → Parse pkt = Ok hdr → hType hdr = TypeMessage → hMessageCounter hdr = c →
  Open (RecvCipher h) (CounterNonce c) (drop HeaderLen pkt) (take HeaderLen pkt) = Some p →
  srcIPFromIPv4 p = Ok (Some src) → protoFromIPv4 p = Ok pr → dstPortFromIPv4 p = Ok port →
  triple False i (λ w tr, ticket i l c tr ∧ known l h w tr)
    (let@ allowed := Allow_go inbound src (host_groups (Some h)) port pr (nowTrack e) in
     if negb allowed then tret tt
     else Act unit (tunWrite e p) (λ _, [Delivered l c p]) (λ r, match r with Panic => Done Panic | _ => tret tt end))
    (λ _, anything).
Proof.
  intros Harr Hp Hty Hc Ho Hs Hpr Hport. set (P := λ w tr, ticket i l c tr ∧ known l h w tr).
  assert (HP : stable i P) by (apply stable_and; [apply ticket_stable | auto with neth]).
  eapply triple_bind; [apply (Allow_go_ok i P inbound); [done | by intros w tr f | apply inbound_sub] |].
  intros b. eapply triple_pre; [apply (triple_pure _ _ i (b = true → justified ins outs (flow_key src port pr)) P) |
    by intros w tr [? ?]]. intros Hj. destruct b; cbn [negb]; [| by apply triple_ret]. specialize (Hj eq_refl).
  apply (triple_act _ _ i P _ _ _ (λ r w tr, r ≠ Panic ∧ True)); [done | |].
  - intros w tr HI [Ht (h' & Hl & Hid)]. split_and!; [| by apply mono_hosts | | done].
    + apply (Inv_deliver ins outs given arrived w tr i l c p Ht); [| exists src, pr, port; auto | done].
      exists h', pkt, hdr. destruct Hid as (_ & _ & _ & _ & _ & -> & _). auto 10.
    + unfold tunWrite. cbn. by destruct (tunResult e p).
  - intros [a|err|]; [by apply triple_ret | by apply triple_ret | by intros w tr [? _]].
Qed.

Lemma handleMessage_go_ok i e pkt hdr from :
  bytes_ok pkt → arrived pkt → Parse pkt = Ok hdr → hType hdr = TypeMessage → harmless i (handleMessage_go e pkt hdr from).
Proof.
  intros Hb Harr Hp Hty. unfold handleMessage_go.
  eapply triple_bind; [apply (view_ok i anything _ (λ o w tr, ∀ l, o = Some l → alive l w tr)); [auto with neth |] |].
  { intros w tr HI _ l Hl. by eapply by_index_alive. }
  intros [l|].
  2:{ apply triple_pre with anything; [| done]. apply harmless_read. intros [py|]; [| auto with neth].
      unfold RespondToPunch_go. destruct (respond py); [apply write_ok; [auto with neth | apply control_punch] | auto with neth]. }
  eapply triple_bind; [eapply triple_pre; [apply check_ok; by eapply Parse_counter | intros w tr [_ Ha]; by apply Ha] |].
  intros []; [by apply triple_ret |].
  eapply triple_bind; [eapply triple_pre; [apply load_host_go_ok, ticket_stable | intros w tr Hw; by apply Hw] |].
  intros h. unfold Decrypt. destruct (Open _ _ _ _) as [p|] eqn:Ho; cbn [of_option]; [| by apply triple_ret].
  destruct (accessors_safe p) as (_ & Hs & Hpr & Hport).
  apply triple_bind_lift; [by destruct (srcIPFromIPv4 p) | by destruct (srcIPFromIPv4 p) |]. intros [src|] Hsrc; [| by apply triple_ret].
  apply triple_bind_lift; [by destruct (protoFromIPv4 p) | by destruct (protoFromIPv4 p) |]. intros pr Hpr'.
  apply triple_bind_lift; [by destruct (dstPortFromIPv4 p) | by destruct (dstPortFromIPv4 p) |]. intros port Hport'. by eapply deliver_ok.
Qed.

(** ** Handshake packets *)

Lemma apply_extension_returns c ext : apply_extension c ext ≠ Panic.
Proof.
  unfold apply_extension. case_decide; [| case_decide; [| case_decide; [| done]]]; (apply go_bind_returns; [| done]).
  - unfold decodeVpnIP. apply go_bind_returns; [apply go_wrap_returns, ret_asn1_vpnip |]. intros [ip bits].
    case_decide; [done |]. by case_decide.
  - apply go_wrap_returns, ret_asn1_raws.
  - unfold decodeCurve25519Key. apply go_bind_returns; [apply go_wrap_returns, ret_asn1_octets |]. intros b. by destruct (negb _).
Qed.

Lemma Parse_cert_returns b : Parse_cert b ≠ Panic.
Proof.
  unfold Parse_cert. destruct (pem_decode b) as [[ty body]|]; [| done]. destruct (negb _); [done |].
  unfold parseDER. apply go_bind_returns; [apply go_wrap_returns, ret_ParseCertificate |]. intros x. generalize (mkCertificate body x PrefixZero [] []).
  induction (xExtensions x) as [|ext exts IH]; intros c; [done |]. cbn [walk_extensions].
  apply go_bind_returns; [apply apply_extension_returns | apply IH].
Qed.

Lemma authenticate_returns e m what body : authenticate e m what body ≠ Panic.
Proof.
  unfold authenticate. apply go_bind_returns; [apply go_wrap_returns, ret_unmarshal_handshake |]. intros msg.
  apply go_bind_returns; [apply go_wrap_returns, ret_unmarshal_details |]. intros details.
  apply go_bind_returns; [apply go_wrap_returns, Parse_cert_returns |]. intros cert.
  apply go_bind_returns; [apply go_wrap_returns |].
  { unfold Verify. destruct (IsCA cert); [done |]. apply go_wrap_returns, ret_x509_verify. }
  intros _. apply go_bind_returns; [| done]. unfold VerifyHMAC. by case_bool_decide.
Qed.

Lemma ciphers_return cs b : is_Some cs → ciphersFromStates cs b ≠ Panic.
Proof.
  intros [[c1 c2] ->]. unfold ciphersFromStates, CipherFromState. cbn.
  apply go_bind_returns; [apply go_wrap_returns, ret_NewAESGCM |]. intros a1.
  apply go_bind_returns; [apply go_wrap_returns, ret_NewAESGCM |]. intros a2. by destruct b.
Qed.

Lemma get_mgr_go_ok {F : Prop} {B} i (k : Manager → T B) Q :
  (∀ m, triple F i anything (k m) Q) → triple F i anything (tbind (atomic get_mgr) k) Q.
Proof.
  intros Hk. eapply triple_bind; [apply (section_ok i anything get_mgr (λ _, anything)); [auto with neth |] |].
  - intros w tr HI _. split_and!; [by apply mono_hosts | done | done].
  - intros m. eapply triple_pre; [apply Hk | done].
Qed.

Lemma HandleStage0_go_ok i e pkt from : fallible i (HandleStage0_go e pkt from).
Proof.
  unfold HandleStage0_go. apply get_mgr_go_ok. intros m. case_decide; [by apply triple_fail |].
  apply triple_bind_lift; [apply go_wrap_returns, Parse_safe | done | intros hdr _].
  apply triple_bind_lift; [apply authenticate_returns | done | intros [[msg details] cert] _].
  unfold NewResponderState. destruct (NewHandshakeState _) as [hs| |] eqn:Hhs;
    [| by apply triple_fail | by apply ret_NewHandshakeState in Hhs]. apply triple_bind_lift; [done | done | intros ? [= <-]].
  pose proof (ret_responder_first _ _ hs (mNoisePayload msg) Hhs) as Hread.
  pose proof (λ x ent, ret_responder_last _ _ hs (mNoisePayload msg) x ent Hhs) as Hlast.
  destruct (ReadMessage (mNoisePayload msg) hs) as [hs1 res]. cbn [fst snd] in Hread, Hlast.
  apply triple_bind_lift; [by apply go_wrap_returns | done |]. intros x Hx. assert (res = Ok x) as -> by (destruct res; cbn in Hx; congruence).
  apply triple_bind_lift; [by unfold randomIndex; destruct (randBytes e) | done | intros idx _].
  specialize (Hlast x (entropy e) eq_refl). destruct (WriteMessage (entropy e) [] hs1) as [hs2 res2]. cbn [snd] in Hlast.
  destruct res2 as [[reply cs]| |]; [| by apply triple_fail | done]. apply triple_bind_lift; [done | done | intros ? [= <-]].
  apply triple_bind_lift; [apply BuildResponderMessage_returns | done | intros rm _].
  apply triple_bind_lift; [apply marshalHandshakePacket_returns | done | intros rb Hrb].
  eapply (triple_bind _ _ _ _ _ _ (λ _, anything)).
  { apply triple_wrap, fallible_section. intros w tr HI. split_and!; [by apply mono_hosts | |].
    - apply (Inv_send ins outs given arrived w); [| done]. eapply control_handshake; [| exact Hrb]. by right; left.
    - unfold WriteTo. cbn. by destruct (udpResult _ _ _). }
  intros []. apply triple_bind_lift; [by apply ciphers_return | done | intros [sc rc] _].
  by apply triple_errors, onHandshakeComplete_go_ok.
Qed.

(** The critical section hands the object over. *)
Lemma claim_ok {F : Prop} i idx :
  triple F i anything (atomic_ev (claim idx) (λ o, match o with Some (l, ph) => [Claimed l ph] | None => [] end))
    (λ o _ tr, ∀ l ph, o = Some (l, ph) → (i, Claimed l ph) ∈ tr).
Proof.
  apply triple_atomic_ev; [auto with neth |]. intros w tr HI _. unfold claim. rewrite (gbind_ok get_mgr _ w w (mgr w)) by done.
  destruct (indexMap (mgr w) !! idx) as [l|] eqn:Hi.
  - destruct (index_live _ (inv_mgr _ _ _ _ _ _ HI) _ _ Hi) as (ph & Hl & _). rewrite Hl.
    do 2 eexists. split_and!; [reflexivity | by apply mono_hosts | by apply Inv_claim |].
    intros l0 ph0 [= <- <-]. apply elem_of_app. right. by left.
  - exists w, None. split_and!; [done | by apply mono_hosts | by rewrite app_nil_r | done].
Qed.

(** Without the lock, the claimed object still is as it was. *)
Lemma load_ph_ok {F : Prop} i l ph :
  triple F i (λ _ tr, (i, Claimed l ph) ∈ tr) (atomic (load_ph l))
    (λ ph' _ tr, (ph' = ph ∧ pending_ok ins outs given ph) ∧ (i, Claimed l ph) ∈ tr).
Proof.
  apply triple_atomic; [auto with neth |]. intros w tr HI Hin.
  destruct (hs_claimed _ _ _ _ _ (inv_handshakes _ _ _ _ _ _ HI) _ _ _ Hin) as (Hl & _). unfold load_ph. rewrite Hl. cbn.
  split_and!; [by apply mono_hosts | done | done | by eapply (hs_pending _ _ _ _ _ (inv_handshakes _ _ _ _ _ _ HI)) | done].
Qed.

Lemma HandleStage1_go_ok i e pkt : fallible i (HandleStage1_go e pkt).
Proof.
  unfold HandleStage1_go. case_decide; [by apply triple_fail |].
  apply triple_bind_lift; [apply go_wrap_returns, Parse_safe | done | intros hdr _].
  eapply triple_bind; [apply claim_ok |]. intros [[l ph]|]; [| by apply triple_fail].
  set (C := λ (_ : World Daemon) (tr : trace), (i, Claimed l ph) ∈ tr).
  assert (HC : fact C) by apply fact_event.
  apply triple_pre with C; [| intros w tr Hw; by apply Hw].
  eapply (triple_bind _ _ _ _ _ _ (λ _, C)).
  { eapply triple_post; [apply (section_ok i C get_mgr (λ _, anything)); [done |] | by intros m w tr [? _]].
    intros w tr HI _. split_and!; [by apply mono_hosts | done | done]. }
  intros m. apply triple_bind_lift; [apply authenticate_returns | done | intros [[msg details] cert] _].
  eapply triple_bind; [apply load_ph_ok |]. intros ph'. apply triple_pure. intros [-> [Ha _ Hq]].
  pose proof (ret_initiator_last (phState ph) (mNoisePayload msg) Ha) as Hfin.
  destruct (ReadMessage (mNoisePayload msg) (phState ph)) as [hs res]. cbn [snd] in Hfin.
  destruct res as [[x cs]| |]; [| by apply triple_fail | done]. apply triple_bind_lift; [done | done | intros ? [= <-]].
  apply triple_bind_lift; [by apply ciphers_return | done | intros [sc rc] _].
  eapply triple_bind; [apply load_ph_ok |]. intros ph'. apply triple_pure. intros [-> _].
  apply triple_pre with anything; [| done]. by apply triple_errors, onHandshakeComplete_go_ok.
Qed.

(** ** The other packets *)

Context (ord : gmap Addr (list UDPAddr) → list (Addr * list UDPAddr)).
Context (pord : gmap Addr nat → list (Addr * nat)).
Context (pord_perm : ∀ m, pord m ≡ₚ map_to_list m).

(** The session a packet names, if any. *)
Lemma named_session_ok {A} i idx (k : option (nat * HostInfo) → T A) Q :
  (∀ host, triple False i anything (k host) Q) →
  triple False i anything (let@ l := view (λ d, GetByIndex idx (ifHostMap d)) in let@ host := lookup_host_go l in k host) Q.
Proof.
  intros Hk. eapply triple_bind; [apply (view_ok i anything _ (λ o w tr, ∀ l, o = Some l → alive l w tr)); [auto with neth |] |].
  { intros w tr HI _ l Hl. by eapply by_index_alive. }
  intros o. eapply triple_bind; [by apply lookup_go_ok |]. intros host. eapply triple_pre; [apply Hk | done].
Qed.

Lemma handleLightHouse_go_ok i e pkt hdr from : harmless i (handleLightHouse_go ord e pkt hdr from).
Proof.
  apply named_session_ok. intros host. eapply (triple_bind _ _ _ _ _ _ (λ _, anything)).
  { destruct host as [[l h]|]; [by apply triple_ret |].
    eapply triple_post; [apply (view_ok i anything _ (λ _, anything)); auto with neth | done]. }
  intros [ip|]; [| auto with neth]. destruct (unmarshal_lighthouse _) as [msg| |] eqn:Hm;
    [apply HandleMessage_go_ok | auto with neth | by apply ret_unmarshal_lighthouse in Hm].
Qed.

Lemma handleCloseTunnel_go_ok i hdr : harmless i (handleCloseTunnel_go hdr).
Proof.
  apply named_session_ok. intros [[l h]|]; [| auto with neth]. apply harmless_section. intros w tr HI.
  erewrite gbind_ok by reflexivity.
  destruct (Remove_ok _ (VpnIP h) _ (ses_map _ _ _ (inv_sessions _ _ _ _ _ _ HI))) as (m' & -> & Hm & _).
  erewrite gbind_ok by reflexivity. split_and!; [by apply mono_hosts | by apply Inv_hostmap | done].
Qed.

Lemma consumeOutsidePacket_go_ok i e pkt from :
  bytes_ok pkt → arrived pkt → harmless i (consumeOutsidePacket_go ord e pkt from).
Proof.
  intros Hb Harr. unfold consumeOutsidePacket_go. case_decide; [auto with neth |].
  destruct (Parse pkt) as [hdr| |] eqn:Hp; [| auto with neth | by apply Parse_safe in Hp].
  destruct (Z.eqb_spec (hType hdr) TypeMessage); [by apply handleMessage_go_ok |].
  destruct (_ =? _).
  { unfold handleHandshake_go. destruct (_ =? _); [eapply triple_ignore, HandleStage0_go_ok |].
    destruct (_ =? _); [eapply triple_ignore, HandleStage1_go_ok | auto with neth]. }
  destruct (_ =? _); [apply handleLightHouse_go_ok |].
  destruct (_ =? _); [apply write_ok; [auto with neth | apply control_test] |].
  destruct (_ =? _); [apply handleCloseTunnel_go_ok | auto with neth].
Qed.

(** What arrives from the socket are bytes. *)
Definition action_ok (a : action) : Prop :=
  match a with ActOutside _ pkt _ => bytes_ok pkt | _ => True end.

Definition action_arrives (a : action) : Prop :=
  match a with ActInside _ pkt => given pkt | ActOutside _ pkt _ => arrived pkt | _ => True end.

Lemma exec_go_ok i a : action_ok a → action_arrives a → harmless i (exec_go ord pord a).
Proof.
  destruct a as [e pkt | e pkt from | e now | e | now]; intros Ha Harr; cbn [exec_go].
  - by apply consumeInsidePacket_go_ok.
  - by apply consumeOutsidePacket_go_ok.
  - apply harmless_section. intros w tr HI. rewrite (gbind_ok get_mgr _ w w (mgr w)) by done.
    destruct (retryPending_inv ins outs given arrived w tr e (pord (pending (mgr w))) now (pord_perm _) HI) as (H1 & H2 & H3).
    split_and!; [by apply mono_hosts; rewrite H3 | done | done].
  - apply Advertise_go_ok.
  - apply harmless_section. intros w tr HI. split_and!; [by apply mono_hosts | | done].
    apply Inv_fw; [| done]. apply (fw_step_inv ins outs (ifFw (rest w)) (EvExpire _ _ _ now)), HI.
Qed.

(** ** Whole executions *)

Lemma Run_go_inv gs w p :
  Forall (Forall action_ok) gs → Forall (Forall action_arrives) gs → Inv w [] →
  rtc pool_step (Run_go ord pord gs w) p → pool_safe Inv mono p.
Proof.
  intros Hok Harr HI Hrun. eapply pool_safe_steps; [exact _ | by intros ? ? ? ? ? ? | exact Hrun |]. apply pool_safe_init; [done |].
  intros i t (g & -> & Hg)%list_elem_of_fmap. apply triple_for. intros a Ha. rewrite Forall_forall in Hok, Harr.
  specialize (Hok _ Hg). specialize (Harr _ Hg). rewrite Forall_forall in Hok, Harr. by apply exec_go_ok; [apply Hok | apply Harr].
Qed.

End Guarantee.

(** ** Starting states *)

Section Executions.

Context {crypto : CryptoLib} {noise : NoiseLib} {proto : ProtoLib} {certlib : CertLib}.

(** The state in which the goroutines start: no handshake is pending, the table of
    the firewall is empty, nothing was sent, and sessions, if there are any, have
    not been used. *)
Record starting (ins outs : list Rule) (w : World Daemon) : Prop := {
  start_phs : phs (mgr w) = ∅;
  start_pending : pending (mgr w) = ∅;
  start_index : indexMap (mgr w) = ∅;
  start_out : out w = [];
  start_fw : ifFw (rest w) = New ins outs;
  start_map : HostMap_ok (ifHosts (rest w)) (ifHostMap (rest w));
  start_sessions l h : ifHosts (rest w) !! l = Some h → Counter h = 0 ∧ hWindow h = newWindow;
}.

Lemma starting_inv ins outs given arrived w : starting ins outs w → Inv ins outs given arrived w [].
Proof.
  intros [H1 H2 H3 H4 H5 H6 H7]. split.
  - split; [done | | | intros l; apply NoDup_nil_2 | done]; intros l h Hl; destruct (H7 _ _ Hl) as [Hc Hw].
    + by rewrite Hc.
    + rewrite Hw. apply newWindow_represents.
  - split; rewrite ?H1, ?H2, ?H3; intros ? ? Hl; by rewrite lookup_empty in Hl.
  - split; [| by intros ? ? ? ?%elem_of_nil | apply NoDup_nil_2]. rewrite H1. intros l ph Hl. by rewrite lookup_empty in Hl.
  - rewrite H4. split; [done | | | | apply NoDup_nil_2]; intros *; by intros ?%elem_of_nil.
  - rewrite H5. split_and!; [done | done |]. intros k t Hk. cbn in Hk. unfold newConntrack in Hk. by rewrite lookup_empty in Hk.
Qed.

(** What [NewInterface] builds. *)
Lemma initial_starting cert key pool ins outs lh py certs :
  starting ins outs (mkWorld (NewHandshakeManager cert key pool) [] (initial_daemon (New ins outs) lh py certs)).
Proof. by split. Qed.

(** Any number of goroutines, any inputs, any scheduling. *)
Definition execution (ord : gmap Addr (list UDPAddr) → list (Addr * list UDPAddr))
    (pord : gmap Addr nat → list (Addr * nat)) (gs : list (list action)) (w : World Daemon)
    (p : Pool (S := World Daemon) (E := event)) : Prop :=
  (∀ m, pord m ≡ₚ map_to_list m) ∧ Forall (Forall action_ok) gs ∧ rtc pool_step (Run_go ord pord gs w) p.

(** The packets and the datagrams among the inputs. *)
Definition reads (gs : list (list action)) (p : bytes) : Prop := ∃ g e, g ∈ gs ∧ ActInside e p ∈ g.
Definition arrives (gs : list (list action)) (d : bytes) : Prop := ∃ g e from, g ∈ gs ∧ ActOutside e d from ∈ g.

Lemma execution_safe {returns : LibReturns} ord pord ins outs gs w p :
  starting ins outs w → execution ord pord gs w p → pool_safe (Inv ins outs (reads gs) (arrives gs)) mono p.
Proof.
  intros Hw (H1 & H2 & H3). eapply Run_go_inv; [done | done | | by apply starting_inv | done].
  apply Forall_forall. intros g Hg. apply Forall_forall. intros [e pkt | e d from | | |] Ha; try done; [by exists g, e | by exists g, e, from].
Qed.

Lemma execution_inv {returns : LibReturns} ord pord ins outs gs w p :
  starting ins outs w → execution ord pord gs w p → Inv ins outs (reads gs) (arrives gs) (shared p) (history p).
Proof. intros Hw Hp. by apply (execution_safe _ _ _ _ _ _ _ Hw Hp). Qed.

(** Fewer than 2^64 counters do not wrap around. *)
Lemma sealed_distinct s m tr l :
  sessions s m tr → Z.of_nat (length (sealed l tr)) < 2 ^ 64 → NoDup (map CounterNonce (sealed l tr)).
Proof.
  intros Hs Hlen. destruct (s !! l) as [h|] eqn:Hl; [| rewrite (proj1 (ses_free _ _ _ Hs _ Hl)); apply NoDup_nil_2].
  destruct (ses_counter _ _ _ Hs _ _ Hl) as [Heq _]. rewrite Heq.
  replace (map u64 (seqZ 1 (Z.of_nat (length (sealed l tr))))) with (seqZ 1 (Z.of_nat (length (sealed l tr)))).
  - change (map CounterNonce) with (fmap (M := list) CounterNonce). apply NoDup_fmap_2_strong; [| apply NoDup_seqZ].
    intros x y [Hx1 Hx2]%elem_of_seqZ [Hy1 Hy2]%elem_of_seqZ. apply CounterNonce_inj; unfold in_u; lia.
  - symmetry. rewrite <- (list_fmap_id (seqZ 1 _)) at 2. apply list_fmap_ext. intros k x Hk.
    apply list_elem_of_lookup_2, elem_of_seqZ in Hk. unfold id. apply wrap_small. unfold in_u. lia.
Qed.

End Executions.

(** ** Properties *)

(** C3. Concurrency: however the scheduler interleaves any number of goroutines
    handling packets, retries, advertisements and expiry, down to the single
    critical section, no goroutine ever panics or stops early, and at every moment
    the handshake tables and the session registry are well-formed and every replay
    window represents the counters accepted so far. *)
Theorem concurrent_daemon_safe {crypto : CryptoLib} {noise : NoiseLib} {proto : ProtoLib} {certlib : CertLib}
    {returns : LibReturns} ord pord ins outs gs w p :
  starting ins outs w → execution ord pord gs w p →
  (∀ i r, threads p !! i = Some (Done r) → r = Ok tt) ∧ Manager_ok (mgr (shared p)) ∧ Daemon_ok (rest (shared p)) ∧
  ∀ l h, ifHosts (rest (shared p)) !! l = Some h → represents (rev (accepted l (history p))) (hWindow h).
Proof.
  intros Hw Hp. destruct (execution_safe _ _ _ _ _ _ _ Hw Hp) as [HI Hts].
  pose proof (inv_sessions _ _ _ _ _ _ HI) as Hs. split_and!; [| apply HI | |].
  - intros i r Hi. by destruct (Hts i _ Hi) as [[] ->].
  - split; [apply Hs |]. intros l h Hl. eexists. by apply (ses_window _ _ _ Hs).
  - apply (ses_window _ _ _ Hs).
Qed.

(** C14. Nonces under concurrency: whatever goroutines send at the same time, every
    data packet on the wire was sealed under a counter drawn for it, for a packet
    read from the TUN device whose flow some firewall rule admits; and as long as a session draws
    fewer than 2^64 counters, no two packets are sealed under the same nonce. *)
Theorem concurrent_nonces {crypto : CryptoLib} {noise : NoiseLib} {proto : ProtoLib} {certlib : CertLib}
    {returns : LibReturns} ord pord ins outs gs w p :
  starting ins outs w → execution ord pord gs w p →
  (∀ d a, UDPSend d a ∈ out (shared p) → control d ∨
     ∃ i l h c pkt, (i, Sealed l c pkt) ∈ history p ∧ ifHosts (rest (shared p)) !! l = Some h ∧
       d = message_wire h c pkt ∧ a = Remote h) ∧
  (∀ i l c pkt, (i, Sealed l c pkt) ∈ history p → reads gs pkt ∧ admitted ins outs dstIPFromIPv4 pkt) ∧
  ∀ l, Z.of_nat (length (sealed l (history p))) < 2 ^ 64 → NoDup (map CounterNonce (sealed l (history p))).
Proof.
  intros Hw Hp. pose proof (execution_inv _ _ _ _ _ _ _ Hw Hp) as HI. pose proof (inv_outputs _ _ _ _ _ _ HI) as Ho.
  split_and!; [apply Ho | apply Ho |]. intros l. by eapply sealed_distinct, HI.
Qed.

(** C8. At most once under concurrency: the packets written to the TUN device are,
    in order, those of the deliveries; no counter of a session is delivered twice,
    even if copies of a datagram are handled at the same time; and each delivered
    packet is what a datagram that arrived with that counter decrypts to under the
    session's key, its counter was accepted by the window just for this delivery, and some
    firewall rule admits its flow. *)
Theorem concurrent_delivery {crypto : CryptoLib} {noise : NoiseLib} {proto : ProtoLib} {certlib : CertLib}
    {returns : LibReturns} ord pord ins outs gs w p :
  starting ins outs w → execution ord pord gs w p →
  tun_writes (out (shared p)) = delivered_packets (history p) ∧ NoDup (delivered (history p)) ∧
  ∀ i l c pkt, (i, Delivered l c pkt) ∈ history p →
    (i, Accepted l c) ∈ history p ∧ received (arrives gs) (ifHosts (rest (shared p))) l c pkt ∧ admitted ins outs srcIPFromIPv4 pkt.
Proof.
  intros Hw Hp. pose proof (inv_outputs _ _ _ _ _ _ (execution_inv _ _ _ _ _ _ _ Hw Hp)) as Ho.
  split_and!; [apply Ho | apply Ho |]. intros i l c pkt. apply Ho.
Qed.

(** C15. The pending object a handshake response works on without the lock is its
    own: every object is claimed at most once, also when copies of the response
    arrive at the same time, and from then on it is in neither table and no
    other goroutine changes what it holds (the claimant reads its Noise state once
    and does not store the advanced state back). *)
Theorem concurrent_claims {crypto : CryptoLib} {noise : NoiseLib} {proto : ProtoLib} {certlib : CertLib}
    {returns : LibReturns} ord pord ins outs gs w p :
  starting ins outs w → execution ord pord gs w p →
  NoDup (claims (history p)) ∧
  ∀ i l ph, (i, Claimed l ph) ∈ history p →
    phs (mgr (shared p)) !! l = Some ph ∧
    (∀ ip, pending (mgr (shared p)) !! ip ≠ Some l) ∧ (∀ j, indexMap (mgr (shared p)) !! j ≠ Some l).
Proof.
  intros Hw Hp. pose proof (inv_handshakes _ _ _ _ _ _ (execution_inv _ _ _ _ _ _ _ Hw Hp)) as Hh.
  split; [apply Hh |]. intros i l ph. apply Hh.
Qed.
