(* ===== verification/Locks.v ===== *)
(** * The handlers with their mutexes

    The handlers of [Threads] with every call of [Lock], [Unlock], [RLock] and
    [RUnlock] the Go code makes, deferred or not, as steps of their own: a goroutine
    may wait for a mutex, and may hold it for ever.  Without these calls they are
    the handlers of [Threads]; they hold one mutex at a time, release it on every
    path, and change what a mutex guards only while they hold it. *)

From S2P Require Import Prelude Bytes Header Net Replay GoText Config Firewall Messages External Cert.
From S2P Require Import NoiseUtil HostMap Handshake HandshakeManager Punchy LightHouse Ipv4 Interface DataPlane.
From S2P Require Import Startup Loops Goroutine Mutex Threads Concurrent Guarantee.

(** The mutexes of the daemon: [HostMap.mu], [HandshakeManager.mu], [LightHouse.mu],
    [conntrack.mu], [Interface.peerCertsMu], and the [windowMu] of each session. *)
Inductive mutex :=
| HostMapMu
| ManagerMu
| LightHouseMu
| ConntrackMu
| PeerCertsMu
| WindowMu (l : nat).

#[global] Instance mutex_eq_dec : EqDecision mutex.
Proof. solve_decision. Defined.

Create HintDb locks.

Section Locks.

Context {crypto : CryptoLib} {noise : NoiseLib} {proto : ProtoLib} {certlib : CertLib}.

Abbreviation L := (lthread (World Daemon) event mutex).

Definition lview {A} (f : Daemon → A) : L A := latomic (λ w, (w, Ok (f (rest w)))).

(** [mu.Lock(); defer mu.Unlock()] and [mu.RLock(); defer mu.RUnlock()]. *)
Definition locked {A} (mu : mutex) (t : L A) : L A := deferred (Lock mu) (Unlock mu) t.
Definition rlocked {A} (mu : mutex) (t : L A) : L A := deferred (RLock mu) (RUnlock mu) t.

(** ** hostmap.go *)

Definition hm_Add (l : nat) : L unit :=
  locked HostMapMu (latomic (let! d := get_daemon in let! hm := glift (Add (ifHosts d) l (ifHostMap d)) in set_hostmap hm)).

Definition hm_GetByVpnIP (ip : Addr) : L (option nat) :=
  rlocked HostMapMu (lview (λ d, GetByVpnIP ip (ifHostMap d))).

Definition hm_GetByIndex (i : Z) : L (option nat) :=
  rlocked HostMapMu (lview (λ d, GetByIndex i (ifHostMap d))).

Definition hm_Remove (ip : Addr) : L unit :=
  locked HostMapMu (latomic (let! d := get_daemon in
                             let! hm := glift (Remove (ifHosts d) ip (ifHostMap d)) in set_hostmap hm)).

Definition hi_CheckReplay (l : nat) (c : Z) : L bool :=
  locked (WindowMu l) (latomic_ev (on_hosts (host_CheckReplay l c))
                         (λ replayed, if (replayed : bool) then [] else [Accepted l c])).

(** ** firewall/conntrack.go *)

Definition ct_Track (now : Z) (k : connKey) : L unit :=
  locked ConntrackMu (latomic (on_fw (λ f, (mkFirewall (inbound f) (outbound f) (Track now k (ct f)), tt)))).

Definition ct_IsEstablished (k : connKey) : L bool :=
  rlocked ConntrackMu (lview (λ d, IsEstablished k (ct (ifFw d)))).

Definition ct_Expire (now : Z) : L unit :=
  locked ConntrackMu (latomic (λ w, (with_fw (expiry_tick now (ifFw (rest w))) w, Ok tt))).

(** ** firewall/firewall.go *)

Fixpoint fw_scan (rules : list Rule) (ip : Addr) (groups : list bytes) (port proto now : Z) : L bool :=
  match rules with
  | [] => lret false
  | r :: rules' =>
      if matches r ip groups port proto then do# ct_Track now (flow_key ip port proto) in lret true
      else fw_scan rules' ip groups port proto now
  end.

Definition fw_Allow (rules : Firewall → list Rule) (ip : Addr) (groups : list bytes) (port proto now : Z) : L bool :=
  let# established := ct_IsEstablished (flow_key ip port proto) in
  if (established : bool) then lret true
  else let# rs := lview (λ d, rules (ifFw d)) in fw_scan rs ip groups port proto now.

(** ** interface.go: peer certificates and sending *)

Definition if_getPeerCert (ip : Addr) : L (option Certificate) := rlocked PeerCertsMu (lview (getPeerCert ip)).

(** The assignment in [onHandshakeComplete], not deferred. *)
Definition if_AddPeerCert (ip : Addr) (c : Certificate) : L unit :=
  between (Lock PeerCertsMu) (Unlock PeerCertsMu) (latomic (AddPeerCert ip c)).

Definition if_lookup (o : option nat) : L (option (nat * HostInfo)) :=
  match o with
  | None => lret None
  | Some l => let# h := latomic (load_host l) in lret (Some (l, h))
  end.

Definition if_WriteTo (e : Env) (data : bytes) (to : UDPAddr) : L unit := latomic (WriteTo e data to).

(** The packet counter is atomic and needs no mutex. *)
Definition if_sendToRemote (e : Env) (l : nat) (plaintext : bytes) : L unit :=
  let# counter := latomic_ev (on_hosts (host_NextCounter l)) (λ c, [Sealed l c plaintext]) in
  let# host := latomic (load_host l) in
  let hdrBytes := Bytes (mkHeader Version TypeMessage 0 (RemoteIndex host) counter) in
  match Encrypt (SendCipher host) counter hdrBytes plaintext with
  | Ok ct => lignore (if_WriteTo e (hdrBytes ++ ct) (Remote host))
  | Fail _ => lret tt
  | Panic => lpanic
  end.

Definition if_onHandshakeComplete (e : Env) (h : HostInfo) (pending : list bytes) : L unit :=
  let# l := latomic (alloc_host h) in
  do# hm_Add l in
  do# (match hCert h with Some c => if_AddPeerCert (VpnIP h) c | None => lret tt end) in
  lfor pending (λ pkt, if_sendToRemote e l pkt).

(** ** lighthouse.go *)

Definition lh_GetAddrs (ip : Addr) : L (list UDPAddr) :=
  rlocked LightHouseMu (lview (λ d, GetAddrs ip (ifLighthouse d))).

(** [lh.mu.RLock(); stored := lh.addrStore[ip]; ...; lh.mu.RUnlock()] *)
Definition lh_stored (ip : Addr) : L (list UDPAddr) :=
  between (RLock LightHouseMu) (RUnlock LightHouseMu) (lview (λ d, stored (ifLighthouse d) ip)).

(** [lh.mu.Lock(); lh.addrStore[ip] = addrs; lh.mu.Unlock()] *)
Definition lh_store (ip : Addr) (addrs : list UDPAddr) : L unit :=
  between (Lock LightHouseMu) (Unlock LightHouseMu) (latomic (store_addrs ip addrs)).

Definition lh_send (e : Env) (msg : LightHouseMessage) (toVpnIP : Addr) : L unit :=
  let# physAddrs := lh_stored toVpnIP in
  match marshalLightHousePacket msg with
  | Ok wire => lfor physAddrs (λ a, lignore (if_WriteTo e wire a))
  | Fail _ => lret tt
  | Panic => lpanic
  end.

Definition py_Punch (e : Env) (p : Punchy) (remotes : list UDPAddr) : L unit :=
  if punch p then lfor remotes (λ a, lignore (if_WriteTo e [] a)) else lret tt.

Definition py_RespondToPunch (e : Env) (p : Punchy) (from : UDPAddr) : L unit :=
  if respond p then lignore (if_WriteTo e [] from) else lret tt.

(** The mutex is released before [send] asks for it again. *)
Definition lh_handleQuery (e : Env) (q : HostQuery) (replyTo : Addr) : L unit :=
  match ParseAddr (qVpnIp q) with
  | Ok queried =>
      let# addrs := lh_stored queried in
      lh_send e {| lhBody := Some (LH_QueryReply {| rVpnIp := qVpnIp q;
                     rAddrs := udpAddrsToIpPorts addrs |}) |} replyTo
  | Fail _ => lret tt
  | Panic => lpanic
  end.

Definition lh_handleQueryReply (r : HostQueryReply) : L unit :=
  match ParseAddr (rVpnIp r) with
  | Ok vpnIP => lh_store vpnIP (ipPortsToUDPAddrs (rAddrs r))
  | Fail _ => lret tt
  | Panic => lpanic
  end.

Definition lh_handleUpdate (u : HostUpdateNotification) (from : Addr) : L unit :=
  let# am := lview (λ d, amLighthouse (ifLighthouse d)) in
  if negb am then lret tt else lh_store from (ipPortsToUDPAddrs (uAddrs u)).

Definition lh_handleWhoAmI (e : Env) (from : Addr) : L unit :=
  let# addrs := lh_stored from in
  let ipPort := match addrs with [] => None | a :: _ => Some (udpAddrToIpPort a) end in
  lh_send e {| lhBody := Some (LH_WhoAmIReply {| wAddr := ipPort |}) |} from.

Definition lh_handleWhoAmIReply (r : WhoAmIReply) : L unit :=
  match wAddr r with
  | None => lret tt
  | Some p =>
      match ipPortToUDPAddr p with
      | Ok addr =>
          between (Lock LightHouseMu) (Unlock LightHouseMu)
            (latomic (let! lh := get_lh in set_lh (set_myAddrs (addr :: myAddrs lh) lh)))
      | Fail _ => lret tt
      | Panic => lpanic
      end
  end.

Definition lh_handlePunch (e : Env) (p : HostPunchNotification) : L unit :=
  let# py := lview (λ d, lhPunchy (ifLighthouse d)) in
  match py with
  | None => lret tt
  | Some py => py_Punch e py (ipPortsToUDPAddrs (pAddrs p))
  end.

Definition lh_HandleMessage (e : Env) (msg : LightHouseMessage) (from : Addr) : L unit :=
  match GetQuery msg with Some q => lh_handleQuery e q from | None =>
  match GetQueryReply msg with Some r => lh_handleQueryReply r | None =>
  match GetUpdate msg with Some u => lh_handleUpdate u from | None =>
  match GetWhoAmI msg with Some _ => lh_handleWhoAmI e from | None =>
  match GetWhoAmIReply msg with Some r => lh_handleWhoAmIReply r | None =>
  match GetPunch msg with Some p => lh_handlePunch e p | None => lret tt
  end end end end end end.

Definition lh_QueryPeer (e : Env) (vpnIP : Addr) : L unit :=
  let# lhs := lview (λ d, lighthouses (ifLighthouse d)) in
  lfor lhs (λ lhIP, lh_send e {| lhBody := Some (LH_Query {| qVpnIp := Addr_String vpnIP |}) |} lhIP).

Definition lh_Advertise (e : Env) : L unit :=
  let# addrs := between (RLock LightHouseMu) (RUnlock LightHouseMu) (lview (λ d, myAddrs (ifLighthouse d))) in
  let# lhs := lview (λ d, lighthouses (ifLighthouse d)) in
  lfor lhs (λ lhIP, lh_send e {| lhBody := Some (LH_Update {| uAddrs := udpAddrsToIpPorts addrs |}) |} lhIP).

(** ** handshake_manager.go *)

(** The mutex of the manager is held while [conn.WriteTo] sends the message. *)
Definition hs_StartHandshake (e : Env) (ip : Addr) (addr : UDPAddr) (c : Certificate) : L unit :=
  locked ManagerMu (latomic (StartHandshake e ip addr c)).

Definition hs_QueuePacket (ip : Addr) (pkt : bytes) : L unit := locked ManagerMu (latomic (QueuePacket ip pkt)).

Definition hs_retryPending (pord : gmap Addr nat → list (Addr * nat)) (e : Env) (now : Z) : L unit :=
  locked ManagerMu (latomic (let! m := get_mgr in retryPending e (pord (pending m)) now)).

Definition hs_HandleStage0 (e : Env) (pkt : bytes) (from : UDPAddr) : L unit :=
  let# m := latomic get_mgr in
  if decide (length pkt < HeaderLen)%nat then lfail (Errorf "handshake: stage0 packet too short")
  else
    let# _ := llift (go_wrap "handshake: parse header" (Parse pkt)) in
    let# (msg, details, senderCert) :=
      llift (authenticate e m "handshake: parse sender cert" (drop HeaderLen pkt)) in
    let psk := DerivePreSharedKey (localCert m) senderCert in
    let# respHS := llift (NewResponderState (localKey m) psk) in
    let '(respHS, res) := ReadMessage (mNoisePayload msg) respHS in
    let# _ := llift (go_wrap "handshake: noise read stage-0" res) in
    let# localIndex := llift (randomIndex e) in
    let '(respHS, res) := WriteMessage (entropy e) [] respHS in
    let# (noiseReply, cs) := llift (go_wrap "handshake: noise write stage-1" res) in
    let# respMsg := llift (BuildResponderMessage (localCert m) noiseReply
                      (dInitiatorIndex details) localIndex (nowBuild e)) in
    let# respBytes := llift (marshalHandshakePacket respMsg (dInitiatorIndex details) HandshakeResponse) in
    do# lwrap "handshake: send stage-1" (if_WriteTo e respBytes from) in
    let# (sendCipher, recvCipher) := llift (ciphersFromStates cs false) in
    if_onHandshakeComplete e
      {| VpnIP := pIP (cVpnIP senderCert); Remote := from; Index := localIndex;
         RemoteIndex := dInitiatorIndex details; SendCipher := sendCipher;
         RecvCipher := recvCipher; Counter := 0; hCert := Some senderCert;
         hWindow := newWindow |} [].

(** [m.mu.Unlock()] comes before the test of [ok] and before the callback, which
    locks the registry and writes to the socket. *)
Definition hs_HandleStage1 (e : Env) (pkt : bytes) : L unit :=
  if decide (length pkt < HeaderLen)%nat then lfail (Errorf "handshake: stage1 packet too short")
  else
    let# h := llift (go_wrap "handshake: parse header" (Parse pkt)) in
    let# found := between (Lock ManagerMu) (Unlock ManagerMu)
                    (latomic_ev (claim (hRemoteIndex h))
                       (λ o, match o with Some (l, ph) => [Claimed l ph] | None => [] end)) in
    match found with
    | None => lfail (Errorf "handshake: unknown RemoteIndex")
    | Some (l, _) =>
        let# m := latomic get_mgr in
        let# (msg, details, responderCert) :=
          llift (authenticate e m "handshake: parse responder cert" (drop HeaderLen pkt)) in
        let# ph := latomic (load_ph l) in
        let '(_, res) := ReadMessage (mNoisePayload msg) (phState ph) in
        let# (_, cs) := llift (go_wrap "handshake: noise read stage-1" res) in
        let# (sendCipher, recvCipher) := llift (ciphersFromStates cs true) in
        let# ph := latomic (load_ph l) in
        if_onHandshakeComplete e
          {| VpnIP := phRemoteVpnIP ph; Remote := phRemoteAddr ph;
             Index := phLocalIndex ph; RemoteIndex := dResponderIndex details;
             SendCipher := sendCipher; RecvCipher := recvCipher; Counter := 0;
             hCert := Some responderCert; hWindow := newWindow |} (phPackets ph)
    end.

(** ** interface.go: packets *)

Definition if_consumeInsidePacket (e : Env) (pkt : bytes) : L unit :=
  let# dst := llift (dstIPFromIPv4 pkt) in
  match dst with
  | None => lret tt
  | Some dstIP =>
      let# l := hm_GetByVpnIP dstIP in
      let# host := if_lookup l in
      let dstGroups := host_groups (snd <$> host) in
      let# proto := llift (protoFromIPv4 pkt) in
      let# dstPort := llift (dstPortFromIPv4 pkt) in
      let# allowed := fw_Allow outbound dstIP dstGroups dstPort proto (nowTrack e) in
      if negb allowed then lret tt
      else
        match host with
        | Some (l, _) => if_sendToRemote e l pkt
        | None =>
            let# remoteCert := if_getPeerCert dstIP in
            match remoteCert with
            | None => hs_QueuePacket dstIP pkt
            | Some remoteCert =>
                let# remoteAddrs := lh_GetAddrs dstIP in
                match remoteAddrs with
                | [] =>
                    do# lh_QueryPeer e dstIP in
                    hs_QueuePacket dstIP pkt
                | addr :: _ =>
                    lcatch (hs_StartHandshake e dstIP addr remoteCert) (λ r,
                      match r with
                      | Ok _ => hs_QueuePacket dstIP pkt
                      | Fail _ => lret tt
                      | Panic => lpanic
                      end)
                end
            end
        end
  end.

Definition if_handleMessage (e : Env) (pkt : bytes) (hdr : Header) (from : UDPAddr) : L unit :=
  let# host := hm_GetByIndex (hRemoteIndex hdr) in
  match host with
  | None =>
      let# py := lview ifPunchy in
      match py with
      | Some p => py_RespondToPunch e p from
      | None => lret tt
      end
  | Some l =>
      let c := hMessageCounter hdr in
      let# replayed := hi_CheckReplay l c in
      if (replayed : bool) then lret tt
      else
        let# host := latomic (load_host l) in
        match Decrypt (RecvCipher host) c (take HeaderLen pkt) (drop HeaderLen pkt) with
        | Fail _ => lret tt
        | Panic => lpanic
        | Ok plaintext =>
            let# src := llift (srcIPFromIPv4 plaintext) in
            match src with
            | None => lret tt
            | Some srcIP =>
                let srcGroups := host_groups (Some host) in
                let# inProto := llift (protoFromIPv4 plaintext) in
                let# dstPort := llift (dstPortFromIPv4 plaintext) in
                let# allowed := fw_Allow inbound srcIP srcGroups dstPort inProto (nowTrack e) in
                if negb allowed then lret tt
                else LAct unit (tunWrite e plaintext) (λ _, [Delivered l c plaintext])
                       (λ r, match r with Panic => LDone Panic | _ => lret tt end)
            end
        end
  end.

Definition if_handleHandshake (e : Env) (pkt : bytes) (hdr : Header) (from : UDPAddr) : L unit :=
  if hSubType hdr =? HandshakeInitiation then lignore (hs_HandleStage0 e pkt from)
  else if hSubType hdr =? HandshakeResponse then lignore (hs_HandleStage1 e pkt)
  else lret tt.

Context (ord : gmap Addr (list UDPAddr) → list (Addr * list UDPAddr)).
Context (pord : gmap Addr nat → list (Addr * nat)).

Definition lh_VpnIPByAddr (from : UDPAddr) : L (option Addr) :=
  rlocked LightHouseMu (lview (λ d, VpnIPByAddr (ord (addrStore (ifLighthouse d))) from)).

Definition if_handleLightHouse (e : Env) (pkt : bytes) (hdr : Header) (from : UDPAddr) : L unit :=
  let# l := hm_GetByIndex (hRemoteIndex hdr) in
  let# host := if_lookup l in
  let# sender := (match host with
                  | Some (_, h) => lret (Some (VpnIP h))
                  | None => lh_VpnIPByAddr from
                  end) in
  match sender with
  | None => lret tt
  | Some senderVPN =>
      match unmarshal_lighthouse (drop HeaderLen pkt) with
      | Ok msg => lh_HandleMessage e msg senderVPN
      | Fail _ => lret tt
      | Panic => lpanic
      end
  end.

Definition if_handleTest (e : Env) (from : UDPAddr) : L unit :=
  lignore (if_WriteTo e (Bytes (mkHeader Version TypeTest 0 0 0)) from).

Definition if_handleCloseTunnel (hdr : Header) : L unit :=
  let# l := hm_GetByIndex (hRemoteIndex hdr) in
  let# host := if_lookup l in
  match host with
  | None => lret tt
  | Some (_, h) => hm_Remove (VpnIP h)
  end.

Definition if_consumeOutsidePacket (e : Env) (pkt : bytes) (from : UDPAddr) : L unit :=
  if decide (length pkt < HeaderLen)%nat then lret tt
  else
    match Parse pkt with
    | Fail _ => lret tt
    | Panic => lpanic
    | Ok hdr =>
        if hType hdr =? TypeMessage then if_handleMessage e pkt hdr from
        else if hType hdr =? TypeHandshake then if_handleHandshake e pkt hdr from
        else if hType hdr =? TypeLightHouse then if_handleLightHouse e pkt hdr from
        else if hType hdr =? TypeTest then if_handleTest e from
        else if hType hdr =? TypeCloseTunnel then if_handleCloseTunnel hdr
        else lret tt
    end.

(** ** The goroutines of [Run] *)

Definition exec_mu (a : action) : L unit :=
  match a with
  | ActInside e pkt => if_consumeInsidePacket e pkt
  | ActOutside e pkt from => if_consumeOutsidePacket e pkt from
  | ActRetry e now => hs_retryPending pord e now
  | ActAdvertise e => lh_Advertise e
  | ActExpire now => ct_Expire now
  end.

Definition Run_mu (gs : list (list action)) (w : World Daemon) : LPool (S := World Daemon) (E := event) (Mu := mutex) :=
  mkLPool (map (λ g, lfor g exec_mu) gs) w [] (λ _, free_mutex).

(** ** What each mutex guards *)

Definition guarded (mu : mutex) (w w' : World Daemon) : Prop :=
  match mu with
  | HostMapMu => ifHostMap (rest w') = ifHostMap (rest w)
  | ManagerMu => mgr w' = mgr w
  | LightHouseMu => ifLighthouse (rest w') = ifLighthouse (rest w)
  | ConntrackMu => ct (ifFw (rest w')) = ct (ifFw (rest w))
  | PeerCertsMu => ifPeerCerts (rest w') = ifPeerCerts (rest w)
  | WindowMu l => ∀ h, ifHosts (rest w) !! l = Some h → ∃ h', ifHosts (rest w') !! l = Some h' ∧ hWindow h' = hWindow h
  end.

#[global] Instance guarded_refl mu : Reflexive (guarded mu).
Proof. intros w. destruct mu; cbn; eauto. Qed.

Abbreviation LockedAs := (locked_as (E := event) guarded).

(** Actions that change none of it, or only the daemon's part of it. *)
Lemma guarded_same mu w w' : mgr w' = mgr w → rest w' = rest w → guarded mu w w'.
Proof. intros H1 H2. destruct mu; cbn; rewrite ?H1, ?H2; eauto. Qed.

Lemma guarded_rest mu w w' : mu ≠ ManagerMu → rest w' = rest w → guarded mu w w'.
Proof. intros H1 H2. destruct mu; cbn; rewrite ?H2; eauto. done. Qed.


(** ** The actions under the manager's mutex leave the daemon's state alone *)

Abbreviation rest_kept d := (keeps (λ w : World Daemon, rest w = d)).

Lemma rest_get_mgr d : rest_kept d get_mgr.
Proof. by intros w. Qed.

Lemma rest_set_mgr d m : rest_kept d (set_mgr m).
Proof. by intros w. Qed.

Lemma rest_WriteTo d e data to : rest_kept d (WriteTo e data to).
Proof. by intros w. Qed.

Hint Resolve rest_get_mgr rest_set_mgr rest_WriteTo : neth.

Lemma manager_action {A} (act : M (World Daemon) A) mu w :
  (∀ d, rest_kept d act) → mu ≠ ManagerMu → guarded mu w (act w).1.
Proof. intros H Hne. apply guarded_rest; [done |]. by apply (H (rest w)). Qed.

Lemma rest_StartHandshake d e ip addr c : rest_kept d (StartHandshake e ip addr c).
Proof. unfold StartHandshake. keep_all. Qed.

Lemma rest_QueuePacket d ip pkt : rest_kept d (QueuePacket ip pkt).
Proof. unfold QueuePacket. keep_all. Qed.

Lemma rest_retryPending d e now : rest_kept d (let! m := get_mgr in retryPending e (pord (pending m)) now).
Proof. unfold retryPending, retryOne. keep_all. Qed.

Lemma rest_claim d idx : rest_kept d (claim idx).
Proof. unfold claim. keep_all. Qed.

(** ** Every operation locked_as its sections *)

Lemma imp_view {A} (f : Daemon → A) : LockedAs (lview f) (view f).
Proof. apply locked_as_free; [intros m w; apply guarded_refl | intros r; apply locked_as_lift]. Qed.

Lemma imp_rlocked {A} mu (f : Daemon → A) : LockedAs (rlocked mu (lview f)) (view f).
Proof. apply locked_as_rdeferred. intros m w. apply guarded_refl. Qed.

Lemma imp_rbetween {A} mu (f : Daemon → A) : LockedAs (between (RLock mu) (RUnlock mu) (lview f)) (view f).
Proof. apply locked_as_rbetween. intros m w. apply guarded_refl. Qed.

(** The rest of the state when a part of the daemon changes. *)
Lemma imp_hostmap (f : Daemon → go HostMap) :
  let act := let! d := get_daemon in let! hm := glift (f d) in set_hostmap hm in
  LockedAs (locked HostMapMu (latomic act)) (atomic act).
Proof.
  apply locked_as_deferred. intros m w Hne. unfold get_daemon, gbind, glift, set_hostmap.
  destruct (f (rest w)); try apply guarded_refl. destruct m; cbn; eauto. done.
Qed.

Lemma imp_CheckReplay l c (ev : bool → list event) :
  LockedAs (locked (WindowMu l) (latomic_ev (on_hosts (host_CheckReplay l c)) ev))
             (atomic_ev (on_hosts (host_CheckReplay l c)) ev).
Proof.
  apply locked_as_deferred. intros m w Hne. unfold on_hosts, host_CheckReplay.
  destruct (ifHosts (rest w) !! l) as [h|] eqn:Hl; [destruct (CheckReplay c (hWindow h)) as [win r] |];
    destruct m as [| | | | |l']; cbn; try done; [| by eauto].
  intros h' Hh'. exists h'. rewrite lookup_insert_ne by congruence. done.
Qed.

Lemma imp_NextCounter l (ev : Z → list event) :
  LockedAs (latomic_ev (on_hosts (host_NextCounter l)) ev) (atomic_ev (on_hosts (host_NextCounter l)) ev).
Proof.
  apply locked_as_free; [| intros r; apply locked_as_lift]. intros m w. unfold on_hosts, host_NextCounter.
  destruct (ifHosts (rest w) !! l) as [h|] eqn:Hl; destruct m as [| | | | |l']; cbn; try done; [| by eauto].
  intros h' Hh'. destruct (decide (l' = l)) as [->|Hne]; [| exists h'; by rewrite lookup_insert_ne by congruence].
  rewrite Hl in Hh'. injection Hh' as <-. eexists. by rewrite lookup_insert_eq.
Qed.

Lemma imp_alloc h : LockedAs (latomic (alloc_host h)) (atomic (alloc_host h)).
Proof.
  apply locked_as_free; [| intros r; apply locked_as_lift]. intros m w. destruct m as [| | | | |l']; cbn; try done.
  intros h' Hh'. exists h'. rewrite lookup_insert_ne; [done |]. intros <-. by rewrite fresh_loc_None in Hh'.
Qed.

Lemma imp_conntrack {A} (f : Firewall → Firewall * A) :
  LockedAs (locked ConntrackMu (latomic (on_fw f))) (atomic (on_fw f)).
Proof.
  apply locked_as_deferred. intros m w Hne. unfold on_fw. destruct (f _) as [fw r]. destruct m; cbn; eauto. done.
Qed.

Lemma imp_Expire now : LockedAs (ct_Expire now) (atomic (λ w, (with_fw (expiry_tick now (ifFw (rest w))) w, Ok tt))).
Proof. apply locked_as_deferred. intros m w Hne. destruct m; cbn; eauto. done. Qed.

Lemma imp_AddPeerCert ip c : LockedAs (if_AddPeerCert ip c) (atomic (AddPeerCert ip c)).
Proof. apply locked_as_between. intros m w Hne. destruct m; cbn; eauto. done. Qed.

Lemma imp_lighthouse (f : LightHouse → LightHouse) :
  let act := let! lh := get_lh in set_lh (f lh) in
  LockedAs (between (Lock LightHouseMu) (Unlock LightHouseMu) (latomic act)) (atomic act).
Proof. apply locked_as_between. intros m w Hne. destruct m; cbn; eauto. done. Qed.

Lemma imp_manager {A} (act : M (World Daemon) A) :
  (∀ d, rest_kept d act) → LockedAs (locked ManagerMu (latomic act)) (atomic act).
Proof. intros H. apply locked_as_deferred. intros m w. by apply manager_action. Qed.

Lemma imp_claim idx (ev : option (nat * pendingHandshake) → list event) :
  LockedAs (between (Lock ManagerMu) (Unlock ManagerMu) (latomic_ev (claim idx) ev)) (atomic_ev (claim idx) ev).
Proof. apply locked_as_between. intros m w. apply manager_action. intros d. apply rest_claim. Qed.

(** Reads and output. *)
Lemma imp_same {A B} (act : M (World Daemon) A) ev (lk : go A → L B) k :
  (∀ w, mgr (act w).1 = mgr w ∧ rest (act w).1 = rest w) → (∀ r, LockedAs (lk r) (k r)) →
  LockedAs (LAct A act ev lk) (Act A act ev k).
Proof. intros H. apply locked_as_free. intros m w. by apply guarded_same; apply H. Qed.

Lemma imp_same_atomic {A} (act : M (World Daemon) A) :
  (∀ w, mgr (act w).1 = mgr w ∧ rest (act w).1 = rest w) → LockedAs (latomic act) (atomic act).
Proof. intros H. apply imp_same; [done | intros r; apply locked_as_lift]. Qed.


(** One rule per construct; both sides branch on the same values. *)
Ltac lockstep :=
  repeat first
    [ progress intros
    | by auto with locks
    | apply locked_as_lift
    | apply locked_as_bind
    | apply locked_as_ignore
    | apply locked_as_wrap
    | apply locked_as_for
    | match goal with |- context [match ?x with _ => _ end] => destruct x end ].

Lemma imp_load_host l : LockedAs (latomic (load_host l)) (atomic (load_host l)).
Proof. by apply imp_same_atomic. Qed.

Lemma imp_load_ph l : LockedAs (latomic (load_ph l)) (atomic (load_ph l)).
Proof. by apply imp_same_atomic. Qed.

Lemma imp_get_mgr : LockedAs (latomic get_mgr) (atomic get_mgr).
Proof. by apply imp_same_atomic. Qed.

Lemma imp_WriteTo e data to : LockedAs (if_WriteTo e data to) (WriteTo_go e data to).
Proof. by apply imp_same_atomic. Qed.

Lemma imp_tunWrite e p ev :
  LockedAs (LAct unit (tunWrite e p) ev (λ r, match r with Panic => LDone Panic | _ => lret tt end))
             (Act unit (tunWrite e p) ev (λ r, match r with Panic => Done Panic | _ => tret tt end)).
Proof. apply imp_same; [done |]. intros []; apply locked_as_lift. Qed.

Hint Resolve imp_view imp_rlocked imp_rbetween imp_hostmap imp_CheckReplay imp_NextCounter imp_alloc imp_conntrack
  imp_AddPeerCert imp_lighthouse imp_claim imp_load_host imp_load_ph imp_get_mgr imp_WriteTo imp_tunWrite : locks.

Lemma imp_Track now k :
  LockedAs (ct_Track now k) (atomic (on_fw (λ f, (mkFirewall (inbound f) (outbound f) (Track now k (ct f)), tt)))).
Proof. apply imp_conntrack. Qed.
Hint Resolve imp_Track : locks.

Lemma imp_scan rules ip groups port pr now :
  LockedAs (fw_scan rules ip groups port pr now) (scan_rules_go rules ip groups port pr now).
Proof. induction rules as [|r rules IH]; cbn [fw_scan scan_rules_go]; lockstep. Qed.
Hint Resolve imp_scan : locks.

Lemma imp_Allow rules ip groups port pr now :
  LockedAs (fw_Allow rules ip groups port pr now) (Allow_go rules ip groups port pr now).
Proof. unfold fw_Allow, Allow_go, ct_IsEstablished. lockstep. Qed.

Lemma imp_lookup o : LockedAs (if_lookup o) (lookup_host_go o).
Proof. unfold if_lookup, lookup_host_go. lockstep. Qed.

Lemma imp_sendToRemote e l p : LockedAs (if_sendToRemote e l p) (sendToRemote_go e l p).
Proof. unfold if_sendToRemote, sendToRemote_go. lockstep. Qed.
Hint Resolve imp_Allow imp_lookup imp_sendToRemote : locks.

Lemma imp_onHandshakeComplete e h pkts : LockedAs (if_onHandshakeComplete e h pkts) (onHandshakeComplete_go e h pkts).
Proof.
  unfold if_onHandshakeComplete, onHandshakeComplete_go, hm_Add. lockstep.
Qed.

Lemma imp_send e msg ip : LockedAs (lh_send e msg ip) (send_go e msg ip).
Proof. unfold lh_send, lh_stored, send_go. lockstep. Qed.
Hint Resolve imp_onHandshakeComplete imp_send : locks.

Lemma imp_store ip addrs : LockedAs (lh_store ip addrs) (atomic (store_addrs ip addrs)).
Proof. apply (imp_lighthouse (λ lh, set_addrStore (<[ip := addrs]> (addrStore lh)) lh)). Qed.
Hint Resolve imp_store : locks.

Lemma imp_HandleMessage e msg from : LockedAs (lh_HandleMessage e msg from) (HandleMessage_go e msg from).
Proof.
  unfold lh_HandleMessage, HandleMessage_go, lh_handleQuery, handleQuery_go, lh_handleQueryReply, handleQueryReply_go,
    lh_handleUpdate, handleUpdate_go, lh_handleWhoAmI, handleWhoAmI_go, lh_handleWhoAmIReply, handleWhoAmIReply_go,
    lh_handlePunch, handlePunch_go, py_Punch, Punch_go, lh_stored. lockstep.
Qed.

Lemma imp_QueryPeer e ip : LockedAs (lh_QueryPeer e ip) (QueryPeer_go e ip).
Proof. unfold lh_QueryPeer, QueryPeer_go. lockstep. Qed.

Lemma imp_Advertise e : LockedAs (lh_Advertise e) (Advertise_go e).
Proof. unfold lh_Advertise, Advertise_go. lockstep. Qed.

Lemma imp_StartHandshake e ip addr c : LockedAs (hs_StartHandshake e ip addr c) (atomic (StartHandshake e ip addr c)).
Proof. apply imp_manager. intros d. apply rest_StartHandshake. Qed.

Lemma imp_QueuePacket ip pkt : LockedAs (hs_QueuePacket ip pkt) (atomic (QueuePacket ip pkt)).
Proof. apply imp_manager. intros d. apply rest_QueuePacket. Qed.
Hint Resolve imp_HandleMessage imp_QueryPeer imp_Advertise imp_StartHandshake imp_QueuePacket : locks.

Lemma imp_HandleStage0 e pkt from : LockedAs (hs_HandleStage0 e pkt from) (HandleStage0_go e pkt from).
Proof. unfold hs_HandleStage0, HandleStage0_go. lockstep. Qed.

Lemma imp_HandleStage1 e pkt : LockedAs (hs_HandleStage1 e pkt) (HandleStage1_go e pkt).
Proof. unfold hs_HandleStage1, HandleStage1_go. lockstep. Qed.
Hint Resolve imp_HandleStage0 imp_HandleStage1 : locks.

Lemma imp_consumeInsidePacket e pkt : LockedAs (if_consumeInsidePacket e pkt) (consumeInsidePacket_go e pkt).
Proof.
  unfold if_consumeInsidePacket, consumeInsidePacket_go, hm_GetByVpnIP, if_getPeerCert, lh_GetAddrs. lockstep.
  apply locked_as_catch; [apply imp_StartHandshake | | done | done]. lockstep.
Qed.

Lemma imp_handleMessage e pkt hdr from : LockedAs (if_handleMessage e pkt hdr from) (handleMessage_go e pkt hdr from).
Proof.
  unfold if_handleMessage, handleMessage_go, hm_GetByIndex, hi_CheckReplay, py_RespondToPunch, RespondToPunch_go. lockstep.
Qed.

Lemma imp_handleHandshake e pkt hdr from :
  LockedAs (if_handleHandshake e pkt hdr from) (handleHandshake_go e pkt hdr from).
Proof. unfold if_handleHandshake, handleHandshake_go. lockstep. Qed.

Lemma imp_handleLightHouse e pkt hdr from :
  LockedAs (if_handleLightHouse e pkt hdr from) (handleLightHouse_go ord e pkt hdr from).
Proof. unfold if_handleLightHouse, handleLightHouse_go, hm_GetByIndex, lh_VpnIPByAddr. lockstep. Qed.

Lemma imp_handleCloseTunnel hdr : LockedAs (if_handleCloseTunnel hdr) (handleCloseTunnel_go hdr).
Proof.
  unfold if_handleCloseTunnel, handleCloseTunnel_go, hm_GetByIndex, hm_Remove. lockstep.
Qed.
Hint Resolve imp_consumeInsidePacket imp_handleMessage imp_handleHandshake imp_handleLightHouse imp_handleCloseTunnel : locks.

Lemma imp_exec a : LockedAs (exec_mu a) (exec_go ord pord a).
Proof.
  destruct a as [e pkt | e pkt from | e now | e | now]; cbn [exec_mu exec_go]; [| | | | apply imp_Expire].
  - auto with locks.
  - unfold if_consumeOutsidePacket, consumeOutsidePacket_go, if_handleTest, handleTest_go. lockstep.
  - apply imp_manager. intros d. apply rest_retryPending.
  - auto with locks.
Qed.

(** ** Executions *)

(** Any number of goroutines, any inputs, any scheduling. *)
Definition mutex_execution (gs : list (list action)) (w : World Daemon)
    (p : LPool (S := World Daemon) (E := event) (Mu := mutex)) : Prop :=
  (∀ m, pord m ≡ₚ map_to_list m) ∧ Forall (Forall action_ok) gs ∧ rtc lstep (Run_mu gs w) p.

Lemma Run_mu_simulates gs w : simulates (Run_mu gs w) (Run_go ord pord gs w).
Proof.
  split; [| done | done]. cbn. apply Forall2_fmap, Forall_Forall2_diag, Forall_forall. intros g _.
  apply (imp_erases guarded), locked_as_for. apply imp_exec.
Qed.

Lemma mutex_execution_simulates gs w p : mutex_execution gs w p → ∃ q, execution ord pord gs w q ∧ simulates p q.
Proof.
  intros (H1 & H2 & H3). destruct (simulates_steps _ _ _ H3 (Run_mu_simulates gs w)) as (q & Hq & Hs).
  by exists q.
Qed.

Lemma mutex_execution_orderly gs w p : mutex_execution gs w p → orderly guarded p.
Proof.
  intros (_ & _ & H). apply (orderly_steps guarded _ _ H). apply orderly_init, Forall_fmap, Forall_forall. intros g _.
  apply (imp_disciplined guarded _ (tfor g (exec_go ord pord))), locked_as_for. apply imp_exec.
Qed.

(** A goroutine that has ended returned. *)
Lemma mutex_execution_returned {returns : LibReturns} ins outs gs w p i r :
  starting ins outs w → mutex_execution gs w p → lthreads p !! i = Some (LDone r) → r = Ok tt.
Proof.
  intros Hw Hp Hi. destruct (mutex_execution_simulates _ _ _ Hp) as (q & Hq & Hs).
  destruct (Forall2_lookup_l _ _ _ _ _ (sim_threads _ _ Hs) Hi) as (t & Ht & ->).
  destruct (execution_safe _ _ _ _ _ _ _ Hw Hq) as [_ Hts]. by destruct (Hts i _ Ht) as [[] ->].
Qed.

Lemma mutex_execution_steps gs w p p' : mutex_execution gs w p → rtc lstep p p' → mutex_execution gs w p'.
Proof. intros (H1 & H2 & H3) H. split_and!; [done | done | by etrans]. Qed.

Lemma mutex_execution_calm {returns : LibReturns} ins outs gs w p :
  starting ins outs w → mutex_execution gs w p → calm p.
Proof.
  intros Hw Hp p' i r Hs Hi. pose proof (mutex_execution_steps _ _ _ _ Hp Hs) as Hp'.
  by rewrite (mutex_execution_returned ins outs gs w p' i r Hw Hp' Hi).
Qed.

Lemma mutex_execution_ended {returns : LibReturns} ins outs gs w p :
  starting ins outs w → mutex_execution gs w p → all_ended p → lthreads p = map (λ _, LDone (Ok tt)) gs.
Proof.
  intros Hw Hp He. assert (Hlen : length (lthreads p) = length gs).
  { destruct (mutex_execution_simulates _ _ _ Hp) as (q & (_ & _ & Hq) & Hs).
    rewrite (Forall2_length _ _ _ (sim_threads _ _ Hs)), (steps_length _ _ Hq). apply length_map. }
  apply list_eq_same_length with (length gs); [by rewrite length_map | done |].
  intros i t1 t2 _ Hi1 Hi2. apply list_lookup_fmap_Some in Hi2 as (g & -> & _).
  destruct (Forall_lookup_1 _ _ _ _ He Hi1) as [r ->]. by rewrite (mutex_execution_returned ins outs gs w p i r Hw Hp Hi1).
Qed.

End Locks.

(** ** Properties *)

(** C13. No deadlock: whatever goroutines run and wherever they are, no goroutine ever releases
    a mutex it does not hold (a fatal error in Go); as long as some goroutine has not
    returned, one can take a step, even though no reader may overtake a writer that
    waits for the same mutex; there is no infinite continuation over finitely many
    inputs; and the goroutines can all be brought to return, with no error left
    over and every mutex free. *)
Theorem concurrent_deadlock_free {crypto : CryptoLib} {noise : NoiseLib} {proto : ProtoLib} {certlib : CertLib}
    {returns : LibReturns} ord pord ins outs gs w p :
  starting ins outs w → mutex_execution ord pord gs w p →
  (∀ i o k m b, lthreads p !! i = Some (LOp o k) → holds_before o = Some (m, b) → is_Some (call i o (locks p))) ∧
  (all_ended p ∨ ∃ p', polite_step p p') ∧ Acc (flip lstep) p ∧
  ∃ p', rtc polite_step p p' ∧ lthreads p' = map (λ _, LDone (Ok tt)) gs ∧ ∀ m, locks p' m = free_mutex.
Proof.
  intros Hw Hp. pose proof (mutex_execution_orderly _ _ _ _ _ Hp) as Ho.
  pose proof (mutex_execution_calm _ _ _ _ _ _ _ Hw Hp) as Hc. split_and!.
  - destruct Ho as [hs Ha]. intros i o k m b Hi Hb. by eapply release_possible.
  - destruct (orderly_progress guarded p Ho) as [H | (i & p' & Hs)]; [intros i r; apply Hc, rtc_refl | by left |].
    right. by exists p', i.
  - apply lpool_terminates.
  - destruct (orderly_finishes guarded p Ho Hc) as (p' & Hrun & He). exists p'.
    pose proof (mutex_execution_steps _ _ _ _ _ _ Hp (polite_steps _ _ Hrun)) as Hp'.
    split_and!; [done | by eapply mutex_execution_ended |].
    intros m. apply (ended_free guarded); [by eapply mutex_execution_orderly | by eapply mutex_execution_calm | done].
Qed.

(** C17. The mutexes protect what they are there for: whatever the schedule, a step of a
    goroutine that changes the session registry, the handshake tables, the
    lighthouse's addresses, the connection table, the peer certificates or a
    session's replay window is taken while that goroutine holds the mutex of it for
    writing (the Noise state of an object that has left the tables, which its
    claimant advances without the mutex, is not stored back); and every state and history the goroutines reach with their
    mutexes is one of the executions by critical sections. *)
Theorem concurrent_guarded {crypto : CryptoLib} {noise : NoiseLib} {proto : ProtoLib} {certlib : CertLib}
    ord pord gs w p :
  mutex_execution ord pord gs w p →
  (∀ i p' m, lpool_step i p p' → guarded m (lshared p) (lshared p') ∨ writer (locks p m) = Some i) ∧
  ∃ q, execution ord pord gs w q ∧ shared q = lshared p ∧ history q = lhistory p.
Proof.
  intros Hp. split.
  - intros i p' m Hs. by eapply guarded_step, Hs; [apply guarded_refl | eapply mutex_execution_orderly].
  - destruct (mutex_execution_simulates _ _ _ _ _ Hp) as (q & Hq & [_ H1 H2]). by exists q.
Qed.
