(* ===== verification/Boot.v ===== *)
(** * The daemon's life, over system calls

    [NewInterface] of src/interface.go once more, now over the models of
    [udp.Listen] and [tun.Open] instead of parameters for them: the state is the
    sequence of socket calls made so far and the state of the TUN device.  It
    implements the construction of [Startup], leaves no descriptor behind when it
    fails, and what it builds is a state from which the goroutines may run. *)

From S2P Require Import Prelude Bytes Header Net Replay GoText GoPath Config Firewall Messages External Cert.
From S2P Require Import NoiseUtil HostMap Handshake HandshakeManager Punchy LightHouse Pki Tun Udp Interface DataPlane.
From S2P Require Import Startup Loops Goroutine Threads Concurrent Guarantee.

(** ** The operating system *)

Record Sys := mkSys { sysCalls : list Syscall; sysTun : Os }.

Definition sys0 : Sys := mkSys [] (mkOs false false [] []).

(** The descriptors the socket calls leave open. *)
Definition open_step (fds : list Z) (c : Syscall) : list Z :=
  match c with
  | SysSocket fd => fd :: fds
  | SysClose fd => filter (λ f, f ≠ fd) fds
  | _ => fds
  end.
Definition open_fds (calls : list Syscall) : list Z := fold_left open_step calls [].
Arguments open_fds : simpl never.

Definition on_udp {A} (m : M (list Syscall) A) : M Sys A := λ s,
  let '(c, r) := m (sysCalls s) in (mkSys c (sysTun s), r).
Definition on_tun {A} (m : M Os A) : M Sys A := λ s,
  let '(o, r) := m (sysTun s) in (mkSys (sysCalls s) o, r).

(** [_ = conn.Close()] and [_ = tunDev.Close()] *)
Definition close_conn (c : Conn) : M Sys unit := on_udp (Close c).
Definition close_tun : M Sys unit := on_tun (λ s, (close_fd s, Ok tt)).

Definition or_close_sys {A} (cleanup : M Sys unit) (msg : string) (m : M Sys A) : M Sys A := λ s,
  match m s with
  | (s', Fail e) => let '(s', _) := cleanup s' in (s', Fail (Wrapf msg e))
  | r => r
  end.

Section Boot.

Context {crypto : CryptoLib} {noise : NoiseLib} {proto : ProtoLib} {certlib : CertLib}.
Context (ReadFile : bytes → go bytes) (ReadDir : bytes → go (list (bool * bytes))).
Context (Interfaces : go (list NetIf)) (ResolveUDPAddr : bytes → go UDPAddr).
Context (ord : gmap bytes (list bytes) → list (bytes * list bytes)).
(** the kernel: sockets, byte order, the clone device, the control socket, ioctls *)
Context (k : UdpKernel) (big : bool) (openClone openSocket : option error) (kernel : Ioctl → bytes → error + bytes).

Definition NewInterface_sys (cfg : Config) (nowCA nowNode : Z) : M Sys (World Daemon * Conn) :=
  let! pki := glift (LoadPKI ReadFile (cPKI cfg) nowCA nowNode) in
  let! fw := glift (go_wrap "interface: firewall" (buildFirewall (cFirewall cfg))) in
  let! conn := gwrap "interface: udp" (on_udp (Listen k (Host (cListen cfg)) (Port (cListen cfg)))) in
  let! _ := or_close_sys (close_conn conn) "interface: tun"
              (on_tun (Open big openClone openSocket kernel (Dev (cTUN cfg))
                         (Prefix_String (cVpnIP (NodeCert pki))) (MTU (cTUN cfg)))) in
  let! lh := or_close_sys (do! close_conn conn in close_tun) "interface: lighthouse"
               (glift (buildLightHouse Interfaces ResolveUDPAddr ord cfg (uPort (LocalAddr conn)))) in
  let '(punchy, lh) :=
    if cPunch (cPunchy cfg) || cRespond (cPunchy cfg) then
      let p := NewPunchy (cPunch (cPunchy cfg)) (cRespond (cPunchy cfg)) in (Some p, SetPunchy p lh)
    else (None, lh) in
  let staticKey := {| Private := Curve25519Key pki; Public := X25519PublicKey (NodeCert pki) |} in
  let m := NewHandshakeManager (NodeCert pki) staticKey (CACerts pki) in
  let! certs :=
    (if is_empty (PeersDir (cPKI cfg)) then gret ∅
     else or_close_sys (do! close_conn conn in close_tun) "interface: peer certs"
            (glift (loadPeerCerts ReadFile ReadDir (PeersDir (cPKI cfg)) ∅))) in
  gret (mkWorld m [] (mkDaemon ∅ NewHostMap fw lh punchy certs), conn).

(** ** The steps of the construction *)

(** Nothing open; a bound socket; a bound socket and the device. *)
Definition idle (s : Sys) : Prop := open_fds (sysCalls s) = [] ∧ fdOpen (sysTun s) = false ∧ sockOpen (sysTun s) = false.
Definition listening (c : Conn) (s : Sys) : Prop :=
  open_fds (sysCalls s) = [inner_fd c] ∧ fdOpen (sysTun s) = false ∧ sockOpen (sysTun s) = false.
Definition running (c : Conn) (s : Sys) : Prop :=
  open_fds (sysCalls s) = [inner_fd c] ∧ fdOpen (sysTun s) = true ∧ sockOpen (sysTun s) = false.

Lemma Open_sys name cidr mtu s :
  fdOpen s = false → sockOpen s = false →
  match Open big openClone openSocket kernel name cidr mtu s with
  | (s', Ok _) => fdOpen s' = true ∧ sockOpen s' = false
  | (s', Fail _) => fdOpen s' = false ∧ sockOpen s' = false
  | (_, Panic) => False
  end.
Proof.
  intros H1 H2. unfold Open. pose proof (ParsePrefix_yields cidr) as Hp.
  destruct (ParsePrefix cidr) as [[ip bits]|e|]; [| done | done].
  erewrite gbind_ok by reflexivity. cbn [pIP pBits]. destruct ip as [|a|a z]; [done | | done]. cbn [Is4 negb].
  unfold gwrap, open_fd. destruct openClone as [e|]; [done |]. erewrite gbind_ok by reflexivity.
  unfold or_close_fd at 1, ioctlPtr at 1. unfold gbind at 1. destruct (kernel TUNSETIFF _) as [e|tunIfr]; [done |]. cbn [of_sum].
  unfold gbind at 1, or_close_fd at 1, open_sock. destruct openSocket as [e|]; [done |].
  unfold defer_close_sock. cbn [As4]. erewrite gbind_ok by reflexivity. set (s1 := mkOs _ _ _ _).
  pose proof (configure_closes big kernel (be_bytes 4 a) bits (getName tunIfr) mtu s1 eq_refl) as Hc.
  unfold gbind. destruct (configure _ _ _ _ _ _ s1) as [s2 [[]|e|]]; cbn in Hc; [| done | done]. by destruct Hc.
Qed.

Lemma open_fds_app l l' : open_fds (l ++ l') = fold_left open_step l' (open_fds l).
Proof. apply fold_left_app. Qed.

Lemma filter_only (fd : Z) : filter (λ f, f ≠ fd) [fd] = [].
Proof. by rewrite filter_cons_False by auto. Qed.

Lemma Listen_sys host port s :
  open_fds s = [] →
  match Listen k host port s with
  | (s', Ok c) => open_fds s' = [inner_fd c]
  | (s', Fail _) => open_fds s' = []
  | (_, Panic) => False
  end.
Proof.
  intros H0. pose proof (Listen_calls k host port s) as H. destruct (Listen k host port s) as [s' [c|e|]]; [| | done].
  - destruct H as (a & _ & _ & _ & ->). rewrite open_fds_app, H0. done.
  - destruct H as [-> | (fd & mid & -> & Hmid)]; [done |]. rewrite open_fds_app, H0. cbn [fold_left app].
    rewrite fold_left_app. cbn. destruct Hmid as [-> | [-> | (a & -> & _)]]; apply filter_only.
Qed.

(** What a step of the construction guarantees: a value with [P] and descriptors
    with [S], or an error with nothing open. *)
Definition sys_step {A} (P : A → Sys → Prop) (x : Sys * go A) : Prop :=
  match x with
  | (s', Ok a) => P a s'
  | (s', Fail _) => idle s'
  | (_, Panic) => True
  end.

Lemma sys_bind {A B} (P : A → Sys → Prop) (Q : B → Sys → Prop) (m : M Sys A) (f : A → M Sys B) s :
  sys_step P (m s) → (∀ a s', P a s' → sys_step Q (f a s')) → sys_step Q (gbind m f s).
Proof. unfold gbind. intros Hm Hf. destruct (m s) as [s' [a|e|]]; cbn in *; auto. Qed.

Lemma sys_lift {A} (φ : A → Prop) (x : go A) s :
  idle s → (∀ a, x = Ok a → φ a) → sys_step (λ a s', φ a ∧ idle s') (glift x s).
Proof. intros Hs H. destruct x; cbn; auto. Qed.

Lemma close_both c s : running c s → idle ((do! close_conn c in close_tun) s).1.
Proof.
  intros (H1 & H2 & H3). unfold idle. cbn. rewrite open_fds_app, H1. cbn [fold_left open_step]. by rewrite filter_only.
Qed.

Lemma sys_or_close {A} (φ : A → Prop) c msg (x : go A) s :
  running c s → (∀ a, x = Ok a → φ a) →
  sys_step (λ a s', φ a ∧ running c s') (or_close_sys (do! close_conn c in close_tun) msg (glift x) s).
Proof.
  intros Hs H. pose proof (close_both c s Hs) as Hc. unfold or_close_sys, glift.
  destruct x; cbn [sys_step]; [auto | | done]. by destruct ((do! close_conn c in close_tun) s).
Qed.

(** What the constructed daemon is, for its goroutines. *)
Definition built_for (cfg : Config) (w : World Daemon) : Prop :=
  wired cfg w ∧ starting (inbound (ifFw (rest w))) (outbound (ifFw (rest w))) w.

Lemma NewInterface_sys_built cfg nowCA nowNode :
  sys_step (λ '(w, conn) s', running conn s' ∧ built_for cfg w) (NewInterface_sys cfg nowCA nowNode sys0).
Proof.
  unfold NewInterface_sys. assert (H0 : idle sys0) by done.
  eapply sys_bind; [by apply (sys_lift (λ pki, X25519 (Curve25519Key pki) Basepoint = Ok (X25519PublicKey (NodeCert pki)))
    _ sys0 H0); intros pki Hpki; destruct (LoadPKI_inv _ _ _ _ _ Hpki) as (ca & _ & _ & _ & _ & _ & _ & Hx & _) |].
  intros pki s1 [Hpki Hs1].
  eapply sys_bind; [apply (sys_lift (λ fw, buildFirewall (cFirewall cfg) = Ok fw) _ s1 Hs1) |].
  { intros fw Hfw. destruct (buildFirewall _) as [fw0| |]; [| done ..]. by injection Hfw as ->. }
  intros fw s2 [Hfw (Hc2 & Hf2 & Hk2)]. eapply (sys_bind listening).
  { unfold gwrap, on_udp. pose proof (Listen_sys (Host (cListen cfg)) (Port (cListen cfg)) (sysCalls s2) Hc2) as HL.
    destruct (Listen _ _ _ _) as [c' [conn|e|]]; done. }
  intros conn s3 (Hc3 & Hf3 & Hk3). eapply (sys_bind (λ _, running conn)).
  { unfold or_close_sys, on_tun. pose proof (Open_sys (Dev (cTUN cfg)) (Prefix_String (cVpnIP (NodeCert pki))) (MTU (cTUN cfg))
      (sysTun s3) Hf3 Hk3) as HO. destruct (Open _ _ _ _ _ _ _ _) as [o' [dev|e|]]; [done | | done].
    cbn. unfold idle. cbn [sysCalls sysTun]. rewrite open_fds_app, Hc3. cbn [fold_left open_step]. by rewrite filter_only. }
  intros _ s4 Hs4. eapply sys_bind; [by apply (sys_or_close (λ _, True) conn) |]. intros lh s5 [_ Hs5].
  match goal with |- context [match ?x with (_, _) => _ end] => destruct x as [py lh'] end.
  eapply (sys_bind (λ certs s', certs_ok certs ∧ running conn s')).
  { destruct (is_empty _); [split; [by intros ip c H | done] |]. apply sys_or_close; [done |].
    intros certs Hc. unfold loadPeerCerts in Hc. destruct (ReadDir _); [cbn [go_bind] in Hc | done ..].
    eapply load_entries_ok; [exact Hc |]. by intros ip c H. }
  intros certs s6 [Hcerts Hs6]. cbn [sys_step gret]. split; [done |].
  destruct (buildFirewall_inv _ _ Hfw) as (Hin & Hout & Hct). split; [cbn; split_and!; done |].
  split; try done. cbn. destruct fw as [i o t]. cbn in Hct. by rewrite Hct.
Qed.

(** ** The construction of [Startup] *)

(** What [Startup] abstracts from. *)
Definition resources (s : Sys) : Resources := mkResources (negb (bool_decide (open_fds (sysCalls s) = []))) (fdOpen (sysTun s)).

Definition listen_outcome (host : bytes) (port : Z) : go Z :=
  try! c := (Listen k host port []).2 in Ok (uPort (LocalAddr c)).
Definition tun_outcome (dev cidr : bytes) (mtu : Z) : go unit :=
  try! _ := (Open big openClone openSocket kernel dev cidr mtu (mkOs false false [] [])).2 in Ok tt.

(** One computation over system calls does what another does over resources. *)
Definition implements {A B} (m : M Sys A) (n : M Resources B) (f : A → B) (s : Sys) : Prop :=
  n (resources s) = (resources (m s).1, go_bind (m s).2 (λ a, Ok (f a))).

Lemma implements_bind {A A' B B'} (m : M Sys A) (n : M Resources A') (c : A → M Sys B) (d : A' → M Resources B') f g s :
  implements m n f s → (∀ a s', m s = (s', Ok a) → implements (c a) (d (f a)) g s') →
  implements (gbind m c) (gbind n d) g s.
Proof.
  unfold implements, gbind. intros -> Hc. destruct (m s) as [s' [a|e|]]; cbn; [by apply Hc | done | done].
Qed.

Lemma implements_lift {A} (x : go A) s : implements (glift x) (glift x) (λ a, a) s.
Proof. unfold implements, glift. by destruct x. Qed.

Lemma implements_or_close {A} c msg (x : go A) s :
  running c s →
  implements (or_close_sys (do! close_conn c in close_tun) msg (glift x))
    (or_close (do! close RConn in close RTun) msg (glift x)) (λ a, a) s.
Proof.
  intros Hs. pose proof (close_both c s Hs) as (H1 & H2 & _). unfold implements, or_close_sys, or_close, glift.
  destruct x; try done. cbn in *. unfold resources. cbn. by rewrite H1.
Qed.

Lemma NewInterface_sys_implements cfg nowCA nowNode :
  implements (NewInterface_sys cfg nowCA nowNode)
    (NewInterface ReadFile ReadDir listen_outcome tun_outcome Interfaces ResolveUDPAddr ord cfg nowCA nowNode) fst sys0.
Proof.
  unfold NewInterface_sys, NewInterface.
  eapply implements_bind; [apply implements_lift |]. intros pki s1 [= <- _].
  eapply implements_bind; [apply implements_lift |]. intros fw s1 [= <- _].
  pose proof (Listen_sys (Host (cListen cfg)) (Port (cListen cfg)) [] eq_refl) as HL.
  eapply (implements_bind _ _ _ _ (λ c, uPort (LocalAddr c))).
  { unfold implements, gwrap, on_udp, open_conn, listen_outcome. cbn [sysCalls sys0].
    destruct (Listen _ _ _ _) as [c' [conn|e|]]; [| | done]; cbn; unfold resources; cbn; by rewrite HL. }
  intros conn s3 Hs3. assert (Hlis : open_fds (sysCalls s3) = [inner_fd conn] ∧ sysTun s3 = mkOs false false [] []).
  { unfold gwrap, on_udp in Hs3. cbn [sysCalls sys0] in Hs3. destruct (Listen _ _ _ _) as [c' [conn'|e|]]; [| done ..].
    by injection Hs3 as <- <-. }
  destruct Hlis as [Hc3 Ht3].
  pose proof (Open_sys (Dev (cTUN cfg)) (Prefix_String (cVpnIP (NodeCert pki))) (MTU (cTUN cfg)) (mkOs false false [] [])
    eq_refl eq_refl) as HO.
  eapply (implements_bind _ _ _ _ (λ _, tt)).
  { unfold implements, or_close_sys, or_close, on_tun, open_tun, tun_outcome. rewrite Ht3.
    destruct (Open _ _ _ _ _ _ _ _) as [o' [dev|e|]]; [| | done]; cbn; unfold resources; cbn;
      rewrite ?open_fds_app, Hc3; cbn [fold_left open_step]; rewrite ?filter_only; rewrite ?Ht3; by destruct HO as [-> _]. }
  intros dev s4 Hs4. assert (Hrun : running conn s4).
  { unfold or_close_sys, on_tun in Hs4. rewrite Ht3 in Hs4. destruct (Open _ _ _ _ _ _ _ _) as [o' [dev'|e|]]; [| done ..].
    injection Hs4 as <- _. split; [done | exact HO]. }
  eapply implements_bind; [by apply implements_or_close |]. intros lh s5 Hs5.
  assert (s5 = s4) as -> by (unfold or_close_sys, glift in Hs5; destruct (buildLightHouse _ _ _ _ _); [by injection Hs5 as <- _ | by destruct ((do! close_conn conn in close_tun) s4) | done]).
  match goal with |- context [match ?x with (_, _) => _ end] => destruct x as [py lh'] end.
  eapply implements_bind; [| by intros certs s6 _]. destruct (is_empty _); [done | by apply implements_or_close].
Qed.

End Boot.

(** ** No panic *)

(** What the operating system is asked for comes back as a value or an error. *)
Record os_returns (ReadFile : bytes → go bytes) (ReadDir : bytes → go (list (bool * bytes)))
    (ResolveUDPAddr : bytes → go UDPAddr) : Prop := {
  ret_ReadFile path : ReadFile path ≠ Panic;
  ret_ReadDir dir : ReadDir dir ≠ Panic;
  ret_ResolveUDPAddr a : ResolveUDPAddr a ≠ Panic;
}.

Lemma gbind_returns {S A B} (m : M S A) (f : A → M S B) s :
  (m s).2 ≠ Panic → (∀ a s', (f a s').2 ≠ Panic) → (gbind m f s).2 ≠ Panic.
Proof. unfold gbind. intros Hm Hf. by destruct (m s) as [s' [a|e|]]; cbn in *. Qed.

Lemma or_close_returns {A} cleanup msg (m : M Resources A) s :
  (m s).2 ≠ Panic → (or_close cleanup msg m s).2 ≠ Panic.
Proof. unfold or_close. intros H. destruct (m s) as [s' [a|e|]]; cbn in *; [done | by destruct (cleanup s') | done]. Qed.

Lemma ParsePrefix_returns s : ParsePrefix s ≠ Panic.
Proof. exact (yields_returns _ _ (ParsePrefix_yields s)). Qed.

Lemma ParsePort_returns s : ParseUint10 s 16 ≠ Panic.
Proof. exact (yields_returns _ _ (ParseUint10_yields s 16 ltac:(done))). Qed.

Lemma ParseRule_returns r : ParseRule r ≠ Panic.
Proof.
  unfold ParseRule. apply go_bind_returns; [unfold parse_proto; repeat case_match; done |]. intros pr.
  apply go_bind_returns; [destruct (is_any _); [done |]; auto using go_bind_returns, go_wrap_returns, ParsePort_returns |].
  intros [port any]. destruct (is_any (TrimSpace (rGroup r))); (apply go_bind_returns; [| by intros []]);
    (destruct (is_any _); [done |]; auto using go_bind_returns, go_wrap_returns, ParsePrefix_returns).
Qed.

Lemma parse_rules_returns what rules : parse_rules what rules ≠ Panic.
Proof. induction rules as [|r rules IH]; cbn [parse_rules]; [done |]. auto using go_bind_returns, go_wrap_returns, ParseRule_returns. Qed.

Lemma buildFirewall_returns cfg : buildFirewall cfg ≠ Panic.
Proof. unfold buildFirewall. auto using go_bind_returns, parse_rules_returns. Qed.

Section Returns.

Context {crypto : CryptoLib} {noise : NoiseLib} {proto : ProtoLib} {certlib : CertLib} {returns : LibReturns}.
Context (ReadFile : bytes → go bytes) (ReadDir : bytes → go (list (bool * bytes))) (ResolveUDPAddr : bytes → go UDPAddr).
Context (Hos : os_returns ReadFile ReadDir ResolveUDPAddr).

Lemma LoadPKI_returns cfg nowCA nowNode : LoadPKI ReadFile cfg nowCA nowNode ≠ Panic.
Proof.
  destruct Hos as [Hrf _ _]. assert (Hread : ∀ msg path, go_wrap msg (ReadFile path) ≠ Panic) by (intros; by apply go_wrap_returns).
  assert (Hcert : ∀ msg b, go_wrap msg (Parse_cert b) ≠ Panic) by (intros; apply go_wrap_returns, Parse_cert_returns).
  unfold LoadPKI, loadAndParseCA, loadAndParseNodeCert, loadAndVerifyKey.
  apply go_bind_returns; [| intros ca; apply go_bind_returns; [| intros c; apply go_bind_returns; [| intros k; discriminate]]].
  - repeat (apply go_bind_returns; [done | intros ?]). apply go_bind_returns; [apply go_wrap_returns | done].
    unfold VerifyCA. destruct (negb _); [done |]. apply go_wrap_returns, ret_x509_verify.
  - repeat (apply go_bind_returns; [done | intros ?]). apply go_bind_returns; [apply go_wrap_returns | done].
    unfold Verify. destruct (IsCA _); [done |]. apply go_wrap_returns, ret_x509_verify.
  - apply go_bind_returns; [done | intros data]. apply go_bind_returns; [apply go_wrap_returns | intros key].
    { unfold ParseX25519PrivateKey. destruct (pem_decode data) as [[]|]; [repeat destruct (negb _) |]; done. }
    apply go_bind_returns; [apply go_wrap_returns, ret_X25519 | intros pub]. by destruct (negb _).
Qed.

Lemma add_addrs_returns ip addrs lh : add_addrs ResolveUDPAddr ip addrs lh ≠ Panic.
Proof.
  destruct Hos. revert lh. induction addrs as [|a addrs IH]; intros lh; cbn [add_addrs]; [done |].
  auto using go_bind_returns, go_wrap_returns.
Qed.

Lemma add_static_returns entries lh : add_static ResolveUDPAddr entries lh ≠ Panic.
Proof.
  revert lh. induction entries as [|[ip addrs] entries IH]; intros lh; cbn [add_static]; [done |].
  auto using go_bind_returns, go_wrap_returns, ParseAddr_safe, add_addrs_returns.
Qed.

Lemma buildLightHouse_returns Interfaces ord cfg port : buildLightHouse Interfaces ResolveUDPAddr ord cfg port ≠ Panic.
Proof.
  unfold buildLightHouse. apply go_bind_returns; [| auto using add_static_returns].
  induction (Hosts _) as [|h hosts IH]; cbn [parse_hosts]; [done |]. auto using go_bind_returns, go_wrap_returns, ParseAddr_safe.
Qed.

Lemma loadPeerCerts_returns dir certs : loadPeerCerts ReadFile ReadDir dir certs ≠ Panic.
Proof.
  destruct Hos as [Hrf Hrd _]. unfold loadPeerCerts. apply go_bind_returns; [done |]. intros entries.
  revert certs. induction entries as [|[isDir name] entries IH]; intros certs; cbn [load_entries]; [done |].
  destruct (_ || _); [apply IH |]. apply go_bind_returns; [done |]. intros data.
  pose proof (Parse_cert_returns data). by destruct (Parse_cert data).
Qed.

Lemma NewInterface_returns Listen TunOpen Interfaces ord cfg nowCA nowNode s :
  (∀ host port, Listen host port ≠ Panic) → (∀ dev cidr mtu, TunOpen dev cidr mtu ≠ Panic) →
  (NewInterface ReadFile ReadDir Listen TunOpen Interfaces ResolveUDPAddr ord cfg nowCA nowNode s).2 ≠ Panic.
Proof.
  intros HL HT. unfold NewInterface. apply gbind_returns; [apply LoadPKI_returns |]. intros pki s1.
  apply gbind_returns; [apply go_wrap_returns, buildFirewall_returns |]. intros fw s2.
  apply gbind_returns. { unfold gwrap, open_conn. specialize (HL (Host (cListen cfg)) (Port (cListen cfg))). by destruct (Listen _ _). }
  intros port s3. apply gbind_returns.
  { apply or_close_returns. unfold open_tun. match goal with |- context [TunOpen ?a ?b ?c] => specialize (HT a b c); by destruct (TunOpen a b c) end. }
  intros _ s4. apply gbind_returns; [apply or_close_returns, buildLightHouse_returns |]. intros lh s5.
  match goal with |- context [match ?x with (_, _) => _ end] => destruct x as [py lh'] end.
  apply gbind_returns; [| done]. destruct (is_empty _); [done | apply or_close_returns, loadPeerCerts_returns].
Qed.

Lemma NewInterface_sys_returns Interfaces ord k big openClone openSocket kernel cfg nowCA nowNode :
  (NewInterface_sys ReadFile ReadDir Interfaces ResolveUDPAddr ord k big openClone openSocket kernel cfg nowCA nowNode sys0).2
    ≠ Panic.
Proof.
  pose proof (NewInterface_sys_implements ReadFile ReadDir Interfaces ResolveUDPAddr ord k big openClone openSocket kernel
    cfg nowCA nowNode) as H. unfold implements in H.
  intros Hp. rewrite Hp in H. cbn [go_bind] in H.
  refine (NewInterface_returns (listen_outcome k) (tun_outcome big openClone openSocket kernel) Interfaces ord cfg nowCA nowNode
    (resources sys0) _ _ (f_equal snd H)).
  - intros host port. unfold listen_outcome. pose proof (Listen_sys k host port [] eq_refl) as HL.
    by destruct (Listen _ _ _ _) as [s' [c|e|]].
  - intros dev cidr mtu. unfold tun_outcome. pose proof (Open_sys big openClone openSocket kernel dev cidr mtu
      (mkOs false false [] []) eq_refl eq_refl) as HO. by destruct (Open _ _ _ _ _ _ _ _) as [s' [c|e|]].
Qed.

End Returns.

(** ** Properties *)

(** C12. The life of the daemon, whatever the kernel and the files answer: the
    construction does not panic.  If it fails, no socket, device or control socket is left open.  If it
    succeeds, exactly the socket and the device are open, the daemon is the one the
    configuration describes, its goroutines never panic or stop early however they
    are scheduled, and closing the two when the context is cancelled leaves nothing
    open. *)
Theorem daemon_lifecycle {crypto : CryptoLib} {noise : NoiseLib} {proto : ProtoLib} {certlib : CertLib}
    {returns : LibReturns} ReadFile ReadDir Interfaces ResolveUDPAddr ordS ord pord k big openClone openSocket kernel
    cfg nowCA nowNode gs :
  os_returns ReadFile ReadDir ResolveUDPAddr → (∀ m, pord m ≡ₚ map_to_list m) → Forall (Forall action_ok) gs →
  match NewInterface_sys ReadFile ReadDir Interfaces ResolveUDPAddr ordS k big openClone openSocket kernel
          cfg nowCA nowNode sys0 with
  | (s, Fail _) => idle s
  | (s, Panic) => False
  | (s, Ok (w, conn)) =>
      running conn s ∧ wired cfg w ∧ idle ((do! close_tun in close_conn conn) s).1 ∧
      ∀ p, rtc pool_step (Run_go ord pord gs w) p →
        (∀ i r, threads p !! i = Some (Done r) → r = Ok tt) ∧ Manager_ok (mgr (shared p)) ∧ Daemon_ok (rest (shared p))
  end.
Proof.
  intros Hos Hpord Hgs. pose proof (NewInterface_sys_built ReadFile ReadDir Interfaces ResolveUDPAddr ordS k big openClone openSocket
    kernel cfg nowCA nowNode) as H.
  pose proof (NewInterface_sys_returns _ _ _ Hos Interfaces ordS k big openClone openSocket kernel cfg nowCA nowNode) as Hret.
  destruct (NewInterface_sys _ _ _ _ _ _ _ _ _ _ _ _ _ _) as [s [[w conn]|e|]]; [| done | done].
  destruct H as (Hrun & Hwired & Hstart). split_and!; [done | done | exact (close_both conn s Hrun) |].
  intros p Hp. destruct (execution_safe ord pord _ _ gs w p Hstart) as [HI Hts]; [done |]. split_and!.
  - intros i r Hi. by destruct (Hts i _ Hi) as [[] ->].
  - apply HI.
  - split; [apply (inv_sessions _ _ _ _ _ _ HI) |]. intros l h Hl. eexists. by apply (ses_window _ _ _ (inv_sessions _ _ _ _ _ _ HI)).
Qed.
