(* ===== verification/Integrity.v ===== *)
(** * The tunnel between two nodes, over a hostile network

    Two daemons, each a pool of goroutines under any scheduling, and a network that
    may lose, duplicate, reorder and delay datagrams, and inject any that do not
    decrypt under the key of the session considered. *)

From S2P Require Import Prelude Bytes Header Net Replay GoText Config Firewall Messages External Cert.
From S2P Require Import NoiseUtil HostMap Handshake HandshakeManager Punchy LightHouse Ipv4 Interface DataPlane.
From S2P Require Import Wire Startup Loops Goroutine Threads Concurrent Guarantee.

Section Integrity.

Context {crypto : CryptoLib} {noise : NoiseLib} {proto : ProtoLib} {certlib : CertLib}.

(** ** What a session carried *)

(** Counter and packet of each seal and of each delivery. *)
Definition sealed_on (l : nat) (tr : list (nat * event)) : list (Z * bytes) :=
  omap (λ x, match x.2 with Sealed l' c p => if decide (l' = l) then Some (c, p) else None | _ => None end) tr.

Definition delivered_on (l : nat) (tr : list (nat * event)) : list (Z * bytes) :=
  omap (λ x, match x.2 with Delivered l' c p => if decide (l' = l) then Some (c, p) else None | _ => None end) tr.

Lemma sealed_on_spec l c p tr : (c, p) ∈ sealed_on l tr ↔ ∃ i, (i, Sealed l c p) ∈ tr.
Proof.
  unfold sealed_on. rewrite list_elem_of_omap. split.
  - intros ([i [l' c' p'| | |]] & Hin & Hx); cbn in Hx; try done. case_decide; [| done]. simplify_eq. eauto.
  - intros (i & Hin). exists (i, Sealed l c p). split; [done |]. cbn. by rewrite decide_True.
Qed.

Lemma delivered_on_spec l c p tr : (c, p) ∈ delivered_on l tr ↔ ∃ i, (i, Delivered l c p) ∈ tr.
Proof.
  unfold delivered_on. rewrite list_elem_of_omap. split.
  - intros ([i [| |l' c' p'|]] & Hin & Hx); cbn in Hx; try done. case_decide; [| done]. simplify_eq. eauto.
  - intros (i & Hin). exists (i, Delivered l c p). split; [done |]. cbn. by rewrite decide_True.
Qed.

Lemma delivered_on_NoDup l tr : NoDup (delivered tr) → NoDup (delivered_on l tr).
Proof.
  induction tr as [|[i ev] tr IH]; intros Hnd; [apply NoDup_nil_2 |].
  destruct ev as [| | l' c p |]; try (by apply IH). unfold delivered in Hnd. cbn in Hnd. apply NoDup_cons in Hnd as [Hn Hnd].
  unfold delivered_on. cbn. case_decide as Hl; [| by apply IH]. subst l'. apply NoDup_cons. split; [| by apply IH].
  intros (j & Hin)%delivered_on_spec. apply Hn. apply delivered_spec. eauto.
Qed.

(** ** Keys *)

(** A datagram made without the key: no nonce opens it. *)
Definition forged (k : AEAD) (d : bytes) : Prop := ∀ n, Open k n (drop HeaderLen d) (take HeaderLen d) = None.

(** What is sealed under [a] does not open under [k]. *)
Definition separate (k a : AEAD) : Prop := ∀ n n' p ad ad', Open k n (Seal a n' p ad') ad = None.

Lemma message_wire_parts h c p :
  let hdr := Bytes (mkHeader Version TypeMessage 0 (RemoteIndex h) c) in
  take HeaderLen (message_wire h c p) = hdr ∧
  drop HeaderLen (message_wire h c p) = Seal (SendCipher h) (CounterNonce c) p hdr.
Proof.
  unfold message_wire. split.
  - by rewrite take_app_length' by (by rewrite length_Bytes).
  - by rewrite drop_app_length' by (by rewrite length_Bytes).
Qed.

Lemma message_wire_counter h c p hdr :
  Parse (message_wire h c p) = Ok hdr → hMessageCounter hdr = u64 c.
Proof.
  unfold message_wire. rewrite Bytes_wire, Parse_wire. cbn [hVersion]. change (wrap 4 Version =? Version) with true.
  cbv iota. intros H. assert (hdr = truncate (mkHeader Version TypeMessage 0 (RemoteIndex h) c)) as -> by congruence. done.
Qed.

(** The counters of a session are 64-bit numbers. *)
Lemma sealed_range s m tr i l c p : sessions s m tr → (i, Sealed l c p) ∈ tr → u64 c = c.
Proof.
  intros Hs Hin. assert (Hc : c ∈ sealed l tr) by (apply sealed_spec; eauto).
  destruct (s !! l) as [h|] eqn:Hl.
  - destruct (ses_counter _ _ _ Hs _ _ Hl) as [Heq _]. rewrite Heq in Hc.
    apply list_elem_of_In, in_map_iff in Hc as (n & <- & _). apply wrap_small. by apply wrap_in_u.
  - rewrite (proj1 (ses_free _ _ _ Hs _ Hl)) in Hc. by apply elem_of_nil in Hc.
Qed.

(** A datagram of [A] that opens under the key of its session [lA] at [B] is one
    that session sealed, with that counter and that packet. *)
Lemma opened_was_sealed {laws : CryptoLaws} ins outs given arr w tr lA hA k d a hdr p :
  Inv ins outs given arr w tr → ifHosts (rest w) !! lA = Some hA → SendCipher hA = k →
  (∀ l h, ifHosts (rest w) !! l = Some h → l ≠ lA → separate k (SendCipher h)) →
  UDPSend d a ∈ out w → Parse d = Ok hdr → hType hdr = TypeMessage →
  Open k (CounterNonce (hMessageCounter hdr)) (drop HeaderLen d) (take HeaderLen d) = Some p →
  ∃ i, (i, Sealed lA (hMessageCounter hdr) p) ∈ tr.
Proof.
  intros HI HA Hk Hsep Hin Hp Ht Ho.
  destruct (out_udp _ _ _ _ _ _ _ (inv_outputs _ _ _ _ _ _ HI) _ _ Hin) as [[_ Hc] | (i & l & h & c & q & Hs & Hl & -> & _)].
  { by destruct (Hc _ Hp). }
  destruct (message_wire_parts h c q) as [Htake Hdrop]. rewrite Htake, Hdrop in Ho.
  destruct (decide (l = lA)) as [->|Hne]; [| by rewrite (Hsep _ _ Hl Hne) in Ho]. simplify_eq.
  rewrite (message_wire_counter _ _ _ _ Hp) in Ho |- *.
  rewrite (sealed_range _ _ _ _ _ _ _ (inv_sessions _ _ _ _ _ _ HI) Hs) in Ho |- *.
  rewrite Open_Seal in Ho. injection Ho as <-. eauto.
Qed.

End Integrity.

(** ** Properties *)

(** C2. Integrity of the tunnel between two concurrent daemons over a hostile
    network: if every datagram node B received was sent by node A or made without
    the key of the session between them, and A's other sessions use other keys,
    then what B's goroutines deliver to its TUN device on that session is, as a
    multiset of counters and packets, contained in what A's goroutines sealed on it:
    every delivered packet was read, unchanged, from A's TUN device, none is
    delivered more often than it was sent, and both nodes' firewalls have a rule
    admitting its flow.  Loss, duplication, reordering, injection and the
    schedulers of both nodes cannot change this. *)
Theorem tunnel_integrity {crypto : CryptoLib} {noise : NoiseLib} {proto : ProtoLib} {certlib : CertLib}
    {laws : CryptoLaws} {returns : LibReturns} ordA pordA ordB pordB insA outsA insB outsB gsA gsB wA wB pA pB lA lB hA hB :
  starting insA outsA wA → execution ordA pordA gsA wA pA →
  starting insB outsB wB → execution ordB pordB gsB wB pB →
  ifHosts (rest (shared pA)) !! lA = Some hA → ifHosts (rest (shared pB)) !! lB = Some hB →
  SendCipher hA = RecvCipher hB →
  (∀ l h, ifHosts (rest (shared pA)) !! l = Some h → l ≠ lA → separate (RecvCipher hB) (SendCipher h)) →
  (∀ d, arrives gsB d → (∃ a, UDPSend d a ∈ out (shared pA)) ∨ forged (RecvCipher hB) d) →
  delivered_on lB (history pB) ⊆+ sealed_on lA (history pA) ∧
  ∀ c p, (c, p) ∈ delivered_on lB (history pB) →
    reads gsA p ∧ admitted insA outsA dstIPFromIPv4 p ∧ admitted insB outsB srcIPFromIPv4 p ∧
    p ∈ tun_writes (out (shared pB)).
Proof.
  intros HwA HpA HwB HpB HA HB Hk Hsep Hnet.
  pose proof (execution_inv _ _ _ _ _ _ _ HwA HpA) as IA. pose proof (execution_inv _ _ _ _ _ _ _ HwB HpB) as IB.
  pose proof (inv_outputs _ _ _ _ _ _ IB) as OB.
  assert (Hfrom : ∀ c p, (c, p) ∈ delivered_on lB (history pB) → (c, p) ∈ sealed_on lA (history pA)).
  { intros c p (i & Hin)%delivered_on_spec.
    destruct (out_delivered _ _ _ _ _ _ _ OB _ _ _ _ Hin) as (_ & (h & d & hdr & Hl & Harr & Hp & Ht & <- & Ho) & _).
    simplify_eq. apply sealed_on_spec. destruct (Hnet _ Harr) as [[a Hsent] | Hf]; [| by rewrite Hf in Ho].
    by eapply opened_was_sealed. }
  split.
  - apply NoDup_submseteq; [| intros [c p]; apply Hfrom]. apply delivered_on_NoDup, OB.
  - intros c p Hcp. pose proof (Hfrom c p Hcp) as Hs. apply sealed_on_spec in Hs as [j Hs].
    destruct (out_sealed _ _ _ _ _ _ _ (inv_outputs _ _ _ _ _ _ IA) _ _ _ _ Hs) as [Hr Ha].
    apply delivered_on_spec in Hcp as [i Hin]. destruct (out_delivered _ _ _ _ _ _ _ OB _ _ _ _ Hin) as (_ & _ & Hadm).
    split_and!; [done | done | done |]. rewrite (out_tun _ _ _ _ _ _ _ OB). unfold delivered_packets.
    apply list_elem_of_omap. by exists (i, Delivered lB c p).
Qed.
