(* ===== verification/Race.v ===== *)
(** * A race between the two read loops

    [consumeInsidePacket] starts a handshake and queues the packet in two separate
    critical sections.  An answer that is handled between them completes the
    handshake with an empty queue, and the packet is queued nowhere. *)

From S2P Require Import Prelude Bytes Header Net Replay GoText Config Firewall Messages External Cert.
From S2P Require Import NoiseUtil HostMap Handshake HandshakeManager Punchy LightHouse Ipv4 Session Interface DataPlane.
From S2P Require Import EndToEnd Startup Loops Goroutine Threads.

Section Race.

Context {crypto : CryptoLib} {noise : NoiseLib} {proto : ProtoLib} {certlib : CertLib}.

(** The goroutine of a packet for a peer without a session, up to the point where
    the handshake is started and the packet not queued yet. *)
Lemma inside_until_queue e pkt dst pr port addr more cert fw w w1 :
  flow_of pkt dst pr port → GetByVpnIP dst (ifHostMap (rest w)) = None →
  AllowOutbound dst [] port pr (nowTrack e) (ifFw (rest w)) = (fw, true) →
  getPeerCert dst (rest w) = Some cert → GetAddrs dst (ifLighthouse (rest w)) = addr :: more →
  StartHandshake e dst addr cert (with_fw fw w) = (w1, Ok tt) →
  rtc thread_step (consumeInsidePacket_go e pkt, w) (atomic (QueuePacket dst pkt), w1).
Proof.
  intros (Hd & Hp & Hport) Hnone Hout Hcert Haddr Hstart. unfold consumeInsidePacket_go. rewrite Hd, Hp, Hport.
  etrans; [by apply (steps_bind (tlift (Ok (Some dst))) _ w w (Some dst)) |]. cbv beta iota.
  etrans; [by apply (steps_bind (view _) _ w w (GetByVpnIP dst (ifHostMap (rest w)))) |]. rewrite Hnone.
  etrans; [by apply (steps_bind (lookup_host_go None) _ w w None) |].
  etrans; [by apply (steps_bind (tlift (Ok pr)) _ w w pr) |].
  etrans; [by apply (steps_bind (tlift (Ok port)) _ w w port) |].
  etrans; [apply (steps_bind _ _ w (with_fw fw w) true); rewrite run_outbound; unfold on_fw; cbn [host_groups fmap option_fmap option_map];
    rewrite Hout; reflexivity |]. cbn [negb].
  etrans; [by apply (steps_bind (view _) _ _ (with_fw fw w) (getPeerCert dst (rest w))) |]. rewrite Hcert.
  etrans; [by apply (steps_bind (view _) _ _ (with_fw fw w) (GetAddrs dst (ifLighthouse (rest w)))) |]. rewrite Haddr.
  exact (steps_catch _ (Done (Ok tt)) _ _ _ (steps_run (atomic _) _ _ _ (eq_trans (run_atomic _ _) Hstart))).
Qed.

End Race.

(** ** Properties *)

(** C37. The first packet to a peer can be lost although the handshake it starts
    succeeds: the two read loops have an interleaving in which the peer's answer is
    handled after the handshake is started and before the packet is queued; both
    goroutines return without an error, the session with the peer is established,
    no handshake is pending, and the only datagram that ever left is the
    initiation. *)
Theorem first_packet_race {crypto : CryptoLib} {noise : NoiseLib} {proto : ProtoLib} {certlib : CertLib}
    {crypto_laws : CryptoLaws} {noise_laws : NoiseLaws} {proto_laws : ProtoLaws} ord pord
    (wA wB : World Daemon) certA certB eA0 eB0 eA1 i j pkt dst pr port addr more from addr' fwA :
  trust (mgr wA) (mgr wB) certA certB eB0 eA1 → flow_of pkt dst pr port →
  GetByVpnIP dst (ifHostMap (rest wA)) = None → pending (mgr wA) !! dst = None →
  getPeerCert dst (rest wA) = Some certB → GetAddrs dst (ifLighthouse (rest wA)) = addr :: more →
  AllowOutbound dst [] port pr (nowTrack eA0) (ifFw (rest wA)) = (fwA, true) →
  draws_index eA0 i → draws_index eB0 j →
  (∀ d t, udpResult eA0 d t = None) → (∀ d t, udpResult eB0 d t = None) →
  ∃ d0 d1 wB1 p l,
    consumeOutsidePacket ord eB0 d0 from wB = (wB1, Ok tt) ∧ out wB1 = out wB ++ [UDPSend d1 from] ∧
    rtc pool_step (Run_go ord pord [[ActInside eA0 pkt]; [ActOutside eA1 d1 addr']] wA) p ∧
    threads p = [Done (Ok tt); Done (Ok tt)] ∧
    GetByVpnIP dst (ifHostMap (rest (shared p))) = Some l ∧ pending (mgr (shared p)) !! dst = None ∧
    out (shared p) = out wA ++ [UDPSend d0 addr].
Proof.
  intros Htrust Hflow Hnone Hpend Hcert Haddr Hout Hi Hj HuA HuB.
  destruct (exchange (onHandshakeComplete eA1) (onHandshakeComplete eB0) (with_fw fwA wA) wB certA certB eA0 eB0 eA1 i j
    dst addr from [] Htrust Hpend Hi Hj HuA HuB)
    as (d0 & d1 & hA & hB & wA1 & wA2 & wA3 & Hstart & Ho1 & Hp0 & Hs0 & Hp1 & Hq & Hs1 & Hpend3 & Ho3 & Hr3 &
        _ & Hip & _ & _ & _ & _ & _ & _ & _ & HnewA & HnewB & _).
  injection Hq as <-. change (lastn maxPendingPackets []) with (@nil bytes) in Hs1. destruct (onHandshakeComplete_eq eA1 hA [] wA3) as (hA' & _ & _ & Hcomp).
  destruct (onHandshakeComplete_eq eB0 hB [] (after_send d1 from wB)) as (hB' & _ & _ & HcompB).
  match type of Hcomp with _ = (?w, _) => set (wA4 := w) in Hcomp end.
  set (t0 := tbind (S := World Daemon) (E := event) (atomic (QueuePacket dst pkt)) (λ _ : unit, tret tt)).
  assert (H0 : rtc thread_step (tfor [ActInside eA0 pkt] (exec_go ord pord), wA) (t0, wA1)).
  { exact (steps_catch _ _ _ _ _ (inside_until_queue eA0 pkt dst pr port addr more certB fwA wA wA1 Hflow Hnone Hout Hcert Haddr Hstart)). }
  assert (H1 : run_thread (tfor [ActOutside eA1 d1 addr'] (exec_go ord pord)) wA1 = (wA4, Ok tt)).
  { rewrite goroutine_run. cbn [gfor exec]. unfold gbind. rewrite (consume_response ord _ _ _ _ _ _ Hp1).
    unfold gignore. rewrite Hs1. by rewrite Hcomp. }
  assert (H2 : run_thread t0 wA4 = (wA4, Ok tt)).
  { unfold t0. rewrite run_bind. unfold gbind. rewrite run_atomic. unfold QueuePacket.
    rewrite (gbind_ok get_mgr _ wA4 wA4 (mgr wA4)) by done. change (mgr wA4) with (mgr wA3). by rewrite Hpend3. }
  set (tB := tfor [ActOutside eA1 d1 addr'] (exec_go ord pord)) in *.
  destruct (pool_thread 0 _ _ _ _ [tfor [ActInside eA0 pkt] (exec_go ord pord); tB] [] eq_refl H0) as (tr1 & Hrun1).
  destruct (pool_thread 1 _ _ _ _ [t0; tB] tr1 eq_refl (steps_run _ _ _ _ H1)) as (tr2 & Hrun2).
  destruct (pool_thread 0 _ _ _ _ [t0; Done (Ok tt)] tr2 eq_refl (steps_run _ _ _ _ H2)) as (tr3 & Hrun3).
  exists d0, d1. do 3 eexists. split.
  { rewrite (consume_initiation ord _ _ _ _ _ _ Hp0). unfold gignore. by rewrite Hs0, HcompB. }
  split; [cbn; by rewrite app_nil_r |]. split; [etrans; [exact Hrun1 | etrans; [exact Hrun2 | exact Hrun3]] |].
  split; [done |]. cbn. split; [unfold GetByVpnIP; cbn; rewrite Hip; by rewrite lookup_insert_eq |].
  split; [done |]. rewrite app_nil_r, Ho3, Ho1. done.
Qed.
