(* ===== verification/Duplicate.v ===== *)
(** * An initiation that arrives twice

    [HandleStage0] keeps no record of the initiations it answered and reads neither
    the time in their details nor the sessions it already has, so a second copy of
    an initiation opens a second session and replaces the first one in the registry.
    The copies come from a retry that crosses the answer, from the network, or from
    whoever recorded the datagram. *)

From S2P Require Import Prelude Bytes Header Net Replay GoText Config Firewall Messages External Cert.
From S2P Require Import NoiseUtil HostMap Handshake HandshakeManager Punchy LightHouse Ipv4 Session Interface DataPlane.
From S2P Require Import EndToEnd Integrity.

Section Duplicate.

Context {crypto : CryptoLib} {noise : NoiseLib} {proto : ProtoLib} {certlib : CertLib}.
Context (ord : gmap Addr (list UDPAddr) → list (Addr * list UDPAddr)).

(** A response whose index no handshake waits for does nothing. *)
Lemma unknown_response e d i c from w :
  Parse d = Ok (mkHeader Version TypeHandshake HandshakeResponse i c) → indexMap (mgr w) !! i = None →
  consumeOutsidePacket ord e d from w = (w, Ok tt).
Proof.
  intros Hp Hi. rewrite (consume_response ord _ _ _ _ _ _ Hp). unfold gignore, HandleStage1.
  rewrite decide_False by (apply Parse_length in Hp; lia). rewrite Hp. do 2 erewrite gbind_ok by reflexivity.
  cbn [hRemoteIndex]. by rewrite Hi.
Qed.

(** A packet for an address with a session is sealed on it and sent to its remote. *)
Lemma inside_session e q dst pr port w l h fw :
  Daemon_ok (rest w) → flow_of q dst pr port →
  GetByVpnIP dst (ifHostMap (rest w)) = Some l → ifHosts (rest w) !! l = Some h →
  AllowOutbound dst (host_groups (Some h)) port pr (nowTrack e) (ifFw (rest w)) = (fw, true) →
  ∃ w' c, consumeInsidePacket e q w = (w', Ok tt) ∧ in_u 64 c ∧
    out w' = out w ++ [UDPSend (message_wire h c q) (Remote h)].
Proof.
  intros Hok Hflow Hip Hl Hallow.
  rewrite (consumeInside_eq e q dst pr port w fw true Hok Hflow) by (by rewrite Hip, Hl).
  rewrite Hip, Hl, (sendToRemote_eq e l q (with_fw fw w) h Hl). do 2 eexists. split; [done |].
  split; [by apply wrap_in_u | done].
Qed.

(** A data packet sealed under another key than that of the session it names
    produces no output. *)
Lemma wrong_key_silent e h c q from w l hA :
  Daemon_ok (rest w) → in_u 32 (RemoteIndex h) → in_u 64 c →
  GetByIndex (RemoteIndex h) (ifHostMap (rest w)) = Some l → ifHosts (rest w) !! l = Some hA →
  separate (RecvCipher hA) (SendCipher h) →
  ∃ w', consumeOutsidePacket ord e (message_wire h c q) from w = (w', Ok tt) ∧ out w' = out w.
Proof.
  intros Hok Hi Hc Hl Hh Hsep. destruct (message_wire_read h c q Hi Hc) as (Hp & Ht & Hd).
  rewrite (consume_message ord e _ _ from Hp eq_refl).
  destruct (handleMessage_cases e (message_wire h c q) (mkHeader Version TypeMessage 0 (RemoteIndex h) c) from w Hok Hc) as (w' & Hcase & Hrun).
  exists w'. split; [exact Hrun |]. cbn [hRemoteIndex hMessageCounter] in Hcase.
  destruct Hcase as [o Hnone _ | | l' h' hist win w' Hl' Hh' _ _ _ Hop]; cbn [hRemoteIndex] in *; [by rewrite Hl in Hnone | done |].
  rewrite Hl in Hl'. injection Hl' as <-. rewrite Hh in Hh'. injection Hh' as <-.
  destruct Hop as [| p Ho | p fw' Ho | p fw' Ho]; [done | | |]; by rewrite Hd, Ht, (Hsep _ _ _ _ _) in Ho.
Qed.

End Duplicate.

(** ** Properties *)

(** C16. A handshake whose initiation arrives twice does not give a working tunnel:
    node A reads a packet for B and sends the initiation [d0]; B answers it, and
    answers a second copy that comes from any address [from'], at any later time at
    which A's certificate still verifies; A completes the handshake with the first
    answer, sends the packet, and ignores the second answer.  From then on B's
    registry holds the session of the second answer under A's address: a packet B
    reads for A is sealed under that session's key and sent to [from'], the source
    of the copy; and if that key is not the one A has, A writes nothing to its TUN
    device when it receives the datagram. *)
Theorem repeated_initiation {crypto : CryptoLib} {noise : NoiseLib} {proto : ProtoLib} {certlib : CertLib}
    {crypto_laws : CryptoLaws} {noise_laws : NoiseLaws} {proto_laws : ProtoLaws} ord
    (wA wB : World Daemon) certA certB eA0 eB0 eB1 eA1 eA2 eB2 eA3 i j j' pkt dst pr port addr more from from'
    addr1 addr2 addr3 fwA q prq portq fwB :
  Daemon_ok (rest wA) → Daemon_ok (rest wB) → trust (mgr wA) (mgr wB) certA certB eB0 eA1 →
  Verify certA (caPool (mgr wB)) (nowVerify eB1) = Ok tt → flow_of pkt dst pr port →
  GetByVpnIP dst (ifHostMap (rest wA)) = None → pending (mgr wA) !! dst = None →
  getPeerCert dst (rest wA) = Some certB → GetAddrs dst (ifLighthouse (rest wA)) = addr :: more →
  AllowOutbound dst [] port pr (nowTrack eA0) (ifFw (rest wA)) = (fwA, true) →
  draws_index eA0 i → draws_index eB0 j → draws_index eB1 j' →
  (∀ d t, udpResult eA0 d t = None) → (∀ d t, udpResult eB0 d t = None) → (∀ d t, udpResult eB1 d t = None) →
  flow_of q (pIP (cVpnIP certA)) prq portq →
  AllowOutbound (pIP (cVpnIP certA)) (cGroups certA) portq prq (nowTrack eB2) (ifFw (rest wB)) = (fwB, true) →
  ∃ d0 d1 d1' d2 d3 wA1 wB1 wB2 wA2 wB3 l hA l' hB',
    consumeInsidePacket eA0 pkt wA = (wA1, Ok tt) ∧ out wA1 = out wA ++ [UDPSend d0 addr] ∧
    consumeOutsidePacket ord eB0 d0 from wB = (wB1, Ok tt) ∧ out wB1 = out wB ++ [UDPSend d1 from] ∧
    consumeOutsidePacket ord eB1 d0 from' wB1 = (wB2, Ok tt) ∧ out wB2 = out wB1 ++ [UDPSend d1' from'] ∧
    consumeOutsidePacket ord eA1 d1 addr1 wA1 = (wA2, Ok tt) ∧ out wA2 = out wA1 ++ [UDPSend d2 addr] ∧
    consumeOutsidePacket ord eA2 d1' addr2 wA2 = (wA2, Ok tt) ∧
    GetByVpnIP dst (ifHostMap (rest wA2)) = Some l ∧ ifHosts (rest wA2) !! l = Some hA ∧
    GetByVpnIP (pIP (cVpnIP certA)) (ifHostMap (rest wB2)) = Some l' ∧ ifHosts (rest wB2) !! l' = Some hB' ∧
    Remote hB' = from' ∧
    consumeInsidePacket eB2 q wB2 = (wB3, Ok tt) ∧ out wB3 = out wB2 ++ [UDPSend d3 from'] ∧
    (separate (RecvCipher hA) (SendCipher hB') →
     ∃ wA3, consumeOutsidePacket ord eA3 d3 addr3 wA2 = (wA3, Ok tt) ∧ out wA3 = out wA2).
Proof.
  intros HokA HokB Htrust Hlater Hflow Hnone Hpend Hcert Haddr Hout Hi Hj Hj' HuA HuB HuB' Hq Houtq.
  pose proof (proj2 (draws_index_spec _ _ Hi)) as Hi32.
  destruct (first_exchange_run ord wA wB certA certB eA0 eB0 eA1 i j pkt dst pr port addr more from addr1 fwA
    HokA HokB Htrust Hflow Hnone Hpend Hcert Haddr Hout Hi Hj HuA HuB)
    as (d0 & d1 & hA & hB & wA1 & wB1 & wA2 & HA1 & HoA1 & HB1 & HoB1 & HA2 & HoA2 & (HokA2 & HopA) &
        (HokB1 & HmB1 & HfwB1 & _) & _ & HipA & _ & _ & _ & HidxA & _ & _ & Hgone).
  assert (Htrust' : trust (mgr wA) (mgr wB1) certA certB eB1 eA1) by (rewrite HmB1; by destruct Htrust).
  destruct (first_exchange_run ord wA wB1 certA certB eA0 eB1 eA1 i j' pkt dst pr port addr more from' addr1 fwA
    HokA HokB1 Htrust' Hflow Hnone Hpend Hcert Haddr Hout Hi Hj' HuA HuB')
    as (d0' & d1' & hA2 & hB' & wA1' & wB2 & _ & HA1' & HoA1' & HB2 & HoB2 & _ & _ & _ &
        (HokB2 & _ & HfwB2 & HopB) & (_ & _ & _ & Hri) & _ & HipB & HcB & HremB & HidxA2 & _ & Hp1' & _).
  rewrite HA1 in HA1'. injection HA1' as <-. rewrite HoA1 in HoA1'. apply app_inv_head in HoA1'. injection HoA1' as <-.
  destruct HopA as (l & hA' & Hl & (_ & _ & _ & _ & _ & HrecvA & _) & _ & HixA & HgA).
  destruct HopB as (l' & hB2 & Hl' & (_ & HremB2 & _ & HriB2 & HsendB2 & _ & HcB2) & _ & _ & HgB).
  destruct (inside_session eB2 q (pIP (cVpnIP certA)) prq portq wB2 l' hB2 fwB HokB2 Hq) as (wB3 & c & HB3 & Hc & HoB3);
    [by rewrite <- HipB | done | unfold host_groups; by rewrite HcB2, HcB, HfwB2, HfwB1 |].
  rewrite HremB2, HremB in HoB3.
  exists d0, d1, d1', (message_wire hA 1 pkt), (message_wire hB2 c q), wA1, wB1, wB2, wA2, wB3, l, hA', l', hB2.
  split_and!; try done.
  - by eapply unknown_response.
  - by rewrite <- HipA.
  - by rewrite <- HipB.
  - by rewrite HremB2.
  - intros Hsep. apply (wrong_key_silent ord eA3 hB2 c q addr3 wA2 l hA' HokA2); try done; rewrite HriB2, Hri, HidxA2;
      [done | by rewrite <- HidxA].
Qed.
