(* ===== verification/Progress.v ===== *)
(** * What the goroutines get done

    [Guarantee] says what the daemon never does, whatever the scheduler decides;
    here is what it always does.  While no handshake and no close datagram
    arrives, the sessions of the starting state stay.  Then a goroutine that has
    handled its inputs has sent every packet it read for a connected peer that a
    rule admits, and delivered every genuine datagram whose packet a rule admits, provided the
    counters the daemon receives on a session are distinct and at most a window
    apart; and it did so in the order of its inputs.

    The judgement [safe] of [Goroutine] is used with a weaker invariant (the replay
    windows represent the accepted counters) and a stronger relation between
    states ([settled]) than in [Guarantee]. *)

From S2P Require Import Prelude Bytes Header Net Replay GoText Config Firewall Messages External Cert.
From S2P Require Import NoiseUtil HostMap Handshake HandshakeManager Punchy LightHouse Ipv4 Interface DataPlane.
From S2P Require Import Wire Startup Loops Goroutine Threads Concurrent Guarantee.

Section Progress.

Context {crypto : CryptoLib} {noise : NoiseLib} {proto : ProtoLib} {certlib : CertLib}.

Abbreviation trace := (list (nat * event)).
Abbreviation T := (thread (World Daemon) event).

(** ** What does not change *)

(** Sessions stay, the registry and the rules are fixed, and what was sent stays sent. *)
Definition settled (w w' : World Daemon) : Prop :=
  mono w w' ∧ ifHostMap (rest w') = ifHostMap (rest w) ∧ inbound (ifFw (rest w')) = inbound (ifFw (rest w)) ∧
  outbound (ifFw (rest w')) = outbound (ifFw (rest w)) ∧ out w `prefix_of` out w'.

#[global] Instance settled_preorder : PreOrder settled.
Proof.
  split.
  - intros w. split_and!; done.
  - intros w1 w2 w3 (H1 & H2 & H3 & H4 & H5) (K1 & K2 & K3 & K4 & K5).
    split_and!; [by etransitivity | congruence .. | by etransitivity].
Qed.

(** A section that does not touch the sessions either. *)
Definition frame (w w' : World Daemon) : Prop :=
  ifHosts (rest w') = ifHosts (rest w) ∧ ifHostMap (rest w') = ifHostMap (rest w) ∧
  inbound (ifFw (rest w')) = inbound (ifFw (rest w)) ∧ outbound (ifFw (rest w')) = outbound (ifFw (rest w)) ∧
  out w `prefix_of` out w'.

Lemma frame_settled w w' : frame w w' → settled w w'.
Proof. intros (H1 & H2 & H3 & H4 & H5). split_and!; [by apply mono_hosts | done ..]. Qed.

Lemma frame_emit (w : World Daemon) m o : frame w (mkWorld m (out w ++ o) (rest w)).
Proof. split_and!; [done .. | by apply prefix_app_r]. Qed.

Lemma frame_trans w1 w2 w3 : frame w1 w2 → frame w2 w3 → frame w1 w3.
Proof.
  intros (H1 & H2 & H3 & H4 & H5) (K1 & K2 & K3 & K4 & K5). split_and!; [congruence .. | by etransitivity].
Qed.

(** Goroutines whose sections have no event and touch no session. *)
Fixpoint quiet {A} (t : T A) : Prop :=
  match t with
  | Done _ => True
  | Act X m ev k => (∀ w, frame w (m w).1) ∧ (∀ r, ev r = []) ∧ ∀ r, quiet (k r)
  end.

Lemma quiet_catch {A B} (t : T A) (k : go A → T B) : quiet t → (∀ r, quiet (k r)) → quiet (tcatch t k).
Proof. intros Ht Hk. induction t as [r | X m ev c IH]; [apply Hk |]. destruct Ht as (H1 & H2 & H3). cbn. auto. Qed.

Lemma quiet_bind {A B} (t : T A) (k : A → T B) : quiet t → (∀ a, quiet (k a)) → quiet (tbind t k).
Proof. intros Ht Hk. apply quiet_catch; [done |]. by intros [a|e|]. Qed.

Lemma quiet_ignore {A} (t : T A) : quiet t → quiet (tignore t).
Proof. intros Ht. apply quiet_catch; [done |]. by intros [a|e|]. Qed.

Lemma quiet_for {A} (l : list A) (body : A → T unit) : (∀ x, quiet (body x)) → quiet (tfor l body).
Proof. intros H. induction l as [|x l IH]; [done |]. by apply quiet_bind. Qed.

Lemma quiet_atomic {A} (m : M (World Daemon) A) : (∀ w, frame w (m w).1) → quiet (atomic m).
Proof. by intros H. Qed.

Lemma quiet_view {A} (f : Daemon → A) : quiet (view f).
Proof. by apply quiet_atomic. Qed.

Lemma quiet_load l : quiet (atomic (load_host l)).
Proof. by apply quiet_atomic. Qed.

Lemma quiet_write e d a : quiet (WriteTo_go e d a).
Proof. apply quiet_atomic. intros w. apply frame_emit. Qed.

Hint Resolve quiet_catch quiet_bind quiet_ignore quiet_for quiet_view quiet_load quiet_write : neth.
Hint Extern 1 (quiet (Done _)) => exact I : neth.
Hint Extern 1 (quiet (tret _)) => exact I : neth.
Hint Extern 1 (quiet tpanic) => exact I : neth.
Hint Extern 1 (quiet (tlift _)) => exact I : neth.

(** ** The quiet handlers *)

Lemma quiet_lookup o : quiet (lookup_host_go o).
Proof. destruct o; cbn [lookup_host_go]; auto with neth. Qed.

Lemma quiet_scan rules ip groups port pr now : quiet (scan_rules_go rules ip groups port pr now).
Proof.
  induction rules as [|r rules IH]; [done |]. cbn [scan_rules_go]. destruct (matches _ _ _ _ _); [| done].
  by apply quiet_bind; [apply quiet_atomic |].
Qed.

Lemma quiet_Allow rules ip groups port pr now : quiet (Allow_go rules ip groups port pr now).
Proof.
  apply quiet_bind; [apply quiet_view |]. intros []; [done |].
  apply quiet_bind; [apply quiet_view |]. intros rs. apply quiet_scan.
Qed.

Lemma quiet_send e msg ip : quiet (send_go e msg ip).
Proof. apply quiet_bind; [apply quiet_view |]. intros addrs. destruct (marshalLightHousePacket msg); auto with neth. Qed.

Hint Resolve quiet_lookup quiet_Allow quiet_send : neth.

Lemma quiet_store ip addrs : quiet (atomic (store_addrs ip addrs)).
Proof. by apply quiet_atomic. Qed.

Lemma quiet_HandleMessage e msg from : quiet (HandleMessage_go e msg from).
Proof.
  unfold HandleMessage_go.
  destruct (GetQuery msg) as [q|]; [unfold handleQuery_go; destruct (ParseAddr _); auto with neth |].
  destruct (GetQueryReply msg) as [r|]; [unfold handleQueryReply_go; destruct (ParseAddr _); [apply quiet_store | done ..] |].
  destruct (GetUpdate msg) as [u|].
  { apply quiet_bind; [apply quiet_view |]. intros []; [apply quiet_store | done]. }
  destruct (GetWhoAmI msg) as [x|]; [unfold handleWhoAmI_go; auto with neth |].
  destruct (GetWhoAmIReply msg) as [r|].
  { unfold handleWhoAmIReply_go. destruct (wAddr r) as [p|]; [| done]. by destruct (ipPortToUDPAddr p); [apply quiet_atomic | ..]. }
  destruct (GetPunch msg) as [p|]; [| done]. apply quiet_bind; [apply quiet_view |]. intros [py|]; [| done].
  unfold Punch_go. destruct (punch py); auto with neth.
Qed.

Lemma quiet_QueryPeer e ip : quiet (QueryPeer_go e ip).
Proof. unfold QueryPeer_go. auto with neth. Qed.

Lemma quiet_Advertise e : quiet (Advertise_go e).
Proof. unfold Advertise_go. auto with neth. Qed.

Lemma quiet_RespondToPunch e p from : quiet (RespondToPunch_go e p from).
Proof. unfold RespondToPunch_go. destruct (respond p); auto with neth. Qed.

Lemma frame_QueuePacket ip pkt w : frame w (QueuePacket ip pkt w).1.
Proof.
  unfold QueuePacket. rewrite (gbind_ok get_mgr _ w w (mgr w)) by done.
  destruct (pending (mgr w) !! ip) as [l|]; [| done]. by destruct (phs (mgr w) !! l).
Qed.

Lemma frame_StartHandshake e ip addr cert w : frame w (StartHandshake e ip addr cert w).1.
Proof.
  unfold StartHandshake. rewrite (gbind_ok get_mgr _ w w (mgr w)) by done.
  destruct (pending (mgr w) !! ip); [done |]. unfold gbind at 1. destruct (randomIndex e); [| done ..]. cbn [go_wrap glift].
  unfold gbind at 1. destruct (NewInitiatorState _ _ _) as [hs| |]; [| done ..]. cbn [go_wrap glift].
  destruct (WriteMessage _ _ hs) as [hs' res]. unfold gbind at 1. destruct res as [[n cs]| |]; [| done ..]. cbn [go_wrap glift].
  unfold gbind at 1. destruct (buildHandshakePacket _ _ _ _ _) as [wire| |]; [| done ..]. cbn [glift].
  erewrite gbind_ok by reflexivity. exact (frame_emit w _ [UDPSend wire addr]).
Qed.

Lemma frame_retryPending e order now w : frame w (retryPending e order now w).1.
Proof.
  assert (H : ∀ w', frame w w' → frame w (retryPending e order now w').1); [| by apply H].
  apply keeps_for. intros [ip l] _ w' Hw'. eapply frame_trans; [exact Hw' |]. unfold retryOne.
  rewrite (gbind_ok get_mgr _ w' w' (mgr w')) by done. destruct (phs (mgr w') !! l) as [ph|]; [| done].
  destruct (_ <? _); [done |]. destruct (_ <=? _); [done |]. erewrite gbind_ok by reflexivity.
  unfold gignore, WriteTo. cbn. destruct (of_err _); exact (frame_emit w' _ [UDPSend _ _]).
Qed.

Context (ord : gmap Addr (list UDPAddr) → list (Addr * list UDPAddr)).
Context (pord : gmap Addr nat → list (Addr * nat)).

Lemma quiet_handleLightHouse e pkt hdr from : quiet (handleLightHouse_go ord e pkt hdr from).
Proof.
  apply quiet_bind; [apply quiet_view |]. intros l. apply quiet_bind; [apply quiet_lookup |]. intros host.
  apply quiet_bind; [destruct host as [[? h]|]; auto with neth |]. intros [s|]; [| done].
  destruct (unmarshal_lighthouse _); [apply quiet_HandleMessage | done ..].
Qed.

(** ** The work among the inputs *)

Context (w0 : World Daemon).

(** A packet read for a peer with a session, admitted by a rule: it is to be sent. *)
Definition to_send (a : action) : list (nat * bytes) :=
  match a with
  | ActInside _ pkt =>
      match dstIPFromIPv4 pkt, protoFromIPv4 pkt, dstPortFromIPv4 pkt with
      | Ok (Some dst), Ok pr, Ok port =>
          match GetByVpnIP dst (ifHostMap (rest w0)) with
          | Some l =>
              match ifHosts (rest w0) !! l with
              | Some h =>
                  if existsb (λ r, matches r dst (host_groups (Some h)) port pr) (outbound (ifFw (rest w0)))
                  then [(l, pkt)] else []
              | None => []
              end
          | None => []
          end
      | _, _, _ => []
      end
  | _ => []
  end.

(** The header of a data datagram, and the session it names. *)
Definition data_header (d : bytes) : option (Header * nat) :=
  if decide (length d < HeaderLen)%nat then None
  else
    match Parse d with
    | Ok hdr => if hType hdr =? TypeMessage then (hdr,.) <$> GetByIndex (hRemoteIndex hdr) (ifHostMap (rest w0)) else None
    | _ => None
    end.

(** The counter a data datagram presents to its session's window. *)
Definition presented (a : action) : list (nat * Z) :=
  match a with
  | ActOutside _ d _ => match data_header d with Some (hdr, l) => [(l, hMessageCounter hdr)] | None => [] end
  | _ => []
  end.

(** A datagram that opens under its session's key to a packet a rule admits: it is
    to be delivered. *)
Definition to_deliver (a : action) : list (nat * Z * bytes) :=
  match a with
  | ActOutside _ d _ =>
      match data_header d with
      | Some (hdr, l) =>
          match ifHosts (rest w0) !! l with
          | Some h =>
              match Open (RecvCipher h) (CounterNonce (hMessageCounter hdr)) (drop HeaderLen d) (take HeaderLen d) with
              | Some p =>
                  match srcIPFromIPv4 p, protoFromIPv4 p, dstPortFromIPv4 p with
                  | Ok (Some src), Ok pr, Ok port =>
                      if existsb (λ r, matches r src (host_groups (Some h)) port pr) (inbound (ifFw (rest w0)))
                      then [(l, hMessageCounter hdr, p)] else []
                  | _, _, _ => []
                  end
              | None => []
              end
          | None => []
          end
      | None => []
      end
  | _ => []
  end.

(** Inputs that leave the sessions alone: no handshake, no close. *)
Definition peaceful (a : action) : bool :=
  match a with
  | ActOutside _ d _ =>
      match Parse d with
      | Ok hdr => negb (hType hdr =? TypeHandshake) && negb (hType hdr =? TypeCloseTunnel)
      | _ => true
      end
  | _ => true
  end.

(** *** What a goroutine has done *)

Definition events (i : nat) (tr : trace) : list event :=
  omap (λ x, if decide (x.1 = i) then Some x.2 else None) tr.

Definition sent_packets (es : list event) : list (nat * bytes) :=
  omap (λ e, match e with Sealed l _ p => Some (l, p) | _ => None end) es.

Definition deliveries (es : list event) : list (nat * Z * bytes) :=
  omap (λ e, match e with Delivered l c p => Some (l, c, p) | _ => None end) es.

Definition on_wire (w : World Daemon) (l : nat) (c : Z) (p : bytes) : Prop :=
  ∃ h, ifHosts (rest w) !! l = Some h ∧ UDPSend (message_wire h c p) (Remote h) ∈ out w.

Lemma events_others i tr new : Forall (λ x : nat * event, x.1 ≠ i) new → events i (tr ++ new) = events i tr.
Proof.
  intros H. unfold events. rewrite omap_app. induction H as [|x new Hx _ IH]; [apply app_nil_r |]. cbn. by rewrite decide_False.
Qed.

Lemma events_own i tr es : events i (tr ++ map (i,.) es) = events i tr ++ es.
Proof.
  unfold events. rewrite omap_app. f_equal. induction es as [|e es IH]; [done |]. cbn. rewrite decide_True by done. by f_equal.
Qed.

Lemma events_in i tr e : e ∈ events i tr ↔ (i, e) ∈ tr.
Proof.
  unfold events. rewrite list_elem_of_omap. split.
  - intros ([j e'] & Hin & Hx). cbn in Hx. case_decide; [| done]. by simplify_eq.
  - intros Hin. exists (i, e). split; [done |]. cbn. by rewrite decide_True.
Qed.

Lemma on_wire_settled w w' l c p : settled w w' → on_wire w l c p → on_wire w' l c p.
Proof.
  intros (Hm & _ & _ & _ & [new Ho]) (h & Hl & Hin). destruct (Hm _ _ Hl) as (h' & Hl' & Hid).
  destruct (message_wire_same h h' c p Hid) as [Hw Hr]. exists h'. split; [done |].
  rewrite <- Hw, <- Hr, Ho. apply elem_of_app. by left.
Qed.

(** What goroutine [i] has done: it sent [A] and delivered [B] in this order, perhaps among
    others, and drew only counters [C] from the windows; everything it sealed, [X]
    perhaps excepted, is on the wire. *)
Record progress (A : list (nat * bytes)) (B : list (nat * Z * bytes)) (C : list (nat * Z))
    (X : option (nat * Z * bytes)) (w : World Daemon) (es : list event) : Prop := {
  pr_settled : settled w0 w;
  pr_sent : A `sublist_of` sent_packets es;
  pr_wire l c p : Sealed l c p ∈ es → X = Some (l, c, p) ∨ on_wire w l c p;
  pr_delivered : B `sublist_of` deliveries es;
  pr_accepted l c : Accepted l c ∈ es → (l, c) ∈ C;
}.

(** A goroutine may remember it. *)
Definition grows (P : World Daemon → list event → Prop) : Prop := ∀ w w' es, P w es → settled w w' → P w' es.

Lemma progress_grows A B C X : grows (progress A B C X).
Proof.
  intros w w' es [H1 H2 H3 H4 H5] Hs. split; [by etransitivity | done | | done | done].
  intros l c p Hin. destruct (H3 _ _ _ Hin) as [? | Hw]; [by left | right; by eapply on_wire_settled].
Qed.

Lemma progress_weaken A B C X A' B' C' w es :
  A' `sublist_of` A → B' `sublist_of` B → C ⊆ C' → progress A B C X w es → progress A' B' C' X w es.
Proof.
  intros HA HB HC [H1 H2 H3 H4 H5]. split; [done | by etransitivity | done | by etransitivity |].
  intros l c Hin. by apply HC, H5.
Qed.

Lemma grows_and P (φ : World Daemon → Prop) :
  grows P → (∀ w w', φ w → settled w w' → φ w') → grows (λ w es, P w es ∧ φ w).
Proof. intros HP Hφ w w' es [H1 H2] Hs. split; [by eapply HP | by eapply Hφ]. Qed.

(** ** The judgement *)

Context (gs : list (list action)).

(** The windows represent what was accepted, and every goroutine's acceptances are of
    counters among its inputs. *)
Definition windows (w : World Daemon) (tr : trace) : Prop :=
  (∀ l h, ifHosts (rest w) !! l = Some h → represents (rev (accepted l tr)) (hWindow h)) ∧
  ∀ j l c, (j, Accepted l c) ∈ tr → ∃ g, gs !! j = Some g ∧ (l, c) ∈ flat_map presented g.

(** [Q] if the goroutine returns a value. *)
Definition ends {A} (i : nat) (Q : A → World Daemon → list event → Prop) (r : go A) (w : World Daemon) (tr : trace) : Prop :=
  match r with Ok a => Q a w (events i tr) | _ => True end.

Definition runs {A} (i : nat) (P : World Daemon → list event → Prop) (t : T A)
    (Q : A → World Daemon → list event → Prop) : Prop :=
  ∀ w tr, P w (events i tr) → safe windows settled i t (ends i Q) w tr.

Lemma runs_ret {A} i (P : World Daemon → list event → Prop) (a : A) (Q : A → World Daemon → list event → Prop) :
  (∀ w es, P w es → Q a w es) → runs i P (tret a) Q.
Proof. intros H w tr HP. by apply H. Qed.

Lemma runs_stops {A} i P (r : go A) Q : (∀ a, r ≠ Ok a) → runs i P (Done r) Q.
Proof. intros H w tr _. destruct r as [a|e|]; [by destruct (H a) | done | done]. Qed.

Lemma runs_pre {A} i (P P' : World Daemon → list event → Prop) (t : T A) Q :
  runs i P t Q → (∀ w es, P' w es → P w es) → runs i P' t Q.
Proof. intros H HP w tr Hw. by apply H, HP. Qed.

Lemma runs_post {A} i P (t : T A) (Q Q' : A → World Daemon → list event → Prop) :
  runs i P t Q → (∀ a w es, Q a w es → Q' a w es) → runs i P t Q'.
Proof. intros H HQ w tr Hw. eapply safe_weaken; [by apply H |]. intros [a|e|] w' tr'; cbn; auto. Qed.

Lemma runs_bind {A B} i P (t : T A) (k : A → T B) R Q :
  runs i P t R → (∀ a, runs i (R a) (k a) Q) → runs i P (tbind t k) Q.
Proof.
  intros Ht Hk w tr Hw. eapply safe_catch; [by apply Ht |]. intros [a|e|] w' tr' H; cbn in *; [by apply Hk | done | done].
Qed.

Lemma runs_pure {A} i (φ : Prop) P (t : T A) Q : (φ → runs i P t Q) → runs i (λ w es, P w es ∧ φ) t Q.
Proof. intros H w tr [HP Hf]. by apply H. Qed.

Lemma runs_lift {A B} i P (x : go A) (k : A → T B) Q :
  (∀ a, x = Ok a → runs i P (k a) Q) → runs i P (tbind (tlift x) k) Q.
Proof. intros H. destruct x as [a|e|]; [by apply H | by apply runs_stops | by apply runs_stops]. Qed.

(** One section and what follows. *)
Lemma runs_act {A X} i P (m : M (World Daemon) X) ev (k : go X → T A) R Q :
  grows P →
  (∀ w tr, windows w tr → P w (events i tr) →
     settled w (m w).1 ∧ windows (m w).1 (tr ++ map (i,.) (ev (m w).2)) ∧
     R (m w).2 (m w).1 (events i tr ++ ev (m w).2)) →
  (∀ r, runs i (R r) (k r) Q) → runs i P (Act X m ev k) Q.
Proof.
  intros HP Hm Hk w tr Hw w1 tr1 [Hs (new & -> & Hnew)] HI.
  destruct (Hm w1 (tr ++ new) HI) as (H1 & H2 & H3); [rewrite events_others by done; by eapply HP |].
  split_and!; [done | done |]. apply Hk. by rewrite events_own.
Qed.

Lemma windows_frame w w' tr : frame w w' → windows w tr → windows w' tr.
Proof. intros (H1 & _) [H2 H3]. split; [by rewrite H1 | done]. Qed.

Lemma runs_quiet {A} i P (t : T A) : quiet t → grows P → runs i P t (λ _, P).
Proof.
  intros Hq HP. induction t as [r | X m ev k IH].
  - intros w tr Hw. by destruct r.
  - destruct Hq as (H1 & H2 & H3). apply (runs_act i P m ev k (λ _, P)); [done | | auto].
    intros w tr HI Hw. rewrite H2, !app_nil_r. split_and!; [by apply frame_settled | by eapply windows_frame |].
    eapply HP; [done |]. by apply frame_settled.
Qed.

(** A read of something fixed. *)
Lemma runs_view {A B} i P (f : Daemon → A) (k : A → T B) Q :
  grows P → (∀ w es, P w es → f (rest w) = f (rest w0)) → runs i P (k (f (rest w0))) Q →
  runs i P (tbind (view f) k) Q.
Proof.
  intros HP Hf Hk. apply (runs_act i P _ _ _ (λ r w es, P w es ∧ r = Ok (f (rest w0)))); [done | |].
  - intros w tr HI Hw. cbn. rewrite !app_nil_r. split_and!; [done | done | done |]. f_equal. by eapply Hf.
  - intros r. apply runs_pure. by intros ->.
Qed.

Lemma runs_any {A B} i P (f : Daemon → A) (k : A → T B) Q :
  grows P → (∀ a, runs i P (k a) Q) → runs i P (tbind (view f) k) Q.
Proof. intros HP Hk. eapply runs_bind; [by apply runs_quiet; [apply quiet_view |] | done]. Qed.

(** The session found is, up to its counters, the one of the starting state. *)
Definition as_before (l : nat) (h : HostInfo) : Prop :=
  ∀ h0, ifHosts (rest w0) !! l = Some h0 → same_identity h0 h.

Lemma runs_load {A} i P l (k : HostInfo → T A) Q :
  grows P → (∀ w es, P w es → settled w0 w) →
  (∀ h, as_before l h → runs i (λ w es, P w es ∧ known l h w []) (k h) Q) →
  runs i P (tbind (atomic (load_host l)) k) Q.
Proof.
  intros HP Hs Hk. apply (runs_act i P _ _ _ (λ r w es, P w es ∧
    match r with Ok h => as_before l h ∧ known l h w [] | _ => True end)); [done | |].
  - intros w tr HI Hw. cbn. rewrite !app_nil_r. split_and!; [done | done | done |].
    destruct (ifHosts (rest w) !! l) as [h|] eqn:Hl; [| done]. split.
    + intros h0 Hl0. destruct (Hs _ _ Hw) as (Hm & _). destruct (Hm _ _ Hl0) as (h' & Hl' & Hid). by simplify_eq.
    + exists h. split; [done | apply same_identity_refl].
  - intros [h|e|]; [| by apply runs_stops ..]. cbn.
    eapply runs_pre; [apply (runs_pure i (as_before l h)); intros Hb; by apply Hk |]. naive_solver.
Qed.

Lemma known_grows P l h : grows P → grows (λ w es, P w es ∧ known l h w []).
Proof. intros HP. apply grows_and; [done |]. intros w w' Hk (Hm & _). by apply (fact_known l h w [] w' []). Qed.

Lemma runs_lookup i P l :
  grows P → (∀ w es, P w es → settled w0 w) →
  runs i P (lookup_host_go (Some l)) (λ r w es, P w es ∧ ∃ h, r = Some (l, h) ∧ as_before l h).
Proof.
  intros HP Hs. apply runs_load; [done | done |]. intros h Hb. apply runs_ret. intros w es [Hw _]. split; [done |]. by exists h.
Qed.

(** The filter admits what a rule of the starting state admits. *)
Lemma runs_scan i P rules ip groups port pr now :
  grows P → runs i P (scan_rules_go rules ip groups port pr now)
    (λ b w es, P w es ∧ (existsb (λ r, matches r ip groups port pr) rules = true → b = true)).
Proof.
  intros HP. induction rules as [|r rules IH]; cbn [scan_rules_go existsb]; [by apply runs_ret |].
  destruct (matches r ip groups port pr); [| exact IH].
  eapply runs_bind; [by apply runs_quiet; [apply quiet_atomic |] |]. intros []. by apply runs_ret.
Qed.

Lemma runs_Allow i P (rules : Firewall → list Rule) ip groups port pr now :
  grows P → (∀ w es, P w es → rules (ifFw (rest w)) = rules (ifFw (rest w0))) →
  runs i P (Allow_go rules ip groups port pr now)
    (λ b w es, P w es ∧ (existsb (λ r, matches r ip groups port pr) (rules (ifFw (rest w0))) = true → b = true)).
Proof.
  intros HP Hr. apply runs_any; [done |]. intros []; [by apply runs_ret |].
  apply (runs_view i P (λ d, rules (ifFw d))); [done | done |]. by apply runs_scan.
Qed.

Lemma runs_atomic_ev {A} i P (m : M (World Daemon) A) ev Q :
  grows P →
  (∀ w tr, windows w tr → P w (events i tr) → settled w (m w).1 ∧
     match (m w).2 with
     | Ok a => windows (m w).1 (tr ++ map (i,.) (ev a)) ∧ Q a (m w).1 (events i tr ++ ev a)
     | _ => windows (m w).1 tr
     end) →
  runs i P (atomic_ev m ev) Q.
Proof.
  intros HP Hm. apply (runs_act i P m _ _ (λ r w es, match r with Ok a => Q a w es | _ => True end)); [done | |].
  - intros w tr HI Hw. destruct (Hm w tr HI Hw) as [Hs H]. destruct (m w).2 as [a|e|]; cbn; rewrite ?app_nil_r; naive_solver.
  - intros [a|e|]; [by apply runs_ret | by apply runs_stops | by apply runs_stops].
Qed.

(** ** Sending *)

Lemma windows_seal w tr i l h c p :
  ifHosts (rest w) !! l = Some h → windows w tr → windows (put_host l (set_Counter c h) w) (tr ++ [(i, Sealed l c p)]).
Proof.
  intros Hl [H1 H2]. split.
  - intros l' h'. rewrite accepted_sealed. cbn. intros [[<- <-] | [_ Hl']]%lookup_insert_Some; [cbn |]; eauto.
  - intros j l' c' [Hin | Hin%list_elem_of_singleton]%elem_of_app; [eauto | done].
Qed.

Lemma settled_put w l h h' : ifHosts (rest w) !! l = Some h → same_identity h h' → settled w (put_host l h' w).
Proof. intros Hl Hid. split_and!; [by eapply extends_update | done ..]. Qed.

Lemma progress_seal A B C w es l c p :
  progress A B C None w es → progress (A ++ [(l, p)]) B C (Some (l, c, p)) w (es ++ [Sealed l c p]).
Proof.
  intros [H1 H2 H3 H4 H5]. split; [done | | | |].
  - unfold sent_packets. rewrite omap_app. by apply sublist_app.
  - intros l' c' p' [Hin | [= -> -> ->]%list_elem_of_singleton]%elem_of_app; [| by left].
    destruct (H3 _ _ _ Hin) as [? | ?]; [done | by right].
  - unfold deliveries. rewrite omap_app. cbn. by rewrite app_nil_r.
  - intros l' c' [Hin | Hin%list_elem_of_singleton]%elem_of_app; [eauto | done].
Qed.

Lemma progress_settled A B C X w es : progress A B C X w es → settled w0 w.
Proof. by intros []. Qed.

Hint Resolve progress_grows progress_settled known_grows : neth.

Lemma runs_sendToRemote i A B C e l p :
  runs i (progress A B C None) (sendToRemote_go e l p) (λ _, progress (A ++ [(l, p)]) B C None).
Proof.
  unfold sendToRemote_go.
  eapply (runs_bind _ _ _ _ (λ c, progress (A ++ [(l, p)]) B C (Some (l, c, p)))).
  - apply runs_atomic_ev; [auto with neth |]. intros w tr HI Hw. unfold on_hosts, host_NextCounter.
    destruct (ifHosts (rest w) !! l) as [h|] eqn:Hl; [| by destruct w as [? ? []]]. cbn.
    assert (Hs : settled w (put_host l (set_Counter (u64 (Counter h + 1)) h) w)).
    { eapply settled_put; [done |]. unfold same_identity. auto 10. }
    split_and!; [exact Hs | by apply windows_seal |]. apply progress_seal. by eapply progress_grows.
  - intros c. apply runs_load; [auto with neth | eauto with neth |]. intros h _. unfold Encrypt.
    apply (runs_act i _ _ _ _ (λ _, progress (A ++ [(l, p)]) B C None)); [auto with neth | |].
    + intros w tr HI [Hw (h' & Hl & Hid)]. cbn. rewrite !app_nil_r.
      assert (Hf : frame w (emit [UDPSend (message_wire h c p) (Remote h)] w)) by apply frame_emit.
      split_and!; [by apply frame_settled | by eapply windows_frame |]. destruct Hw as [H1 H2 H3 H4 H5].
      split; [etransitivity; [done | by apply frame_settled] | done | | done | done].
      intros l' c' p' Hin. right. destruct (H3 _ _ _ Hin) as [[= <- <- <-] | Hw].
      * destruct (message_wire_same h h' c p Hid) as [Hm Hr]. exists h'. split; [done |].
        cbn. rewrite <- Hm, <- Hr. apply elem_of_app. right. by left.
      * by eapply on_wire_settled; [apply frame_settled |].
    + intros [a|er|]; [by apply runs_ret | by apply runs_ret | by apply runs_stops].
Qed.

(** ** Packets from the TUN device *)

(** With the session as it is found later, nothing changes about what is to be sent. *)
Lemma to_send_cases e pkt dst pr port l h :
  dstIPFromIPv4 pkt = Ok (Some dst) → protoFromIPv4 pkt = Ok pr → dstPortFromIPv4 pkt = Ok port →
  GetByVpnIP dst (ifHostMap (rest w0)) = Some l → as_before l h →
  to_send (ActInside e pkt) = [] ∨ to_send (ActInside e pkt) = [(l, pkt)] ∧
    existsb (λ r, matches r dst (host_groups (Some h)) port pr) (outbound (ifFw (rest w0))) = true.
Proof.
  intros Hd Hpr Hport Hl Hb. cbn [to_send]. rewrite Hd, Hpr, Hport, Hl.
  destruct (ifHosts (rest w0) !! l) as [h0|] eqn:Hl0; [| by left].
  destruct (Hb _ Hl0) as (_ & _ & _ & _ & _ & _ & Hc). unfold host_groups. rewrite Hc.
  destruct (existsb _ _); [by right | by left].
Qed.

Lemma settled_outbound w : settled w0 w → outbound (ifFw (rest w)) = outbound (ifFw (rest w0)).
Proof. by intros (_ & _ & _ & ? & _). Qed.

Lemma settled_inbound w : settled w0 w → inbound (ifFw (rest w)) = inbound (ifFw (rest w0)).
Proof. by intros (_ & _ & ? & _ & _). Qed.

Lemma settled_hostmap w : settled w0 w → ifHostMap (rest w) = ifHostMap (rest w0).
Proof. by intros (_ & ? & _ & _ & _). Qed.

Lemma runs_consumeInside i A B C e pkt :
  runs i (progress A B C None) (consumeInsidePacket_go e pkt)
    (λ _, progress (A ++ to_send (ActInside e pkt)) B C None).
Proof.
  unfold consumeInsidePacket_go. apply runs_lift. intros [dst|] Hdst.
  2:{ apply runs_ret. intros w es. cbn [to_send]. by rewrite Hdst, app_nil_r. }
  apply (runs_view i _ (λ d, GetByVpnIP dst (ifHostMap d))); [auto with neth | |].
  { intros w es Hw. f_equal. by eapply settled_hostmap, progress_settled. }
  destruct (GetByVpnIP dst (ifHostMap (rest w0))) as [l|] eqn:Hl.
  - eapply runs_bind; [apply runs_lookup; eauto with neth |]. intros host. apply runs_pure. intros (h & -> & Hb).
    cbn [fmap option_fmap option_map snd]. apply runs_lift. intros pr Hpr. apply runs_lift. intros port Hport.
    pose proof (to_send_cases e pkt dst pr port l h Hdst Hpr Hport Hl Hb) as Hcases.
    eapply runs_bind; [apply runs_Allow; [auto with neth |] |].
    { intros w es Hw. by eapply settled_outbound, progress_settled. }
    intros b. apply runs_pure. intros Hallow. destruct b; cbn [negb].
    + eapply runs_post; [apply runs_sendToRemote |]. intros [] w es. apply progress_weaken; [| done | done].
      apply sublist_app; [done |]. destruct Hcases as [-> | [-> _]]; [apply sublist_nil_l | done].
    + apply runs_ret. intros w es. destruct Hcases as [-> | [_ H]]; [by rewrite app_nil_r | by specialize (Hallow H)].
  - assert (Hnone : to_send (ActInside e pkt) = []).
    { cbn [to_send]. rewrite Hdst, Hl. by destruct (protoFromIPv4 pkt), (dstPortFromIPv4 pkt). }
    rewrite Hnone, app_nil_r. apply runs_quiet; [| auto with neth]. unfold tbind at 1. cbn [lookup_host_go tcatch tret].
    apply quiet_bind; [done |]. intros pr. apply quiet_bind; [done |]. intros port.
    apply quiet_bind; [apply quiet_Allow |]. intros []; [| done]. cbn [negb].
    apply quiet_bind; [apply quiet_view |]. intros [cert|]; [| apply quiet_atomic, frame_QueuePacket].
    apply quiet_bind; [apply quiet_view |]. intros [|addr addrs].
    + apply quiet_bind; [apply quiet_QueryPeer |]. intros _. apply quiet_atomic, frame_QueuePacket.
    + apply quiet_catch; [apply quiet_atomic, frame_StartHandshake |].
      intros [a|er|]; [apply quiet_atomic, frame_QueuePacket | done | done].
Qed.

(** ** Packets from the UDP socket *)

Lemma windows_accept w tr i l h c win g :
  ifHosts (rest w) !! l = Some h → represents (c :: rev (accepted l tr)) win →
  gs !! i = Some g → (l, c) ∈ flat_map presented g → windows w tr →
  windows (put_host l (set_hWindow win h) w) (tr ++ [(i, Accepted l c)]).
Proof.
  intros Hl Hr Hg Hin [H1 H2]. split.
  - intros l' h'. rewrite accepted_add. cbn. intros [[<- <-] | [Hne Hl']]%lookup_insert_Some.
    + rewrite decide_True by done. by rewrite rev_app_distr.
    + rewrite decide_False, app_nil_r by done. eauto.
  - intros j l' c' [Hj | [= -> -> ->]%list_elem_of_singleton]%elem_of_app; [eauto | by exists g].
Qed.

Lemma progress_accept A B C w es l c :
  progress A B C None w es → progress A B (C ++ [(l, c)]) None w (es ++ [Accepted l c]).
Proof.
  intros [H1 H2 H3 H4 H5]. split; [done | | | |].
  - unfold sent_packets. rewrite omap_app. cbn. by rewrite app_nil_r.
  - intros l' c' p' [Hin | Hin%list_elem_of_singleton]%elem_of_app; [eauto | done].
  - unfold deliveries. rewrite omap_app. cbn. by rewrite app_nil_r.
  - intros l' c' [Hin | [= -> ->]%list_elem_of_singleton]%elem_of_app; apply elem_of_app; [left; eauto | right; by left].
Qed.

(** No goroutine presents a counter of goroutine [i]'s that it has not presented itself. *)
Record only_here (i : nat) (C : list (nat * Z)) (l : nat) (c : Z) : Prop := {
  oh_mine : ∃ g, gs !! i = Some g ∧ (l, c) ∈ flat_map presented g;
  oh_new : (l, c) ∉ C;
  oh_others j g : j ≠ i → gs !! j = Some g → (l, c) ∉ flat_map presented g;
  oh_window j g c' : gs !! j = Some g → (l, c') ∈ flat_map presented g → c' - c < replayWindowSize;
}.

Lemma only_here_fresh i A B C w tr l c :
  only_here i C l c → windows w tr → progress A B C None w (events i tr) → fresh_counter (rev (accepted l tr)) c.
Proof.
  intros [_ Hnew Hoth Hwin] [_ Hw] Hp. split.
  - rewrite list_elem_of_In, <- in_rev, <- list_elem_of_In. intros (j & Hj)%accepted_spec.
    destruct (decide (j = i)) as [->|Hne].
    + by apply Hnew, (pr_accepted _ _ _ _ _ _ Hp), events_in.
    + destruct (Hw _ _ _ Hj) as (g & Hg & Hin). by apply (Hoth j g).
  - apply Forall_forall. intros d. rewrite list_elem_of_In, <- in_rev, <- list_elem_of_In. intros (j & Hj)%accepted_spec.
    destruct (Hw _ _ _ Hj) as (g & Hg & Hin). by apply (Hwin j g).
Qed.

(** The window accepts it. *)
Lemma runs_check i A B C l c :
  in_u 64 c → only_here i C l c →
  runs i (progress A B C None)
    (atomic_ev (on_hosts (host_CheckReplay l c)) (λ replayed, if (replayed : bool) then [] else [Accepted l c]))
    (λ b w es, progress A B (C ++ [(l, c)]) None w es ∧ b = false).
Proof.
  intros Hc Hoh. apply runs_atomic_ev; [auto with neth |]. intros w tr HI Hw.
  destruct (ifHosts (rest w) !! l) as [h|] eqn:Hl.
  2:{ unfold on_hosts, host_CheckReplay. rewrite Hl. by destruct w as [? ? []]. }
  destruct (check_fresh l c h _ w Hl (proj1 HI _ _ Hl) Hc (only_here_fresh _ _ _ _ _ _ _ _ Hoh HI Hw)) as (win & Hr & ->). cbn.
  assert (Hs : settled w (put_host l (set_hWindow win h) w)) by (eapply settled_put; [done |]; unfold same_identity; auto 10).
  destruct (oh_mine _ _ _ _ Hoh) as (g & Hg & Hin).
  split_and!; [done | by eapply windows_accept | | done]. apply progress_accept. by eapply progress_grows.
Qed.

Lemma to_deliver_cases e pkt from hdr l h :
  data_header pkt = Some (hdr, l) → as_before l h →
  to_deliver (ActOutside e pkt from) = [] ∨
  ∃ p src pr port, Open (RecvCipher h) (CounterNonce (hMessageCounter hdr)) (drop HeaderLen pkt) (take HeaderLen pkt) = Some p ∧
    srcIPFromIPv4 p = Ok (Some src) ∧ protoFromIPv4 p = Ok pr ∧ dstPortFromIPv4 p = Ok port ∧
    existsb (λ r, matches r src (host_groups (Some h)) port pr) (inbound (ifFw (rest w0))) = true ∧
    to_deliver (ActOutside e pkt from) = [(l, hMessageCounter hdr, p)].
Proof.
  intros Hh Hb. cbn [to_deliver]. rewrite Hh. destruct (ifHosts (rest w0) !! l) as [h0|] eqn:Hl0; [| by left].
  destruct (Hb _ Hl0) as (_ & _ & _ & _ & _ & Hrc & Hc). unfold host_groups. rewrite Hc, Hrc.
  destruct (Open _ _ _ _) as [p|]; [| by left]. destruct (srcIPFromIPv4 p) as [[src|]| |] eqn:Hs; try by left.
  destruct (protoFromIPv4 p) as [pr| |] eqn:Hpr; try by left. destruct (dstPortFromIPv4 p) as [port| |] eqn:Hport; try by left.
  destruct (existsb _ _) eqn:He; [| by left]. right. by exists p, src, pr, port.
Qed.

Lemma progress_deliver A B C w es l c p :
  progress A B C None w es → progress A (B ++ [(l, c, p)]) C None w (es ++ [Delivered l c p]).
Proof.
  intros [H1 H2 H3 H4 H5]. split; [done | | | |].
  - unfold sent_packets. rewrite omap_app. cbn. by rewrite app_nil_r.
  - intros l' c' p' [Hin | Hin%list_elem_of_singleton]%elem_of_app; [eauto | done].
  - unfold deliveries. rewrite omap_app. by apply sublist_app.
  - intros l' c' [Hin | Hin%list_elem_of_singleton]%elem_of_app; [eauto | done].
Qed.

Lemma windows_other w tr i e : about_session e = false → windows w tr → windows w (tr ++ [(i, e)]).
Proof.
  intros He [H1 H2]. split; [intros l h Hl; rewrite accepted_other by done; eauto |].
  intros j l c [Hin | [= -> <-]%list_elem_of_singleton]%elem_of_app; [eauto | done].
Qed.

(** The last step of a delivery. *)
Lemma runs_tunWrite i A B C e l c p :
  runs i (progress A B C None)
    (Act unit (tunWrite e p) (λ _, [Delivered l c p]) (λ r, match r with Panic => Done Panic | _ => tret tt end))
    (λ _, progress A (B ++ [(l, c, p)]) C None).
Proof.
  apply (runs_act i _ _ _ _ (λ _, progress A (B ++ [(l, c, p)]) C None)); [auto with neth | |].
  - intros w tr HI Hw. cbn. assert (Hf : frame w (emit [TUNWrite p] w)) by apply frame_emit.
    split_and!; [by apply frame_settled | by apply windows_other; [| eapply windows_frame] |].
    apply progress_deliver. eapply progress_grows; [done | by apply frame_settled].
  - intros [a|er|]; [by apply runs_ret | by apply runs_ret | by apply runs_stops].
Qed.

Lemma runs_handleMessage i A B C e pkt hdr from :
  bytes_ok pkt → (HeaderLen ≤ length pkt)%nat → Parse pkt = Ok hdr → hType hdr = TypeMessage →
  (∀ l c, (l, c) ∈ presented (ActOutside e pkt from) → only_here i C l c) →
  runs i (progress A B C None) (handleMessage_go e pkt hdr from)
    (λ _, progress A (B ++ to_deliver (ActOutside e pkt from)) (C ++ presented (ActOutside e pkt from)) None).
Proof.
  intros Hok Hlen Hp Hty. assert (Hdh : data_header pkt = (hdr,.) <$> GetByIndex (hRemoteIndex hdr) (ifHostMap (rest w0))).
  { unfold data_header. rewrite decide_False by lia. rewrite Hp, Hty. done. }
  intros Hhere. apply (runs_view i _ (λ d, GetByIndex (hRemoteIndex hdr) (ifHostMap d))); [auto with neth | |].
  { intros w es Hw. f_equal. by eapply settled_hostmap, progress_settled. }
  destruct (GetByIndex (hRemoteIndex hdr) (ifHostMap (rest w0))) as [l|]; cbn in Hdh.
  2:{ cbn [to_deliver presented]. rewrite Hdh, !app_nil_r. apply runs_quiet; [| auto with neth].
      apply quiet_bind; [apply quiet_view |]. intros [py|]; [apply quiet_RespondToPunch | done]. }
  set (c := hMessageCounter hdr). assert (Hpres : presented (ActOutside e pkt from) = [(l, c)]) by (cbn [presented]; by rewrite Hdh).
  rewrite Hpres in Hhere |- *. eapply runs_bind; [apply runs_check; [by eapply Parse_counter | apply Hhere; by left] |].
  intros b. apply runs_pure. intros ->. cbn [negb]. apply runs_load; [auto with neth | eauto with neth |]. intros h Hb.
  eapply runs_pre; [| by intros w es [H _]; exact H].
  pose proof (to_deliver_cases e pkt from hdr l h Hdh Hb) as Hcases. unfold Decrypt. fold c in Hcases.
  assert (Hno : ∀ i' (t : T unit) , t = tret tt → to_deliver (ActOutside e pkt from) = [] →
    runs i' (progress A B (C ++ [(l, c)]) None) t (λ _, progress A (B ++ to_deliver (ActOutside e pkt from)) (C ++ [(l, c)]) None)).
  { intros i' t -> ->. apply runs_ret. intros w es. by rewrite app_nil_r. }
  destruct (Open _ _ _ _) as [p|] eqn:Ho; cbn [of_option].
  2:{ apply Hno; [done |]. destruct Hcases as [H | (? & ? & ? & ? & H1 & _)]; [exact H | congruence]. }
  apply runs_lift. intros [src|] Hsrc.
  2:{ apply Hno; [done |]. destruct Hcases as [H | (? & ? & ? & ? & H1 & H2 & _)]; [exact H | congruence]. }
  apply runs_lift. intros pr Hpr. apply runs_lift. intros port Hport.
  eapply runs_bind; [apply runs_Allow; [auto with neth |] |].
  { intros w es Hw. by eapply settled_inbound, progress_settled. }
  intros b. apply runs_pure. intros Hallow. destruct b; cbn [negb].
  2:{ apply Hno; [done |]. destruct Hcases as [H | (p' & src' & pr' & port' & H1 & H2 & H3 & H4 & H5 & _)]; [exact H |].
      assert (p' = p) as -> by congruence. assert (src' = src ∧ pr' = pr ∧ port' = port) as (-> & -> & ->) by (split_and!; congruence).
      by apply Hallow in H5. }
  eapply runs_post; [apply runs_tunWrite |]. intros [] w es. apply progress_weaken; [done | | done].
  apply sublist_app; [done |]. destruct Hcases as [-> | (? & ? & ? & ? & [= <-] & _ & _ & _ & _ & ->)]; [apply sublist_nil_l | done].
Qed.

(** ** Any input *)

Lemma runs_consumeOutside i A B C e pkt from :
  bytes_ok pkt → peaceful (ActOutside e pkt from) = true →
  (∀ l c, (l, c) ∈ presented (ActOutside e pkt from) → only_here i C l c) →
  runs i (progress A B C None) (consumeOutsidePacket_go ord e pkt from)
    (λ _, progress A (B ++ to_deliver (ActOutside e pkt from)) (C ++ presented (ActOutside e pkt from)) None).
Proof.
  intros Hok Hpeace Hhere. unfold consumeOutsidePacket_go.
  assert (Hquiet : ∀ t : T unit, data_header pkt = None → quiet t → runs i (progress A B C None) t
    (λ _, progress A (B ++ to_deliver (ActOutside e pkt from)) (C ++ presented (ActOutside e pkt from)) None)).
  { intros t Hd Hq. cbn [to_deliver presented]. rewrite Hd, !app_nil_r. apply runs_quiet; auto with neth. }
  case_decide as Hlen; [apply Hquiet; [| done]; unfold data_header; by rewrite decide_True |].
  destruct (Parse pkt) as [hdr| |] eqn:Hp; [| by apply Hquiet; [unfold data_header; rewrite decide_False, Hp by done |] ..].
  destruct (Z.eqb_spec (hType hdr) TypeMessage) as [Hty|Hty]; [apply runs_handleMessage; auto; lia |].
  cbn [peaceful] in Hpeace. rewrite Hp in Hpeace. apply andb_prop in Hpeace as [Hh Hc]. rewrite negb_true_iff in Hh, Hc. rewrite Hh, Hc.
  apply Hquiet; [unfold data_header; rewrite decide_False, Hp by done; by destruct (Z.eqb_spec (hType hdr) TypeMessage) |].
  destruct (hType hdr =? TypeLightHouse); [apply quiet_handleLightHouse |].
  destruct (hType hdr =? TypeTest); [| done]. unfold handleTest_go. auto with neth.
Qed.

Lemma runs_exec i A B C a :
  action_ok a → peaceful a = true → (∀ l c, (l, c) ∈ presented a → only_here i C l c) →
  runs i (progress A B C None) (exec_go ord pord a)
    (λ _, progress (A ++ to_send a) (B ++ to_deliver a) (C ++ presented a) None).
Proof.
  intros Hok Hpeace Hhere. destruct a as [e pkt | e pkt from | e now | e | now]; cbn [exec_go].
  - cbn [to_deliver presented]. rewrite !app_nil_r. apply runs_consumeInside.
  - cbn [to_send]. rewrite app_nil_r. by apply runs_consumeOutside.
  - cbn. rewrite !app_nil_r. apply runs_quiet; [| auto with neth]. apply quiet_atomic. intros w. apply frame_retryPending.
  - cbn [to_send to_deliver presented]. rewrite !app_nil_r. apply runs_quiet; [apply quiet_Advertise | auto with neth].
  - cbn. rewrite !app_nil_r. apply runs_quiet; [| auto with neth]. by apply quiet_atomic.
Qed.

(** ** All inputs of a goroutine *)

Lemma runs_loop i rest before A B :
  Forall action_ok rest → Forall (λ a, peaceful a = true) rest →
  (∀ pre a post l c, rest = pre ++ a :: post → (l, c) ∈ presented a →
     only_here i (flat_map presented (before ++ pre)) l c) →
  runs i (progress A B (flat_map presented before) None) (tfor rest (exec_go ord pord))
    (λ _, progress (A ++ flat_map to_send rest) (B ++ flat_map to_deliver rest)
            (flat_map presented (before ++ rest)) None).
Proof.
  revert before A B. induction rest as [|a rest IH]; intros before A B Hok Hpeace Hhere; cbn [tfor flat_map].
  { rewrite !app_nil_r. by apply runs_ret. }
  apply Forall_cons in Hok as [Ha Hok], Hpeace as [Hpa Hpeace].
  eapply runs_bind; [apply runs_exec; [done | done |] |].
  { intros l c Hin. specialize (Hhere [] a rest l c eq_refl Hin). by rewrite app_nil_r in Hhere. }
  intros []. replace (flat_map presented before ++ presented a) with (flat_map presented (before ++ [a])).
  2:{ rewrite flat_map_app. cbn. by rewrite app_nil_r. }
  rewrite !app_assoc. replace (before ++ a :: rest) with ((before ++ [a]) ++ rest) by (by rewrite <- app_assoc).
  apply IH; [done | done |]. intros pre b post l c -> Hin. rewrite <- app_assoc. by apply (Hhere (a :: pre) b post).
Qed.

(** Distinct counters are presented by one goroutine, once. *)
Lemma flat_map_disjoint {X Y} (f : X → list Y) (xs : list X) i j x x' y :
  NoDup (flat_map f xs) → xs !! i = Some x → xs !! j = Some x' → i ≠ j → y ∈ f x → y ∈ f x' → False.
Proof.
  revert i j. assert (Hin : ∀ (xs : list X) j x' y, xs !! j = Some x' → y ∈ f x' → y ∈ flat_map f xs).
  { clear. intros xs j x' y Hj Hy. rewrite list_elem_of_In, in_flat_map. exists x'.
    split; rewrite <- list_elem_of_In; [by eapply list_elem_of_lookup_2 | done]. }
  induction xs as [|x0 xs IH]; intros [|i] [|j] Hnd Hi Hj Hne Hy Hy'; cbn in *; simplify_eq;
    apply NoDup_app in Hnd as (_ & Hd & Hnd); [by apply (Hd y); [| eapply Hin] .. |]. eapply (IH i j); eauto.
Qed.

Lemma flat_map_lookup {X Y} (f : X → list Y) (xs : list X) i x : NoDup (flat_map f xs) → xs !! i = Some x → NoDup (f x).
Proof.
  revert i. induction xs as [|x0 xs IH]; intros [|i] Hnd Hi; cbn in *; simplify_eq; apply NoDup_app in Hnd as (H1 & _ & H2); eauto.
Qed.

Lemma distinct_only_here i g pre a post l c :
  NoDup (flat_map (flat_map presented) gs) →
  (∀ l c c', (l, c) ∈ flat_map (flat_map presented) gs → (l, c') ∈ flat_map (flat_map presented) gs →
     c' - c < replayWindowSize) →
  gs !! i = Some g → g = pre ++ a :: post → (l, c) ∈ presented a → only_here i (flat_map presented pre) l c.
Proof.
  intros Hnd Hwin Hg -> Hin.
  assert (Hmine : (l, c) ∈ flat_map presented (pre ++ a :: post)).
  { rewrite flat_map_app. cbn. apply elem_of_app. right. apply elem_of_app. by left. }
  assert (Hall : ∀ j g' x, gs !! j = Some g' → x ∈ flat_map presented g' → x ∈ flat_map (flat_map presented) gs).
  { intros j g' x Hj Hx. rewrite list_elem_of_In, in_flat_map. exists g'.
    split; rewrite <- list_elem_of_In; [by eapply list_elem_of_lookup_2 | done]. }
  split.
  - eauto.
  - pose proof (flat_map_lookup _ _ _ _ Hnd Hg) as Hnd'. rewrite flat_map_app in Hnd'. apply NoDup_app in Hnd' as (_ & Hd & _).
    intros Hc. apply (Hd _ Hc). cbn. apply elem_of_app. by left.
  - intros j g' Hne Hj Hx. by apply (flat_map_disjoint (flat_map presented) gs i j (pre ++ a :: post) g' (l, c)).
  - intros j g' c' Hj Hx. eauto.
Qed.

(** ** Soundness *)

Definition accomplished (i : nat) (r : go unit) (w : World Daemon) (tr : trace) : Prop :=
  ends i (λ _ w es, ∀ g, gs !! i = Some g →
    progress (flat_map to_send g) (flat_map to_deliver g) (flat_map presented g) None w es) r w tr.

Lemma accomplished_stable i r : stable (S := World Daemon) (E := event) settled i (accomplished i r).
Proof.
  intros w tr w' tr' H [Hs (new & -> & Hnew)]. destruct r as [[]|e|]; [| done | done]. cbn in *. intros g Hg.
  rewrite events_others by done. eapply progress_grows; [by apply H | done].
Qed.

Lemma pool_accomplishes p :
  Forall (Forall action_ok) gs → Forall (Forall (λ a, peaceful a = true)) gs →
  NoDup (flat_map (flat_map presented) gs) →
  (∀ l c c', (l, c) ∈ flat_map (flat_map presented) gs → (l, c') ∈ flat_map (flat_map presented) gs →
     c' - c < replayWindowSize) →
  (∀ l h, ifHosts (rest w0) !! l = Some h → hWindow h = newWindow) →
  rtc pool_step (Run_go ord pord gs w0) p → pool_safe_with windows settled accomplished p.
Proof.
  intros Hok Hpeace Hnd Hwin Hnew Hrun. eapply pool_safe_steps; [exact _ | apply accomplished_stable | exact Hrun |]. split.
  { split; [| by intros j l c ?%elem_of_nil]. intros l h Hl. rewrite (Hnew _ _ Hl). apply newWindow_represents. }
  intros i t Ht. cbn in Ht. apply list_lookup_fmap_Some in Ht as (g & -> & Hg).
  pose proof (Forall_lookup_1 _ _ _ _ Hok Hg) as Hok'. pose proof (Forall_lookup_1 _ _ _ _ Hpeace Hg) as Hpeace'.
  eapply safe_weaken; [apply (runs_loop i g [] [] []); [done | done | |] |].
  - intros pre a post l c Heq Hin. by eapply distinct_only_here.
  - split; [done | done | by intros ? ? ? ?%elem_of_nil | done | by intros ? ? ?%elem_of_nil].
  - intros [[]|e|] w tr H; [| done | done]. cbn in *. intros g' Hg'. by simplify_eq.
Qed.

End Progress.

(** ** Properties *)

(** C9. Completeness under concurrency: while no handshake and no close datagram
    arrives, and the counters received on each session are distinct and less than a replay
    window apart, then, however the goroutines are scheduled, one that has ended has
    sealed every packet it read for a peer with a session that an outbound rule
    admits, and delivered the packet of every datagram that opens under its session's
    key and that an inbound rule admits, both in the order of its inputs; all it
    sealed was handed to the socket, and all it delivered to the TUN device. *)
Theorem concurrent_completeness {crypto : CryptoLib} {noise : NoiseLib} {proto : ProtoLib} {certlib : CertLib}
    {returns : LibReturns} ord pord ins outs gs w p :
  starting ins outs w → execution ord pord gs w p → Forall (Forall (λ a, peaceful a = true)) gs →
  NoDup (flat_map (flat_map (presented w)) gs) →
  (∀ l c c', (l, c) ∈ flat_map (flat_map (presented w)) gs → (l, c') ∈ flat_map (flat_map (presented w)) gs →
     c' - c < replayWindowSize) →
  ∀ i g r, gs !! i = Some g → threads p !! i = Some (Done r) →
  let did := events i (history p) in
  flat_map (to_send w) g `sublist_of` sent_packets did ∧
  (∀ l c pkt, Sealed l c pkt ∈ did → on_wire (shared p) l c pkt) ∧
  flat_map (to_deliver w) g `sublist_of` deliveries did ∧
  (∀ l c pkt, Delivered l c pkt ∈ did → TUNWrite pkt ∈ out (shared p)).
Proof.
  intros Hw Hp Hpeace Hnd Hwin i g r Hg Hr did.
  destruct (execution_safe _ _ _ _ _ _ _ Hw Hp) as [HI Hret]. destruct (Hret _ _ Hr) as [[] ->].
  destruct Hp as (_ & Hok & Hrun).
  destruct (pool_accomplishes ord pord w gs p Hok Hpeace Hnd Hwin) as [_ Hacc]; [| done |].
  { intros l h Hl. by apply (start_sessions _ _ _ Hw l h). }
  destruct (Hacc _ _ Hr g Hg) as [_ H1 H2 H3 _]. split_and!; [done | | done |].
  - intros l c pkt Hin. by destruct (H2 _ _ _ Hin).
  - intros l c pkt Hin%events_in. pose proof (out_tun _ _ _ _ _ _ _ (inv_outputs _ _ _ _ _ _ HI)) as Htun.
    assert (Hd : pkt ∈ tun_writes (out (shared p))).
    { rewrite Htun. unfold delivered_packets. rewrite list_elem_of_omap. by exists (i, Delivered l c pkt). }
    unfold tun_writes in Hd. rewrite list_elem_of_omap in Hd. destruct Hd as ([d a | q] & Hin' & [= ->]). done.
Qed.
