(* ===== verification/Toy.v ===== *)
(** * A concrete instance of the external code

    Small executable stand-ins for the libraries of [External], satisfying the
    laws the theorems name, so that the theorems can be applied to concrete
    nodes.  They say nothing about the real libraries: they show that the laws
    can hold together. *)

From S2P Require Import Prelude Bytes Net GoText GoPath Messages External Cert CertTool Handshake.

(** ** Cryptography: the ciphertext shows key, nonce and data *)

Definition toy_sha (b : bytes) : bytes := map u8 (take 32 (b ++ replicate 32 0)).
Definition toy_seal (a n p ad : bytes) : bytes := (a ++ n ++ ad) ++ p.
Definition toy_open (a n c ad : bytes) : option bytes :=
  if decide (take (length (a ++ n ++ ad)) c = a ++ n ++ ad) then Some (drop (length (a ++ n ++ ad)) c) else None.
Definition toy_aes (k : bytes) : go bytes :=
  if decide (length k = 32%nat) then Ok k else Fail (Errorf "aes: invalid key size").

#[export] Instance toy_crypto : CryptoLib := {|
  sha256 := toy_sha;
  hmac_sha256 k d := take 8 k ++ [u8 (Z.of_nat (length d))];
  AEAD := bytes;
  NewAESGCM := toy_aes;
  Seal := toy_seal;
  Open := toy_open;
  X25519 s _ := Ok s;
|}.

#[export] Instance toy_crypto_laws : CryptoLaws.
Proof.
  split; cbn.
  - intros b. unfold toy_sha. rewrite length_map, length_take, length_app, length_replicate. lia.
  - intros b. apply Forall_fmap, Forall_forall. intros x _. by apply wrap_in_u.
  - intros k H. exists k. unfold toy_aes. by rewrite decide_True.
  - intros a n p ad. unfold toy_open, toy_seal. rewrite take_app_length, decide_True by done.
    by rewrite drop_app_length.
  - intros a n c ad p. unfold toy_open, toy_seal. case_decide as H; [| done]. intros [= <-].
    rewrite <- H at 1. by rewrite take_drop.
Qed.

(** ** Noise: two messages that carry the pre-shared key, the second of them also
    what the keys of the session are made from *)

Definition toy_keys (seed : bytes) : bytes * bytes := (0 :: seed, 1 :: seed).

#[export] Instance toy_noise : NoiseLib := {|
  HandshakeState := NoiseConfig * nat;
  CipherState := bytes;
  NewHandshakeState cfg := Ok (cfg, 0%nat);
  WriteMessage ent _ := λ '(cfg, n),
    match ncInitiator cfg, n with
    | true, 0%nat => ((cfg, 1%nat), Ok (ncPresharedKey cfg, None))
    | false, 1%nat => ((cfg, 2%nat), Ok (ncPresharedKey cfg ++ ent, Some (toy_keys (ent ++ ncPresharedKey cfg))))
    | _, _ => ((cfg, n), Fail (Errorf "noise: unexpected call to WriteMessage"))
    end;
  ReadMessage m := λ '(cfg, n),
    let psk := ncPresharedKey cfg in
    match ncInitiator cfg, n with
    | false, 0%nat =>
        if decide (m = psk) then ((cfg, 1%nat), Ok ([], None))
        else ((cfg, n), Fail (Errorf "noise: message authentication failed"))
    | true, 1%nat =>
        if decide (take (length psk) m = psk) then
          ((cfg, 2%nat), Ok ([], Some (toy_keys (drop (length psk) m ++ psk))))
        else ((cfg, n), Fail (Errorf "noise: message authentication failed"))
    | _, _ => ((cfg, n), Fail (Errorf "noise: unexpected call to ReadMessage"))
    end;
  UnsafeKey c := take 32 (c ++ replicate 32 0);
  is_keypair k := Public k = Private k;
|}.

#[export] Instance toy_noise_laws : NoiseLaws.
Proof.
  split; cbn.
  - intros ki kr psk e1 e2 _ _ _. do 12 eexists.
    do 3 (split; [reflexivity |]). split; [cbn; rewrite decide_True by done; reflexivity |].
    split; [reflexivity |]. split; [cbn; rewrite take_app_length, decide_True, drop_app_length by done; reflexivity |]. done.
  - intros c. change (length (take 32 (c ++ replicate 32 0)) = 32%nat).
    rewrite length_take, length_app, length_replicate. lia.
Qed.

#[export] Instance toy_dh_laws : DHLaws.
Proof. split; [intros k Hl Hk; by exists k | by intros k pub _ [= ->]]. Qed.

(** ** Byte strings and other data *)

(** Lists of byte strings written one after the other: a 1 before each byte, a 0
    after each string. *)
Definition put (b : bytes) : bytes := concat (map (λ x, [1; x]) b) ++ [0].

Fixpoint get (cur : bytes) (acc : list bytes) (s : bytes) : option (list bytes) :=
  match s with
  | 0 :: s' => get [] (acc ++ [cur]) s'
  | 1 :: x :: s' => get (cur ++ [x]) acc s'
  | [] => Some acc
  | _ => None
  end.

(** The first of them, with what follows. *)
Fixpoint get1 (cur : bytes) (s : bytes) : option (bytes * bytes) :=
  match s with
  | 0 :: s' => Some (cur, s')
  | 1 :: x :: s' => get1 (cur ++ [x]) s'
  | _ => None
  end.

Lemma put_cons x b : put (x :: b) = 1 :: x :: put b.
Proof. done. Qed.

Lemma get_put b cur acc r : get cur acc (put b ++ r) = get [] (acc ++ [cur ++ b]) r.
Proof.
  revert cur. induction b as [|x b IH]; intros cur; [by rewrite app_nil_r |].
  rewrite put_cons. cbn [app get]. rewrite IH. by rewrite <- app_assoc.
Qed.

Lemma get1_put b cur r : get1 cur (put b ++ r) = Some (cur ++ b, r).
Proof.
  revert cur. induction b as [|x b IH]; intros cur; [by cbn; rewrite app_nil_r |].
  rewrite put_cons. cbn [app get1]. rewrite IH. by rewrite <- app_assoc.
Qed.

Lemma get_puts l acc : get [] acc (concat (map put l)) = Some (acc ++ l).
Proof.
  revert acc. induction l as [|b l IH]; intros acc; [by rewrite app_nil_r |].
  cbn [map concat]. rewrite get_put, IH. cbn [app]. by rewrite <- app_assoc.
Qed.

Lemma put_ok b : bytes_ok b → bytes_ok (put b).
Proof.
  induction 1 as [|x b Hx _ IH]; [by repeat constructor |]. rewrite put_cons.
  constructor; [done |]. by constructor.
Qed.

Lemma puts_ok l : Forall bytes_ok l → bytes_ok (concat (map put l)).
Proof.
  induction 1 as [|b l Hb _ IH]; [constructor |]. cbn. apply Forall_app. split; [by apply put_ok | done].
Qed.

(** Other data as bits. *)
Fixpoint pos_bits (p : positive) : bytes :=
  match p with xH => [] | xO p => 0 :: pos_bits p | xI p => 1 :: pos_bits p end.
Fixpoint bits_pos (b : bytes) : positive :=
  match b with [] => xH | x :: b => if x =? 0 then xO (bits_pos b) else xI (bits_pos b) end.

Lemma bits_pos_bits p : bits_pos (pos_bits p) = p.
Proof. induction p as [p IH|p IH|]; cbn; rewrite ?IH; done. Qed.

Lemma pos_bits_ok p : bytes_ok (pos_bits p).
Proof. induction p as [p IH|p IH|]; cbn; constructor; try done. Qed.

Definition to_bits {A} `{Countable A} (a : A) : bytes := pos_bits (encode a).
Definition of_bits {A} `{Countable A} (b : bytes) : option A := decode (bits_pos b).

Lemma of_to_bits {A} `{Countable A} (a : A) : of_bits (to_bits a) = Some a.
Proof. unfold of_bits, to_bits. by rewrite bits_pos_bits, decode_encode. Qed.

(** ** Protocol buffers: the fields one after the other *)

#[export] Instance IpPort_eq_dec : EqDecision IpPort.
Proof. solve_decision. Defined.
#[export] Instance IpPort_countable : Countable IpPort.
Proof. refine (inj_countable' (λ p, (ipIp p, ipPort p)) (λ '(a, b), mkIpPort a b) _). by intros []. Defined.

(** The bodies as a sum. *)
Definition body_sum (b : LightHouseBody)
    : bytes + (bytes * list IpPort) + list IpPort + unit + option IpPort + (bytes * list IpPort) :=
  match b with
  | LH_Query q => inl (inl (inl (inl (inl (qVpnIp q)))))
  | LH_QueryReply r => inl (inl (inl (inl (inr (rVpnIp r, rAddrs r)))))
  | LH_Update u => inl (inl (inl (inr (uAddrs u))))
  | LH_WhoAmI _ => inl (inl (inr tt))
  | LH_WhoAmIReply r => inl (inr (wAddr r))
  | LH_Punch p => inr (pVpnIp p, pAddrs p)
  end.

Definition sum_body (s : bytes + (bytes * list IpPort) + list IpPort + unit + option IpPort + (bytes * list IpPort))
    : LightHouseBody :=
  match s with
  | inl (inl (inl (inl (inl q)))) => LH_Query (mkHostQuery q)
  | inl (inl (inl (inl (inr (v, l))))) => LH_QueryReply (mkHostQueryReply v l)
  | inl (inl (inl (inr u))) => LH_Update (mkHostUpdateNotification u)
  | inl (inl (inr _)) => LH_WhoAmI mkWhoAmI
  | inl (inr r) => LH_WhoAmIReply (mkWhoAmIReply r)
  | inr (v, l) => LH_Punch (mkHostPunchNotification v l)
  end.

Lemma sum_body_sum b : sum_body (body_sum b) = b.
Proof. by destruct b as [[]|[]|[]|[]|[]|[]]. Qed.

Definition malformed {A} : go A := Fail (Errorf "proto: cannot parse").

Definition toy_unmarshal_handshake (b : bytes) : go HandshakeMessage :=
  match get [] [] b with Some [d; n; h] => Ok (mkHandshakeMessage d n h) | _ => malformed end.

Definition toy_unmarshal_details (b : bytes) : go HandshakeDetails :=
  match get [] [] b with
  | Some [c; i; j; t] =>
      match of_bits i, of_bits j, of_bits t with
      | Some i, Some j, Some t => Ok (mkHandshakeDetails c i j t)
      | _, _, _ => malformed
      end
  | _ => malformed
  end.

#[export] Instance toy_proto : ProtoLib := {|
  marshal_handshake m := Ok (concat (map put [mDetails m; mNoisePayload m; mHmac m]));
  unmarshal_handshake := toy_unmarshal_handshake;
  marshal_details d :=
    Ok (concat (map put [dCert d; to_bits (dInitiatorIndex d); to_bits (dResponderIndex d); to_bits (dTime d)]));
  unmarshal_details := toy_unmarshal_details;
  marshal_lighthouse m := Ok (to_bits (body_sum <$> lhBody m));
  unmarshal_lighthouse b :=
    match of_bits b with Some o => Ok (mkLightHouseMessage (sum_body <$> o)) | None => malformed end;
|}.

#[export] Instance toy_proto_laws : ProtoLaws.
Proof.
  split.
  - intros [d n h]. eexists. split; [reflexivity |]. cbn [unmarshal_handshake toy_proto].
    unfold toy_unmarshal_handshake. by rewrite get_puts.
  - intros [c i j t] _. eexists. split; [reflexivity |]. cbn [unmarshal_details toy_proto].
    unfold toy_unmarshal_details. rewrite get_puts. cbn [app]. by rewrite !of_to_bits.
  - intros [b] _. eexists. split; [reflexivity |]. cbn [unmarshal_lighthouse toy_proto].
    rewrite of_to_bits. destruct b as [b|]; [| done]. cbn. by rewrite sum_body_sum.
  - done.
Qed.

(** ** Certificates *)

(** A certificate: its fields, the public key of its issuer in the place of the
    signature, and its extensions. *)
Definition ext_fields (e : list Z * bytes) : list bytes := [to_bits e.1; e.2].

Fixpoint fields_exts (l : list bytes) : option (list (list Z * bytes)) :=
  match l with
  | [] => Some []
  | o :: v :: l' => oid ← of_bits o; es ← fields_exts l'; Some ((oid, v) :: es)
  | _ => None
  end.

Lemma fields_exts_fields l : fields_exts (concat (map ext_fields l)) = Some l.
Proof.
  induction l as [|[o v] l IH]; [done |]. cbn [map concat ext_fields app fst snd fields_exts].
  rewrite of_to_bits. cbn. by rewrite IH.
Qed.

Definition toy_der (isCA : bool) (name pub : bytes) (from until : Z) (signer : bytes) (exts : list (list Z * bytes)) : bytes :=
  concat (map put ([to_bits isCA; name; to_bits pub; to_bits from; to_bits until; to_bits signer] ++ concat (map ext_fields exts))).

Definition toy_parse (der : bytes) : option X509Certificate :=
  match get [] [] der with
  | Some (ca :: name :: pub :: from :: until :: signer :: exts) =>
      ca ← of_bits ca; pub ← of_bits pub; from ← of_bits from; until ← of_bits until;
      signer ← of_bits signer; exts ← fields_exts exts;
      Some (mkX509Certificate ca name (Ed25519Key pub) from until exts signer)
  | _ => None
  end.

Lemma toy_parse_der isCA name pub from until signer exts :
  toy_parse (toy_der isCA name pub from until signer exts) =
    Some (mkX509Certificate isCA name (Ed25519Key pub) from until exts signer).
Proof.
  unfold toy_parse, toy_der. rewrite get_puts. cbn [app]. rewrite !of_to_bits. cbn.
  by rewrite fields_exts_fields.
Qed.

Lemma toy_der_ok isCA name pub from until signer exts :
  bytes_ok name → Forall (λ e, bytes_ok e.2) exts → bytes_ok (toy_der isCA name pub from until signer exts).
Proof.
  intros Hn He. apply puts_ok. repeat (constructor; [apply pos_bits_ok || done |]).
  induction He as [|e l He _ IH]; [constructor |]. cbn. constructor; [apply pos_bits_ok |]. by constructor.
Qed.

#[export] Instance PublicKey_eq_dec : EqDecision PublicKey.
Proof. solve_decision. Defined.

#[export] Instance valid_at_dec x now : Decision (valid_at x now).
Proof. unfold valid_at. apply _. Defined.

(** A root signed [x] at [now]. *)
Definition toy_signed (x : X509Certificate) (now : Z) (r : X509Certificate) : bool :=
  xIsCA r && bool_decide (valid_at r now) && bool_decide (xPublicKey r = Ed25519Key (xRest x)).

#[export] Instance toy_cert : CertLib := {|
  pem_decode := get1 [];
  pem_encode t b := put t ++ b;
  ParseCertificate der := of_option (Errorf "x509: malformed certificate") (toy_parse der);
  x509_verify x roots now :=
    if bool_decide (valid_at x now) && existsb (toy_signed x now) roots then Ok tt
    else Fail (Errorf "x509: certificate signed by unknown authority or expired");
  asn1_unmarshal_vpnip v :=
    match get [] [] v with
    | Some [ip; bits] => try! b := of_option (Errorf "asn1") (of_bits bits) in Ok (ip, b)
    | _ => Fail (Errorf "asn1")
    end;
  asn1_unmarshal_raws v := of_option (Errorf "asn1") (get [] [] v);
  asn1_unmarshal_octets v := Ok v;
  asn1_marshal_vpnip '(ip, bits) := Ok (put ip ++ put (to_bits bits));
  asn1_marshal_raws l := Ok (concat (map put (map snd l)));
  asn1_marshal_octets b := Ok b;
|}.

#[export] Instance toy_cert_laws : CertLaws.
Proof.
  split; cbn.
  - intros t b. by rewrite get1_put.
  - intros t b Ht Hb. apply Forall_app. split; [by apply put_ok | done].
Qed.

Definition toy_public (seed : bytes) : bytes := map u8 (take 32 (seed ++ replicate 32 0)).

Definition toy_create (t : CertTemplate) (parent : CertTemplate + X509Certificate) (pub priv : bytes) : go bytes :=
  let der := toy_der (tBasicConstraintsValid t && tIsCA t) (tCommonName t) pub (whole_seconds (tNotBefore t))
    (whole_seconds (tNotAfter t)) (drop 32 priv) (([2; 5; 29; 15], [u8 (tKeyUsage t)]) :: tExtraExtensions t) in
  match parent with
  | inl _ => Ok der
  | inr ca => if decide (xPublicKey ca = Ed25519Key (drop 32 priv)) then Ok der
              else Fail (Errorf "x509: provided PrivateKey doesn't match parent's PublicKey")
  end.

#[export] Instance toy_issue : IssueLib := {|
  ed25519_public := toy_public;
  CreateCertificate := toy_create;
  MarshalPKCS8PrivateKey k := Ok k;
  ParsePKCS8PrivateKey b := Ok (Ed25519Private b);
|}.

Lemma toy_create_reads t parent pub priv der :
  toy_create t parent pub priv = Ok der → template_ok t →
  bytes_ok der ∧ ∃ x, ParseCertificate der = Ok x ∧ certifies t pub x ∧ xRest x = drop 32 priv.
Proof.
  intros H [_ [_ Hn] _ _ He].
  assert (Hder : der = toy_der (tBasicConstraintsValid t && tIsCA t) (tCommonName t) pub (whole_seconds (tNotBefore t))
    (whole_seconds (tNotAfter t)) (drop 32 priv) (([2; 5; 29; 15], [u8 (tKeyUsage t)]) :: tExtraExtensions t)).
  { unfold toy_create in H. destruct parent; [by injection H |]. case_decide; [by injection H | done]. }
  subst der. split.
  - apply toy_der_ok.
    + eapply Forall_impl; [exact Hn |]. unfold in_u. intros x. lia.
    + constructor; [constructor; [by apply wrap_in_u | constructor] |].
      eapply Forall_impl; [exact He |]. naive_solver.
  - eexists. split; [cbn [ParseCertificate toy_cert]; by rewrite toy_parse_der |]. split; [| done].
    split; try done. exists [([2; 5; 29; 15], [u8 (tKeyUsage t)])]. split; [done |]. by repeat constructor.
Qed.

Lemma toy_public_drop seed : length seed = 32%nat → drop 32 (NewKeyFromSeed seed) = toy_public seed.
Proof. intros H. unfold NewKeyFromSeed. by rewrite drop_app_length'. Qed.

#[export] Instance toy_issue_laws : IssueLaws.
Proof.
  split.
  - intros seed. cbn. unfold toy_public. rewrite length_map, length_take, length_app, length_replicate. lia.
  - intros seed _ _. by eexists.
  - intros ip bits Hip _. eexists. split; [reflexivity |]. split.
    + apply Forall_app. split; apply put_ok; [done | apply pos_bits_ok].
    + cbn [asn1_unmarshal_vpnip toy_cert]. rewrite get_put.
      rewrite <- (app_nil_r (put (to_bits bits))), get_put. cbn [app get]. by rewrite of_to_bits.
  - intros tag l _ Hl. eexists. split; [reflexivity |].
    assert (map snd (map (λ b, (tag, b)) l) = l) as -> by (rewrite map_map; apply map_id). split.
    + by apply puts_ok.
    + cbn [asn1_unmarshal_raws toy_cert]. by rewrite get_puts.
  - intros b Hb. by exists b.
  - intros t seed Hok Hct Hs. cbn [CreateCertificate toy_issue].
    eexists. destruct (toy_create_reads t (inl t) (ed25519_public seed) (NewKeyFromSeed seed) _ eq_refl Hok)
      as (Hb & x & Hx & Hc & Hr). exists x. split_and!; try done.
    intros now Hv. cbn [x509_verify toy_cert existsb]. rewrite bool_decide_eq_true_2 by done. unfold toy_signed.
    destruct Hc as [Hca _ Hk _ _ _]. destruct Hct as [H1 H2 _ _].
    rewrite Hca, H1, H2, bool_decide_eq_true_2, bool_decide_eq_true_2; [done | | done].
    rewrite Hk, Hr. by rewrite toy_public_drop.
  - intros ct seed cder ca t pub Hs Hct Hmade Hca Hok Hnot Hpl Hpd.
    assert (Hcder : ∃ exts, toy_parse cder = Some (mkX509Certificate true (tCommonName ct) (Ed25519Key (toy_public seed))
      (whole_seconds (tNotBefore ct)) (whole_seconds (tNotAfter ct)) exts (toy_public seed))).
    { destruct Hct as [H1 H2 _ _]. cbn [CreateCertificate toy_issue] in Hmade. unfold toy_create in Hmade. rewrite toy_public_drop in Hmade by done.
      injection Hmade as <-. rewrite toy_parse_der, H1, H2. by eexists. }
    destruct Hcder as [exts Hp]. cbn [ParseCertificate toy_cert] in Hca. rewrite Hp in Hca. injection Hca as <-.
    match goal with |- context [inr ?c] => set (ca := c) end.
    assert (Hrun : ∃ der, toy_create t (inr ca) pub (NewKeyFromSeed seed) = Ok der).
    { unfold toy_create. rewrite toy_public_drop by done. rewrite decide_True by done. by eexists. }
    destruct Hrun as [der Hder]. exists der.
    destruct (toy_create_reads t (inr ca) pub _ der Hder Hok) as (Hb & x & Hx & Hc & Hr).
    exists x. split_and!; try done.
    intros now Hv1 Hv2. cbn [x509_verify toy_cert existsb]. rewrite bool_decide_eq_true_2 by done. unfold toy_signed.
    rewrite !bool_decide_eq_true_2; [done | | done]. by rewrite Hr, toy_public_drop.
  - intros x roots now. cbn [x509_verify toy_cert]. by destruct (decide (valid_at x now)); [| rewrite bool_decide_eq_false_2].
Qed.

(** ** Files: a map from cleaned paths to contents and permission bits *)

Abbreviation toy_files := (gmap bytes (bytes * Z)).

#[export] Instance toy_fs : FileSystem toy_files := {|
  fs_read s p := match s !! Clean p with Some (d, _) => Ok d | None => Fail (Errorf "open: no such file or directory") end;
  fs_write p d m := λ s,
    (<[Clean p := (d, match s !! Clean p with Some (_, m') => m' | None => m end)]> s, Ok tt);
  fs_mode s p := snd <$> s !! Clean p;
  same_file p q := Clean p = Clean q;
|}.

#[export] Instance toy_fs_laws : FileSystemLaws toy_files.
Proof.
  split; cbn [fs_read fs_write fs_mode same_file toy_fs].
  - done.
  - intros p d m s s' q [= <-] <-. by rewrite lookup_insert_eq.
  - intros p d m s q H. cbn [fst]. by rewrite lookup_insert_ne.
  - intros p d m s q H. cbn [fst]. by rewrite lookup_insert_ne.
  - intros p d m s s' [= <-] H. exists 0. rewrite lookup_insert_eq. cbn.
    rewrite (Z.land_m1_r m : Z.land m (Z.lnot 0) = m). by destruct (s !! Clean p).
  - intros p d m s s' x [= <-] H. rewrite lookup_insert_eq. cbn. by destruct (s !! Clean p) as [[]|]; simplify_eq.
Qed.

(** Entries of a directory are different files. *)
Lemma toy_entries dir n n' :
  dir ≠ [] → plain n → plain n' → n ≠ n' → ¬ same_file (filepath_Join [dir; n]) (filepath_Join [dir; n']).
Proof.
  intros Hd Hn Hn' Hne. cbn [same_file toy_fs]. intros E. apply Hne, (Join_entry_inj dir); [done .. |].
  assert (Hc : ∀ m, plain m → Clean (filepath_Join [dir; m]) = filepath_Join [dir; m]).
  { intros m Hm. destruct dir; [done |]. cbn [filepath_Join]. apply Clean_idempotent. }
  by rewrite (Hc n Hn), (Hc n' Hn') in E.
Qed.
