(* ===== verification/Witnesses.v ===== *)
(** * Concrete nodes

    Two nodes, 10.0.0.1 and 10.0.0.2, over the stand-in libraries of [Toy]; each
    lemma applies a theorem of the development to them. *)

From S2P Require Import Prelude Bytes Header Net Replay GoText Config Firewall Messages External Cert.
From S2P Require Import NoiseUtil HostMap Handshake HandshakeManager Punchy LightHouse Ipv4 Session Pki.
From S2P Require Import Interface DataPlane Toy.

(** ** Nodes *)

(** The CA's key seed, and certificates valid for ten days from time 0. *)
Definition ca_seed : bytes := replicate 32 77.
Definition until : Z := 864000 * second.

Definition node_exts (n : Z) : list (list Z * bytes) :=
  [(oidVpnIP, put [10; 0; 0; n] ++ put (to_bits 24)); (oidGroups, put (lit "web")); (oidCurve25519Key, replicate 32 n)].
Definition node_x509 (n : Z) : X509Certificate :=
  mkX509Certificate false (lit "node") (Ed25519Key (replicate 32 (n + 100))) 0 until (node_exts n) (toy_public ca_seed).
Definition der (n : Z) : bytes :=
  toy_der false (lit "node") (replicate 32 (n + 100)) 0 until (toy_public ca_seed) (node_exts n).
Definition node_cert (n : Z) : Certificate :=
  mkCertificate (der n) (node_x509 n) (PrefixFrom (AddrFrom4 [10; 0; 0; n]) 24) [lit "web"] (replicate 32 n).

Definition ca_cert : Certificate :=
  mkCertificate (toy_der true (lit "ca") (toy_public ca_seed) 0 until (toy_public ca_seed) [])
    (mkX509Certificate true (lit "ca") (Ed25519Key (toy_public ca_seed)) 0 until [] (toy_public ca_seed)) PrefixZero [] [].
Definition node_key (n : Z) : DHKey := mkDHKey (replicate 32 n) (replicate 32 n).

Definition vpn (n : Z) : Addr := AddrFrom4 [10; 0; 0; n].
Definition phys (n : Z) : UDPAddr := mkUDPAddr [192; 0; 2; n] 4242 [].

(** The session node [me] holds with node [peer]: index [me], keys by sender. *)
Definition session (me peer : Z) : HostInfo :=
  mkHostInfo (vpn peer) (phys peer) me peer (replicate 32 me) (replicate 32 peer) 0
    (Some (node_cert peer)) newWindow.

Definition any_rule : Rule := mkRule 0 true 0 [] true PrefixZero true.

Definition node_daemon (me peer : Z) : Daemon :=
  mkDaemon {[0%nat := session me peer]}
    {| byVpnIP := {[vpn peer := 0%nat]}; byIndex := {[me := 0%nat]} |}
    (New [any_rule] [any_rule]) (NewLightHouse false [] []) None ∅.

Definition node_mgr (n : Z) : Manager := NewHandshakeManager (node_cert n) (node_key n) [ca_cert].
Definition node (me peer : Z) : World Daemon := mkWorld (node_mgr me) [] (node_daemon me peer).

Definition env : Env := mkEnv 0 0 0 0 (inr [7; 0; 0; 0]) [] (λ _ _, None) (λ _, None).
Definition env' : Env := mkEnv 0 0 0 0 (inr [9; 0; 0; 0]) [] (λ _ _, None) (λ _, None).

(** A TCP packet from 10.0.0.[s] to 10.0.0.[d]. *)
Definition packet (s d : Z) (payload : bytes) : bytes :=
  ipv4_bytes (mkIpv4 5 [0; 0; 40; 0; 1; 0; 0; 64] 6 [0; 0] (be_uint [10; 0; 0; s]) (be_uint [10; 0; 0; d]) [] 1234 443 payload).

Lemma node_daemon_ok me peer : Daemon_ok (node_daemon me peer).
Proof.
  split; cbn; [split; cbn |].
  - intros ip l [<- <-]%lookup_singleton_Some. by eexists.
  - intros i l [<- <-]%lookup_singleton_Some. by eexists.
  - intros l h [<- <-]%lookup_singleton_Some. exists []. apply newWindow_represents.
Qed.

Lemma newWindow_fresh c : fresh_counter [] c.
Proof. split; [apply not_elem_of_nil | constructor]. Qed.

(** ** Certificates and keys *)

Lemma Parse_PEM_witness : Parse_cert (PEM (node_cert 1)) = Ok (node_cert 1).
Proof. apply (Parse_PEM (PEM (node_cert 1)) (node_cert 1)). by vm_compute. Defined.

Lemma GenerateX25519KeyPair_spec_witness :
  ∃ file, MarshalX25519PrivateKey (clamp (replicate 32 255)) = Ok file ∧
    ParseX25519PrivateKey file = Ok (clamp (replicate 32 255)).
Proof.
  refine (proj2 (proj2 (proj2 (GenerateX25519KeyPair_spec (replicate 32 255) (clamp (replicate 32 255))
    (clamp (replicate 32 255)) _ _ _)))); [by apply (bool_decide_unpack _); vm_compute | done | done].
Defined.

Lemma LoadPKI_spec_witness :
  ∃ pki, LoadPKI (λ p, Ok p) (mkPKIConfig (PEM ca_cert) (PEM (node_cert 1))
      (pem_encode pemTypeCurve25519Key (replicate 32 1)) []) 0 0 = Ok pki ∧
    X25519 (Curve25519Key pki) Basepoint = Ok (X25519PublicKey (NodeCert pki)).
Proof.
  exists (mkPKI [ca_cert] (node_cert 1) (replicate 32 1)).
  assert (H : LoadPKI (λ p, Ok p) (mkPKIConfig (PEM ca_cert) (PEM (node_cert 1))
    (pem_encode pemTypeCurve25519Key (replicate 32 1)) []) 0 0 = Ok (mkPKI [ca_cert] (node_cert 1) (replicate 32 1)))
    by (by vm_compute).
  split; [exact H |]. destruct (LoadPKI_spec _ _ _ _ _ H) as (ca & _ & _ & _ & _ & _ & _ & Hx & _). exact Hx.
Defined.

(** ** Sessions *)

Lemma HostMap_reachable_witness :
  let s0 : gmap nat HostInfo := ∅ in
  let l := fresh_loc s0 in
  HostMap_ok (<[l := session 1 2]> s0)
    {| byVpnIP := <[vpn 2 := l]> ∅; byIndex := <[1 := l]> ∅ |}.
Proof.
  intros s0 l. refine (proj1 (HostMap_reachable _ _ _)). eapply rtc_l; [| apply rtc_refl].
  apply hm_add. unfold Add. fold s0. fold l. by rewrite lookup_insert_eq.
Defined.

Lemma Add_keeps_stale_index_witness :
  let h := session 1 2 in
  let h' := mkHostInfo (vpn 2) (phys 2) 5 6 (replicate 32 3) (replicate 32 4) 0 None newWindow in
  let s : gmap nat HostInfo := {[0%nat := h; 1%nat := h']} in
  let m := {| byVpnIP := {[vpn 2 := 0%nat]}; byIndex := {[1 := 0%nat]} |} in
  ∃ m1 m2, Add s 1%nat m = Ok m1 ∧ Remove s (vpn 2) m1 = Ok m2 ∧
    GetByVpnIP (vpn 2) m1 = Some 1%nat ∧ GetByIndex 1 m1 = Some 0%nat ∧ GetByIndex 1 m2 = Some 0%nat.
Proof.
  intros h h' s m. apply (Add_keeps_stale_index s m 0%nat h 1%nat h'); try done.
  split; cbn.
  - intros ip l [<- <-]%lookup_singleton_Some. by exists h.
  - intros i l [<- <-]%lookup_singleton_Some. by exists h.
Defined.

Lemma session_nonces_distinct_witness :
  ∃ s' cs, draw_counters 3 0%nat {[0%nat := session 1 2]} = (s', Ok cs) ∧ NoDup (map CounterNonce cs).
Proof.
  destruct (session_nonces_distinct 3 0%nat {[0%nat := session 1 2]} (session 1 2)) as (s' & cs & H1 & _ & H2 & _);
    [done | done | done |]. eauto.
Defined.

(** ** Handshakes *)

Lemma initiator_message_accepted_witness :
  ∃ msg, BuildInitiatorMessage (node_cert 1) [5] 7 0 = Ok msg ∧ VerifyHMAC msg (node_cert 1) = Ok tt.
Proof.
  destruct (initiator_message_accepted (node_cert 1) (node_cert 2) [5] 7 0)
    as (msg & wire & msg' & details & H1 & H2 & H3 & _ & H5 & _).
  - by apply (bool_decide_unpack _); vm_compute.
  - by unfold in_u.
  - exists msg. split; [exact H1 |]. destruct (handshake_roundtrip msg) as (b & Hb & Hu).
    assert (wire = b) as -> by congruence. unfold ParseHandshakeMessage in H3. rewrite Hu in H3. by injection H3 as <-.
Defined.

(** A callback that stores the sessions it is given. *)
Definition store_session (h : HostInfo) (pkts : list bytes) : M (World (list (HostInfo * list bytes))) unit :=
  λ w, (mkWorld (mgr w) (out w) ((h, pkts) :: rest w), Ok tt).

#[export] Instance store_session_handler : CompletionHandler (λ _, True) store_session.
Proof. by split. Qed.

Lemma Manager_reachable_witness :
  let w : World (list (HostInfo * list bytes)) := mkWorld (node_mgr 1) [] [] in
  Manager_ok (mgr (StartHandshake env (vpn 2) (phys 2) (node_cert 2) w).1).
Proof.
  intros w.
  refine (proj1 (Manager_reachable (λ _, True) store_session (node_cert 1) (node_key 1) [ca_cert] [] [] _ _ _)); [done |].
  eapply rtc_l; [apply step_start | apply rtc_refl].
Defined.

(** A manager with one handshake in progress. *)
Definition pending_ph : pendingHandshake :=
  mkPending (initiatorConfig (node_key 1) (replicate 32 2) [], 1%nat) 7 (vpn 2) (phys 2) [] 1 500000000 [1; 2; 3].
Definition pending_mgr : Manager :=
  mkManager (node_cert 1) (node_key 1) [ca_cert] {[0%nat := pending_ph]} {[vpn 2 := 0%nat]} {[7 := 0%nat]}.
Definition pending_world : World (list (HostInfo * list bytes)) := mkWorld pending_mgr [] [].

Lemma pending_mgr_ok : Manager_ok pending_mgr.
Proof.
  split; cbn.
  - intros ip l [<- <-]%lookup_singleton_Some. by eexists.
  - intros i l [<- <-]%lookup_singleton_Some. by eexists.
  - intros l ph [<- <-]%lookup_singleton_Some. cbn. unfold maxHandshakeAttempts. lia.
Qed.

Lemma QueueAll_spec_witness :
  ∃ m', QueueAll (vpn 2) [[1]; [2]] pending_world = (mkWorld m' [] [], Ok tt) ∧
    phs m' !! 0%nat = Some (set_packets [[1]; [2]] pending_ph).
Proof.
  destruct (proj2 (QueueAll_spec (vpn 2) [[1]; [2]] pending_world pending_mgr_ok) 0%nat pending_ph)
    as (m' & H1 & _ & _ & H2 & _); [done | done |]. eauto.
Defined.

(** The ticker of [Run], from [t] on. *)
Fixpoint every_100ms (t : Z) (n : nat) : list (Env * Z) :=
  match n with O => [] | S n => (env, t + 100000000) :: every_100ms (t + 100000000) n end.

Lemma every_100ms_ticking n t : ticking 100000000 t (every_100ms t n).
Proof. revert t. induction n as [|n IH]; intros t; [done |]. cbn. split; [lia | apply IH]. Qed.

Lemma every_100ms_last n t : last_time t (every_100ms t n) = t + Z.of_nat n * 100000000.
Proof. revert t. induction n as [|n IH]; intros t; [cbn; lia |]. cbn [every_100ms]. rewrite last_time_cons, IH. lia. Qed.

(** Three minutes of it. *)
Lemma Run_gives_up_witness :
  ∃ w', Run map_to_list (every_100ms 0 1820) pending_world = (w', Ok tt) ∧
    pending (mgr w') !! vpn 2 = None ∧ out w' = replicate 9 (UDPSend [1; 2; 3] (phys 2)).
Proof.
  destruct (Run_gives_up map_to_list (λ p, Permutation_refl _) 100000000 0 (every_100ms 0 1820) pending_world
    (vpn 2) 0%nat pending_ph pending_mgr_ok) as (rs & w' & Hrun & _ & Hr & Hend);
    [done | done | done | done | done | apply every_100ms_ticking |].
  assert (Hlen : length rs = 10%nat) by (apply Hend; rewrite every_100ms_last; cbn [phNextRetry pending_ph]; lia).
  exists w'. split; [exact Hrun |]. split; [by apply (rt_gone _ _ _ _ _ _ _ _ _ _ Hr) |].
  rewrite (rt_sent _ _ _ _ _ _ _ _ _ _ Hr) by done. by rewrite Hlen.
Defined.

Lemma HandleStage1_consumes_witness :
  let pkt := Bytes (mkHeader Version TypeHandshake HandshakeResponse 7 0) in
  pending (mgr (HandleStage1 store_session env pkt pending_world).1) !! vpn 2 = None.
Proof.
  intros pkt.
  pose proof (HandleStage1_consumes (λ _, True) store_session env pkt pending_world
    (mkHeader Version TypeHandshake HandshakeResponse 7 0) 0%nat pending_ph pending_mgr_ok
    ltac:(by vm_compute) ltac:(reflexivity) ltac:(reflexivity)) as H.
  destruct (HandleStage1 store_session env pkt pending_world) as [w' r]. apply H.
Defined.

Lemma handshake_completes_witness :
  let wA : World (list (HostInfo * list bytes)) := mkWorld (node_mgr 1) [] [] in
  let wB : World (list (HostInfo * list bytes)) := mkWorld (node_mgr 2) [] [] in
  ∃ pkt0 wA1, StartHandshake env (vpn 2) (phys 2) (node_cert 2) wA = (wA1, Ok tt) ∧
    out wA1 = [UDPSend pkt0 (phys 2)] ∧
    ∃ pkt1 hostA hostB wA2 wA3,
      HandleStage0 store_session env' pkt0 (phys 1) wB = store_session hostB [] (after_send pkt1 (phys 1) wB) ∧
      HandleStage1 store_session env pkt1 wA2 = store_session hostA [[42]] wA3 ∧ paired hostA hostB.
Proof.
  intros wA wB.
  destruct (handshake_completes store_session store_session wA wB (node_cert 1) (node_cert 2) env env' env 7 9
    (vpn 2) (phys 2) (phys 1) [[42]]) as (pkt0 & pkt1 & hA & hB & wA1 & wA2 & wA3 & H1 & H2 & _ & H3 & _ & _ & H5 & _ & _ & _ & H9 & _).
  - split; try done; try (split; [by vm_compute | by apply (bool_decide_unpack _); vm_compute]).
  - done.
  - exists [7; 0; 0; 0]. split_and!; try done. by apply (bool_decide_unpack _); vm_compute.
  - exists [9; 0; 0; 0]. split_and!; try done. by apply (bool_decide_unpack _); vm_compute.
  - done.
  - done.
  - exists pkt0, wA1. split; [exact H1 |]. split; [exact H2 |].
    exists pkt1, hA, hB, wA2, wA3. split; [exact H3 |]. split; [exact H5 | exact H9].
Defined.

(** ** Discovery *)

(** A node's world as the state around a lighthouse. *)
Definition lh_world (lh : LightHouse) : World Daemon :=
  mkWorld (node_mgr 1) [] (mkDaemon ∅ NewHostMap (New [] []) lh None ∅).

Lemma phys_v4 n : in_u 8 n → v4_endpoint (phys n).
Proof. intros Hn. exists [192; 0; 2; n]. split; [done |]. split; [| done]. repeat constructor; try done; apply Hn. Qed.

Lemma discovery_witness :
  let sP := lh_world (AddStaticEntry (vpn 9) (phys 9) (NewLightHouse false [vpn 9] [phys 1])) in
  let sL := lh_world (NewLightHouse true [] []) in
  let sQ := lh_world (AddStaticEntry (vpn 9) (phys 9) (NewLightHouse false [vpn 9] [])) in
  ∃ msgR sQ1, HandleMessage (lighthouseSendFn env) (WriteTo env) msgR (vpn 9) sQ = (sQ1, Ok tt) ∧
    GetAddrs (vpn 1) (the_lh sQ1) = [mapped (phys 1)].
Proof.
  intros sP sL sQ.
  destruct (discovery (sendFn := lighthouseSendFn env) (writeTo := WriteTo env) (log := λ d t w, emit [UDPSend d t] w)
    sP sL sQ (be_uint [10; 0; 0; 1]) (vpn 2)) as (wU & wQ & wR & mU & mQ & msgR & sL1 & sQ1 & H).
  - done.
  - constructor; [by apply phys_v4 | constructor].
  - done.
  - destruct H as (_ & _ & _ & _ & _ & _ & _ & Hm & Hg & _). exists msgR, sQ1. split; [apply Hm | exact Hg].
Defined.

Lemma HandleMessage_frame_witness :
  let msg := mkLightHouseMessage (Some (LH_Update (mkHostUpdateNotification []))) in
  let s := lh_world (NewLightHouse false [] []) in
  ∃ lh' l, HandleMessage (lighthouseSendFn env) (WriteTo env) msg (vpn 2) s =
      (with_lh lh' (sent (log := λ d t w, emit [UDPSend d t] w) l s), Ok tt) ∧
    handled msg (vpn 2) (the_lh s) lh' l.
Proof. intros msg s. apply HandleMessage_frame. Defined.

Lemma VpnIPByAddr_spec_witness :
  let lh := AddStaticEntry (vpn 2) (phys 2) (NewLightHouse false [] []) in
  ∃ a, a ∈ GetAddrs (vpn 2) lh ∧ same_endpoint a (phys 2) = true.
Proof.
  intros lh. apply (proj2 (VpnIPByAddr_spec lh (map_to_list (addrStore lh)) (phys 2) (Permutation_refl _))).
  by vm_compute.
Defined.

(** ** The data plane *)

Definition no_order : gmap Addr (list UDPAddr) → list (Addr * list UDPAddr) := map_to_list.

(** What node 2 sends to node 1 first, and a forgery of a later packet. *)
Definition wire21 (c : Z) : bytes := message_wire (session 2 1) c (packet 2 1 [42]).
Definition forged21 (c : Z) : bytes := Bytes (mkHeader Version TypeMessage 0 1 c) ++ [0].

Definition tracked_fw : Firewall := mkFirewall [any_rule] [any_rule] {[flow_key (vpn 2) 443 6 := 0]}.

Lemma verdict21 : inbound_verdict env (session 1 2) (packet 2 1 [42]) (ifFw (node_daemon 1 2)) tracked_fw true.
Proof. exists (vpn 2), 6, 443. by repeat split; vm_compute. Qed.

Lemma inbound_delivery_witness :
  ∃ hdr, Parse (wire21 1) = Ok hdr ∧ hType hdr = TypeMessage.
Proof.
  destruct (consumeOutsidePacket no_order env (wire21 1) (phys 2) (node 1 2)) as [w' r] eqn:E.
  destruct (inbound_delivery no_order env (wire21 1) (phys 2) (node 1 2) w' r [TUNWrite (packet 2 1 [42])]
    (packet 2 1 [42])) as (_ & hdr & l & h & hist & fw' & H1 & H2 & _).
  - apply node_daemon_ok.
  - by apply (bool_decide_unpack _); vm_compute.
  - exact E.
  - change w' with (w', r).1. rewrite <- E. by vm_compute.
  - by left.
  - eauto.
Defined.

Lemma replay_has_no_effect_witness :
  let w1 := (consumeOutsidePacket no_order env (wire21 1) (phys 2) (node 1 2)).1 in
  consumeOutsidePacket no_order env' (wire21 1) (phys 3) w1 = (w1, Ok tt).
Proof.
  apply (replay_has_no_effect no_order env env' (wire21 1) (mkHeader Version TypeMessage 0 1 1) (phys 2) (phys 3)
    (node 1 2) 0%nat).
  - apply node_daemon_ok.
  - by apply (bool_decide_unpack _); vm_compute.
  - by vm_compute.
  - done.
  - done.
Defined.

Lemma tunnel_end_to_end_witness :
  ∃ wire wA' wB', sendToRemote env 0%nat (packet 2 1 [42]) (node 2 1) = (wA', Ok tt) ∧
    out wA' = [UDPSend wire (phys 1)] ∧
    consumeOutsidePacket no_order env wire (phys 2) (node 1 2) = (wB', Ok tt) ∧
    out wB' = [TUNWrite (packet 2 1 [42])].
Proof.
  apply (tunnel_end_to_end no_order env env (node 2 1) (node 1 2) 0%nat 0%nat (session 2 1) (session 1 2) []
    (phys 2) (packet 2 1 [42]) tracked_fw (node_daemon_ok 1 2)); try done.
  - apply newWindow_represents.
  - apply newWindow_fresh.
  - apply verdict21.
Defined.

Lemma close_tunnel_unauthenticated_witness :
  let pkt := Bytes (mkHeader Version TypeCloseTunnel 0 1 0) in
  ∃ w', consumeOutsidePacket no_order env pkt (phys 77) (node 1 2) = (w', Ok tt) ∧ out w' = [] ∧
    GetByVpnIP (vpn 2) (ifHostMap (rest w')) = None ∧ GetByIndex 1 (ifHostMap (rest w')) = None ∧
    ∃ w2, consumeOutsidePacket no_order env (wire21 1) (phys 2) w' = (w2, Ok tt) ∧ rest w2 = rest w'.
Proof.
  intros pkt. destruct (close_tunnel_unauthenticated no_order env pkt (mkHeader Version TypeCloseTunnel 0 1 0) (phys 77)
    (node 1 2) 0%nat (session 1 2) (node_daemon_ok 1 2)) as (w' & H1 & H2 & _ & H3 & _ & H4 & _); [done .. |].
  destruct H4 as (H4 & _ & H5); [done |]. exists w'. split_and!; [exact H1 | exact H2 | exact H3 | exact H4 |].
  destruct (H5 env (wire21 1) (mkHeader Version TypeMessage 0 1 1) (phys 2)) as (w2 & H6 & H7 & _); [by vm_compute | done | done |].
  by exists w2.
Defined.

Lemma forged_packet_moves_window_witness :
  ∃ w1, consumeOutsidePacket no_order env (forged21 5000) (phys 77) (node 1 2) = (w1, Ok tt) ∧ out w1 = [] ∧
    consumeOutsidePacket no_order env (wire21 1) (phys 2) w1 = (w1, Ok tt).
Proof.
  apply (forged_packet_moves_window no_order env env (forged21 5000) (mkHeader Version TypeMessage 0 1 5000)
    (wire21 1) (mkHeader Version TypeMessage 0 1 1) (phys 77) (phys 2) (node 1 2) 0%nat (session 1 2) []
    (node_daemon_ok 1 2)); try done.
  - by apply (bool_decide_unpack _); vm_compute.
  - by apply (bool_decide_unpack _); vm_compute.
  - apply newWindow_represents.
  - apply newWindow_fresh.
Defined.

Lemma daemon_reachable_witness :
  let w0 := mkWorld (node_mgr 1) [] (initial_daemon (New [any_rule] [any_rule]) (NewLightHouse false [] []) None
                                       {[vpn 2 := node_cert 2]}) in
  Daemon_ok (rest (consumeInsidePacket env (packet 1 2 [42]) w0).1).
Proof.
  intros w0. refine (proj1 (proj2 (daemon_reachable no_order (node_cert 1) (node_key 1) [ca_cert]
    (New [any_rule] [any_rule]) (NewLightHouse false [] []) None {[vpn 2 := node_cert 2]} _ _))).
  eapply rtc_l; [apply step_inside | apply rtc_refl].
Defined.


Lemma no_plaintext_without_session_witness :
  out (consumeInsidePacket env (packet 1 3 [42]) (node 1 2)).1 =
  out (consumeInsidePacket env (packet 1 3 [43; 44]) (node 1 2)).1.
Proof.
  apply (no_plaintext_without_session env (packet 1 3 [42]) (packet 1 3 [43; 44]) (vpn 3) 6 443 (node 1 2)
    (node_daemon_ok 1 2)); [by repeat split; vm_compute .. | done].
Defined.

Lemma session_established_witness :
  ∃ w', onHandshakeComplete env (session 1 2) [[1]; [2]] (lh_world (NewLightHouse false [] [])) = (w', Ok tt) ∧
    out w' = [UDPSend (message_wire (session 1 2) 1 [1]) (phys 2); UDPSend (message_wire (session 1 2) 2 [2]) (phys 2)].
Proof.
  destruct (session_established env (session 1 2) (node_cert 2) [[1]; [2]] (lh_world (NewLightHouse false [] [])))
    as (w' & l & h' & H1 & _ & _ & _ & _ & _ & _ & H2); [done | done | done |].
  exists w'. split; [exact H1 | exact H2].
Defined.
