(* ===== verification/NetworkWitnesses.v ===== *)
(** * A concrete network

    A CA and two nodes, "a" at 10.0.0.1 and "b" at 10.0.0.2, provisioned into
    /etc/neth by runs of neth-cert over the stand-in libraries of [Toy]; each lemma
    applies a theorem about the tools, the running daemon or the whole network. *)

From S2P Require Import Prelude Bytes Header Net Replay GoText GoPath GoFlag Config Firewall Messages External Cert Authority.
From S2P Require Import CertTool NoiseUtil HostMap Handshake HandshakeManager Punchy LightHouse Ipv4 Session Pki Provision.
From S2P Require Import Interface DataPlane Wire EndToEnd Startup Loops Nethd System Toy Witnesses.

(** Facts a decision procedure settles. *)
Ltac decided := by apply (bool_decide_unpack _); vm_compute.

(** ** Provisioning *)

Definition etc : bytes := lit "/etc/neth".
Definition ten_days : bytes := lit "240h".
Definition tool_env (seed rnd : bytes) : ToolEnv := mkToolEnv (Ok seed) (Ok (replicate 16 5)) (Ok rnd) 0.
Definition ca_env : ToolEnv := tool_env ca_seed [].
Definition empty_disk : Tool toy_files := mkTool ∅ [].

Definition node_job (n : Z) : job :=
  mkJob (tool_env (replicate 32 (n + 100)) (replicate 32 n))
    (mkRequest [96 + n] (lit "10.0.0." ++ [48 + n] ++ lit "/24") (lit "web, db") ten_days)
    (replicate 32 (n + 100)) (replicate 32 n) (PrefixFrom (vpn n) 24) until.

Lemma ten_days_writable name : name ≠ [] → ascii name → writable name 0 until.
Proof. intros H1 H2. split; [done |]. unfold until, second. intros x [-> | ->]; lia. Qed.

Lemma tool_env_draws seed rnd name :
  length seed = 32%nat → bytes_ok seed → name ≠ [] → ascii name → draws (tool_env seed rnd) seed name until.
Proof.
  intros Hl Hb Hn Ha. split; try done; [| by apply ten_days_writable].
  exists (replicate 16 5). split; [done |]. split; [decided | done].
Qed.

Lemma ca_draws : draws ca_env ca_seed (lit "ca") until.
Proof. apply tool_env_draws; decided. Qed.

Lemma node_job_ok n : n = 1 ∨ n = 2 → job_ok (lit "ca") ca_seed (node_job n).
Proof.
  intros H. split; [by destruct H as [-> | ->]; decided |].
  split; [apply tool_env_draws | ..]; try (by destruct H as [-> | ->]; decided).
  - by destruct H as [-> | ->]; vm_compute.
  - by vm_compute.
  - split; [done |]. by destruct H as [-> | ->]; decided.
Qed.

Lemma toy_writes_succeed : writes_succeed (FS := toy_files).
Proof. by eexists. Qed.

Lemma etc_no_links : no_links (files := toy_fs) etc.
Proof. intros n1 n2. by apply toy_entries. Qed.

Lemma provisioning_witness :
  ∃ t', run_all ((ca_env, ca_line (lit "ca") ten_days etc) :: map (sign_run_of etc (lit "ca")) [node_job 1; node_job 2])
          empty_disk = (t', Ok [0; 0; 0]) ∧ owner_only (tFiles t') (key_path etc (lit "ca")).
Proof.
  destruct (provisioning ca_env etc (lit "ca") ca_seed ten_days until [node_job 1; node_job 2] empty_disk)
    as (ca & t' & Hrun & _ & _ & Hown & _).
  - apply toy_writes_succeed.
  - apply etc_no_links.
  - decided.
  - apply ca_draws.
  - by vm_compute.
  - constructor; [apply node_job_ok; by left |]. constructor; [apply node_job_ok; by right | constructor].
  - decided.
  - exists t'. split; [exact Hrun | by apply Hown].
Defined.

Lemma issued_certificate_witness :
  ∃ ca node, Sign (Ok (replicate 32 101)) (Ok (replicate 16 6)) 0 ca [97] (PrefixFrom (vpn 1) 24) [lit "web"]
      (replicate 32 1) until (NewKeyFromSeed ca_seed) = Ok node ∧
    Verify node [ca] (5 * second) = Ok tt ∧ Verify node [ca] (until + second) ≠ Ok tt.
Proof.
  destruct (issued_certificate ca_seed (replicate 16 5) 0 (lit "ca") until) as (ca & _ & _ & _ & Hsign);
    [done | decided | done | by apply ten_days_writable; decided |].
  specialize (Hsign (replicate 32 101) (replicate 16 6) 0 [97] (PrefixFrom (vpn 1) 24) [lit "web"] (replicate 32 1) until
    ltac:(done) ltac:(decided) ltac:(decided) ltac:(done) ltac:(by apply ten_days_writable; decided)
    ltac:(split; [done | decided]) ltac:(decided) ltac:(decided)).
  exists ca. destruct (Sign _ _ _ _ _ _ _ _ _ _) as [node|err|]; [| by destruct Hsign | done].
  exists node. split; [done |]. destruct Hsign as (_ & _ & _ & _ & _ & _ & _ & Hin & Hout).
  split; [apply Hin; vm_compute; split; discriminate |].
  intros [_ Hu]%Hout. vm_compute in Hu. by apply Hu.
Defined.

(** The CA's certificate beside the key of another CA. *)
Definition wrong_key : toy_files :=
  <[crt_path etc (lit "ca") := (PEM ca_cert, 420)]>
    (<[key_path etc (lit "ca") := (put (lit "PRIVATE KEY") ++ NewKeyFromSeed (replicate 32 78), 384)]> ∅).

Definition sign_args : list bytes := drop 2 (sign_request etc (lit "ca") (jRequest (node_job 1)) etc).
Definition sign_values : Flags := match FlagSet_Parse sign_flags sign_args with Ok (fs, _) => fs | _ => ∅ end.

Lemma tool_writes_witness :
  let t' := (main ca_env (ca_line (lit "ca") ten_days etc) (mkTool wrong_key [])).1 in
  fs_read (tFiles t') (lit "/etc/passwd") = fs_read wrong_key (lit "/etc/passwd") ∧
  ∀ p, p ∈ outputs (ca_line (lit "ca") ten_days etc) → p ∈ [lit "/etc/neth/ca.crt"; lit "/etc/neth/ca.key"].
Proof.
  split; [| by intros p; vm_compute].
  apply (tool_writes ca_env (ca_line (lit "ca") ten_days etc) (mkTool wrong_key [])).
  assert (H : Forall (λ p, ¬ same_file p (lit "/etc/passwd")) (outputs (ca_line (lit "ca") ten_days etc)))
    by (unfold same_file, toy_fs; decided).
  by rewrite Forall_forall in H.
Defined.

Lemma sign_checks_ca_key_witness :
  main ca_env (lit "neth-cert" :: lit "sign" :: sign_args) (mkTool wrong_key []) = (mkTool wrong_key [], Ok 1).
Proof.
  apply (sign_checks_ca_key ca_env (lit "neth-cert") sign_args sign_values [] (PrefixFrom (vpn 1) 24) (PEM ca_cert)
    (put (lit "PRIVATE KEY") ++ NewKeyFromSeed (replicate 32 78)) ca_cert
    (NewKeyFromSeed (replicate 32 78)) (mkTool wrong_key [])); first [by vm_compute | decided].
Defined.

(** ** The running daemon *)

(** Node 2's first three datagrams, the second first, the first twice. *)
Definition shuffled : list arrival :=
  map (λ c, mkArrival env (phys 2) c (packet 2 1 [c])) [2; 1; 1; 3].

Lemma session_stream_witness :
  ∃ w', receive_all no_order (session 2 1) shuffled (node 1 2) = (w', Ok tt) ∧
    out w' = map (λ c, TUNWrite (packet 2 1 [c])) [2; 1; 3].
Proof.
  destruct (session_stream no_order (session 2 1) (session 1 2) 0%nat [] (node 1 2) shuffled) as (w' & H1 & H2 & _).
  - apply node_daemon_ok.
  - done.
  - done.
  - done.
  - decided.
  - decided.
  - apply newWindow_represents.
  - exists w'. split; [exact H1 |]. rewrite H2. by vm_compute.
Defined.

(** A node that knows its peer's certificate and address and has no session. *)
Definition fresh_daemon (peer : Z) : Daemon :=
  initial_daemon (New [any_rule] [any_rule]) (AddStaticEntry (vpn peer) (phys peer) (NewLightHouse false [] [])) None
    {[vpn peer := node_cert peer]}.
Definition fresh_node (me peer : Z) : World Daemon := mkWorld (node_mgr me) [] (fresh_daemon peer).

Lemma fresh_daemon_ok peer : Daemon_ok (fresh_daemon peer).
Proof. apply initial_ok. Qed.

Lemma env_draws : draws_index env 7.
Proof. exists [7; 0; 0; 0]. split_and!; try done. decided. Qed.
Lemma env'_draws : draws_index env' 9.
Proof. exists [9; 0; 0; 0]. split_and!; try done. decided. Qed.

Definition tracked (a : Addr) : Firewall := mkFirewall [any_rule] [any_rule] {[flow_key a 443 6 := 0]}.

Lemma first_packet_delivered_witness :
  ∃ d0 d1 d2 wA1 wB1 wA2 wB2,
    consumeInsidePacket env (packet 1 2 [42]) (fresh_node 1 2) = (wA1, Ok tt) ∧
    consumeOutsidePacket no_order env' d0 (phys 1) (fresh_node 2 1) = (wB1, Ok tt) ∧
    consumeOutsidePacket no_order env d1 (phys 2) wA1 = (wA2, Ok tt) ∧
    consumeOutsidePacket no_order env d2 (phys 1) wB1 = (wB2, Ok tt) ∧
    out wB2 = [UDPSend d1 (phys 1); TUNWrite (packet 1 2 [42])].
Proof.
  destruct (first_packet_delivered no_order (fresh_node 1 2) (fresh_node 2 1) (node_cert 1) (node_cert 2) env env' env env
    7 9 (packet 1 2 [42]) (vpn 2) (vpn 1) 6 443 (phys 2) [] (phys 1) (phys 2) (phys 1) (tracked (vpn 2)) (tracked (vpn 1)))
    as (d0 & d1 & d2 & wA1 & wB1 & wA2 & wB2 & H1 & _ & H2 & O2 & H3 & _ & H4 & O4).
  - apply fresh_daemon_ok.
  - apply fresh_daemon_ok.
  - split; try done; (split; [by vm_compute | decided]).
  - by repeat split; vm_compute.
  - by vm_compute.
  - done.
  - done.
  - by vm_compute.
  - by vm_compute.
  - by vm_compute.
  - by vm_compute.
  - apply env_draws.
  - apply env'_draws.
  - done.
  - done.
  - exists d0, d1, d2, wA1, wB1, wA2, wB2. split_and!; try done. rewrite O4, O2. done.
Defined.

(** A round of every goroutine: the lighthouse, a packet from the device, a
    datagram, an expiry and a retry tick. *)
Definition some_reads : list (Env * ReadResult (bytes * UDPAddr)) :=
  [(env, ReadData (wire21 1, phys 2)); (env, ReadError true)].
Definition some_actions : list action :=
  [ActAdvertise env; ActInside env (packet 1 2 [42]); ActOutside env (wire21 1) (phys 2); ActExpire 0; ActRetry env 0].

Lemma some_reads_ok : reads_ok some_reads.
Proof. constructor; [decided |]. by repeat constructor. Qed.

Lemma some_actions_interleave :
  interleaves (goroutines [(env, 0)] env [] [0] [(env, ReadData (packet 1 2 [42]))] some_reads) some_actions.
Proof.
  apply (il_step [[ActRetry env 0]] (ActAdvertise env) [] _).
  apply (il_step [[ActRetry env 0]; []; [ActExpire 0]] (ActInside env (packet 1 2 [42])) [] _).
  apply (il_step [[ActRetry env 0]; []; [ActExpire 0]; []] (ActOutside env (wire21 1) (phys 2)) [] []).
  apply (il_step [[ActRetry env 0]; []] (ActExpire 0) [] _).
  apply (il_step [] (ActRetry env 0) [] _). apply il_done. by repeat constructor.
Qed.

Lemma Run_interface_spec_witness :
  (Run_interface no_order map_to_list some_actions (node 1 2, mkResources true true)).2 = Ok tt ∧
  (Run_interface no_order map_to_list some_actions (node 1 2, mkResources true true)).1.2 = mkResources false false.
Proof.
  pose proof (Run_interface_spec no_order map_to_list [(env, 0)] env [] [0] [(env, ReadData (packet 1 2 [42]))] some_reads
    some_actions (node 1 2) (mkResources true true)) as H.
  destruct (Run_interface _ _ _ _) as [[w' res'] r] eqn:E.
  assert (Hr : r = Ok tt) by (change r with ((w', res'), r).2; rewrite <- E; by vm_compute).
  destruct H as (_ & _ & [[_ H] | [H _]] & _); [done | apply some_reads_ok | | apply some_actions_interleave | done | congruence].
  split; [done | apply node_daemon_ok].
Defined.

Definition probe : bytes := Bytes (mkHeader Version TypeTest 0 0 0).

Lemma datagrams_typed_witness :
  let w := (consumeOutsidePacket no_order env probe (phys 3) (fresh_node 1 2)).1 in
  out w = [UDPSend probe (phys 3)] ∧ wire_form probe.
Proof.
  intros w. assert (Ho : out w = [UDPSend probe (phys 3)]) by (by vm_compute). split; [exact Ho |].
  refine (proj1 (datagrams_typed no_order (node_cert 1) (node_key 1) [ca_cert] (New [any_rule] [any_rule])
    (AddStaticEntry (vpn 2) (phys 2) (NewLightHouse false [] [])) None {[vpn 2 := node_cert 2]} w probe (phys 3) _ _)).
  - eapply rtc_l; [apply (step_outside no_order _ env probe (phys 3)); decided | apply rtc_refl].
  - rewrite Ho. by left.
Defined.

(** ** From neth-cert to the tunnel *)

Definition node_config (me peer : Z) : Config :=
  mkConfig (mkPKIConfig (crt_path etc (lit "ca")) (crt_path etc [96 + me]) (key_path etc [96 + me]) etc)
    (mkListenConfig (lit "0.0.0.0") 4242) (mkTUNConfig (lit "neth0") 1300) (mkLighthouseConfig false 60 [])
    {[lit "10.0.0." ++ [48 + peer] := [lit "peer:4242"]]} (mkPunchyConfig false false)
    (mkFirewallConfig [mkFirewallRule (lit "any") (lit "any") (lit "web") []] [mkFirewallRule (lit "443") (lit "tcp") [] []])
    (mkLoggingConfig (lit "warn") (lit "json")).

Definition etc_entries (dir : bytes) : go (list (bool * bytes)) :=
  Ok [(false, lit "a.crt"); (false, lit "a.key"); (false, lit "b.crt"); (false, lit "b.key"); (false, lit "ca.crt"); (false, lit "ca.key")].

(** The disk after the three runs. *)
Definition disk : Tool toy_files :=
  (run_all [(ca_env, ca_line (lit "ca") ten_days etc); sign_run_of etc (lit "ca") (node_job 1);
            sign_run_of etc (lit "ca") (node_job 2)] empty_disk).1.

Definition start (me peer : Z) : Resources * go (World Daemon) :=
  NewInterface (fs_read (tFiles disk)) etc_entries (λ _ _, Ok 4242) (λ _ _ _, Ok tt) (Ok []) (λ _, Ok (phys peer)) map_to_list
    (node_config me peer) 0 0 (mkResources false false).

Definition started (me peer : Z) : World Daemon :=
  match (start me peer).2 with Ok w => w | _ => fresh_node me peer end.

Definition cert_on_disk (path : bytes) : Certificate :=
  match (try! data := fs_read (tFiles disk) path in Parse_cert data) with Ok c => c | _ => ca_cert end.

Lemma network_from_scratch_witness :
  ∃ d0 d1 d2 wA1 wB1 wA2 wB2,
    consumeInsidePacket env (packet 1 2 [42]) (started 1 2) = (wA1, Ok tt) ∧
    consumeOutsidePacket no_order env' d0 (phys 1) (started 2 1) = (wB1, Ok tt) ∧
    consumeOutsidePacket no_order env d1 (phys 2) wA1 = (wA2, Ok tt) ∧
    consumeOutsidePacket no_order env d2 (phys 1) wB1 = (wB2, Ok tt) ∧
    out wB2 = [UDPSend d1 (phys 1); TUNWrite (packet 1 2 [42])].
Proof.
  destruct (network_from_scratch ca_env etc (lit "ca") ca_seed ten_days until (node_job 1) (node_job 2) empty_disk)
    as (ca & nodeA & nodeB & t' & Hrun & Hca & HA & HB & _ & _ & Hnet).
  - apply toy_writes_succeed.
  - apply etc_no_links.
  - decided.
  - apply ca_draws.
  - by vm_compute.
  - apply node_job_ok; by left.
  - apply node_job_ok; by right.
  - decided.
  - assert (Ht : t' = disk) by (unfold disk; by rewrite Hrun). subst t'.
    assert (Hcert : ∀ path c, loads (tFiles disk) path c → c = cert_on_disk path).
    { intros path c H. unfold cert_on_disk. unfold loads in H. by rewrite H. }
    apply Hcert in Hca, HA, HB. subst ca nodeA nodeB.
    destruct (Hnet (node_config 1 2) (node_config 2 1) etc_entries etc_entries (λ _ _, Ok 4242) (λ _ _, Ok 4242)
      (λ _ _ _, Ok tt) (λ _ _ _, Ok tt) (Ok []) (Ok []) (λ _, Ok (phys 2)) (λ _, Ok (phys 1)) map_to_list map_to_list
      0 0 0 0 (mkResources true true) (mkResources true true) (started 1 2) (started 2 1) no_order env env' env env
      7 9 (packet 1 2 [42]) (vpn 2) (vpn 1) 6 443 (phys 2) [] (phys 1) (phys 2) (phys 1)
      (AllowOutbound (vpn 2) [] 443 6 0 (ifFw (rest (started 1 2)))).1
      (AllowInbound (vpn 1) [lit "web"; lit "db"] 443 6 0 (ifFw (rest (started 2 1)))).1)
      as (d0 & d1 & d2 & wA1 & wB1 & wA2 & wB2 & H1 & _ & H2 & _ & H3 & _ & H4 & H5).
    + done.
    + done.
    + decided.
    + decided.
    + decided.
    + by vm_compute.
    + by vm_compute.
    + by repeat split; vm_compute.
    + by vm_compute.
    + by vm_compute.
    + by vm_compute.
    + by vm_compute.
    + by vm_compute.
    + apply env_draws.
    + apply env'_draws.
    + reflexivity.
    + reflexivity.
    + exists d0, d1, d2, wA1, wB1, wA2, wB2. auto 10.
Defined.

(** The configuration file of node "a". *)
Definition etc_files (path : bytes) : go bytes :=
  if decide (path = lit "/etc/neth/config.yaml") then Ok (lit "yaml") else fs_read (tFiles disk) path.

Lemma nethd_exit_witness :
  let r := run etc_files (λ _, Ok (node_config 1 2)) etc_entries (λ _ _, Ok 4242) (λ _ _ _, Ok tt) (Ok []) (λ _, Ok (phys 2))
             map_to_list no_order map_to_list (λ _, some_actions) [lit "nethd"] 0 0
             (mkProcess (mkResources false false) [] None None) in
  r.2 = Ok 0 ∧ pResources r.1 = mkResources false false ∧ pLogger r.1 = Some (mkLogger LevelWarn true).
Proof.
  intros r. assert (Hr : r.2 = Ok 0 ∧ pLogger r.1 = Some (mkLogger LevelWarn true)) by (by vm_compute).
  pose proof (nethd_exit etc_files (λ _, Ok (node_config 1 2)) etc_entries (λ _ _, Ok 4242) (λ _ _ _, Ok tt) (Ok []) (λ _, Ok (phys 2))
    map_to_list no_order map_to_list (λ _, some_actions) [lit "nethd"] 0 0
    (mkProcess (mkResources false false) [] None None)) as H.
  split; [exact (proj1 Hr) |]. split; [| exact (proj2 Hr)]. destruct Hr as [Hr _]. unfold r in *.
  destruct (run _ _ _ _ _ _ _ _ _ _ _ _ _ _ _) as [p' res]. cbn in Hr. subst res.
  destruct H as [H1 _]; [done | | done |].
  - intros _. constructor; [done |]. constructor; [done |]. constructor; [decided |]. by repeat constructor.
  - exact H1.
Defined.
