(* ===== verification/ConcurrentWitnesses.v ===== *)
(** * Concrete schedules

    The concurrency theorems applied to nodes over the stand-in libraries of [Toy],
    with schedules that interleave the goroutines' critical sections. *)

From S2P Require Import Tun Udp CertTool Provision Boot.
From S2P Require Import Prelude Bytes Header Net Replay GoText Config Firewall Messages External Cert.
From S2P Require Import NoiseUtil HostMap Handshake HandshakeManager Punchy LightHouse Ipv4 Session Interface DataPlane.
From S2P Require Import EndToEnd Startup Loops Goroutine Mutex Threads Concurrent Guarantee Locks Integrity Race Duplicate Progress Toy Witnesses NetworkWitnesses.

#[export] Instance toy_returns : LibReturns.
Proof.
  split; try done.
  - intros b. cbn. unfold toy_unmarshal_handshake, malformed. repeat case_match; done.
  - intros b. cbn. unfold toy_unmarshal_details, malformed. repeat case_match; done.
  - intros b. cbn. by case_match.
  - intros b. cbn. by destruct (toy_parse b).
  - intros x roots now. cbn. by destruct (_ && existsb _ _).
  - intros b. cbn. repeat case_match; try done.
  - intros b. cbn. by destruct (get [] [] b).
  - intros k. cbn. unfold toy_aes. by case_decide.
  - intros key peer psk hs ent [= <-]. done.
  - intros hs m (key & peer & psk & ent & hs0 & x & H1 & H2). cbn in H1. injection H1 as <-. cbn in H2.
    injection H2 as <- _. cbn. case_decide; [by eexists | done].
  - intros key psk hs m [= <-]. cbn. by case_decide.
  - intros key psk hs m x ent [= <-]. cbn. destruct (decide (m = psk)); [by eexists | done].
Qed.

Abbreviation any_order := (λ m : gmap Addr nat, map_to_list m).
Abbreviation start gs w := (Run_go no_order any_order gs w).

(** All goroutines in turn, [n] times. *)
Definition round_robin (k n : nat) : list nat := concat (repeat (seq 0 k) n).

Lemma runs gs w l : Forall (Forall action_ok) gs → execution no_order any_order gs w (run_schedule l (start gs w)).
Proof. intros H. split_and!; [done | done | apply run_schedule_steps]. Qed.

Lemma node_starting me peer : starting [any_rule] [any_rule] (node me peer).
Proof.
  split; try done; [apply (node_daemon_ok me peer) |]. intros l h Hl. cbn in Hl. by apply lookup_singleton_Some in Hl as [<- <-].
Qed.

(** Two copies of a datagram, two packets of the device and a retry tick at once. *)
Definition busy : list (list action) :=
  [[ActOutside env (wire21 1) (phys 2)]; [ActOutside env (wire21 1) (phys 2)];
   [ActInside env (packet 1 2 [42])]; [ActInside env (packet 1 2 [43])]; [ActRetry env 0]].

Lemma busy_ok : Forall (Forall action_ok) busy.
Proof. repeat constructor; decided. Qed.

Definition busy_end := run_schedule (round_robin 5 9) (start busy (node 1 2)).

Lemma concurrent_daemon_safe_witness :
  threads busy_end = map (λ _, Done (Ok tt)) busy ∧ Daemon_ok (rest (shared busy_end)).
Proof.
  split; [by vm_compute |].
  apply (concurrent_daemon_safe no_order any_order _ _ busy (node 1 2) busy_end (node_starting 1 2)).
  by apply runs, busy_ok.
Defined.

Lemma concurrent_delivery_witness :
  tun_writes (out (shared busy_end)) = [packet 2 1 [42]] ∧ delivered (history busy_end) = [(0%nat, 1)] ∧
  NoDup (delivered (history busy_end)).
Proof.
  split; [by vm_compute |]. split; [by vm_compute |].
  apply (concurrent_delivery no_order any_order _ _ busy (node 1 2) busy_end (node_starting 1 2)).
  by apply runs, busy_ok.
Defined.

Lemma concurrent_nonces_witness :
  sealed 0 (history busy_end) = [1; 2] ∧ NoDup (map CounterNonce (sealed 0 (history busy_end))).
Proof.
  assert (H : sealed 0 (history busy_end) = [1; 2]) by (by vm_compute). split; [exact H |].
  apply (concurrent_nonces no_order any_order _ _ busy (node 1 2) busy_end (node_starting 1 2)).
  - by apply runs, busy_ok.
  - by rewrite H.
Defined.

(** The same with their mutexes, up to a moment when goroutine 0 holds the window of
    the session and goroutine 1, with a copy of the datagram, waits for it. *)
Definition contended := run_lschedule (round_robin 5 4) (Run_mu no_order any_order busy (node 1 2)).

Lemma contended_runs : mutex_execution no_order any_order busy (node 1 2) contended.
Proof. split_and!; [done | apply busy_ok | apply run_lschedule_steps]. Qed.

(** What goroutine [i] is about to do, and whether it may. *)
Definition asks (i : nat) (p : LPool (S := World Daemon) (E := event) (Mu := mutex)) : option (lock_op mutex * bool) :=
  match lthreads p !! i with
  | Some (LOp o _) => Some (o, match call i o (locks p) with Some _ => true | None => false end)
  | _ => None
  end.

Lemma concurrent_deadlock_free_witness :
  writer (locks contended (WindowMu 0)) = Some 0%nat ∧ asks 1 contended = Some (Lock (WindowMu 0), false) ∧
  ∃ p, rtc polite_step contended p ∧ lthreads p = map (λ _, LDone (Ok tt)) busy ∧ ∀ m, locks p m = free_mutex.
Proof.
  split; [by vm_compute |]. split; [by vm_compute |].
  exact (proj2 (proj2 (proj2 (concurrent_deadlock_free no_order any_order _ _ busy (node 1 2) contended
    (node_starting 1 2) contended_runs)))).
Defined.

Lemma concurrent_guarded_witness :
  ∃ q, execution no_order any_order busy (node 1 2) q ∧ shared q = lshared contended ∧ history q = lhistory contended.
Proof. exact (proj2 (concurrent_guarded no_order any_order busy (node 1 2) contended contended_runs)). Defined.

(** Two goroutines, each with a packet of the device and a datagram; the later counter
    comes first. *)
Definition traffic : list (list action) :=
  [[ActInside env (packet 1 2 [42]); ActOutside env (wire21 2) (phys 2)];
   [ActRetry env 0; ActOutside env (wire21 1) (phys 2); ActInside env (packet 1 2 [43])]].

Lemma traffic_ok : Forall (Forall action_ok) traffic.
Proof. repeat constructor; decided. Qed.

Definition traffic_end := run_schedule (round_robin 2 20) (start traffic (node 1 2)).

Lemma traffic_presents : flat_map (flat_map (presented (node 1 2))) traffic = [(0%nat, 2); (0%nat, 1)].
Proof. by vm_compute. Qed.

Lemma counters_close (l : nat) (c c' : Z) :
  (l, c) ∈ [(0%nat, 2); (0%nat, 1)] → (l, c') ∈ [(0%nat, 2); (0%nat, 1)] → c' - c < replayWindowSize.
Proof. rewrite !elem_of_cons, !elem_of_nil. unfold replayWindowSize. intros [[=]|[[=]|[]]] [[=]|[[=]|[]]]; lia. Qed.

Lemma concurrent_completeness_witness :
  ∃ did, events 1 (history traffic_end) = did ∧ [(0%nat, packet 1 2 [43])] `sublist_of` sent_packets did ∧
    [(0%nat, 1, packet 2 1 [42])] `sublist_of` deliveries did.
Proof.
  assert (Hs : flat_map (to_send (node 1 2)) (traffic !!! 1%nat) = [(0%nat, packet 1 2 [43])]) by (by vm_compute).
  assert (Hd : flat_map (to_deliver (node 1 2)) (traffic !!! 1%nat) = [(0%nat, 1, packet 2 1 [42])]) by (by vm_compute).
  assert (Ht : threads traffic_end !! 1%nat = Some (Done (Ok tt))) by (by vm_compute).
  destruct (concurrent_completeness no_order any_order _ _ traffic (node 1 2) traffic_end (node_starting 1 2)
    (runs _ _ _ traffic_ok)) with (i := 1%nat) (g := traffic !!! 1%nat) (r := @Ok unit tt) as (H1 & _ & H2 & _).
  - repeat constructor; by vm_compute.
  - rewrite traffic_presents. apply (bool_decide_unpack _). by vm_compute.
  - rewrite traffic_presents. exact counters_close.
  - done.
  - exact Ht.
  - eexists. split; [reflexivity |]. rewrite Hs in H1. rewrite Hd in H2. split; [exact H1 | exact H2].
Defined.

(** ** A handshake *)

Definition sent_data (o : Output) : bytes := match o with UDPSend d _ => d | TUNWrite _ => [] end.

(** The initiation of node 1 and the answer of node 2. *)
Definition hello : bytes :=
  sent_data (nth 0 (out (consumeInsidePacket env (packet 1 2 [42]) (fresh_node 1 2)).1) (TUNWrite [])).
Definition answer : bytes :=
  sent_data (nth 0 (out (consumeOutsidePacket no_order env' hello (phys 1) (fresh_node 2 1)).1) (TUNWrite [])).

Lemma fresh_starting me peer : starting [any_rule] [any_rule] (fresh_node me peer).
Proof. by split. Qed.

(** Two copies of the answer arrive together. *)
Definition double : list (list action) :=
  [[ActInside env (packet 1 2 [42])]; [ActOutside env answer (phys 2)]; [ActOutside env answer (phys 2)]].

Lemma answer_ok : bytes_ok answer.
Proof. decided. Qed.

Lemma double_ok : Forall (Forall action_ok) double.
Proof.
  assert (H : Forall action_ok [ActOutside env answer (phys 2)]) by (constructor; [exact answer_ok | constructor]).
  constructor; [constructor; [exact Logic.I | constructor] |]. constructor; [exact H |]. constructor; [exact H | constructor].
Qed.

Definition double_end := run_schedule (replicate 9 0%nat ++ round_robin 3 20) (start double (fresh_node 1 2)).

Lemma concurrent_claims_witness :
  length (claims (history double_end)) = 1%nat ∧ threads double_end = map (λ _, Done (Ok tt)) double ∧
  NoDup (claims (history double_end)).
Proof.
  split; [by vm_compute |]. split; [by vm_compute |].
  apply (concurrent_claims no_order any_order _ _ double (fresh_node 1 2) double_end (fresh_starting 1 2)).
  by apply runs, double_ok.
Defined.

(** ** The lost packet *)

Lemma first_packet_race_witness :
  ∃ d0 d1 p l,
    rtc pool_step (Run_go no_order any_order
      [[ActInside env (packet 1 2 [42])]; [ActOutside env d1 (phys 2)]] (fresh_node 1 2)) p ∧
    threads p = [Done (Ok tt); Done (Ok tt)] ∧
    GetByVpnIP (vpn 2) (ifHostMap (rest (shared p))) = Some l ∧ out (shared p) = [UDPSend d0 (phys 2)].
Proof.
  destruct (first_packet_race no_order any_order (fresh_node 1 2) (fresh_node 2 1) (node_cert 1) (node_cert 2) env env' env
    7 9 (packet 1 2 [42]) (vpn 2) 6 443 (phys 2) [] (phys 1) (phys 2) (tracked (vpn 2)))
    as (d0 & d1 & wB1 & p & l & _ & _ & Hrun & Ht & Hl & _ & Ho).
  - split; try done; (split; [by vm_compute | decided]).
  - by repeat split; vm_compute.
  - done.
  - done.
  - by vm_compute.
  - by vm_compute.
  - by vm_compute.
  - apply env_draws.
  - apply env'_draws.
  - done.
  - done.
  - exists d0, d1, p, l. split_and!; [exact Hrun | exact Ht | exact Hl | exact Ho].
Defined.

(** ** The tunnel *)

(** Node 2 sends two packets at once; node 1 gets one of them twice and a header
    with nothing behind it. *)
Definition senders : list (list action) :=
  [[ActInside env (packet 2 1 [42])]; [ActInside env (packet 2 1 [43])]].
Definition junk : bytes := Bytes (mkHeader Version TypeMessage 0 1 9).
Definition receivers : list (list action) :=
  [[ActOutside env (wire21 1) (phys 2)]; [ActOutside env junk (phys 3); ActOutside env (wire21 1) (phys 3)]].

Definition sent_end := run_schedule (round_robin 2 12) (start senders (node 2 1)).
Definition recv_end := run_schedule (round_robin 2 20) (start receivers (node 1 2)).

Lemma receivers_ok : Forall (Forall action_ok) receivers.
Proof. repeat constructor; decided. Qed.

Lemma senders_hosts : ifHosts (rest (shared sent_end)) = {[0%nat := set_Counter 2 (session 2 1)]}.
Proof. by vm_compute. Qed.

Lemma senders_only l h : ifHosts (rest (shared sent_end)) !! l = Some h → l = 0%nat.
Proof. rewrite senders_hosts. intros [H _]%lookup_singleton_Some. exact (eq_sym H). Qed.

Lemma junk_forged : forged (replicate 32 2) junk.
Proof.
  intros n. change (drop HeaderLen junk) with (@nil Z). cbn [Open toy_crypto]. unfold toy_open. rewrite take_nil. by case_decide.
Qed.

Lemma receivers_arrive d : arrives receivers d → d = wire21 1 ∨ d = junk.
Proof.
  intros (g & e & from & Hg & Ha). unfold receivers in Hg. rewrite !elem_of_cons, elem_of_nil in Hg.
  destruct Hg as [-> | [-> | []]]; rewrite !elem_of_cons, elem_of_nil in Ha; naive_solver.
Qed.

Lemma tunnel_integrity_witness :
  delivered_on 0 (history recv_end) = [(1, packet 2 1 [42])] ∧
  delivered_on 0 (history recv_end) ⊆+ sealed_on 0 (history sent_end).
Proof.
  split; [by vm_compute |].
  assert (Hsent : UDPSend (wire21 1) (phys 1) ∈ out (shared sent_end)).
  { assert (out (shared sent_end) !! 0%nat = Some (UDPSend (wire21 1) (phys 1))) by (by vm_compute).
    by eapply list_elem_of_lookup_2. }
  assert (Hex : is_Some (ifHosts (rest (shared recv_end)) !! 0%nat) ∧
    option_map RecvCipher (ifHosts (rest (shared recv_end)) !! 0%nat) = Some (replicate 32 2)).
  { split; [apply (bool_decide_unpack _) |]; by vm_compute. }
  destruct Hex as [[hB HB] Hk]. rewrite HB in Hk. injection Hk as Hk.
  refine (proj1 (tunnel_integrity no_order any_order no_order any_order [any_rule] [any_rule] [any_rule] [any_rule]
    senders receivers (node 2 1) (node 1 2) sent_end recv_end 0 0 (set_Counter 2 (session 2 1)) hB
    (node_starting 2 1) _ (node_starting 1 2) _ _ HB _ _ _)).
  - apply runs. by repeat constructor.
  - by apply runs, receivers_ok.
  - by rewrite senders_hosts.
  - by rewrite Hk.
  - intros l h Hl Hne. destruct (Hne (senders_only l h Hl)).
  - intros d [-> | ->]%receivers_arrive; [left; by exists (phys 1) | right; rewrite Hk; apply junk_forged].
Defined.

(** ** From the files to the goroutines *)

(** A kernel that grants every request, with descriptor 7 for the socket. *)
Definition kind : UdpKernel :=
  mkUdpKernel (λ _, inr (mkUDPAddr [0; 0; 0; 0] 4242 [])) (inr 7) None (λ _ _ _ _, None) (λ _ a, inr a).

Definition booted : Sys * go (World Daemon * Conn) :=
  NewInterface_sys (fs_read (tFiles disk)) etc_entries (Ok []) (λ _, Ok (phys 2)) map_to_list kind false None None
    (λ _ ifr, inr ifr) (node_config 1 2) 0 0 sys0.

Definition booted_daemon : World Daemon := match booted.2 with Ok (w, _) => w | _ => fresh_node 1 2 end.

Lemma boot_ok : open_fds (sysCalls booted.1) = [7] ∧ is_Some (match booted.2 with Ok x => Some x | _ => None end).
Proof. split; [by vm_compute |]. apply (bool_decide_unpack _). by vm_compute. Qed.

Lemma disk_returns : os_returns (fs_read (tFiles disk)) etc_entries (λ _, Ok (phys 2)).
Proof. split; [| done | done]. intros path. cbn [fs_read toy_fs]. by destruct (tFiles disk !! _) as [[]|]. Qed.

Definition first_actions : list (list action) := [[ActInside env (packet 1 2 [42])]; [ActRetry env 0]].

Definition booted_end := run_schedule (round_robin 2 20) (start first_actions booted_daemon).

Lemma daemon_lifecycle_witness :
  threads booted_end = map (λ _, Done (Ok tt)) first_actions ∧ Daemon_ok (rest (shared booted_end)).
Proof.
  split; [by vm_compute |].
  pose proof (daemon_lifecycle (fs_read (tFiles disk)) etc_entries (Ok []) (λ _, Ok (phys 2)) map_to_list
    no_order any_order kind false None None (λ _ ifr, inr ifr) (node_config 1 2) 0 0 first_actions disk_returns) as H.
  specialize (H (λ m, reflexivity _) ltac:(by repeat constructor)).
  destruct boot_ok as [_ Hok]. fold booted in H. unfold booted_end, booted_daemon.
  destruct booted as [s [[w conn]|e|]]; [| by destruct Hok | by destruct Hok].
  destruct H as (_ & _ & _ & Hsafe). apply Hsafe, run_schedule_steps.
Defined.

(** ** An initiation that arrives twice *)

(** Keys of the same length that differ. *)
Lemma toy_separate (k a : bytes) : length k = length a → k ≠ a → separate k a.
Proof.
  intros Hlen Hne n n' p ad ad'. cbn [Open Seal toy_crypto]. unfold toy_open, toy_seal. case_decide as H; [| done].
  destruct Hne. apply (f_equal (take (length k))) in H. rewrite take_take, take_app_length in H.
  rewrite <- !app_assoc, length_app, Nat.min_l, take_app_length' in H by (rewrite ?Hlen; lia). done.
Qed.

(** The second answer comes from other random bytes, and the copy from node 3. *)
Definition env2 : Env := mkEnv 0 0 0 0 (inr [11; 0; 0; 0]) [5] (λ _ _, None) (λ _, None).

Definition b1 : World Daemon := (consumeOutsidePacket no_order env' hello (phys 1) (fresh_node 2 1)).1.
Definition b2 : World Daemon := (consumeOutsidePacket no_order env2 hello (phys 3) b1).1.
Definition a1 : World Daemon := (consumeInsidePacket env (packet 1 2 [42]) (fresh_node 1 2)).1.
Definition a2 : World Daemon := (consumeOutsidePacket no_order env answer (phys 2) a1).1.

Definition key_at {A} (f : HostInfo → A) (ip : Addr) (w : World Daemon) : option A :=
  l ← GetByVpnIP ip (ifHostMap (rest w)); h ← ifHosts (rest w) !! l; Some (f h).

Definition different_keys (k a : option bytes) : bool :=
  match k, a with Some k, Some a => bool_decide (length k = length a ∧ k ≠ a) | _, _ => false end.

Lemma keys_differ : different_keys (key_at RecvCipher (vpn 2) a2) (key_at SendCipher (vpn 1) b2) = true.
Proof. by vm_compute. Qed.

Lemma key_at_Some {A} (f : HostInfo → A) ip w l h :
  GetByVpnIP ip (ifHostMap (rest w)) = Some l → ifHosts (rest w) !! l = Some h → key_at f ip w = Some (f h).
Proof. intros H1 H2. unfold key_at. rewrite H1. cbn. by rewrite H2. Qed.

Lemma different_separate (k a : bytes) : different_keys (Some k) (Some a) = true → separate k a.
Proof. intros [H1 H2]%bool_decide_eq_true. by apply toy_separate. Qed.

Lemma env2_draws : draws_index env2 11.
Proof. exists [11; 0; 0; 0]. split_and!; try done. decided. Qed.

Lemma node_ip : pIP (cVpnIP (node_cert 1)) = vpn 1.
Proof. by vm_compute. Qed.

(** The sessions the two nodes have for each other. *)
Lemma sessions_separate l hA l' hB :
  GetByVpnIP (vpn 2) (ifHostMap (rest a2)) = Some l → ifHosts (rest a2) !! l = Some hA →
  GetByVpnIP (pIP (cVpnIP (node_cert 1))) (ifHostMap (rest b2)) = Some l' → ifHosts (rest b2) !! l' = Some hB →
  separate (RecvCipher hA) (SendCipher hB).
Proof.
  intros HgA HhA HgB HhB. rewrite node_ip in HgB. pose proof keys_differ as Hk.
  rewrite (key_at_Some RecvCipher _ _ _ _ HgA HhA), (key_at_Some SendCipher _ _ _ _ HgB HhB) in Hk.
  exact (different_separate _ _ Hk).
Qed.

Lemma sent_last (w w' : World Daemon) d t : out w' = out w ++ [UDPSend d t] → out w = [] → sent_data (nth 0 (out w') (TUNWrite [])) = d.
Proof. intros -> ->. done. Qed.

Lemma repeated_initiation_witness :
  ∃ d3 b3 a3, consumeInsidePacket env (packet 2 1 [43]) b2 = (b3, Ok tt) ∧ out b3 = out b2 ++ [UDPSend d3 (phys 3)] ∧
    consumeOutsidePacket no_order env d3 (phys 2) a2 = (a3, Ok tt) ∧ out a3 = out a2.
Proof.
  destruct (repeated_initiation no_order (fresh_node 1 2) (fresh_node 2 1) (node_cert 1) (node_cert 2)
    env env' env2 env env env env 7 9 11 (packet 1 2 [42]) (vpn 2) 6 443 (phys 2) [] (phys 1) (phys 3)
    (phys 2) (phys 2) (phys 2) (tracked (vpn 2)) (packet 2 1 [43]) 6 443 (tracked (vpn 1)))
    as (d0 & d1 & d1' & d2 & d3 & wA1 & wB1 & wB2 & wA2 & wB3 & l & hA & l' & hB & HA1 & HoA1 & HB1 & HoB1 & HB2 & _ &
        HA2 & _ & _ & HgA & HhA & HgB & HhB & _ & HB3 & HoB3 & Hlost).
  - apply fresh_daemon_ok.
  - apply fresh_daemon_ok.
  - split; try done; (split; [by vm_compute | decided]).
  - by vm_compute.
  - by repeat split; vm_compute.
  - done.
  - done.
  - by vm_compute.
  - by vm_compute.
  - by vm_compute.
  - apply env_draws.
  - apply env'_draws.
  - apply env2_draws.
  - done.
  - done.
  - done.
  - by repeat split; vm_compute.
  - by vm_compute.
  - pose proof (f_equal fst HA1 : a1 = wA1) as Ea1. subst wA1.
    pose proof (sent_last _ _ _ _ HoA1 eq_refl : hello = d0) as Ed0. subst d0.
    pose proof (f_equal fst HB1 : b1 = wB1) as Eb1. subst wB1.
    pose proof (sent_last _ _ _ _ HoB1 eq_refl : answer = d1) as Ed1. subst d1.
    pose proof (f_equal fst HB2 : b2 = wB2) as Eb2. subst wB2.
    pose proof (f_equal fst HA2 : a2 = wA2) as Ea2. subst wA2.
    destruct (Hlost (sessions_separate _ _ _ _ HgA HhA HgB HhB)) as (a3 & Ha3 & Hoa3).
    exists d3, wB3, a3. exact (conj HB3 (conj HoB3 (conj Ha3 Hoa3))).
Defined.
